(** * A shallow embedding of the x86kernel virtual-memory, scheduler,
      lifecycle and lock code, and the properties its design document
      states about them.

    Integers of the C source are [Z] with the wrap-around of their width
    written out; pointers into kernel objects are keys of finite maps;
    [NULL] is [None] (or the word 0 where the source stores the pointer
    in a page-table word). *)

From stdpp Require Import base numbers option list gmap sorting.

Open Scope Z_scope.

(** ** Outcomes of kernel code

    A kernel function returns, halts the kernel ([kernel_panic]), kills
    the running thread ([panic]), or steps outside what C defines (a
    dereference of [NULL] or of a freed object, an index outside an
    array). *)
Inductive outcome (A : Type) : Type :=
| Ret (a : A)
| KernelPanic
| ThreadPanic
| Undefined.

Arguments Ret {A} a.
Arguments KernelPanic {A}.
Arguments ThreadPanic {A}.
Arguments Undefined {A}.

#[global] Instance outcome_bind : MBind outcome := λ A B f m,
  match m with
  | Ret a => f a
  | KernelPanic => KernelPanic
  | ThreadPanic => ThreadPanic
  | Undefined => Undefined
  end.

#[global] Instance outcome_ret : MRet outcome := λ A a, Ret a.

(** A dereference: [None] is a pointer to nothing. *)
Definition deref {A} (o : option A) : outcome A :=
  match o with Some a => Ret a | None => Undefined end.

(** ** Machine words *)

Definition u32 (z : Z) : Z := z `mod` 4294967296.
Definition u8 (z : Z) : Z := z `mod` 256.

(** An array indexed by a C integer: outside [0, length) there is no cell. *)
Definition zlookup {A} (l : list A) (i : Z) : option A :=
  if decide (0 ≤ i) then l !! Z.to_nat i else None.

Definition zupdate {A} (l : list A) (i : Z) (x : A) : list A :=
  if decide (0 ≤ i) then <[Z.to_nat i := x]> l else l.

(** ** errors.h *)

Definition ERR_ARG_NULL : Z := -2.
Definition ERR_INVALID_TID : Z := -3.
Definition ERR_THR_IN_LIST : Z := -10.
Definition ERR_SELF_NULL : Z := -6.
Definition ERR_NEGATIVE_SLEEP : Z := -8.
Definition ERR_MALLOC_FAIL : Z := -12.
Definition ERR_NO_FRAMES : Z := -30.
Definition ERR_KERNEL_FRAME : Z := -33.
Definition ERR_INVALID_ARG : Z := -34.
Definition ERR_FREE_OWNERLESS_FRAME : Z := -35.
Definition ERR_TOO_MANY_FRAME_OWNERS : Z := -36.
Definition ERR_PAGE_ALREADY_PRESENT : Z := -37.
Definition ERR_DIRECTORY_NOT_PRESENT : Z := -38.
Definition ERR_KERNEL_PAGE : Z := -39.
Definition ERR_PAGE_NOT_PRESENT : Z := -40.
Definition ERR_WORN_OUT_NEW_PAGES : Z := -41.

(** ** Constants of headers the repository includes but does not hold *)

(** Modelled from the spec: [PAGE_SIZE] of <x86/page.h>, which is not
    among the sources.  The spec's ZFOD scenario allocates one page with
    [new_pages(0x20000000, 4096)], and page.h shifts page numbers by 12
    and masks offsets with 0xFFF. *)
Definition PAGE_SIZE : Z := 4096.

(** [USER_MEM_START] of <common_kern.h> is not among the sources either
    and the spec gives no value for it: it stays a parameter. *)
Class Platform := { USER_MEM_START : Z }.

(** ** page_types.h *)

Inductive mem_type_t :=
| MEM_TYPE_TEXT
| MEM_TYPE_RODATA
| MEM_TYPE_DATA
| MEM_TYPE_BSS
| MEM_TYPE_HEAP
| MEM_TYPE_STACK
| MEM_TYPE_USER.

#[global] Instance mem_type_eq_dec : EqDecision mem_type_t.
Proof. solve_decision. Defined.

Definition PDE_PRESENT : Z := Z.shiftl 1 0.
Definition PDE_READWRITE : Z := Z.shiftl 1 1.
Definition PDE_USER : Z := Z.shiftl 1 2.
Definition PDE_KERNEL : Z := Z.shiftl 1 9.

Definition PTE_PRESENT : Z := Z.shiftl 1 0.
Definition PTE_READWRITE : Z := Z.shiftl 1 1.
Definition PTE_USER : Z := Z.shiftl 1 2.
Definition PTE_GLOBAL : Z := Z.shiftl 1 8.
Definition PTE_ZEROPAGE : Z := Z.shiftl 1 9.
Definition PTE_COPYONWRITE : Z := Z.shiftl 1 10.

(** ** page.h *)

Definition ADDR_MASK : Z := 0xFFFFF000.
Definition FLAGS_MASK : Z := 0xFFF.
Definition DIR_MASK : Z := 0xFFC00000.
Definition PAGE_MASK : Z := 0x003FF000.

(** [sizeof(pte_t)] is 4. *)
Definition PAGE_TABLE_ENTRIES : Z := PAGE_SIZE / 4.

Definition PE_SETFLAG (pe flag : Z) : Z := Z.lor pe flag.
Definition PE_UNSETFLAG (pe flag : Z) : Z := Z.land pe (Z.lnot flag).
Definition PE_GETFLAG (pe flag : Z) : bool :=
  negb (Z.land (Z.land pe FLAGS_MASK) flag =? 0).
Definition PE_SETADDR (pe addr : Z) : Z :=
  Z.lor (Z.land addr ADDR_MASK) (Z.land pe FLAGS_MASK).
Definition PE_GETADDR (pe : Z) : Z := Z.land pe ADDR_MASK.
Definition PDE_OFFSET (va : Z) : Z := Z.shiftr (Z.land va DIR_MASK) 22.
Definition PAGE_ADDR (va : Z) : Z := Z.land va ADDR_MASK.
Definition PTE_OFFSET (va : Z) : Z := Z.shiftr (Z.land va PAGE_MASK) 12.

Section FrameMacros.
Context `{Platform}.

Definition FRAME_ID (pa : Z) : Z :=
  if decide (pa < USER_MEM_START) then -1
  else Z.shiftr (pa - USER_MEM_START) 12.

Definition FRAME_ADDR (id : Z) : Z := u32 (Z.shiftl id 12 + USER_MEM_START).
End FrameMacros.

(** ** vm/frame.c: the frame allocator

    [frames] is the table of one-byte counters, [nb_frames] its length
    (the source allocates it with [calloc(nb_frames, 1)]), and
    [next_available_frame] the index of a frame nobody holds, [-1] when
    there is none.  [fa_mutex] is taken around every body below; the
    model runs each body in one step. *)
Record frame_table := {
  frames : list Z;
  next_available_frame : Z;
}.

Definition nb_frames (ft : frame_table) : Z := Z.of_nat (length (frames ft)).

(** The search of [_get_frame] for the next free frame: [n] iterations
    are left, [f] is the candidate. *)
Fixpoint find_available (fr : list Z) (n : nat) (f : Z) : outcome (option Z) :=
  match n with
  | O => Ret None
  | S n' =>
      c ← deref (zlookup fr f);
      if decide (c = 0) then Ret (Some f)
      else find_available fr n' ((f + 1) `mod` Z.of_nat (length fr))
  end.

Section FrameAllocator.
Context `{Platform}.

Definition _get_frame (frame : Z) (ft : frame_table) : outcome (Z * frame_table) :=
  if decide (frame `mod` PAGE_SIZE ≠ 0) then Ret (-1, ft)
  else if decide (FRAME_ID frame = -1) then Ret (ERR_KERNEL_FRAME, ft)
  else
    c ← deref (zlookup (frames ft) (FRAME_ID frame));
    if decide (c = u8 (-1)) then Ret (ERR_TOO_MANY_FRAME_OWNERS, ft)
    else
      let fr := zupdate (frames ft) (FRAME_ID frame) (u8 (c + 1)) in
      if decide (FRAME_ID frame = next_available_frame ft) then
        found ← find_available fr (length fr) (next_available_frame ft);
        Ret (0, {| frames := fr;
                   next_available_frame := default (-1) found |})
      else Ret (0, {| frames := fr;
                      next_available_frame := next_available_frame ft |}).

Definition get_frame (frame : Z) (ft : frame_table) : outcome (Z * frame_table) :=
  _get_frame frame ft.

(** The result is the frame's address, [0] for [NULL]. *)
Definition _allocate_frame (ft : frame_table) : outcome (Z * frame_table) :=
  if decide (next_available_frame ft = -1) then Ret (0, ft)
  else
    let frame := FRAME_ADDR (next_available_frame ft) in
    '(err, ft') ← _get_frame frame ft;
    if decide (err ≠ 0) then KernelPanic else Ret (frame, ft').

Definition allocate_frame (ft : frame_table) : outcome (Z * frame_table) :=
  _allocate_frame ft.

Definition free_frame (frame : Z) (ft : frame_table) : outcome (Z * frame_table) :=
  if decide (frame `mod` PAGE_SIZE ≠ 0) then Ret (-1, ft)
  else if decide (FRAME_ID frame = -1) then Ret (ERR_KERNEL_FRAME, ft)
  else
    c ← deref (zlookup (frames ft) (FRAME_ID frame));
    if decide (c = 0) then Ret (ERR_FREE_OWNERLESS_FRAME, ft)
    else
      let fr := zupdate (frames ft) (FRAME_ID frame) (u8 (c - 1)) in
      if decide (u8 (c - 1) = 0 ∧ next_available_frame ft = -1) then
        Ret (0, {| frames := fr; next_available_frame := FRAME_ID frame |})
      else
        Ret (0, {| frames := fr;
                   next_available_frame := next_available_frame ft |}).
End FrameAllocator.

(** ** vm/page.c: page directories, page tables and the fault handler

    [ptmem] holds the page-sized kernel objects that are page
    directories and page tables, by address, each an array of
    [PAGE_TABLE_ENTRIES] words.  [framedata] holds the contents of
    physical pages by address (a page nobody wrote reads as the empty
    list of bytes); the model keeps it apart from [ptmem], as user
    frames lie at [USER_MEM_START] and above and kernel objects below.
    [kheap] lists the results of the coming
    [smemalign(PAGE_SIZE, PAGE_SIZE)] calls, [0] for [NULL]; when it is
    exhausted the allocator returns [NULL]. *)
Record vm_state := {
  ft : frame_table;
  ptmem : gmap Z (list Z);
  cr3 : Z;
  zero_frame : Z;
  framedata : gmap Z (list Z);
  cow_buffer : list Z;
  kheap : list Z;
}.

Definition set_ft (vm : vm_state) (x : frame_table) : vm_state :=
  {| ft := x; ptmem := ptmem vm; cr3 := cr3 vm; zero_frame := zero_frame vm;
     framedata := framedata vm; cow_buffer := cow_buffer vm; kheap := kheap vm |}.

Definition set_ptmem (vm : vm_state) (x : gmap Z (list Z)) : vm_state :=
  {| ft := ft vm; ptmem := x; cr3 := cr3 vm; zero_frame := zero_frame vm;
     framedata := framedata vm; cow_buffer := cow_buffer vm; kheap := kheap vm |}.

Definition set_framedata (vm : vm_state) (x : gmap Z (list Z)) : vm_state :=
  {| ft := ft vm; ptmem := ptmem vm; cr3 := cr3 vm; zero_frame := zero_frame vm;
     framedata := x; cow_buffer := cow_buffer vm; kheap := kheap vm |}.

Definition set_cow_buffer (vm : vm_state) (x : list Z) : vm_state :=
  {| ft := ft vm; ptmem := ptmem vm; cr3 := cr3 vm; zero_frame := zero_frame vm;
     framedata := framedata vm; cow_buffer := x; kheap := kheap vm |}.

Definition set_kheap (vm : vm_state) (x : list Z) : vm_state :=
  {| ft := ft vm; ptmem := ptmem vm; cr3 := cr3 vm; zero_frame := zero_frame vm;
     framedata := framedata vm; cow_buffer := cow_buffer vm; kheap := x |}.

(** [smemalign(PAGE_SIZE, PAGE_SIZE)] *)
Definition smemalign_page (vm : vm_state) : Z * vm_state :=
  match kheap vm with
  | [] => (0, vm)
  | a :: rest => (a, set_kheap vm rest)
  end.

(** A pointer to a page-table or page-directory entry: the table's
    address and the index in it. *)
Definition pe_ptr : Type := Z * Z.

Definition read_pe (p : pe_ptr) (vm : vm_state) : outcome Z :=
  t ← deref (ptmem vm !! p.1);
  deref (zlookup t p.2).

Definition write_pe (p : pe_ptr) (w : Z) (vm : vm_state) : outcome vm_state :=
  t ← deref (ptmem vm !! p.1);
  _ ← deref (zlookup t p.2);
  Ret (set_ptmem vm (<[p.1 := zupdate t p.2 w]> (ptmem vm))).

Definition zero_page : list Z := replicate (Z.to_nat PAGE_SIZE) 0.
Definition zero_table : list Z := replicate (Z.to_nat PAGE_TABLE_ENTRIES) 0.

Definition page_contents (vm : vm_state) (pa : Z) : list Z :=
  default [] (framedata vm !! pa).

Definition get_pde (va : Z) (dir : Z) : pe_ptr := (dir, PDE_OFFSET va).

Definition get_pte (va : Z) (dir : Z) (vm : vm_state) : outcome (option pe_ptr) :=
  pde ← read_pe (get_pde va dir) vm;
  if PE_GETFLAG pde PDE_PRESENT
  then Ret (Some (PE_GETADDR pde, PTE_OFFSET va))
  else Ret None.

(** The kinds the switch of [create_page] makes writable. *)
Definition read_write_type (type : mem_type_t) : bool :=
  match type with
  | MEM_TYPE_TEXT | MEM_TYPE_RODATA => false
  | MEM_TYPE_DATA | MEM_TYPE_HEAP | MEM_TYPE_STACK
  | MEM_TYPE_BSS | MEM_TYPE_USER => true
  end.

Section Paging.
Context `{Platform}.

(** The tail of [create_page], from "Create the page table entry" on:
    [pte] is where the entry goes, and [entry_word w] is what the
    assignments make of the word [w] found there. *)
Definition entry_word (w : Z) (type : mem_type_t)
    (ref_frame new_frame zero_frame : Z) : Z :=
  let w := PE_SETFLAG w PTE_PRESENT in
  let w := PE_SETFLAG w PTE_USER in
  let w :=
    if decide (type = MEM_TYPE_BSS) then
      PE_SETADDR (PE_SETFLAG w PTE_ZEROPAGE) zero_frame
    else if decide (ref_frame ≠ 0) then
      PE_SETADDR (PE_SETFLAG w PTE_COPYONWRITE) ref_frame
    else PE_SETADDR w new_frame in
  if read_write_type type then PE_SETFLAG w PTE_READWRITE else w.

Definition create_page_entry (pte : pe_ptr) (type : mem_type_t)
    (ref_frame new_frame : Z) (vm : vm_state) : outcome (Z * vm_state) :=
  w ← read_pe pte vm;
  vm' ← write_pe pte (entry_word w type ref_frame new_frame (zero_frame vm)) vm;
  Ret (0, vm').

(** [free_frame(new_frame)] on the two error paths of [create_page]. *)
Definition create_page_undo (new_frame : Z) (err : Z) (vm : vm_state)
    : outcome (Z * vm_state) :=
  '(e, ft') ← free_frame new_frame (ft vm);
  if decide (e ≠ 0) then ThreadPanic else Ret (err, set_ft vm ft').

Definition create_page (va : Z) (type : mem_type_t) (ref_frame : Z)
    (vm : vm_state) : outcome (Z * vm_state) :=
  if decide (va `mod` PAGE_SIZE ≠ 0) then Ret (ERR_INVALID_ARG, vm)
  else if decide (va < USER_MEM_START) then Ret (ERR_INVALID_ARG, vm)
  else if decide (ref_frame ≠ 0 ∧ ref_frame `mod` PAGE_SIZE ≠ 0)
  then Ret (ERR_INVALID_ARG, vm)
  else if decide (ref_frame ≠ 0 ∧ ref_frame < USER_MEM_START)
  then Ret (ERR_INVALID_ARG, vm)
  else
    '(new_frame, ft1) ←
      (if decide (type ≠ MEM_TYPE_BSS ∧ ref_frame = 0)
       then allocate_frame (ft vm) else Ret (0, ft vm));
    if decide (type ≠ MEM_TYPE_BSS ∧ ref_frame = 0 ∧ new_frame = 0)
    then Ret (ERR_NO_FRAMES, vm)
    else
      let vm := set_ft vm ft1 in
      pte ← get_pte va (cr3 vm) vm;
      match pte with
      | None =>
          let pde := get_pde va (cr3 vm) in
          let '(pt, vm) := smemalign_page vm in
          if decide (pt = 0) then create_page_undo new_frame ERR_MALLOC_FAIL vm
          else
            let vm := set_ptmem vm (<[pt := zero_table]> (ptmem vm)) in
            d ← read_pe pde vm;
            let d := PE_SETFLAG d PDE_PRESENT in
            let d := PE_SETFLAG d PDE_READWRITE in
            let d := PE_SETFLAG d PDE_USER in
            let d := PE_SETADDR d pt in
            vm ← write_pe pde d vm;
            create_page_entry (pt, PTE_OFFSET va) type ref_frame new_frame vm
      | Some pte =>
          w ← read_pe pte vm;
          if PE_GETFLAG w PTE_PRESENT
          then create_page_undo new_frame ERR_PAGE_ALREADY_PRESENT vm
          else create_page_entry pte type ref_frame new_frame vm
      end.

Definition destroy_page (va : Z) (vm : vm_state) : outcome (Z * vm_state) :=
  if decide (va `mod` PAGE_SIZE ≠ 0) then Ret (ERR_INVALID_ARG, vm)
  else if decide (cr3 vm = 0) then ThreadPanic
  else
    pte ← get_pte va (cr3 vm) vm;
    match pte with
    | None => Ret (ERR_DIRECTORY_NOT_PRESENT, vm)
    | Some pte =>
        w ← read_pe pte vm;
        if negb (PE_GETFLAG w PTE_PRESENT) then Ret (ERR_PAGE_NOT_PRESENT, vm)
        else if PE_GETFLAG w PTE_GLOBAL then Ret (ERR_KERNEL_PAGE, vm)
        else if negb (PE_GETFLAG w PTE_USER) then Ret (ERR_KERNEL_PAGE, vm)
        else
          let frame := PE_GETADDR w in
          vm ← write_pe pte 0 vm;
          '(err, ft') ← free_frame frame (ft vm);
          if decide (err ≠ 0) then ThreadPanic else Ret (0, set_ft vm ft')
    end.

(** frame.c, [copy_on_write].  The two [memcpy] calls go through the
    mapping of [page_addr]: the first reads the old frame, the second,
    after the entry was retargeted, writes the new one. *)
Definition copy_on_write (page_addr : Z) (vm : vm_state) : outcome (Z * vm_state) :=
  if decide (page_addr `mod` PAGE_SIZE ≠ 0) then Ret (-1, vm)
  else
    pte ← get_pte page_addr (cr3 vm) vm;
    match pte with
    | None => ThreadPanic
    | Some pte =>
        w ← read_pe pte vm;
        let old_frame := PE_GETADDR w in
        let old_frame_id := FRAME_ID old_frame in
        c ← deref (zlookup (frames (ft vm)) old_frame_id);
        if decide (c = 1) then Ret (0, vm)
        else if decide (c = 0) then Ret (ERR_FREE_OWNERLESS_FRAME, vm)
        else
          '(new_frame, ft1) ← _allocate_frame (ft vm);
          if decide (new_frame = 0) then Ret (ERR_NO_FRAMES, vm)
          else
            let vm := set_ft vm ft1 in
            let vm := set_cow_buffer vm (page_contents vm old_frame) in
            w ← read_pe pte vm;
            vm ← write_pe pte (PE_SETADDR w new_frame) vm;
            w ← read_pe pte vm;
            let vm := set_framedata vm
                        (<[PE_GETADDR w := cow_buffer vm]> (framedata vm)) in
            c ← deref (zlookup (frames (ft vm)) old_frame_id);
            let vm := set_ft vm
                        {| frames := zupdate (frames (ft vm)) old_frame_id (u8 (c - 1));
                           next_available_frame := next_available_frame (ft vm) |} in
            Ret (0, vm)
    end.

(** What [_page_fault_handler] does with a fault: it returns, and the
    faulting instruction is run again, or control reaches the tail of
    the handler, which hands the fault to the thread's swexn handler
    or kills the thread; the tail itself is not modelled. *)
Inductive fault_result := PF_RESUME | PF_DELIVER.

(** [addr] is the faulting address read from [%cr2]. *)
Definition _page_fault_handler (addr : Z) (vm : vm_state)
    : outcome (fault_result * vm_state) :=
  if decide (cr3 vm = 0) then ThreadPanic
  else
    pte ← get_pte addr (cr3 vm) vm;
    match pte with
    | None => Ret (PF_DELIVER, vm)
    | Some pte =>
        w ← read_pe pte vm;
        if PE_GETFLAG w PTE_ZEROPAGE then
          '(frame, ft1) ← allocate_frame (ft vm);
          if decide (frame ≠ 0) then
            let vm := set_ft vm ft1 in
            let w := PE_UNSETFLAG w PTE_ZEROPAGE in
            let w := PE_SETFLAG w PTE_READWRITE in
            let w := PE_SETADDR w frame in
            vm ← write_pe pte w vm;
            let vm := set_framedata vm
                        (<[PE_GETADDR w := zero_page]> (framedata vm)) in
            Ret (PF_RESUME, vm)
          else Ret (PF_DELIVER, vm)
        else if PE_GETFLAG w PTE_COPYONWRITE then
          let w := PE_UNSETFLAG w PTE_COPYONWRITE in
          let w := PE_SETFLAG w PTE_READWRITE in
          vm ← write_pe pte w vm;
          '(_, vm) ← copy_on_write (PAGE_ADDR addr) vm;
          Ret (PF_RESUME, vm)
        else Ret (PF_DELIVER, vm)
    end.
End Paging.

(** ** syscall/syshelper.c: checks of user pointers *)

Definition check_page (addr : Z) (write : bool) (vm : vm_state) : outcome bool :=
  pte ← get_pte (PAGE_ADDR addr) (cr3 vm) vm;
  match pte with
  | Some pte =>
      w ← read_pe pte vm;
      let check := PE_GETFLAG w PTE_PRESENT in
      let check :=
        if write
        then check && PE_GETFLAG w PTE_USER && PE_GETFLAG w PTE_READWRITE
        else check in
      Ret check
  | None => Ret false
  end.

(** The loop of [check_array].  [checked] is an [int], but the
    addition of the [uint32_t] step and the comparison with the
    [size_t] [len] take it as unsigned: it is kept as a 32-bit word
    that wraps.  As long as nothing wraps every round adds at least
    one to [checked], so [Z.to_nat len] rounds are then enough for the
    loop to end. *)
Fixpoint check_array_loop (fuel : nat) (cursor checked len : Z) (vm : vm_state)
    : outcome bool :=
  if decide (checked < len) then
    match fuel with
    | O => Undefined
    | S fuel' =>
        ok ← check_page cursor false vm;
        if negb ok then Ret false
        else check_array_loop fuel'
               (u32 (PAGE_ADDR cursor + PAGE_SIZE))
               (u32 (checked + u32 (PAGE_SIZE - (cursor - PAGE_ADDR cursor))))
               len vm
    end
  else Ret true.

Definition check_array (array : Z) (len : Z) (vm : vm_state) : outcome bool :=
  check_array_loop (Z.to_nat len) array 0 len vm.

(** ** thrlist.h, process.h

    A pointer to a thread or a process control block is the key ([nat])
    under which the block lies in the kernel's heap, [None] for [NULL].
    A [thrlist_t*] is one of the two static lists of thread.c or the
    list a process allocates for its waiting threads. *)
Inductive list_ref :=
| L_running
| L_sleeping
| L_waiting (process : nat).

#[global] Instance list_ref_eq_dec : EqDecision list_ref.
Proof. solve_decision. Defined.

Record thrlist_t := {
  head : option nat;
  tail : option nat;
  size : Z;
}.

Inductive process_state_t := RUNNING | EXITED | BURIED.

#[global] Instance process_state_eq_dec : EqDecision process_state_t.
Proof. solve_decision. Defined.

(** The process control block.  [memregions] is the page-sized table
    itself and [waiting] the list itself, both allocated once per
    process and reached only through it.  [next_memregion_idx] holds
    [-1] for the sentinel the source writes as [-1] into the unsigned
    field. *)
Record process_t := {
  pid : Z;
  exit_status : Z;
  p_state : process_state_t;
  p_cr3 : Z;
  memregions : list Z;
  next_memregion_idx : Z;
  parent : option nat;
  youngest_child : option nat;
  p_older_sibling : option nat;
  p_younger_sibling : option nat;
  children : Z;
  youngest_thread : option nat;
  original_tid : Z;
  threads : Z;
  waiting : thrlist_t;
}.

Definition set_memregions (p : process_t) (regions : list Z) (idx : Z) : process_t :=
  {| pid := pid p; exit_status := exit_status p; p_state := p_state p;
     p_cr3 := p_cr3 p; memregions := regions; next_memregion_idx := idx;
     parent := parent p; youngest_child := youngest_child p;
     p_older_sibling := p_older_sibling p;
     p_younger_sibling := p_younger_sibling p; children := children p;
     youngest_thread := youngest_thread p; original_tid := original_tid p;
     threads := threads p; waiting := waiting p |}.

(** ** syscall/paging.c *)

(** The search of [_new_pages] for the next free slot: [fuel] rounds
    are left; the result is the value [nextid] has when the loop ends. *)
Fixpoint next_memregion (fuel : nat) (regions : list Z) (idx nextid : Z)
    : outcome Z :=
  if decide (nextid ≠ idx) then
    match fuel with
    | O => Undefined
    | S fuel' =>
        r ← deref (zlookup regions nextid);
        if decide (r = 0) then Ret nextid
        else next_memregion fuel' regions idx ((nextid + 1) `mod` PAGE_TABLE_ENTRIES)
    end
  else Ret nextid.

(** The scan of [_remove_pages]: the first slot from [i] on whose base
    is [base], with the page count it records. *)
Fixpoint find_memregion (fuel : nat) (regions : list Z) (base : Z) (i : Z)
    : outcome (option (Z * Z)) :=
  match fuel with
  | O => Ret None
  | S fuel' =>
      r ← deref (zlookup regions i);
      if decide (Z.land r 0xfffff000 = base)
      then Ret (Some (i, Z.land r 0xfff))
      else find_memregion fuel' regions base (i + 1)
  end.

Section PagingSyscalls.
Context `{Platform}.

(** The roll-back loop of [_new_pages] and the removal loop of
    [_remove_pages]: pages [j] to [j + n - 1] of the region at
    [base] are destroyed; a page that cannot be destroyed is a
    [kernel_panic] in both. *)
Fixpoint destroy_pages (n : nat) (base j : Z) (vm : vm_state)
    : outcome vm_state :=
  match n with
  | O => Ret vm
  | S n' =>
      '(err, vm) ← destroy_page (u32 (base + j * PAGE_SIZE)) vm;
      if decide (err ≠ 0) then KernelPanic
      else destroy_pages n' base (j + 1) vm
  end.

(** The creation loop of [_new_pages] from page [i] on, [n] pages
    being left; the result is the error code (0 when every page was
    created) with the state, pages already created rolled back on an
    error. *)
Fixpoint create_pages (n : nat) (base i : Z) (vm : vm_state)
    : outcome (Z * vm_state) :=
  match n with
  | O => Ret (0, vm)
  | S n' =>
      '(err, vm) ← create_page (u32 (base + i * PAGE_SIZE)) MEM_TYPE_USER 0 vm;
      if decide (err ≠ 0) then
        vm ← destroy_pages (Z.to_nat i) base 0 vm;
        Ret (err, vm)
      else create_pages n' base (i + 1) vm
  end.

(** [memset((void * )base, 0, len)] over the [n] pages just mapped. *)
Fixpoint zero_pages (n : nat) (va : Z) (vm : vm_state) : outcome vm_state :=
  match n with
  | O => Ret vm
  | S n' =>
      pte ← get_pte va (cr3 vm) vm;
      pte ← deref pte;
      w ← read_pe pte vm;
      if PE_GETFLAG w PTE_PRESENT then
        zero_pages n' (va + PAGE_SIZE)
          (set_framedata vm (<[PE_GETADDR w := zero_page]> (framedata vm)))
      else Undefined
  end.

(** [args] is the user pointer the call receives, [base] and [len]
    the two words stored there ([len] read as an [int]); [process]
    is [get_self()->process], [None] for [NULL]. *)
Definition _new_pages (args base len : Z) (process : option process_t)
    (vm : vm_state) : outcome (Z * option process_t * vm_state) :=
  ok ← check_array args 2 vm;
  if negb ok then Ret (ERR_INVALID_ARG, process, vm)
  else if decide (base `mod` PAGE_SIZE ≠ 0) then Ret (ERR_INVALID_ARG, process, vm)
  else if decide (len < 0 ∨ len `mod` PAGE_SIZE ≠ 0 ∨ len > 0xfff * PAGE_SIZE)
  then Ret (ERR_INVALID_ARG, process, vm)
  else
    match process with
    | None => KernelPanic
    | Some p =>
        if decide (next_memregion_idx p = -1)
        then Ret (ERR_WORN_OUT_NEW_PAGES, process, vm)
        else
          let num_pages := len / PAGE_SIZE in
          '(err, vm) ← create_pages (Z.to_nat num_pages) base 0 vm;
          if decide (err ≠ 0) then Ret (err, process, vm)
          else
            vm ← zero_pages (Z.to_nat num_pages) base vm;
            let entry := Z.lor base num_pages in
            _ ← deref (zlookup (memregions p) (next_memregion_idx p));
            let regions := zupdate (memregions p) (next_memregion_idx p) entry in
            nextid ← next_memregion (Z.to_nat PAGE_TABLE_ENTRIES) regions
                       (next_memregion_idx p)
                       ((next_memregion_idx p + 1) `mod` PAGE_TABLE_ENTRIES);
            let idx := if decide (nextid = next_memregion_idx p) then -1 else nextid in
            Ret (0, Some (set_memregions p regions idx), vm)
    end.

Definition _remove_pages (argbase : Z) (process : option process_t)
    (vm : vm_state) : outcome (Z * option process_t * vm_state) :=
  let base := argbase in
  if decide (base `mod` PAGE_SIZE ≠ 0) then Ret (-1, process, vm)
  else
    match process with
    | None => KernelPanic
    | Some p =>
        found ← find_memregion (Z.to_nat PAGE_TABLE_ENTRIES) (memregions p) base 0;
        let num_pages := from_option snd 0 found in
        if decide (num_pages = 0) then Ret (-2, process, vm)
        else
          match found with
          | None => Undefined
          | Some (reg_idx, _) =>
              vm ← destroy_pages (Z.to_nat num_pages) base 0 vm;
              let regions := zupdate (memregions p) reg_idx 0 in
              let idx := if decide (next_memregion_idx p = -1) then reg_idx
                         else next_memregion_idx p in
              Ret (0, Some (set_memregions p regions idx), vm)
          end
    end.
End PagingSyscalls.

(** ** Concrete machines for the examples

    [USER_MEM_START] as the course's <common_kern.h> defines it for the
    machines the kernel was written for: user memory starts at 16 MB. *)
Definition pebbles : Platform := {| USER_MEM_START := 0x01000000 |}.

(** * Threads: thread.h, thrlist.c, thread.c, management.c *)

Inductive thrstate_t :=
| THR_RUNNING | THR_BLOCKED | THR_SLEEPING | THR_WAITING | THR_ZOMBIE.

#[global] Instance thrstate_eq_dec : EqDecision thrstate_t.
Proof. solve_decision. Defined.

(** The thread control block, with the fields the functions below read
    or write.  [thr_list] is the field [list] of the source. *)
Record thread_t := {
  tid : Z;
  state : thrstate_t;
  process : option nat;
  thr_list : option list_ref;
  next : option nat;
  prev : option nat;
  older_sibling : option nat;
  younger_sibling : option nat;
  wake : Z;
  acquired_lock : option nat;
  mutex_nextwait : option nat;
}.

Definition with_state (t : thread_t) (s : thrstate_t) : thread_t :=
  {| tid := tid t; state := s; process := process t; thr_list := thr_list t;
     next := next t; prev := prev t; older_sibling := older_sibling t;
     younger_sibling := younger_sibling t; wake := wake t;
     acquired_lock := acquired_lock t; mutex_nextwait := mutex_nextwait t |}.

Definition with_list (t : thread_t) (l : option list_ref) : thread_t :=
  {| tid := tid t; state := state t; process := process t; thr_list := l;
     next := next t; prev := prev t; older_sibling := older_sibling t;
     younger_sibling := younger_sibling t; wake := wake t;
     acquired_lock := acquired_lock t; mutex_nextwait := mutex_nextwait t |}.

Definition with_next (t : thread_t) (n : option nat) : thread_t :=
  {| tid := tid t; state := state t; process := process t; thr_list := thr_list t;
     next := n; prev := prev t; older_sibling := older_sibling t;
     younger_sibling := younger_sibling t; wake := wake t;
     acquired_lock := acquired_lock t; mutex_nextwait := mutex_nextwait t |}.

Definition with_prev (t : thread_t) (p : option nat) : thread_t :=
  {| tid := tid t; state := state t; process := process t; thr_list := thr_list t;
     next := next t; prev := p; older_sibling := older_sibling t;
     younger_sibling := younger_sibling t; wake := wake t;
     acquired_lock := acquired_lock t; mutex_nextwait := mutex_nextwait t |}.

Definition with_wake (t : thread_t) (w : Z) : thread_t :=
  {| tid := tid t; state := state t; process := process t; thr_list := thr_list t;
     next := next t; prev := prev t; older_sibling := older_sibling t;
     younger_sibling := younger_sibling t; wake := w;
     acquired_lock := acquired_lock t; mutex_nextwait := mutex_nextwait t |}.

Definition with_mutex_nextwait (t : thread_t) (n : option nat) : thread_t :=
  {| tid := tid t; state := state t; process := process t; thr_list := thr_list t;
     next := next t; prev := prev t; older_sibling := older_sibling t;
     younger_sibling := younger_sibling t; wake := wake t;
     acquired_lock := acquired_lock t; mutex_nextwait := n |}.

Definition with_acquired_lock (t : thread_t) (m : option nat) : thread_t :=
  {| tid := tid t; state := state t; process := process t; thr_list := thr_list t;
     next := next t; prev := prev t; older_sibling := older_sibling t;
     younger_sibling := younger_sibling t; wake := wake t;
     acquired_lock := m; mutex_nextwait := mutex_nextwait t |}.

Definition with_siblings (t : thread_t) (o y : option nat) : thread_t :=
  {| tid := tid t; state := state t; process := process t; thr_list := thr_list t;
     next := next t; prev := prev t; older_sibling := o;
     younger_sibling := y; wake := wake t;
     acquired_lock := acquired_lock t; mutex_nextwait := mutex_nextwait t |}.

Definition with_head (L : thrlist_t) (h : option nat) : thrlist_t :=
  {| head := h; tail := tail L; size := size L |}.
Definition with_tail (L : thrlist_t) (t : option nat) : thrlist_t :=
  {| head := head L; tail := t; size := size L |}.
Definition with_size (L : thrlist_t) (n : Z) : thrlist_t :=
  {| head := head L; tail := tail L; size := n |}.

Definition with_waiting (p : process_t) (L : thrlist_t) : process_t :=
  {| pid := pid p; exit_status := exit_status p; p_state := p_state p;
     p_cr3 := p_cr3 p; memregions := memregions p;
     next_memregion_idx := next_memregion_idx p;
     parent := parent p; youngest_child := youngest_child p;
     p_older_sibling := p_older_sibling p;
     p_younger_sibling := p_younger_sibling p; children := children p;
     youngest_thread := youngest_thread p; original_tid := original_tid p;
     threads := threads p; waiting := L |}.

(** lock.h.  [mlock] is the field [mutex_lock], the flag of the
    interaction lock. *)
Record mutex_t := {
  mlock : bool;
  owner : option nat;
  list_owner : option nat;
  first_waiting : option nat;
  last_waiting : option nat;
  previous_lock : option nat;
}.

Definition with_mlock (m : mutex_t) (b : bool) : mutex_t :=
  {| mlock := b; owner := owner m; list_owner := list_owner m;
     first_waiting := first_waiting m; last_waiting := last_waiting m;
     previous_lock := previous_lock m |}.
Definition with_owner (m : mutex_t) (o : option nat) : mutex_t :=
  {| mlock := mlock m; owner := o; list_owner := list_owner m;
     first_waiting := first_waiting m; last_waiting := last_waiting m;
     previous_lock := previous_lock m |}.
Definition with_list_owner (m : mutex_t) (o : option nat) : mutex_t :=
  {| mlock := mlock m; owner := owner m; list_owner := o;
     first_waiting := first_waiting m; last_waiting := last_waiting m;
     previous_lock := previous_lock m |}.
Definition with_first_waiting (m : mutex_t) (o : option nat) : mutex_t :=
  {| mlock := mlock m; owner := owner m; list_owner := list_owner m;
     first_waiting := o; last_waiting := last_waiting m;
     previous_lock := previous_lock m |}.
Definition with_last_waiting (m : mutex_t) (o : option nat) : mutex_t :=
  {| mlock := mlock m; owner := owner m; list_owner := list_owner m;
     first_waiting := first_waiting m; last_waiting := o;
     previous_lock := previous_lock m |}.
Definition with_previous_lock (m : mutex_t) (o : option nat) : mutex_t :=
  {| mlock := mlock m; owner := owner m; list_owner := list_owner m;
     first_waiting := first_waiting m; last_waiting := last_waiting m;
     previous_lock := o |}.

(** The kernel's thread and process structures: the control blocks and
    the mutexes in the heap, the two static lists of thread.c,
    [idle_thread], [num_ticks] and [no_switch] of timer.c and
    [operational] of mutex.c. *)
Record kernel := {
  tcbs : gmap nat thread_t;
  pcbs : gmap nat process_t;
  mutexes : gmap nat mutex_t;
  operational : bool;
  running : thrlist_t;
  sleeping : thrlist_t;
  idle_thread : option nat;
  num_ticks : Z;
  no_switch : bool;
}.

Definition with_tcbs (k : kernel) (m : gmap nat thread_t) : kernel :=
  {| tcbs := m; pcbs := pcbs k; running := running k; sleeping := sleeping k;
     idle_thread := idle_thread k; num_ticks := num_ticks k;
     no_switch := no_switch k; mutexes := mutexes k;
     operational := operational k |}.
Definition with_pcbs (k : kernel) (m : gmap nat process_t) : kernel :=
  {| tcbs := tcbs k; pcbs := m; running := running k; sleeping := sleeping k;
     idle_thread := idle_thread k; num_ticks := num_ticks k;
     no_switch := no_switch k; mutexes := mutexes k;
     operational := operational k |}.
Definition with_running (k : kernel) (L : thrlist_t) : kernel :=
  {| tcbs := tcbs k; pcbs := pcbs k; running := L; sleeping := sleeping k;
     idle_thread := idle_thread k; num_ticks := num_ticks k;
     no_switch := no_switch k; mutexes := mutexes k;
     operational := operational k |}.
Definition with_sleeping (k : kernel) (L : thrlist_t) : kernel :=
  {| tcbs := tcbs k; pcbs := pcbs k; running := running k; sleeping := L;
     idle_thread := idle_thread k; num_ticks := num_ticks k;
     no_switch := no_switch k; mutexes := mutexes k;
     operational := operational k |}.
Definition with_no_switch (k : kernel) (b : bool) : kernel :=
  {| tcbs := tcbs k; pcbs := pcbs k; running := running k;
     sleeping := sleeping k; idle_thread := idle_thread k;
     num_ticks := num_ticks k; no_switch := b; mutexes := mutexes k;
     operational := operational k |}.
Definition with_mutexes (k : kernel) (m : gmap nat mutex_t) : kernel :=
  {| tcbs := tcbs k; pcbs := pcbs k; running := running k;
     sleeping := sleeping k; idle_thread := idle_thread k;
     num_ticks := num_ticks k; no_switch := no_switch k; mutexes := m;
     operational := operational k |}.

(** Reads and assignments through a pointer.  [thread_set a f] is the
    assignment of one field of the block at [a]; the block is read when
    the assignment runs, so two pointers to one block see each other's
    writes. *)
Definition load_thread (a : nat) (k : kernel) : outcome thread_t :=
  deref (tcbs k !! a).

Definition thread_set (a : nat) (f : thread_t → thread_t) (k : kernel)
    : outcome kernel :=
  t ← load_thread a k;
  Ret (with_tcbs k (<[a := f t]> (tcbs k))).

Definition load_list (r : list_ref) (k : kernel) : outcome thrlist_t :=
  match r with
  | L_running => Ret (running k)
  | L_sleeping => Ret (sleeping k)
  | L_waiting p => pr ← deref (pcbs k !! p); Ret (waiting pr)
  end.

Definition list_set (r : list_ref) (f : thrlist_t → thrlist_t) (k : kernel)
    : outcome kernel :=
  match r with
  | L_running => Ret (with_running k (f (running k)))
  | L_sleeping => Ret (with_sleeping k (f (sleeping k)))
  | L_waiting p =>
      pr ← deref (pcbs k !! p);
      Ret (with_pcbs k (<[p := with_waiting pr (f (waiting pr))]> (pcbs k)))
  end.

(** ** thrlist.c *)

Definition thrlist_add_head (thread : option nat) (list : option list_ref)
    (k : kernel) : outcome (Z * kernel) :=
  match thread, list with
  | Some a, Some r =>
      t ← load_thread a k;
      if decide (thr_list t ≠ None) then Ret (ERR_THR_IN_LIST, k)
      else
        L ← load_list r k;
        k ← thread_set a (λ t, with_next t (head L)) k;
        k ← thread_set a (λ t, with_prev t None) k;
        k ← (if decide (size L > 0)
             then h ← deref (head L);
                  thread_set h (λ t, with_prev t (Some a)) k
             else list_set r (λ L, with_tail L (Some a)) k);
        k ← list_set r (λ L, with_head L (Some a)) k;
        k ← list_set r (λ L, with_size L (u32 (size L + 1))) k;
        k ← thread_set a (λ t, with_list t (Some r)) k;
        Ret (0, k)
  | _, _ => Ret (ERR_ARG_NULL, k)
  end.

Definition thrlist_add_tail (thread : option nat) (list : option list_ref)
    (k : kernel) : outcome (Z * kernel) :=
  match thread, list with
  | Some a, Some r =>
      t ← load_thread a k;
      if decide (thr_list t ≠ None) then Ret (ERR_THR_IN_LIST, k)
      else
        L ← load_list r k;
        k ← thread_set a (λ t, with_prev t (tail L)) k;
        k ← thread_set a (λ t, with_next t None) k;
        k ← (if decide (size L > 0)
             then tl ← deref (tail L);
                  thread_set tl (λ t, with_next t (Some a)) k
             else list_set r (λ L, with_head L (Some a)) k);
        k ← list_set r (λ L, with_tail L (Some a)) k;
        k ← list_set r (λ L, with_size L (u32 (size L + 1))) k;
        k ← thread_set a (λ t, with_list t (Some r)) k;
        Ret (0, k)
  | _, _ => Ret (ERR_ARG_NULL, k)
  end.

(** The scan of [thrlist_add_sorted] from the tail towards the head:
    [fuel] rounds are left; the result is [current] when the loop ends. *)
Fixpoint sorted_scan (fuel : nat) (current : option nat) (w : Z) (k : kernel)
    : outcome (option nat) :=
  match current with
  | None => Ret None
  | Some c =>
      tc ← load_thread c k;
      if decide (wake tc > w) then
        match fuel with
        | O => Undefined
        | S fuel' => sorted_scan fuel' (prev tc) w k
        end
      else Ret (Some c)
  end.

Definition thrlist_add_sorted (fuel : nat) (thread : option nat)
    (list : option list_ref) (k : kernel) : outcome (Z * kernel) :=
  match thread, list with
  | Some a, Some r =>
      t ← load_thread a k;
      if decide (thr_list t ≠ None) then Ret (ERR_THR_IN_LIST, k)
      else
        L ← load_list r k;
        if decide (size L = 0) then thrlist_add_head thread list k
        else
          current ← sorted_scan fuel (tail L) (wake t) k;
          match current with
          | None => thrlist_add_head thread list k
          | Some c =>
              if decide (current = tail L) then thrlist_add_tail thread list k
              else
                k ← thread_set a (λ t, with_prev t current) k;
                tc ← load_thread c k;
                k ← thread_set a (λ t, with_next t (next tc)) k;
                tc ← load_thread c k;
                k ← (match next tc with
                     | Some n => thread_set n (λ t, with_prev t (Some a)) k
                     | None => Ret k
                     end);
                k ← thread_set c (λ t, with_next t (Some a)) k;
                k ← list_set r (λ L, with_size L (u32 (size L + 1))) k;
                k ← thread_set a (λ t, with_list t (Some r)) k;
                Ret (0, k)
          end
  | _, _ => Ret (ERR_ARG_NULL, k)
  end.

Definition thrlist_remove (thread : option nat) (k : kernel)
    : outcome (Z * kernel) :=
  match thread with
  | None => Ret (ERR_ARG_NULL, k)
  | Some a =>
      t ← load_thread a k;
      match thr_list t with
      | None => Ret (1, k)
      | Some r =>
          k ← (match prev t with
               | Some p => thread_set p (λ x, with_next x (next t)) k
               | None => list_set r (λ L, with_head L (next t)) k
               end);
          t ← load_thread a k;
          r ← deref (thr_list t);
          k ← (match next t with
               | Some n => thread_set n (λ x, with_prev x (prev t)) k
               | None => list_set r (λ L, with_tail L (prev t)) k
               end);
          t ← load_thread a k;
          r ← deref (thr_list t);
          k ← list_set r (λ L, with_size L (u32 (size L - 1))) k;
          k ← thread_set a (λ t, with_list t None) k;
          k ← thread_set a (λ t, with_next t None) k;
          k ← thread_set a (λ t, with_prev t None) k;
          Ret (0, k)
      end
  end.

(** ** thread.c, timer.c *)

Definition get_time (k : kernel) : Z := num_ticks k.

Definition dont_switch_me_out (k : kernel) : kernel := with_no_switch k true.
Definition you_can_switch_me_out_now (k : kernel) : kernel :=
  with_no_switch k false.

Definition unset_state (thread : option nat) (k : kernel)
    : outcome (Z * kernel) :=
  match thread with
  | None => Ret (ERR_ARG_NULL, k)
  | Some a =>
      '(err, k) ← thrlist_remove thread k;
      if decide (err >= 0)
      then k ← thread_set a (λ t, with_state t THR_ZOMBIE) k; Ret (err, k)
      else Ret (err, k)
  end.

Definition set_runnable (thread : option nat) (k : kernel)
    : outcome (Z * kernel) :=
  match thread with
  | None => Ret (ERR_ARG_NULL, k)
  | Some a =>
      '(err, k) ← unset_state thread k;
      if decide (err < 0) then Ret (err, k)
      else
        k ← thread_set a (λ t, with_state t THR_RUNNING) k;
        thrlist_add_tail thread (Some L_running) k
  end.

(** [sleep] is the [unsigned int] parameter; [fuel] bounds the scan of
    the sleep queue. *)
Definition set_sleeping (fuel : nat) (thread : option nat) (sleep : Z)
    (k : kernel) : outcome (Z * kernel) :=
  match thread with
  | None => Ret (ERR_ARG_NULL, k)
  | Some a =>
      '(err, k) ← unset_state thread k;
      if decide (err < 0) then Ret (err, k)
      else
        let time := get_time k in
        k ← thread_set a (λ t, with_wake t (u32 (time + sleep))) k;
        k ← thread_set a (λ t, with_state t THR_SLEEPING) k;
        thrlist_add_sorted fuel thread (Some L_sleeping) k
  end.


Definition get_running (k : kernel) : option nat := head (running k).
Definition get_sleeping (k : kernel) : option nat := head (sleeping k).

Definition get_self (k : kernel) : outcome nat :=
  match get_running k with
  | None => KernelPanic
  | Some self => Ret self
  end.

Definition idle (k : kernel) : option nat := idle_thread k.

(** ** management.c

    A system call that ends in [context_switch(self, other)] gives up
    the processor there; its result says to which thread, [None] when
    the call returns without a switch. *)
Definition _sleep (fuel : nat) (ticks : Z) (k : kernel)
    : outcome (Z * kernel * option (option nat)) :=
  if decide (ticks = 0) then Ret (0, k, None)
  else if decide (ticks < 0) then Ret (ERR_NEGATIVE_SLEEP, k, None)
  else
    self ← get_self k;
    let k := dont_switch_me_out k in
    '(err, k) ← set_sleeping fuel (Some self) (u32 ticks) k;
    if decide (err < 0) then Ret (err, you_can_switch_me_out_now k, None)
    else
      let other := get_running k in
      let other := if other is None then idle k else other in
      Ret (0, k, Some other).

(** * Mutexes: lock/mutex.c *)

Definition load_mutex (mp : nat) (k : kernel) : outcome mutex_t :=
  deref (mutexes k !! mp).

Definition mutex_set (mp : nat) (f : mutex_t → mutex_t) (k : kernel)
    : outcome kernel :=
  m ← load_mutex mp k;
  Ret (with_mutexes k (<[mp := f m]> (mutexes k))).

Definition waitlist_addLast (mp : nat) (thr : option nat) (k : kernel)
    : outcome kernel :=
  if negb (operational k) then Ret k
  else
    m ← load_mutex mp k;
    match last_waiting m with
    | None =>
        k ← mutex_set mp (λ m, with_first_waiting m thr) k;
        mutex_set mp (λ m, with_last_waiting m thr) k
    | Some l =>
        k ← thread_set l (λ t, with_mutex_nextwait t thr) k;
        mutex_set mp (λ m, with_last_waiting m thr) k
    end.

Definition waitlist_removeHead (mp : nat) (k : kernel)
    : outcome (option nat * kernel) :=
  if negb (operational k) then Ret (None, k)
  else
    m ← load_mutex mp k;
    let next := first_waiting m in
    match next with
    | Some n =>
        tn ← load_thread n k;
        k ← mutex_set mp (λ m, with_first_waiting m (mutex_nextwait tn)) k;
        m ← load_mutex mp k;
        k ← (if decide (last_waiting m = next)
             then mutex_set mp (λ m, with_last_waiting m None) k
             else Ret k);
        Ret (next, k)
    | None => Ret (None, k)
    end.

(** The [do ... while] of [mutex_unlock]; [fuel] rounds are left. *)
Fixpoint unlock_loop (fuel : nat) (mp : nat) (k : kernel) : outcome kernel :=
  match fuel with
  | O => Undefined
  | S fuel' =>
      '(next, k) ← waitlist_removeHead mp k;
      k ← mutex_set mp (λ m, with_owner m next) k;
      m ← load_mutex mp k;
      match owner m with
      | None => Ret k
      | Some o =>
          t ← load_thread o k;
          if decide (state t ≠ THR_RUNNING) then unlock_loop fuel' mp k
          else Ret k
      end
  end.

(** [mutex_unlock] once the caller holds the interaction lock, that is
    from the end of the loop on [testandset], an assembly routine.  The
    result names the thread the function yields to before it returns,
    if any. *)
Definition mutex_unlock (fuel : nat) (mp : nat) (k : kernel)
    : outcome (kernel * option Z) :=
  if negb (operational k) then Ret (k, None)
  else
    me ← get_self k;
    k ← mutex_set mp (λ m, with_list_owner m (Some me)) k;
    tme ← load_thread me k;
    if decide (Some mp ≠ acquired_lock tme) then KernelPanic
    else
      al ← deref (acquired_lock tme);
      mal ← load_mutex al k;
      k ← thread_set me (λ t, with_acquired_lock t (previous_lock mal)) k;
      k ← mutex_set mp (λ m, with_previous_lock m None) k;
      m ← load_mutex mp k;
      if decide (owner m = None) then
        k ← mutex_set mp (λ m, with_mlock m false) k;
        k ← mutex_set mp (λ m, with_list_owner m None) k;
        Ret (k, None)
      else
        k ← unlock_loop fuel mp k;
        k ← mutex_set mp (λ m, with_mlock m false) k;
        k ← mutex_set mp (λ m, with_list_owner m None) k;
        m ← load_mutex mp k;
        match owner m with
        | Some o => t ← load_thread o k; Ret (k, Some (tid t))
        | None => Ret (k, None)
        end.

(** * Reader/writer locks: lock/rwlock.c, lock/condvar.c

    The lock is seen at the grain of the sections that run under
    [rwlock->mutex]: [rwlock_lock] up to its [cond_wait], [rwlock_lock]
    from the return of [cond_wait], and [rwlock_unlock].  A condition
    variable is the list of the threads that wait on it, the earliest
    first: [cond_wait] puts the caller at the end and deschedules it,
    [cond_signal] takes the first and makes it runnable,
    [cond_broadcast] does so for all of them.  A thread made runnable
    goes on in [cond_wait] with [mutex_lock(mp)], so that it runs the
    rest of [rwlock_lock] when the mutex comes to it. *)

Definition RWLOCK_READ : Z := 0.
Definition RWLOCK_WRITE : Z := 1.

Record rwlock_t := {
  writer_in : bool;
  readers_in : Z;
  writers_waiting : Z;
  readers_waiting : Z;
  no_threads_in : list nat;
  no_writers_in : list nat;
}.

Definition rwlock_init : rwlock_t :=
  {| writer_in := false; readers_in := 0; writers_waiting := 0;
     readers_waiting := 0; no_threads_in := []; no_writers_in := [] |}.

(** [cond_signal] and [cond_broadcast] on the list of the threads that
    wait; the second component names the threads made runnable.
    condvar.c keeps the list in [first_waiting], [last_waiting] and one
    link [cond_nextwait] per thread, and [cond_waitlist_addLast] does
    not clear the link of a thread that queues again.  The two
    definitions are what the functions do as long as the links they
    follow are those of the threads that wait now, as they are for
    threads that wait for the first time; a list left with an old link
    in [first_waiting] is not covered. *)
Definition cond_signal (cv : list nat) : list nat * list nat :=
  match cv with
  | [] => ([], [])
  | x :: cv' => (cv', [x])
  end.

Definition cond_broadcast (cv : list nat) : list nat * list nat := ([], cv).

(** The test of the reader's [while], with the body up to [cond_wait]
    when it holds.  The flag of the result tells whether the caller is
    in ([true]) or waits in [cond_wait] ([false]). *)
Definition reader_try (self : nat) (l : rwlock_t) : rwlock_t * bool :=
  if writer_in l || bool_decide (writers_waiting l > 0) then
    ({| writer_in := writer_in l; readers_in := readers_in l;
        writers_waiting := writers_waiting l;
        readers_waiting := readers_waiting l + 1;
        no_threads_in := no_threads_in l;
        no_writers_in := no_writers_in l ++ [self] |}, false)
  else
    ({| writer_in := writer_in l; readers_in := readers_in l + 1;
        writers_waiting := writers_waiting l;
        readers_waiting := readers_waiting l;
        no_threads_in := no_threads_in l;
        no_writers_in := no_writers_in l |}, true).

(** [rwlock_lock] from its entry. *)
Definition rwlock_lock (self : nat) (type : Z) (l : rwlock_t)
    : outcome (rwlock_t * bool) :=
  if decide (type = RWLOCK_READ) then Ret (reader_try self l)
  else if decide (type = RWLOCK_WRITE) then
    if writer_in l || bool_decide (readers_in l > 0) then
      Ret ({| writer_in := writer_in l; readers_in := readers_in l;
              writers_waiting := writers_waiting l + 1;
              readers_waiting := readers_waiting l;
              no_threads_in := no_threads_in l ++ [self];
              no_writers_in := no_writers_in l |}, false)
    else
      Ret ({| writer_in := true; readers_in := readers_in l;
              writers_waiting := writers_waiting l;
              readers_waiting := readers_waiting l;
              no_threads_in := no_threads_in l;
              no_writers_in := no_writers_in l |}, true)
  else KernelPanic.

(** [rwlock_lock] from the return of [cond_wait]: the reader counts
    itself out of the waiting readers and takes its [while] again; the
    writer, whose wait is under an [if], counts itself out of the
    waiting writers and sets [writer_in]. *)
Definition rwlock_lock_woken (self : nat) (type : Z) (l : rwlock_t)
    : outcome (rwlock_t * bool) :=
  if decide (type = RWLOCK_READ) then
    Ret (reader_try self
           {| writer_in := writer_in l; readers_in := readers_in l;
              writers_waiting := writers_waiting l;
              readers_waiting := readers_waiting l - 1;
              no_threads_in := no_threads_in l;
              no_writers_in := no_writers_in l |})
  else if decide (type = RWLOCK_WRITE) then
    Ret ({| writer_in := true; readers_in := readers_in l;
            writers_waiting := writers_waiting l - 1;
            readers_waiting := readers_waiting l;
            no_threads_in := no_threads_in l;
            no_writers_in := no_writers_in l |}, true)
  else KernelPanic.

(** [rwlock_unlock]; the second component lists the threads the call
    makes runnable. *)
Definition rwlock_unlock (l : rwlock_t) : rwlock_t * list nat :=
  if writer_in l then
    if decide (writers_waiting l ≠ 0) then
      let '(cv, woken) := cond_signal (no_threads_in l) in
      ({| writer_in := writer_in l; readers_in := readers_in l;
          writers_waiting := writers_waiting l;
          readers_waiting := readers_waiting l;
          no_threads_in := cv; no_writers_in := no_writers_in l |}, woken)
    else
      let '(cv, woken) := cond_broadcast (no_writers_in l) in
      ({| writer_in := false; readers_in := readers_in l;
          writers_waiting := writers_waiting l;
          readers_waiting := readers_waiting l;
          no_threads_in := no_threads_in l; no_writers_in := cv |}, woken)
  else
    let readers := readers_in l - 1 in
    if decide (readers = 0 ∧ writers_waiting l > 0) then
      let '(cv, woken) := cond_signal (no_threads_in l) in
      ({| writer_in := writer_in l; readers_in := readers;
          writers_waiting := writers_waiting l;
          readers_waiting := readers_waiting l;
          no_threads_in := cv; no_writers_in := no_writers_in l |}, woken)
    else
      ({| writer_in := writer_in l; readers_in := readers;
          writers_waiting := writers_waiting l;
          readers_waiting := readers_waiting l;
          no_threads_in := no_threads_in l;
          no_writers_in := no_writers_in l |}, []).

(** Where a thread stands with respect to the lock. *)
Inductive rw_pos :=
| RW_OUT
| RW_WAIT (type : Z)
| RW_WOKEN (type : Z)
| RW_IN (type : Z).

#[global] Instance rw_pos_eq_dec : EqDecision rw_pos.
Proof. solve_decision. Defined.

Record rw_system := {
  rw_lock : rwlock_t;
  rw_threads : gmap nat rw_pos;
}.

Definition rw_pos_of (s : rw_system) (t : nat) : rw_pos :=
  default RW_OUT (rw_threads s !! t).

(** The sections, in the order in which [rwlock->mutex] is passed on. *)
Inductive rw_event :=
| EV_LOCK (t : nat) (type : Z)
| EV_WOKEN (t : nat)
| EV_UNLOCK (t : nat).

Definition rw_wake (m : gmap nat rw_pos) (t : nat) : gmap nat rw_pos :=
  match m !! t with
  | Some (RW_WAIT type) => <[t := RW_WOKEN type]> m
  | _ => m
  end.

Definition rw_entered (type : Z) (entered : bool) : rw_pos :=
  if entered then RW_IN type else RW_WAIT type.

Definition rw_step (e : rw_event) (s : rw_system) : outcome rw_system :=
  match e with
  | EV_LOCK t type =>
      match rw_pos_of s t with
      | RW_OUT =>
          '(l, entered) ← rwlock_lock t type (rw_lock s);
          Ret {| rw_lock := l;
                 rw_threads := <[t := rw_entered type entered]> (rw_threads s) |}
      | _ => Undefined
      end
  | EV_WOKEN t =>
      match rw_pos_of s t with
      | RW_WOKEN type =>
          '(l, entered) ← rwlock_lock_woken t type (rw_lock s);
          Ret {| rw_lock := l;
                 rw_threads := <[t := rw_entered type entered]> (rw_threads s) |}
      | _ => Undefined
      end
  | EV_UNLOCK t =>
      match rw_pos_of s t with
      | RW_IN _ =>
          let '(l, woken) := rwlock_unlock (rw_lock s) in
          Ret {| rw_lock := l;
                 rw_threads := foldl rw_wake (<[t := RW_OUT]> (rw_threads s)) woken |}
      | _ => Undefined
      end
  end.

Fixpoint rw_run (es : list rw_event) (s : rw_system) : outcome rw_system :=
  match es with
  | [] => Ret s
  | e :: es' => s ← rw_step e s; rw_run es' s
  end.

Definition rw_system_init : rw_system :=
  {| rw_lock := rwlock_init; rw_threads := ∅ |}.

(** * Processes: prog/process.c, syscall/lifecycle.c *)

Definition with_p_state (p : process_t) (x : process_state_t) : process_t :=
  {| pid := pid p; exit_status := exit_status p; p_state := x; p_cr3 := p_cr3
     p; memregions := memregions p; next_memregion_idx := next_memregion_idx p;
     parent := parent p; youngest_child := youngest_child p; p_older_sibling :=
     p_older_sibling p; p_younger_sibling := p_younger_sibling p; children :=
     children p; youngest_thread := youngest_thread p; original_tid :=
     original_tid p; threads := threads p; waiting := waiting p |}.

Definition with_children (p : process_t) (x : Z) : process_t :=
  {| pid := pid p; exit_status := exit_status p; p_state := p_state p; p_cr3
     := p_cr3 p; memregions := memregions p; next_memregion_idx :=
     next_memregion_idx p; parent := parent p; youngest_child := youngest_child
     p; p_older_sibling := p_older_sibling p; p_younger_sibling :=
     p_younger_sibling p; children := x; youngest_thread := youngest_thread p;
     original_tid := original_tid p; threads := threads p; waiting := waiting p
     |}.

Definition with_youngest_child (p : process_t) (x : option nat) : process_t :=
  {| pid := pid p; exit_status := exit_status p; p_state := p_state p; p_cr3
     := p_cr3 p; memregions := memregions p; next_memregion_idx :=
     next_memregion_idx p; parent := parent p; youngest_child := x;
     p_older_sibling := p_older_sibling p; p_younger_sibling := p_younger_sibling
     p; children := children p; youngest_thread := youngest_thread p;
     original_tid := original_tid p; threads := threads p; waiting := waiting p
     |}.

Definition with_p_older_sibling (p : process_t) (x : option nat) : process_t :=
  {| pid := pid p; exit_status := exit_status p; p_state := p_state p; p_cr3
     := p_cr3 p; memregions := memregions p; next_memregion_idx :=
     next_memregion_idx p; parent := parent p; youngest_child := youngest_child
     p; p_older_sibling := x; p_younger_sibling := p_younger_sibling p; children
     := children p; youngest_thread := youngest_thread p; original_tid :=
     original_tid p; threads := threads p; waiting := waiting p |}.

Definition with_p_younger_sibling (p : process_t) (x : option nat) : process_t :=
  {| pid := pid p; exit_status := exit_status p; p_state := p_state p; p_cr3
     := p_cr3 p; memregions := memregions p; next_memregion_idx :=
     next_memregion_idx p; parent := parent p; youngest_child := youngest_child
     p; p_older_sibling := p_older_sibling p; p_younger_sibling := x; children :=
     children p; youngest_thread := youngest_thread p; original_tid :=
     original_tid p; threads := threads p; waiting := waiting p |}.

Definition with_youngest_thread (p : process_t) (x : option nat) : process_t :=
  {| pid := pid p; exit_status := exit_status p; p_state := p_state p; p_cr3
     := p_cr3 p; memregions := memregions p; next_memregion_idx :=
     next_memregion_idx p; parent := parent p; youngest_child := youngest_child
     p; p_older_sibling := p_older_sibling p; p_younger_sibling :=
     p_younger_sibling p; children := children p; youngest_thread := x;
     original_tid := original_tid p; threads := threads p; waiting := waiting p
     |}.

Definition load_process (p : nat) (k : kernel) : outcome process_t :=
  deref (pcbs k !! p).

Definition process_set (p : nat) (f : process_t → process_t) (k : kernel)
    : outcome kernel :=
  pr ← load_process p k;
  Ret (with_pcbs k (<[p := f pr]> (pcbs k))).

(** The scan of [exited_child] along the older siblings; [fuel] rounds
    are left. *)
Fixpoint exited_scan (fuel : nat) (child : option nat) (k : kernel)
    : outcome (option nat) :=
  match child with
  | None => Ret None
  | Some c =>
      pc ← load_process c k;
      if decide (p_state pc ≠ EXITED) then
        match fuel with
        | O => Undefined
        | S fuel' => exited_scan fuel' (p_older_sibling pc) k
        end
      else Ret (Some c)
  end.


(** [destroy_thread].  The kernel stack of the thread, which the
    function frees, and the hash table of the threads, from which it
    takes the thread between [rwlock_lock(&hash_lock, RWLOCK_WRITE)]
    and [rwlock_unlock(&hash_lock)], are not part of the state.  The
    definition is what the function does to the blocks of the threads
    and of the process; it shows nothing of what these three calls do
    to the lock, to its mutex and to the threads that wait for them,
    and takes them to return.  [free(thread)] takes the block out of
    the heap. *)
Definition destroy_thread (thread : option nat) (k : kernel)
    : outcome (Z * kernel) :=
  match thread with
  | None => Ret (ERR_ARG_NULL, k)
  | Some a =>
      t ← load_thread a k;
      let task := process t in
      let older := older_sibling t in
      let younger := younger_sibling t in
      k ← (match older with
           | Some o =>
               t ← load_thread a k;
               thread_set o (λ x, with_siblings x (older_sibling x) (younger_sibling t)) k
           | None => Ret k
           end);
      k ← (match younger with
           | Some y =>
               t ← load_thread a k;
               thread_set y (λ x, with_siblings x (older_sibling t) (younger_sibling x)) k
           | None =>
               match task with
               | Some p =>
                   t ← load_thread a k;
                   process_set p (λ x, with_youngest_thread x (older_sibling t)) k
               | None => Ret k
               end
           end);
      k ← thread_set a (λ x, with_siblings x None (younger_sibling x)) k;
      k ← thread_set a (λ x, with_siblings x (older_sibling x) None) k;
      Ret (0, with_tcbs k (delete a (tcbs k)))
  end.

(** The loop of [destroy_process] over the threads. *)
Fixpoint destroy_threads (fuel : nat) (p : nat) (k : kernel) : outcome kernel :=
  pr ← load_process p k;
  match youngest_thread pr with
  | None => Ret k
  | Some a =>
      match fuel with
      | O => Undefined
      | S fuel' =>
          '(_, k) ← destroy_thread (Some a) k;
          destroy_threads fuel' p k
      end
  end.

(** [thrlist_destroy] *)
Fixpoint thrlist_destroy (fuel : nat) (list : option list_ref) (k : kernel)
    : outcome (Z * kernel) :=
  match list with
  | None => Ret (ERR_ARG_NULL, k)
  | Some r =>
      L ← load_list r k;
      if decide (size L ≠ 0) then
        match fuel with
        | O => Undefined
        | S fuel' =>
            '(_, k) ← thrlist_remove (head L) k;
            thrlist_destroy fuel' list k
        end
      else Ret (0, k)
  end.


Section ProcessCalls.
Context `{Platform}.








End ProcessCalls.

(** * Well-formed states

    The conditions on a state the theorems below assume; each is kept
    by the code that builds the state, and each is decidable, so that
    it can be checked on a concrete state by computation. *)

(** The platform: user memory starts on a page boundary above 0. *)
Definition platform_ok `{Platform} : Prop :=
  0 < USER_MEM_START ∧ USER_MEM_START `mod` PAGE_SIZE = 0.

#[global] Instance platform_ok_dec `{Platform} : Decision platform_ok.
Proof. unfold platform_ok. apply _. Defined.

(** The address of a page: 32 bits wide and on a page boundary. *)
Definition page_address (a : Z) : Prop :=
  0 ≤ a < 4294967296 ∧ a `mod` PAGE_SIZE = 0.

#[global] Instance page_address_dec a : Decision (page_address a).
Proof. unfold page_address. apply _. Defined.

(** A page table in use keeps its entries that are not present at 0
    ([create_page] zeroes a new table, [destroy_page] zeroes the entry
    it removes). *)
Definition table_clean (t : list Z) : Prop :=
  Forall (λ w, PE_GETFLAG w PTE_PRESENT = false → w = 0) t.

(** What the virtual-memory code relies on in the current address
    space: a page directory is installed; no present directory entry
    points back at the directory or at a page the kernel heap will hand
    out again; the heap hands out distinct page-aligned 32-bit
    addresses other than the directory's; the counters of the frame
    table are bytes. *)
Definition pde_ok (vm : vm_state) (pde : Z) : Prop :=
  PE_GETFLAG pde PDE_PRESENT = true →
    PE_GETADDR pde ≠ cr3 vm ∧ (PE_GETADDR pde ∉ kheap vm) ∧
    from_option table_clean True (ptmem vm !! PE_GETADDR pde).

Definition heap_page_ok (vm : vm_state) (a : Z) : Prop :=
  a `mod` PAGE_SIZE = 0 ∧ 0 ≤ a < 4294967296 ∧ a ≠ cr3 vm.

Definition pt_wf (vm : vm_state) : Prop :=
  cr3 vm ≠ 0 ∧
  from_option (Forall (pde_ok vm)) False (ptmem vm !! cr3 vm) ∧
  NoDup (kheap vm) ∧
  Forall (heap_page_ok vm) (kheap vm).

Definition counters_ok (t : frame_table) : Prop :=
  Forall (λ c, 0 ≤ c < 256) (frames t).

Definition vm_wf (vm : vm_state) : Prop := pt_wf vm ∧ counters_ok (ft vm).

(** The frame table: its counters are bytes, the hint
    [next_available_frame] is [-1] or names a frame nobody holds, and
    the frames it counts end within the 32-bit physical space. *)
Definition hint_ok (t : frame_table) : Prop :=
  next_available_frame t = -1 ∨
  zlookup (frames t) (next_available_frame t) = Some 0.

Definition frames_fit `{Platform} (t : frame_table) : Prop :=
  USER_MEM_START + PAGE_SIZE * nb_frames t ≤ 4294967296.

Definition ft_wf `{Platform} (t : frame_table) : Prop :=
  counters_ok t ∧ hint_ok t ∧ frames_fit t.

(** The page of [va] is mapped through the entry at [q], which holds
    the word [w]. *)
Definition mapped (vm : vm_state) (va : Z) (q : pe_ptr) (w : Z) : Prop :=
  get_pte va (cr3 vm) vm = Ret (Some q) ∧ read_pe q vm = Ret w ∧
  PE_GETFLAG w PTE_PRESENT = true.

(** What [_page_fault_handler] makes of a copy-on-write entry before
    it calls [copy_on_write]. *)
Definition cow_resolved (w : Z) : Z :=
  PE_SETFLAG (PE_UNSETFLAG w PTE_COPYONWRITE) PTE_READWRITE.

#[global] Instance table_clean_dec t : Decision (table_clean t).
Proof. unfold table_clean. apply _. Defined.

#[global] Instance pde_ok_dec vm pde : Decision (pde_ok vm pde).
Proof.
  unfold pde_ok.
  destruct (ptmem vm !! PE_GETADDR pde); simpl; apply _.
Defined.

#[global] Instance heap_page_ok_dec vm a : Decision (heap_page_ok vm a).
Proof. unfold heap_page_ok. apply _. Defined.

#[global] Instance pt_wf_dec vm : Decision (pt_wf vm).
Proof.
  unfold pt_wf.
  destruct (ptmem vm !! cr3 vm); simpl; apply _.
Defined.

#[global] Instance counters_ok_dec t : Decision (counters_ok t).
Proof. unfold counters_ok. apply _. Defined.

#[global] Instance vm_wf_dec vm : Decision (vm_wf vm).
Proof. unfold vm_wf. apply _. Defined.

#[global] Instance hint_ok_dec t : Decision (hint_ok t).
Proof. unfold hint_ok. apply _. Defined.

#[global] Instance frames_fit_dec `{Platform} t : Decision (frames_fit t).
Proof. unfold frames_fit. apply _. Defined.

#[global] Instance ft_wf_dec `{Platform} t : Decision (ft_wf t).
Proof. unfold ft_wf. apply _. Defined.

(** ** The pages of a region under construction

    A record [(va, p, w)] is a page [new_pages] created: the page of
    [va] is mapped through the entry at [p], which holds the word [w],
    a user entry whose frame the table [F0] counts. *)
Definition region_page : Type := Z * pe_ptr * Z.

Definition page_frame_id `{Platform} (e : region_page) : Z :=
  FRAME_ID (PE_GETADDR e.2).

Definition page_ok `{Platform} (F0 : list Z) (vm : vm_state) (e : region_page) : Prop :=
  e.1.1 `mod` PAGE_SIZE = 0 ∧ mapped vm e.1.1 e.1.2 e.2 ∧
  PE_GETFLAG e.2 PTE_GLOBAL = false ∧ PE_GETFLAG e.2 PTE_USER = true ∧
  is_Some (zlookup F0 (page_frame_id e)).

(** How many pages of [L] lie in frame [x]. *)
Fixpoint holders `{Platform} (x : Z) (L : list region_page) : Z :=
  match L with
  | [] => 0
  | e :: L' => (if decide (page_frame_id e = x) then 1 else 0) + holders x L'
  end.

(** The state while the pages [L] exist on top of the frame counts
    [F0]: every counter is its value in [F0] plus the pages of [L] in
    that frame. *)
Definition region_inv `{Platform} (F0 : list Z) (vm : vm_state)
    (L : list region_page) : Prop :=
  pt_wf vm ∧ counters_ok (ft vm) ∧ Forall (λ c, 0 ≤ c) F0 ∧
  NoDup (L.*1.*2) ∧ Forall (page_ok F0 vm) L ∧
  length (frames (ft vm)) = length F0 ∧
  ∀ x c, zlookup F0 x = Some c →
         zlookup (frames (ft vm)) x = Some (c + holders x L).

(** The addresses of pages [i] to [i + n - 1] of the region at [base]. *)
Definition region_vas (base i : Z) (n : nat) : list Z :=
  (λ j, u32 (base + j * PAGE_SIZE)) <$> seqZ i (Z.of_nat n).

(** The memregion table of a process: [PAGE_TABLE_ENTRIES] slots, and a
    cursor that is the sentinel or names a free slot. *)
Definition memregions_ok (p : process_t) : Prop :=
  length (memregions p) = Z.to_nat PAGE_TABLE_ENTRIES ∧
  (next_memregion_idx p = -1 ∨
   zlookup (memregions p) (next_memregion_idx p) = Some 0).

(** No slot before [idx] records a region at [base]. *)
Definition no_region_before (regions : list Z) (idx base : Z) : Prop :=
  Forall (λ r, Z.land r 0xfffff000 ≠ base) (take (Z.to_nat idx) regions).

(** No slot before [idx] records pages at [base]. *)
Definition no_pages_before (regions : list Z) (idx base : Z) : Prop :=
  Forall (λ r, Z.land r 0xfffff000 = base → Z.land r 0xfff = 0)
    (take (Z.to_nat idx) regions).

#[global] Instance memregions_ok_dec p : Decision (memregions_ok p).
Proof. unfold memregions_ok. apply _. Defined.

#[global] Instance no_region_before_dec rs i b : Decision (no_region_before rs i b).
Proof. unfold no_region_before. apply _. Defined.

#[global] Instance no_pages_before_dec rs i b : Decision (no_pages_before rs i b).
Proof. unfold no_pages_before. apply _. Defined.

(** ** Thread lists

    [dll_seg m r p l n]: in the heap [m] the blocks [l] are chained in
    this order by [next] and [prev], all of them naming [r] as their
    list; [p] is what the first one has for [prev], [n] what the last
    one has for [next]. *)
Definition hd_or (l : list nat) (n : option nat) : option nat :=
  match l with [] => n | b :: _ => Some b end.

Definition last_or (p : option nat) (l : list nat) : option nat :=
  match last l with None => p | Some x => Some x end.

Fixpoint dll_seg (m : gmap nat thread_t) (r : list_ref) (p : option nat)
    (l : list nat) (n : option nat) : Prop :=
  match l with
  | [] => True
  | a :: l' =>
      match m !! a with
      | Some t =>
          thr_list t = Some r ∧ prev t = p ∧ next t = hd_or l' n ∧
          dll_seg m r (Some a) l' n
      | None => False
      end
  end.

#[global] Instance dll_seg_dec m r p l n : Decision (dll_seg m r p l n).
Proof.
  revert p. induction l as [|a l IH]; intros p; simpl; [apply _|].
  destruct (m !! a); apply _.
Defined.

(** The list [L], which its threads know as [r], holds the threads [l],
    the head first. *)
Definition is_thrlist (k : kernel) (r : list_ref) (L : thrlist_t)
    (l : list nat) : Prop :=
  NoDup l ∧ (size L = Z.of_nat (length l) ∧ size L < 4294967296) ∧
  head L = hd_or l None ∧ tail L = last l ∧
  dll_seg (tcbs k) r None l None.

#[global] Instance is_thrlist_dec k r L l : Decision (is_thrlist k r L l).
Proof. unfold is_thrlist. apply _. Defined.

Definition wake_of (k : kernel) (a : nat) : Z :=
  from_option wake 0 (tcbs k !! a).

(** The sleep queue is sorted non-decreasing by [wake]. *)
Definition sorted_by_wake (k : kernel) (l : list nat) : Prop :=
  StronglySorted Z.le (wake_of k <$> l).

#[global] Instance sorted_by_wake_dec k l : Decision (sorted_by_wake k l).
Proof. unfold sorted_by_wake. apply _. Defined.

(** The thread [a] is in no list, or in the sleep queue [l], or in
    another list that is well linked. *)
Definition thread_placed (k : kernel) (a : nat) (l : list nat) : Prop :=
  match tcbs k !! a with
  | None => False
  | Some t =>
      match thr_list t with
      | None => True
      | Some r =>
          if decide (r = L_sleeping) then a ∈ l
          else ∃ l', match load_list r k with
                     | Ret L => is_thrlist k r L l' ∧ a ∈ l'
                     | _ => False
                     end
      end
  end.

(** What an operation on the list [r] with the thread [a] leaves alone:
    the clock, the other lists, every wake time, and every block other
    than [a] that is not in [r]. *)
Definition kernel_frame (r : list_ref) (a : nat) (k k' : kernel) : Prop :=
  num_ticks k' = num_ticks k ∧
  (∀ r2, r2 ≠ r → load_list r2 k' = load_list r2 k) ∧
  (∀ b, b ≠ a → wake_of k' b = wake_of k b) ∧
  (∀ b t, b ≠ a → tcbs k !! b = Some t → thr_list t ≠ Some r →
          tcbs k' !! b = Some t).

(** ** Mutex wait lists

    [wait_chain m a q]: from the block [a] the field [mutex_nextwait]
    leads through the blocks [q] in this order.  What the last block has
    in the field is left open: [waitlist_addLast] does not reset it. *)
Fixpoint wait_chain (m : gmap nat thread_t) (a : nat) (q : list nat) : Prop :=
  match m !! a with
  | Some t =>
      match q with
      | [] => True
      | b :: q' => mutex_nextwait t = Some b ∧ wait_chain m b q'
      end
  | None => False
  end.

#[global] Instance wait_chain_dec m a q : Decision (wait_chain m a q).
Proof.
  revert a. induction q as [|b q IH]; intros a; simpl;
    destruct (m !! a); apply _.
Defined.

(** The threads [q] wait for the mutex [mp], the first to have come at
    the head.  An empty list is one whose [last_waiting] is [NULL]. *)
Definition wait_queue (k : kernel) (mp : nat) (q : list nat) : Prop :=
  match mutexes k !! mp with
  | Some m =>
      NoDup q ∧ last_waiting m = last q ∧
      match q with
      | [] => True
      | a :: q' => first_waiting m = Some a ∧ wait_chain (tcbs k) a q'
      end
  | None => False
  end.

#[global] Instance wait_queue_dec k mp q : Decision (wait_queue k mp q).
Proof.
  unfold wait_queue. destruct (mutexes k !! mp); [|apply _].
  destruct q; apply _.
Defined.

Definition state_of (k : kernel) (a : nat) : option thrstate_t :=
  state <$> tcbs k !! a.

(** The caller of [mutex_unlock]: the running thread, which holds [mp]
    as the mutex it acquired last. *)
Definition holds_mutex (k : kernel) (me mp : nat) : Prop :=
  get_running k = Some me ∧
  (acquired_lock <$> tcbs k !! me) = Some (Some mp) ∧
  (owner <$> mutexes k !! mp) = Some (Some me).

#[global] Instance holds_mutex_dec k me mp : Decision (holds_mutex k me mp).
Proof. unfold holds_mutex. apply _. Defined.

(** ** Processes

    [sibling_chain m c l]: from [c] the field [older_sibling] leads
    through the processes [l], in this order, to [NULL]. *)
Fixpoint sibling_chain (m : gmap nat process_t) (c : option nat)
    (l : list nat) : Prop :=
  match l with
  | [] => c = None
  | a :: l' =>
      c = Some a ∧
      match m !! a with
      | Some pa => sibling_chain m (p_older_sibling pa) l'
      | None => False
      end
  end.

#[global] Instance sibling_chain_dec m c l : Decision (sibling_chain m c l).
Proof.
  revert c. induction l as [|a l IH]; intros c; simpl; [apply _|].
  destruct (m !! a); apply _.
Defined.

Definition process_state_of (k : kernel) (p : nat) : option process_state_t :=
  p_state <$> pcbs k !! p.

(** * Concrete states for the examples *)

(** A machine with four free user frames, an installed page directory
    that maps nothing, and two pages left on the kernel heap. *)
Definition vm_empty : vm_state := {|
  ft := {| frames := [0; 0; 0; 0]; next_available_frame := 0 |};
  ptmem := {[ 0x100000 := zero_table ]};
  cr3 := 0x100000;
  zero_frame := 0x101000;
  framedata := ∅;
  cow_buffer := [];
  kheap := [0x102000; 0x103000];
|}.

(** A page table at 0x102000 whose entry 0 maps 0x20000000 to the
    first user frame, copy-on-write ([PRESENT], [USER], [COPYONWRITE]). *)
Definition cow_table : list Z := <[0%nat := 0x01000405]> zero_table.

(** The directory entry 128 covers 0x20000000. *)
Definition cow_directory : list Z := <[128%nat := 0x00102007]> zero_table.

(** Two processes share the first frame, and two frames are free. *)
Definition vm_cow_shared : vm_state := {|
  ft := {| frames := [2; 0; 0]; next_available_frame := 1 |};
  ptmem := {[ 0x100000 := cow_directory; 0x102000 := cow_table ]};
  cr3 := 0x100000;
  zero_frame := 0x101000;
  framedata := {[ 0x01000000 := [0xAA] ]};
  cow_buffer := [];
  kheap := [0x103000];
|}.

(** The same sharing on a machine that has no free frame left. *)
Definition vm_cow_full : vm_state := {|
  ft := {| frames := [2; 1]; next_available_frame := -1 |};
  ptmem := {[ 0x100000 := cow_directory; 0x102000 := cow_table ]};
  cr3 := 0x100000;
  zero_frame := 0x101000;
  framedata := {[ 0x01000000 := [0xAA] ]};
  cow_buffer := [];
  kheap := [0x103000];
|}.

(** A page table at 0x102000 whose entry 0 maps 0x20000000, the page
    that holds the arguments of the system calls below, to the first
    user frame ([PRESENT], [READWRITE], [USER]). *)
Definition user_table : list Z := <[0%nat := 0x01000007]> zero_table.

Definition vm_user : vm_state := {|
  ft := {| frames := [1; 0; 0; 0]; next_available_frame := 1 |};
  ptmem := {[ 0x100000 := cow_directory; 0x102000 := user_table ]};
  cr3 := 0x100000;
  zero_frame := 0x101000;
  framedata := ∅;
  cow_buffer := [];
  kheap := [0x103000; 0x104000];
|}.

Definition empty_thrlist : thrlist_t := {| head := None; tail := None; size := 0 |}.

(** A process as [create_process] and [create_thread] leave it: no
    region recorded, the cursor on slot 0. *)
Definition proc_fresh : process_t := {|
  pid := 1; exit_status := -1; p_state := RUNNING; p_cr3 := 0x100000;
  memregions := zero_table; next_memregion_idx := 0;
  parent := None; youngest_child := None;
  p_older_sibling := None; p_younger_sibling := None; children := 0;
  youngest_thread := Some 32%nat; original_tid := 32; threads := 1;
  waiting := empty_thrlist;
|}.

(** The same process after 1024 calls of [new_pages(0x40000000, 0)]:
    every slot records the empty region, the cursor is the sentinel. *)
Definition proc_worn_out : process_t :=
  set_memregions proc_fresh
    (replicate (Z.to_nat PAGE_TABLE_ENTRIES) 0x40000000) (-1).

(** [proc_fresh] and [vm_user] after [new_pages(0x30000000, 4096)]:
    slot 0 records one page at 0x30000000, which a new page table at
    0x103000 maps to the second user frame, zero filled. *)
Definition proc_one_region : process_t :=
  set_memregions proc_fresh (<[0%nat := 0x30000001]> zero_table) 1.

Definition vm_one_region : vm_state := {|
  ft := {| frames := [1; 1; 0; 0]; next_available_frame := 2 |};
  ptmem := {[ 0x100000 := <[192%nat := 0x00103007]> cow_directory;
              0x102000 := user_table;
              0x103000 := <[0%nat := 0x01001007]> zero_table ]};
  cr3 := 0x100000;
  zero_frame := 0x101000;
  framedata := {[ 0x01001000 := zero_page ]};
  cow_buffer := [];
  kheap := [0x104000];
|}.

(** A kernel with four threads of process 1: thread 32 runs, threads
    33 and 34 sleep until ticks 10 and 20, thread 35 is blocked, in no
    list, with 12 left in its [wake]; the clock is at 5.  The blocks lie
    at the heap keys 1 to 4. *)
Definition example_thread (tid : Z) (state : thrstate_t) (l : list_ref)
    (next prev : option nat) (wake : Z) : thread_t :=
  {| tid := tid; state := state; process := Some 1%nat; thr_list := Some l;
     next := next; prev := prev; older_sibling := None;
     younger_sibling := None; wake := wake; acquired_lock := None;
     mutex_nextwait := None |}.

Definition kernel_sleepers : kernel := {|
  tcbs := {[ 1%nat := example_thread 32 THR_RUNNING L_running None None 0;
             2%nat := example_thread 33 THR_SLEEPING L_sleeping (Some 3%nat) None 10;
             3%nat := example_thread 34 THR_SLEEPING L_sleeping None (Some 2%nat) 20;
             4%nat := with_list
                        (example_thread 35 THR_BLOCKED L_running None None 12)
                        None ]};
  pcbs := {[ 1%nat := proc_fresh ]};
  running := {| head := Some 1%nat; tail := Some 1%nat; size := 1 |};
  sleeping := {| head := Some 2%nat; tail := Some 3%nat; size := 2 |};
  idle_thread := None;
  num_ticks := 5;
  no_switch := false;
  mutexes := ∅;
  operational := true;
|}.

(** A kernel in which thread 32 (at key 1) runs and owns the mutex at
    key 7, whose interaction lock it has taken.  Two threads queue for
    the mutex: thread 33 (key 2), which has become a zombie, and behind
    it thread 34 (key 3), which is runnable. *)
Definition kernel_mutex : kernel := {|
  tcbs := {[ 1%nat := with_acquired_lock
                        (example_thread 32 THR_RUNNING L_running (Some 3%nat) None 0)
                        (Some 7%nat);
             2%nat := with_mutex_nextwait
                        (with_list (example_thread 33 THR_ZOMBIE L_running None None 0)
                           None)
                        (Some 3%nat);
             3%nat := example_thread 34 THR_RUNNING L_running None (Some 1%nat) 0;
             4%nat := with_list (example_thread 35 THR_BLOCKED L_running None None 0)
                        None ]};
  pcbs := {[ 1%nat := proc_fresh ]};
  running := {| head := Some 1%nat; tail := Some 3%nat; size := 2 |};
  sleeping := empty_thrlist;
  idle_thread := None;
  num_ticks := 5;
  no_switch := false;
  mutexes := {[ 7%nat := {| mlock := true; owner := Some 1%nat;
                            list_owner := None; first_waiting := Some 2%nat;
                            last_waiting := Some 3%nat;
                            previous_lock := None |} ]};
  operational := true;
|}.

(** A parent (process 1, at key 1) with one child (process 2, at key
    2) that has exited with status 7; the child's only thread, 40 (key
    5), is a zombie.  Thread 32 (key 1) of the parent runs; in
    [kernel_wait_full] thread 33 (key 2) of the parent is on the
    parent's list of waiting threads, in [kernel_wait_free] it is
    blocked and the list is empty. *)
Definition exited_child_process : process_t := {|
  pid := 2; exit_status := 7; p_state := EXITED; p_cr3 := 0x105000;
  memregions := zero_table; next_memregion_idx := 0;
  parent := Some 1%nat; youngest_child := None;
  p_older_sibling := None; p_younger_sibling := None; children := 0;
  youngest_thread := Some 5%nat; original_tid := 40; threads := 0;
  waiting := empty_thrlist;
|}.

Definition zombie_thread : thread_t :=
  {| tid := 40; state := THR_ZOMBIE; process := Some 2%nat; thr_list := None;
     next := None; prev := None; older_sibling := None;
     younger_sibling := None; wake := 0; acquired_lock := None;
     mutex_nextwait := None |}.

Definition parent_process (waiters : thrlist_t) : process_t :=
  with_waiting (with_children (with_youngest_child proc_fresh (Some 2%nat)) 1)
    waiters.


Definition kernel_wait_free : kernel := {|
  tcbs := {[ 1%nat := example_thread 32 THR_RUNNING L_running None None 0;
             2%nat := with_list
                        (example_thread 33 THR_BLOCKED L_running None None 0) None;
             5%nat := zombie_thread ]};
  pcbs := {[ 1%nat := parent_process empty_thrlist;
             2%nat := exited_child_process ]};
  running := {| head := Some 1%nat; tail := Some 1%nat; size := 1 |};
  sleeping := empty_thrlist;
  idle_thread := None;
  num_ticks := 5;
  no_switch := false;
  mutexes := ∅;
  operational := true;
|}.


(** * Proof support *)

(** Splits on the outcome of the first call of a sequence. *)
Tactic Notation "bind_case" ident(x) ident(Hx) :=
  match goal with
  | |- mbind _ ?m = _ → _ =>
      destruct m as [x| | |] eqn:Hx; simpl; try discriminate
  end.

(** As [bind_case], for goals that hold a loop with symbolic fuel. *)
Tactic Notation "bind_split" ident(x) ident(Hx) :=
  match goal with
  | |- mbind _ ?m = _ → _ =>
      destruct m as [x| | |] eqn:Hx; cbn [mbind outcome_bind]; try discriminate
  end.

(** * The rest of the frame allocator and its invariant *)

(** The table as [init_frame_allocator] leaves it for [nb] frames:
    [calloc] clears every counter and the static initializer of
    [next_available_frame] is 0. *)
Definition init_frame_table (nb : Z) : frame_table :=
  {| frames := replicate (Z.to_nat nb) 0; next_available_frame := 0 |}.

(** The hint misses no free frame: it is [-1] only when every frame is
    held. *)
Definition hint_complete (t : frame_table) : Prop :=
  next_available_frame t = -1 → Forall (λ c, c ≠ 0) (frames t).

#[global] Instance hint_complete_dec t : Decision (hint_complete t).
Proof. unfold hint_complete. apply _. Defined.

Definition alloc_inv `{Platform} (t : frame_table) : Prop :=
  ft_wf t ∧ hint_complete t.

#[global] Instance alloc_inv_dec `{Platform} t : Decision (alloc_inv t).
Proof. unfold alloc_inv. apply _. Defined.

(** The calls of the allocator's interface, to speak of sequences of
    them. *)
Inductive alloc_call :=
| CALL_GET_FRAME (frame : Z)
| CALL_FREE_FRAME (frame : Z)
| CALL_ALLOCATE_FRAME.

Section AllocatorCalls.
Context `{Platform}.

Definition alloc_step (c : alloc_call) (t : frame_table)
    : outcome (Z * frame_table) :=
  match c with
  | CALL_GET_FRAME frame => get_frame frame t
  | CALL_FREE_FRAME frame => free_frame frame t
  | CALL_ALLOCATE_FRAME => allocate_frame t
  end.

Fixpoint alloc_run (cs : list alloc_call) (t : frame_table)
    : outcome frame_table :=
  match cs with
  | [] => Ret t
  | c :: cs' => '(_, t) ← alloc_step c t; alloc_run cs' t
  end.

(** The frame a call names lies below the end of a table of [nb]
    frames. *)
Definition call_in_table (nb : Z) (c : alloc_call) : Prop :=
  match c with
  | CALL_GET_FRAME frame | CALL_FREE_FRAME frame => FRAME_ID frame < nb
  | CALL_ALLOCATE_FRAME => True
  end.

#[global] Instance call_in_table_dec nb c : Decision (call_in_table nb c).
Proof. destruct c; simpl; apply _. Defined.
End AllocatorCalls.

(** * Page faults on zero-fill pages *)

(** What [_page_fault_handler] makes of a [ZEROPAGE] entry [w] once it
    has the frame [frame] for it. *)
Definition zfod_resolved (w frame : Z) : Z :=
  PE_SETADDR (PE_SETFLAG (PE_UNSETFLAG w PTE_ZEROPAGE) PTE_READWRITE) frame.

(** * Page tables that are there

    The page directory and every page table a present directory entry
    points at are page-sized arrays of the kernel heap, so that the
    walks of [get_pte] stay inside them. *)
Definition table_present (vm : vm_state) (a : Z) : Prop :=
  from_option (λ t, Z.of_nat (length t) = PAGE_TABLE_ENTRIES) False
    (ptmem vm !! a).

Definition tables_present (vm : vm_state) : Prop :=
  table_present vm (cr3 vm) ∧
  from_option
    (Forall (λ pde, PE_GETFLAG pde PDE_PRESENT = true →
                    table_present vm (PE_GETADDR pde)))
    False (ptmem vm !! cr3 vm).

#[global] Instance table_present_dec vm a : Decision (table_present vm a).
Proof. unfold table_present. destruct (ptmem vm !! a); simpl; apply _. Defined.

#[global] Instance tables_present_dec vm : Decision (tables_present vm).
Proof.
  unfold tables_present. destruct (ptmem vm !! cr3 vm); simpl; apply _.
Defined.

(** * The rest of thrlist.c, thread.c, timer.c and management.c *)

Definition ERR_YIELD_NOT_RUNNABLE : Z := -7.
Definition ERR_ACTIVE_THREADS : Z := -31.

Definition with_num_ticks (k : kernel) (n : Z) : kernel :=
  {| tcbs := tcbs k; pcbs := pcbs k; running := running k;
     sleeping := sleeping k; idle_thread := idle_thread k;
     num_ticks := n; no_switch := no_switch k; mutexes := mutexes k;
     operational := operational k |}.

(** ** thrlist.c *)

Definition thrlist_init (list : list_ref) (k : kernel) : outcome kernel :=
  k ← list_set list (λ L, with_size L 0) k;
  k ← list_set list (λ L, with_head L None) k;
  list_set list (λ L, with_tail L None) k.

(** The scan of [thrlist_find] from the head on: [fuel] rounds are
    left; the result is [current] when the loop ends. *)
Fixpoint find_scan (fuel : nat) (current : option nat) (id : Z) (k : kernel)
    : outcome (option nat) :=
  match current with
  | None => Ret None
  | Some c =>
      tc ← load_thread c k;
      if decide (tid tc ≠ id) then
        match fuel with
        | O => Undefined
        | S fuel' => find_scan fuel' (next tc) id k
        end
      else Ret (Some c)
  end.

Definition thrlist_find (fuel : nat) (id : Z) (list : option list_ref)
    (k : kernel) : outcome (option nat) :=
  match list with
  | None => Ret None
  | Some r => L ← load_list r k; find_scan fuel (head L) id k
  end.

(** ** thread.c *)

(** [set_running].  The loads of [%esp0] and [%cr3] at its end act on
    the processor, which is not part of the state; [thread->process] is
    read for the second. *)
Definition set_running (thread : option nat) (k : kernel)
    : outcome (Z * kernel) :=
  match thread with
  | None => Ret (ERR_ARG_NULL, k)
  | Some a =>
      '(err, k) ← unset_state thread k;
      if decide (err < 0) then Ret (err, k)
      else
        '(err, k) ← thrlist_add_head thread (Some L_running) k;
        if decide (err < 0) then Ret (err, k)
        else
          k ← thread_set a (λ t, with_state t THR_RUNNING) k;
          t ← load_thread a k;
          p ← deref (process t);
          _ ← deref (pcbs k !! p);
          Ret (0, k)
  end.

Definition set_blocked (thread : option nat) (k : kernel)
    : outcome (Z * kernel) :=
  match thread with
  | None => Ret (ERR_ARG_NULL, k)
  | Some a =>
      '(err, k) ← unset_state thread k;
      if decide (err < 0) then Ret (err, k)
      else
        k ← thread_set a (λ t, with_state t THR_BLOCKED) k;
        Ret (0, k)
  end.

Definition num_runnable (k : kernel) : Z := size (running k).

Definition is_idle (thread : option nat) (k : kernel) : bool :=
  bool_decide (thread = idle_thread k).

(** ** timer.c *)

(** The loop of [timer_handler] that wakes the sleepers whose time has
    come; [fuel] rounds are left, and [awoken] tells whether a thread
    was woken. *)
Fixpoint timer_wake (fuel : nat) (awoken : bool) (k : kernel)
    : outcome (bool * kernel) :=
  match get_sleeping k with
  | None => Ret (awoken, k)
  | Some h =>
      th ← load_thread h k;
      if decide (wake th ≤ num_ticks k) then
        match fuel with
        | O => Undefined
        | S fuel' =>
            '(_, k) ← set_runnable (Some h) k;
            timer_wake fuel' true k
        end
      else Ret (awoken, k)
  end.

(** [timer_handler].  The result names the two threads of the
    [context_switch] the handler ends in, [None] when it returns
    without one.  [ack_interrupt] acts on the interrupt controller,
    which is not part of the state. *)
Definition timer_handler (fuel : nat) (k : kernel)
    : outcome (kernel * option (nat * option nat)) :=
  let k := with_num_ticks k (u32 (num_ticks k + 1)) in
  if no_switch k then Ret (k, None)
  else
    '(awoken, k) ← timer_wake fuel false k;
    if awoken && is_idle (get_running k) k then
      self ← get_self k;
      '(_, k) ← unset_state (Some self) k;
      let other := get_running k in
      let k := dont_switch_me_out k in
      Ret (k, Some (self, other))
    else
      self ← get_self k;
      '(other, k) ←
        (if negb (is_idle (Some self) k) then
           '(_, k) ← set_runnable (Some self) k;
           Ret (get_running k, k)
         else if decide (num_runnable k > 1) then
           '(_, k) ← unset_state (Some self) k;
           Ret (get_running k, k)
         else Ret (None, k));
      let k := dont_switch_me_out k in
      match other with
      | Some o => Ret (k, Some (self, Some o))
      | None => Ret (you_can_switch_me_out_now k, None)
      end.

(** ** management.c *)

(** [_yield].  [found] is the answer of [get_thread(tid)], a search of
    the hash table of the threads, which is not part of the state.  The
    result names the two threads of the [context_switch] the call ends
    in. *)
Definition _yield (id : Z) (found : option nat) (k : kernel)
    : outcome (Z * kernel * option (nat * option nat)) :=
  self ← get_self k;
  target ←
    (if decide (id >= 0) then
       match found with
       | None => Ret (inl ERR_YIELD_NOT_RUNNABLE)
       | Some o =>
           t ← load_thread o k;
           if decide (state t ≠ THR_RUNNING)
           then Ret (inl ERR_YIELD_NOT_RUNNABLE)
           else Ret (inr (Some o))
       end
     else Ret (inr None));
  match target with
  | inl err => Ret (err, k, None)
  | inr other =>
      let k := dont_switch_me_out k in
      '(_, k) ← set_runnable (Some self) k;
      let other := if other is None then get_running k else other in
      Ret (0, k, Some (self, other))
  end.

Definition _get_ticks (k : kernel) : Z := get_time k.

Definition _gettid (k : kernel) : outcome Z :=
  self ← get_self k;
  t ← load_thread self k;
  Ret (tid t).

(** ** The scheduler's lists together

    The run queue holds the threads [lr] and the sleep queue the
    threads [ls], each well linked, the second sorted by wake time. *)
Definition sched_wf (k : kernel) (lr ls : list nat) : Prop :=
  is_thrlist k L_running (running k) lr ∧
  is_thrlist k L_sleeping (sleeping k) ls ∧
  sorted_by_wake k ls.

#[global] Instance sched_wf_dec k lr ls : Decision (sched_wf k lr ls).
Proof. unfold sched_wf. apply _. Defined.

(** What the operations on the lists of threads leave alone. *)
Definition same_globals (k k' : kernel) : Prop :=
  idle_thread k' = idle_thread k ∧ no_switch k' = no_switch k ∧
  num_ticks k' = num_ticks k ∧ operational k' = operational k ∧
  mutexes k' = mutexes k.

(** What identifies a thread and what its locks and its family are:
    the fields the list operations never write. *)
Definition thread_ident (t : thread_t)
    : Z * option nat * Z * option nat * option nat * option nat * option nat :=
  (tid t, process t, wake t, acquired_lock t, mutex_nextwait t,
   older_sibling t, younger_sibling t).

(** What a change of the state of the threads in [P] leaves alone:
    the globals, the identity of every thread, the state of every
    thread outside [P], and which processes there are. *)
Definition sched_frame (P : nat → Prop) (k k' : kernel) : Prop :=
  same_globals k k' ∧
  (∀ b, (thread_ident <$> tcbs k' !! b) = (thread_ident <$> tcbs k !! b)) ∧
  (∀ b, ¬ P b → state_of k' b = state_of k b) ∧
  (∀ p, is_Some (pcbs k' !! p) ↔ is_Some (pcbs k !! p)).

(** The thread [a] is in the run queue, in the sleep queue or in no
    list. *)
Definition sched_placed (k : kernel) (a : nat) (lr ls : list nat) : Prop :=
  a ∈ lr ∨ a ∈ ls ∨ (thr_list <$> tcbs k !! a) = Some None.

#[global] Instance sched_placed_dec k a lr ls : Decision (sched_placed k a lr ls).
Proof. unfold sched_placed. apply _. Defined.

(** The sleepers whose time has come at the tick [T], and the others. *)
Definition due (k : kernel) (T : Z) (ls : list nat) : list nat :=
  filter (λ b, wake_of k b ≤ T) ls.

Definition not_due (k : kernel) (T : Z) (ls : list nat) : list nat :=
  filter (λ b, T < wake_of k b) ls.

(** The kernel of [kernel_sleepers] at tick 9, with the running thread
    as the idle thread. *)
Definition kernel_idling : kernel := {|
  tcbs := tcbs kernel_sleepers;
  pcbs := pcbs kernel_sleepers;
  running := running kernel_sleepers;
  sleeping := sleeping kernel_sleepers;
  idle_thread := Some 1%nat;
  num_ticks := 9;
  no_switch := false;
  mutexes := mutexes kernel_sleepers;
  operational := operational kernel_sleepers;
|}.

(** * The rest of lock/mutex.c *)

Definition with_operational (k : kernel) (b : bool) : kernel :=
  {| tcbs := tcbs k; pcbs := pcbs k; running := running k;
     sleeping := sleeping k; idle_thread := idle_thread k;
     num_ticks := num_ticks k; no_switch := no_switch k;
     mutexes := mutexes k; operational := b |}.

Definition install_mutex (k : kernel) : kernel := with_operational k true.

(** [mutex_init] fills the six fields of the mutex at [mp], whatever
    that memory held. *)
Definition mutex_init (mp : nat) (k : kernel) : kernel :=
  with_mutexes k
    (<[mp := {| first_waiting := None; last_waiting := None; owner := None;
                list_owner := None; mlock := false; previous_lock := None |}]>
       (mutexes k)).

(** [mutex_lock] is seen, like [mutex_unlock], at the grain of the
    sections that run with the interaction lock held: from the end of
    a loop on [testandset] to the next [_yield] or to the return.  A
    section ends in one of the two. *)
Inductive lock_step :=
| LOCK_RETURN
| LOCK_YIELD (tid : Z).

(** The end of [mutex_lock], from the test for a relock on. *)
Definition lock_acquire (me mp : nat) (k : kernel) : outcome kernel :=
  tme ← load_thread me k;
  if decide (Some mp = acquired_lock tme) then ThreadPanic
  else
    k ← mutex_set mp (λ m, with_previous_lock m (acquired_lock tme)) k;
    k ← thread_set me (λ t, with_acquired_lock t (Some mp)) k;
    k ← mutex_set mp (λ m, with_mlock m false) k;
    mutex_set mp (λ m, with_list_owner m None) k.

(** One test of [while (mp->owner != me)]: when it holds, the body up
    to its [_yield]; when it fails, the end of the function. *)
Definition lock_wait (waiting : bool) (me mp : nat) (k : kernel)
    : outcome (kernel * lock_step) :=
  m ← load_mutex mp k;
  if decide (owner m ≠ Some me) then
    k ← (if negb waiting then waitlist_addLast mp (Some me) k else Ret k);
    k ← mutex_set mp (λ m, with_mlock m false) k;
    k ← mutex_set mp (λ m, with_list_owner m None) k;
    m ← load_mutex mp k;
    o ← deref (owner m);
    t ← load_thread o k;
    Ret (k, LOCK_YIELD (tid t))
  else
    k ← lock_acquire me mp k;
    Ret (k, LOCK_RETURN).

(** [mutex_lock] from its first line, the loop on [testandset] done. *)
Definition mutex_lock_enter (mp : nat) (k : kernel)
    : outcome (kernel * lock_step) :=
  if negb (operational k) then Ret (k, LOCK_RETURN)
  else
    me ← get_self k;
    k ← mutex_set mp (λ m, with_list_owner m (Some me)) k;
    m ← load_mutex mp k;
    if decide (owner m = None) then
      k ← mutex_set mp (λ m, with_owner m (Some me)) k;
      k ← lock_acquire me mp k;
      Ret (k, LOCK_RETURN)
    else lock_wait false me mp k.

(** [mutex_lock] from the return of the [_yield] of its loop, the loop
    on [testandset] behind it done; [me] is the local variable of that
    name, and [waiting] is set. *)
Definition mutex_lock_resume (me mp : nat) (k : kernel)
    : outcome (kernel * lock_step) :=
  k ← mutex_set mp (λ m, with_list_owner m (Some me)) k;
  lock_wait true me mp k.

(** The fields of a mutex and of a thread that the mutex functions
    read, by name. *)
Definition owner_of (k : kernel) (mp : nat) : option (option nat) :=
  owner <$> mutexes k !! mp.

Definition acquired_by (k : kernel) (a : nat) : option (option nat) :=
  acquired_lock <$> tcbs k !! a.

Definition previous_of (k : kernel) (mp : nat) : option (option nat) :=
  previous_lock <$> mutexes k !! mp.

Definition interaction_lock (k : kernel) (mp : nat) : option bool :=
  mlock <$> mutexes k !! mp.

(** The kernel of [kernel_sleepers] with a mutex at key 7 that the
    sleeper 33 (key 2) owns and nobody waits for. *)
Definition kernel_contended : kernel :=
  with_mutexes
    (with_tcbs kernel_sleepers
       (<[2%nat := with_acquired_lock
                     (example_thread 33 THR_SLEEPING L_sleeping (Some 3%nat) None 10)
                     (Some 7%nat)]> (tcbs kernel_sleepers)))
    {[ 7%nat := {| mlock := true; owner := Some 2%nat; list_owner := None;
                   first_waiting := None; last_waiting := None;
                   previous_lock := None |} ]}.

(** The kernel of [kernel_mutex] with thread 33 (key 2) as the only
    waiter for the mutex; the field [mutex_nextwait] of that thread
    still names thread 34 (key 3), from an earlier wait. *)
Definition kernel_last_waiter : kernel :=
  with_mutexes kernel_mutex
    {[ 7%nat := {| mlock := true; owner := Some 1%nat; list_owner := None;
                   first_waiting := Some 2%nat; last_waiting := Some 2%nat;
                   previous_lock := None |} ]}.

(** The same kernel once [waitlist_removeHead] has taken that waiter. *)
Definition kernel_left_behind : kernel :=
  with_mutexes kernel_mutex
    {[ 7%nat := {| mlock := true; owner := Some 1%nat; list_owner := None;
                   first_waiting := Some 3%nat; last_waiting := None;
                   previous_lock := None |} ]}.

(** ** Schedules of mutex code

    A schedule is a list of sections, each run by the thread that is
    put on the processor for it ([set_running], which [context_switch]
    calls): a call of [mutex_lock] up to its return or its [_yield],
    the part of [mutex_lock] from the return of that [_yield] to the
    next one or to the return, or a call of [mutex_unlock]. *)
Inductive mutex_section :=
| MX_LOCK (t : nat)
| MX_RESUME (t : nat)
| MX_UNLOCK (t : nat).

Definition mutex_section_thread (s : mutex_section) : nat :=
  match s with MX_LOCK t | MX_RESUME t | MX_UNLOCK t => t end.

Definition mutex_section_run (fuel : nat) (mp : nat) (s : mutex_section)
    (k : kernel) : outcome kernel :=
  '(err, k) ← set_running (Some (mutex_section_thread s)) k;
  if decide (err ≠ 0) then Undefined
  else
    match s with
    | MX_LOCK _ => '(k, _) ← mutex_lock_enter mp k; Ret k
    | MX_RESUME t => '(k, _) ← mutex_lock_resume t mp k; Ret k
    | MX_UNLOCK _ => '(k, _) ← mutex_unlock fuel mp k; Ret k
    end.

Fixpoint mutex_schedule (fuel : nat) (mp : nat) (ss : list mutex_section)
    (k : kernel) : outcome kernel :=
  match ss with
  | [] => Ret k
  | s :: ss' => k ← mutex_section_run fuel mp s k; mutex_schedule fuel mp ss' k
  end.

(** Three runnable threads of process 1 (32, 33 and 34, at the keys 1,
    2 and 3) in the run queue, thread 32 on the processor, and no
    mutex yet. *)
Definition kernel_three : kernel := {|
  tcbs := {[ 1%nat := example_thread 32 THR_RUNNING L_running (Some 2%nat) None 0;
             2%nat := example_thread 33 THR_RUNNING L_running (Some 3%nat)
                        (Some 1%nat) 0;
             3%nat := example_thread 34 THR_RUNNING L_running None (Some 2%nat) 0 ]};
  pcbs := {[ 1%nat := proc_fresh ]};
  running := {| head := Some 1%nat; tail := Some 3%nat; size := 3 |};
  sleeping := empty_thrlist;
  idle_thread := None;
  num_ticks := 0;
  no_switch := false;
  mutexes := ∅;
  operational := true;
|}.

(** Thread 32 takes the mutex, threads 33 and 34 queue for it and get
    it in turn; thread 33 queues again while thread 34 holds it, and
    gets it when thread 34 lets go. *)
Definition schedule_requeue : list mutex_section :=
  [MX_LOCK 1; MX_LOCK 2; MX_LOCK 3; MX_UNLOCK 1; MX_RESUME 2; MX_UNLOCK 2;
   MX_RESUME 3; MX_LOCK 2; MX_UNLOCK 3; MX_RESUME 2]%nat.

(** * Reader/writer locks: the hand-over between writers *)

(** The sections that can run between the wake-up of a writer and its
    return from [cond_wait], when no thread leaves the lock: calls of
    [rwlock_lock], and returns from [cond_wait] of threads that were
    not woken as writers in [s]. *)
Definition rw_newcomer (s : rw_system) (e : rw_event) : Prop :=
  match e with
  | EV_LOCK _ _ => True
  | EV_WOKEN u => rw_pos_of s u ≠ RW_WOKEN RWLOCK_WRITE
  | EV_UNLOCK _ => False
  end.

#[global] Instance rw_newcomer_dec s e : Decision (rw_newcomer s e).
Proof. destruct e; simpl; apply _. Defined.

(** A lock that thread 1 holds as a writer, with thread 3 waiting to
    write and thread 2 waiting to read. *)
Definition rw_writer_leaving : rw_system := {|
  rw_lock := {| writer_in := true; readers_in := 0; writers_waiting := 1;
                readers_waiting := 1; no_threads_in := [3%nat];
                no_writers_in := [2%nat] |};
  rw_threads := {[ 1%nat := RW_IN RWLOCK_WRITE; 3%nat := RW_WAIT RWLOCK_WRITE;
                   2%nat := RW_WAIT RWLOCK_READ ]};
|}.

(** * The rest of prog/process.c *)

Definition with_parent (p : process_t) (x : option nat) : process_t :=
  {| pid := pid p; exit_status := exit_status p; p_state := p_state p;
     p_cr3 := p_cr3 p; memregions := memregions p;
     next_memregion_idx := next_memregion_idx p;
     parent := x; youngest_child := youngest_child p;
     p_older_sibling := p_older_sibling p;
     p_younger_sibling := p_younger_sibling p; children := children p;
     youngest_thread := youngest_thread p; original_tid := original_tid p;
     threads := threads p; waiting := waiting p |}.

(** The loop of [vanish_process] over the children: [fuel] rounds are
    left; the result is the value [last] has when the loop ends. *)
Fixpoint adopt_scan (fuel : nat) (init_task : nat) (last current : option nat)
    (k : kernel) : outcome (option nat * kernel) :=
  match current with
  | None => Ret (last, k)
  | Some c =>
      match fuel with
      | O => Undefined
      | S fuel' =>
          k ← process_set c (λ x, with_parent x (Some init_task)) k;
          pc ← load_process c k;
          adopt_scan fuel' init_task (Some c) (p_older_sibling pc) k
      end
  end.

(** [vanish_process].  [init_thread] is the static variable of
    thread.c that [init()] returns, which is not part of the state. *)
Definition vanish_process (fuel : nat) (init_thread : option nat)
    (proc : option nat) (k : kernel) : outcome (Z * kernel) :=
  match proc with
  | None => Ret (ERR_ARG_NULL, k)
  | Some p =>
      pr ← load_process p k;
      if decide (threads pr > 0) then Ret (ERR_ACTIVE_THREADS, k)
      else
        k ← (if decide (children pr > 0) then
               it ← deref init_thread;
               tinit ← load_thread it k;
               match process tinit with
               | None => KernelPanic
               | Some init_task =>
                   k ← process_set init_task
                         (λ x, with_children x (u32 (children x + children pr))) k;
                   pr ← load_process p k;
                   '(last, k) ← adopt_scan fuel init_task None (youngest_child pr) k;
                   l ← deref last;
                   pi ← load_process init_task k;
                   k ← process_set l
                         (λ x, with_p_older_sibling x (youngest_child pi)) k;
                   pi ← load_process init_task k;
                   k ← (match youngest_child pi with
                        | Some y =>
                            process_set y (λ x, with_p_younger_sibling x last) k
                        | None => Ret k
                        end);
                   pr ← load_process p k;
                   process_set init_task
                     (λ x, with_youngest_child x (youngest_child pr)) k
               end
             else Ret k);
        k ← process_set p (λ x, with_p_state x EXITED) k;
        Ret (0, k)
  end.

(** ** The threads of a process

    [thread_family m p y c l]: from [c] the field [older_sibling] leads
    through the threads [l], in this order, to [NULL]; each of them
    belongs to the process [p] and has its younger neighbour in
    [younger_sibling], the first one [y]. *)
Fixpoint thread_family (m : gmap nat thread_t) (p : nat) (y c : option nat)
    (l : list nat) : Prop :=
  match l with
  | [] => c = None
  | a :: l' =>
      c = Some a ∧
      match m !! a with
      | Some t =>
          process t = Some p ∧ younger_sibling t = y ∧
          thread_family m p (Some a) (older_sibling t) l'
      | None => False
      end
  end.

#[global] Instance thread_family_dec m p y c l : Decision (thread_family m p y c l).
Proof.
  revert y c. induction l as [|a l IH]; intros y c; simpl; [apply _|].
  destruct (m !! a); apply _.
Defined.

(** The kernel of [kernel_wait_free] with a second thread, 41 (key 6),
    in the process of the exited child: thread 40 (key 5) is the
    youngest. *)
Definition kernel_family : kernel :=
  with_tcbs kernel_wait_free
    (<[5%nat := with_siblings zombie_thread (Some 6%nat) None]>
       (<[6%nat := {| tid := 41; state := THR_ZOMBIE; process := Some 2%nat;
                      thr_list := None; next := None; prev := None;
                      older_sibling := None; younger_sibling := Some 5%nat;
                      wake := 0; acquired_lock := None;
                      mutex_nextwait := None |}]>
          (tcbs kernel_wait_free))).

Definition example_process (pid : Z) (parent youngest_child older : option nat)
    (children threads : Z) : process_t :=
  {| pid := pid; exit_status := -1; p_state := RUNNING; p_cr3 := 0x100000;
     memregions := zero_table; next_memregion_idx := 0;
     parent := parent; youngest_child := youngest_child;
     p_older_sibling := older; p_younger_sibling := None;
     children := children; youngest_thread := None; original_tid := -1;
     threads := threads; waiting := empty_thrlist |}.

(** The kernel of [kernel_sleepers] with three processes: process 1,
    to which the threads belong, has the child 2, whose threads have
    all vanished and which has the child 3. *)
Definition kernel_orphans : kernel :=
  with_pcbs kernel_sleepers
    {[ 1%nat := example_process 1 None (Some 2%nat) None 1 1;
       2%nat := example_process 2 (Some 1%nat) (Some 3%nat) None 1 0;
       3%nat := example_process 3 (Some 2%nat) None None 0 1 ]}.

(** * The end of a child: what [wait] relies on *)

(** The entries whose frames [destroy_paging] gives back: the present
    user entries that are neither [ZEROPAGE] nor [GLOBAL]. *)
Definition owned_entry (w : Z) : bool :=
  negb (PE_GETFLAG w PTE_ZEROPAGE) && PE_GETFLAG w PTE_PRESENT &&
  negb (PE_GETFLAG w PTE_GLOBAL) && PE_GETFLAG w PTE_USER.

(** How many times [x] occurs in [l]. *)
Definition occurrences (x : Z) (l : list Z) : Z :=
  Z.of_nat (length (filter (λ y, y = x) l)).

(** The page tables of the directory [d], in the order of its entries. *)
Definition dir_tables (d : list Z) : list Z :=
  PE_GETADDR <$> filter (λ e, PE_GETFLAG e PDE_PRESENT = true) d.

Section ChildSpace.
Context `{Platform}.

(** The frames of user memory that the entries of the table [t] own,
    by the index of their counter, in the order of the entries. *)
Definition table_frames (t : list Z) : list Z :=
  FRAME_ID ∘ PE_GETADDR <$>
    filter (λ w, owned_entry w = true ∧ FRAME_ID (PE_GETADDR w) ≠ -1) t.

(** The same for the page tables at the addresses [tables]. *)
Definition space_frames (vm : vm_state) (tables : list Z) : list Z :=
  tables ≫= λ a, table_frames (default [] (ptmem vm !! a)).

(** The frame table counts every frame of [fs] at least as often as
    it occurs in [fs]. *)
Definition frames_held (fs : list Z) (t : frame_table) : Prop :=
  Forall (λ x, from_option (λ c, occurrences x fs ≤ c) False
                 (zlookup (frames t) x)) fs.

(** The address space under the directory at [dir] is one that
    [destroy_paging] can take apart: the directory and the page
    tables of its present entries are page-sized arrays of the kernel
    heap, all at different addresses, and every frame that the
    entries of these tables own is counted at least as often as they
    own it. *)
Definition space_wf (dir : Z) (vm : vm_state) : Prop :=
  match ptmem vm !! dir with
  | Some d =>
      Z.of_nat (length d) = PAGE_TABLE_ENTRIES ∧
      NoDup (dir :: dir_tables d) ∧
      Forall (table_present vm) (dir_tables d) ∧
      frames_held (space_frames vm (dir_tables d)) (ft vm)
  | None => False
  end.

#[global] Instance frames_held_dec fs t : Decision (frames_held fs t).
Proof.
  unfold frames_held. apply Forall_dec. intros x.
  destruct (zlookup (frames t) x); simpl; apply _.
Defined.

#[global] Instance space_wf_dec dir vm : Decision (space_wf dir vm).
Proof. unfold space_wf. destruct (ptmem vm !! dir); apply _. Defined.
End ChildSpace.



(** The child [c], with the block [pc], can be buried by its parent
    [task]: it has exited and its original thread is known; its
    threads [lt] are linked from [youngest_thread]; among the children
    of [task], the younger ones being [l1] and the older ones [l2], it
    names its parent and its younger neighbour; no thread is left on
    its list of waiting threads; and its address space can be taken
    apart. *)
Definition child_buriable `{Platform} (k : kernel) (vm : vm_state)
    (task c : nat) (pc : process_t) (l1 l2 : list nat) (lt : list nat) : Prop :=
  p_state pc = EXITED ∧ original_tid pc ≠ -1 ∧
  parent pc = Some task ∧ p_younger_sibling pc = last l1 ∧
  NoDup (task :: l1 ++ c :: l2) ∧
  thread_family (tcbs k) c None (youngest_thread pc) lt ∧ NoDup lt ∧
  size (waiting pc) = 0 ∧
  counters_ok (ft vm) ∧ space_wf (p_cr3 pc) vm.

#[global] Instance child_buriable_dec `{Platform} k vm task c pc l1 l2 lt :
  Decision (child_buriable k vm task c pc l1 l2 lt).
Proof. unfold child_buriable. apply _. Defined.


(** * Facts *)

(** ** Outcomes *)

Lemma bind_Ret {A B} (a : A) (f : A → outcome B) : (Ret a ≫= f) = f a.
Proof. reflexivity. Qed.

Lemma bind_Ret_inv {A B} (m : outcome A) (f : A → outcome B) (b : B) :
  (m ≫= f) = Ret b → ∃ a, m = Ret a ∧ f a = Ret b.
Proof. destruct m; simpl; intros Hm; try discriminate. eauto. Qed.

Lemma deref_Ret {A} (o : option A) (a : A) : deref o = Ret a ↔ o = Some a.
Proof. destruct o; simpl; split; congruence. Qed.

(** ** Arrays indexed by C integers *)

Lemma zlookup_Some {A} (l : list A) (i : Z) (x : A) :
  zlookup l i = Some x ↔ 0 ≤ i ∧ l !! Z.to_nat i = Some x.
Proof.
  unfold zlookup. destruct (decide (0 ≤ i)); [tauto|].
  split; [discriminate | tauto].
Qed.

Lemma zlookup_lt {A} (l : list A) (i : Z) (x : A) :
  zlookup l i = Some x → 0 ≤ i < Z.of_nat (length l).
Proof.
  intros [Hi Hl]%zlookup_Some. apply lookup_lt_Some in Hl. lia.
Qed.

Lemma zlookup_zupdate_eq {A} (l : list A) (i : Z) (x : A) :
  0 ≤ i < Z.of_nat (length l) → zlookup (zupdate l i x) i = Some x.
Proof.
  intros Hi. unfold zlookup, zupdate. rewrite !decide_True by lia.
  apply list_lookup_insert_eq. lia.
Qed.

Lemma zlookup_zupdate_ne {A} (l : list A) (i j : Z) (x : A) :
  i ≠ j → zlookup (zupdate l i x) j = zlookup l j.
Proof.
  intros Hij. unfold zlookup, zupdate.
  destruct (decide (0 ≤ j)), (decide (0 ≤ i)); try done.
  apply list_lookup_insert_ne. lia.
Qed.

Lemma length_zupdate {A} (l : list A) (i : Z) (x : A) :
  length (zupdate l i x) = length l.
Proof. unfold zupdate. case_decide; [apply length_insert | done]. Qed.

Lemma zupdate_id {A} (l : list A) (i : Z) (x : A) :
  zlookup l i = Some x → zupdate l i x = l.
Proof.
  intros [Hi Hl]%zlookup_Some. unfold zupdate. rewrite decide_True by done.
  by apply list_insert_id.
Qed.

Lemma zupdate_zupdate {A} (l : list A) (i : Z) (x y : A) :
  zupdate (zupdate l i x) i y = zupdate l i y.
Proof.
  unfold zupdate. case_decide; [apply list_insert_insert_eq | done].
Qed.

(** ** Page-table words, bit by bit *)

Lemma testbit_FLAGS_MASK n : 0 ≤ n → Z.testbit FLAGS_MASK n = (n <? 12).
Proof.
  intros Hn. change FLAGS_MASK with (Z.ones 12).
  rewrite Z.testbit_ones by lia.
  destruct (Z.leb_spec 0 n); [done | lia].
Qed.

Lemma testbit_ADDR_MASK n :
  0 ≤ n → Z.testbit ADDR_MASK n = (12 <=? n) && (n <? 32).
Proof.
  intros Hn. change ADDR_MASK with (Z.shiftl (Z.ones 20) 12).
  rewrite Z.shiftl_spec by lia.
  destruct (Z.leb_spec 12 n).
  - rewrite Z.testbit_ones by lia.
    destruct (Z.leb_spec 0 (n - 12)), (Z.ltb_spec (n - 12) 20),
      (Z.ltb_spec n 32); simpl; lia.
  - rewrite Z.testbit_neg_r by lia. done.
Qed.

Lemma testbit_flag k n : 0 ≤ k → Z.testbit (Z.shiftl 1 k) n = (n =? k).
Proof.
  intros Hk. rewrite Z.shiftl_1_l, Z.pow2_bits_eqb by done.
  apply Z.eqb_sym.
Qed.

Lemma land_flag x k :
  0 ≤ k → Z.land x (Z.shiftl 1 k) = if Z.testbit x k then Z.shiftl 1 k else 0.
Proof.
  intros Hk. apply Z.bits_inj'. intros n Hn.
  rewrite Z.land_spec, testbit_flag by done.
  destruct (Z.eqb_spec n k) as [->|Hne].
  - destruct (Z.testbit x k); simpl; [by rewrite testbit_flag, Z.eqb_refl|].
    by rewrite Z.bits_0.
  - rewrite andb_false_r.
    destruct (Z.testbit x k); [|by rewrite Z.bits_0].
    rewrite testbit_flag by done. symmetry. by apply Z.eqb_neq.
Qed.

(** A flag of the low twelve bits is read as that bit of the word. *)
Lemma PE_GETFLAG_testbit pe k :
  0 ≤ k < 12 → PE_GETFLAG pe (Z.shiftl 1 k) = Z.testbit pe k.
Proof.
  intros Hk. unfold PE_GETFLAG. rewrite land_flag by lia.
  rewrite Z.land_spec, testbit_FLAGS_MASK by lia.
  destruct (Z.ltb_spec k 12); [|lia]. rewrite andb_true_r.
  destruct (Z.testbit pe k); [|done].
  rewrite Z.shiftl_1_l.
  destruct (Z.eqb_spec (2 ^ k) 0) as [H0|]; [|done].
  pose proof (Z.pow_pos_nonneg 2 k). lia.
Qed.

Lemma testbit_PE_SETFLAG pe k n :
  0 ≤ k → Z.testbit (PE_SETFLAG pe (Z.shiftl 1 k)) n = Z.testbit pe n || (n =? k).
Proof. intros Hk. unfold PE_SETFLAG. by rewrite Z.lor_spec, testbit_flag. Qed.

Lemma testbit_PE_UNSETFLAG pe k n :
  0 ≤ k → 0 ≤ n →
  Z.testbit (PE_UNSETFLAG pe (Z.shiftl 1 k)) n = Z.testbit pe n && negb (n =? k).
Proof.
  intros Hk Hn. unfold PE_UNSETFLAG.
  by rewrite Z.land_spec, Z.lnot_spec, testbit_flag.
Qed.

Lemma testbit_PE_SETADDR pe addr n :
  0 ≤ n →
  Z.testbit (PE_SETADDR pe addr) n =
    if n <? 12 then Z.testbit pe n else Z.testbit addr n && (n <? 32).
Proof.
  intros Hn. unfold PE_SETADDR.
  rewrite Z.lor_spec, !Z.land_spec, testbit_ADDR_MASK, testbit_FLAGS_MASK by done.
  destruct (Z.ltb_spec n 12), (Z.leb_spec 12 n); try lia; simpl.
  - by rewrite !andb_false_r, andb_true_r.
  - by rewrite andb_false_r, orb_false_r.
Qed.

Lemma testbit_PE_GETADDR pe n :
  0 ≤ n → Z.testbit (PE_GETADDR pe) n = Z.testbit pe n && (12 <=? n) && (n <? 32).
Proof.
  intros Hn. unfold PE_GETADDR.
  rewrite Z.land_spec, testbit_ADDR_MASK by done. by rewrite andb_assoc.
Qed.

(** The flags the source uses, as bits. *)
Lemma PTE_flag_bits pe :
  PE_GETFLAG pe PTE_PRESENT = Z.testbit pe 0 ∧
  PE_GETFLAG pe PTE_READWRITE = Z.testbit pe 1 ∧
  PE_GETFLAG pe PTE_USER = Z.testbit pe 2 ∧
  PE_GETFLAG pe PTE_GLOBAL = Z.testbit pe 8 ∧
  PE_GETFLAG pe PTE_ZEROPAGE = Z.testbit pe 9 ∧
  PE_GETFLAG pe PTE_COPYONWRITE = Z.testbit pe 10.
Proof. repeat split; apply PE_GETFLAG_testbit; lia. Qed.

(** ** The frame allocator *)

Section FrameFacts.
Context `{Platform}.

Lemma FRAME_ID_kernel frame : frame < USER_MEM_START → FRAME_ID frame = -1.
Proof. intros Hk. unfold FRAME_ID. by rewrite decide_True. Qed.

Lemma FRAME_ID_user frame :
  USER_MEM_START ≤ frame → FRAME_ID frame = (frame - USER_MEM_START) / 4096.
Proof.
  intros Hu. unfold FRAME_ID. rewrite decide_False by lia.
  by rewrite Z.shiftr_div_pow2.
Qed.

Lemma FRAME_ID_nonneg frame : FRAME_ID frame ≠ -1 → 0 ≤ FRAME_ID frame.
Proof.
  unfold FRAME_ID. case_decide; [done|]. intros _.
  apply Z.shiftr_nonneg. lia.
Qed.

(** C7.  A frame is a page-aligned physical address.  Acquiring a
    frame whose counter holds 255 fails with
    [ERR_TOO_MANY_FRAME_OWNERS], acquiring a frame below
    [USER_MEM_START] fails with [ERR_KERNEL_FRAME], and in both cases
    the frame table, counters and hint, is returned as it was. *)
Theorem get_frame_refusals (ft : frame_table) (frame : Z) :
  frame `mod` PAGE_SIZE = 0 →
  (zlookup (frames ft) (FRAME_ID frame) = Some 255 →
     get_frame frame ft = Ret (ERR_TOO_MANY_FRAME_OWNERS, ft)) ∧
  (frame < USER_MEM_START →
     get_frame frame ft = Ret (ERR_KERNEL_FRAME, ft)).
Proof.
  intros Haligned. unfold get_frame, _get_frame.
  rewrite decide_False by (intros Hne; apply Hne, Haligned).
  split.
  - intros Hcount.
    destruct (decide (FRAME_ID frame = -1)) as [Hid|Hid].
    + rewrite Hid in Hcount. discriminate.
    + rewrite Hcount. simpl. reflexivity.
  - intros Hkernel. by rewrite decide_True by by apply FRAME_ID_kernel.
Qed.
End FrameFacts.

Lemma get_frame_refusals_witness :
  let ft := {| frames := [1; 255; 0]; next_available_frame := 2 |} in
  @get_frame pebbles 0x01001000 ft = Ret (ERR_TOO_MANY_FRAME_OWNERS, ft) ∧
  @get_frame pebbles 0x00005000 ft = Ret (ERR_KERNEL_FRAME, ft).
Proof.
  split.
  - apply (@get_frame_refusals pebbles); reflexivity.
  - apply (@get_frame_refusals pebbles); [reflexivity | vm_compute; reflexivity].
Defined.

(** ** Page-table memory *)

Lemma read_pe_Ret p vm w :
  read_pe p vm = Ret w ↔
  ∃ t, ptmem vm !! p.1 = Some t ∧ zlookup t p.2 = Some w.
Proof.
  unfold read_pe. destruct (ptmem vm !! p.1) as [t|]; simpl.
  - rewrite deref_Ret. split.
    + intros Hw. by exists t.
    + by intros (t' & [= <-] & Hw).
  - split; [discriminate | by intros (t' & Ht & _)].
Qed.

Lemma write_pe_Ret p w vm vm' :
  write_pe p w vm = Ret vm' ↔
  ∃ t w0, ptmem vm !! p.1 = Some t ∧ zlookup t p.2 = Some w0 ∧
          vm' = set_ptmem vm (<[p.1 := zupdate t p.2 w]> (ptmem vm)).
Proof.
  unfold write_pe. destruct (ptmem vm !! p.1) as [t|]; simpl.
  - destruct (zlookup t p.2) as [w0|] eqn:Hw0; simpl.
    + split.
      * intros [= <-]. by exists t, w0.
      * by intros (t' & w0' & [= <-] & _ & ->).
    + split; [discriminate|].
      intros (t' & w0' & [= <-] & Hw & _). congruence.
  - split; [discriminate | by intros (t' & w0' & Ht & _)].
Qed.

Lemma write_pe_defined p w vm w0 :
  read_pe p vm = Ret w0 → ∃ vm', write_pe p w vm = Ret vm'.
Proof.
  intros (t & Ht & Hw)%read_pe_Ret. eexists. apply write_pe_Ret. eauto.
Qed.

Lemma read_write_pe_eq p w vm vm' :
  write_pe p w vm = Ret vm' → read_pe p vm' = Ret w.
Proof.
  intros (t & w0 & Ht & Hw0 & ->)%write_pe_Ret. apply read_pe_Ret.
  exists (zupdate t p.2 w). simpl. rewrite lookup_insert_eq. split; [done|].
  apply zlookup_zupdate_eq. eapply zlookup_lt, Hw0.
Qed.

Lemma read_write_pe_ne p q w vm vm' :
  write_pe p w vm = Ret vm' → q ≠ p → read_pe q vm' = read_pe q vm.
Proof.
  intros (t & w0 & Ht & Hw0 & ->)%write_pe_Ret Hqp.
  unfold read_pe. simpl.
  destruct (decide (q.1 = p.1)) as [Heq|Hne].
  - rewrite Heq, lookup_insert_eq, Ht. simpl.
    rewrite zlookup_zupdate_ne; [done|].
    intros Heq2. apply Hqp. destruct p, q; simpl in *; congruence.
  - by rewrite lookup_insert_ne.
Qed.

Lemma write_pe_fields p w vm vm' :
  write_pe p w vm = Ret vm' →
  ft vm' = ft vm ∧ cr3 vm' = cr3 vm ∧ zero_frame vm' = zero_frame vm ∧
  framedata vm' = framedata vm ∧ cow_buffer vm' = cow_buffer vm ∧
  kheap vm' = kheap vm.
Proof. intros (t & w0 & _ & _ & ->)%write_pe_Ret. done. Qed.

Lemma get_pte_Some va dir vm p :
  get_pte va dir vm = Ret (Some p) ↔
  ∃ pde, read_pe (dir, PDE_OFFSET va) vm = Ret pde ∧
         PE_GETFLAG pde PDE_PRESENT = true ∧
         p = (PE_GETADDR pde, PTE_OFFSET va).
Proof.
  unfold get_pte, get_pde.
  destruct (read_pe (dir, PDE_OFFSET va) vm) as [pde| | |]; simpl;
    try (split; [discriminate | by intros (pde' & Hr & _)]).
  destruct (PE_GETFLAG pde PDE_PRESENT) eqn:Hp.
  - split.
    + intros [= <-]. by exists pde.
    + by intros (pde' & [= <-] & _ & ->).
  - split; [discriminate | intros (pde' & [= <-] & Hp' & _); congruence].
Qed.

Lemma get_pte_None va dir vm :
  get_pte va dir vm = Ret None ↔
  ∃ pde, read_pe (dir, PDE_OFFSET va) vm = Ret pde ∧
         PE_GETFLAG pde PDE_PRESENT = false.
Proof.
  unfold get_pte, get_pde.
  destruct (read_pe (dir, PDE_OFFSET va) vm) as [pde| | |]; simpl;
    try (split; [discriminate | by intros (pde' & Hr & _)]).
  destruct (PE_GETFLAG pde PDE_PRESENT) eqn:Hp.
  - split; [discriminate | intros (pde' & [= <-] & Hp'); congruence].
  - split; [intros _; by exists pde | done].
Qed.

(** [get_pte] reads page-table memory and nothing else. *)
Lemma get_pte_ext va dir vm vm' :
  ptmem vm' = ptmem vm → get_pte va dir vm' = get_pte va dir vm.
Proof. intros Hpt. unfold get_pte, read_pe. by rewrite Hpt. Qed.

Lemma read_pe_ext p vm vm' :
  ptmem vm' = ptmem vm → read_pe p vm' = read_pe p vm.
Proof. intros Hpt. unfold read_pe. by rewrite Hpt. Qed.

(** ** Offsets and addresses *)

Lemma PTE_OFFSET_mod va : PTE_OFFSET va = (va / 4096) `mod` 1024.
Proof.
  unfold PTE_OFFSET. rewrite Z.shiftr_land.
  change (Z.shiftr PAGE_MASK 12) with (Z.ones 10).
  rewrite Z.land_ones, Z.shiftr_div_pow2 by lia. done.
Qed.

Lemma PDE_OFFSET_mod va : PDE_OFFSET va = (va / 4194304) `mod` 1024.
Proof.
  unfold PDE_OFFSET. rewrite Z.shiftr_land.
  change (Z.shiftr DIR_MASK 22) with (Z.ones 10).
  rewrite Z.land_ones, Z.shiftr_div_pow2 by lia. done.
Qed.

Lemma PTE_OFFSET_range va : 0 ≤ PTE_OFFSET va < 1024.
Proof. rewrite PTE_OFFSET_mod. apply Z.mod_pos_bound. lia. Qed.

Lemma PDE_OFFSET_range va : 0 ≤ PDE_OFFSET va < 1024.
Proof. rewrite PDE_OFFSET_mod. apply Z.mod_pos_bound. lia. Qed.

(** A page-aligned 32-bit address is its own page address. *)
Lemma land_ADDR_MASK_aligned a :
  0 ≤ a < 4294967296 → a `mod` PAGE_SIZE = 0 → Z.land a ADDR_MASK = a.
Proof.
  intros Ha Hal. apply Z.bits_inj'. intros n Hn.
  rewrite Z.land_spec, testbit_ADDR_MASK by done.
  destruct (Z.leb_spec 12 n), (Z.ltb_spec n 32); simpl;
    rewrite ?andb_true_r, ?andb_false_r; try done.
  - symmetry. rewrite <- (Z.mod_small a (2 ^ 32)) by lia.
    apply Z.mod_pow2_bits_high. lia.
  - symmetry. rewrite <- (Z.mod_pow2_bits_low a 12) by lia.
    change (2 ^ 12) with PAGE_SIZE. rewrite Hal. apply Z.bits_0.
  - lia.
Qed.

Lemma PE_GETADDR_SETADDR pe a :
  0 ≤ a < 4294967296 → a `mod` PAGE_SIZE = 0 → PE_GETADDR (PE_SETADDR pe a) = a.
Proof.
  intros Ha Hal. apply Z.bits_inj'. intros n Hn.
  rewrite testbit_PE_GETADDR, testbit_PE_SETADDR by done.
  rewrite <- (land_ADDR_MASK_aligned a Ha Hal) at 2.
  rewrite Z.land_spec, testbit_ADDR_MASK by done.
  destruct (Z.ltb_spec n 12), (Z.leb_spec 12 n), (Z.ltb_spec n 32);
    simpl; rewrite ?andb_true_r, ?andb_false_r; try done; lia.
Qed.

Lemma PE_GETFLAG_SETADDR pe a flag :
  PE_GETFLAG (PE_SETADDR pe a) flag = PE_GETFLAG pe flag.
Proof.
  unfold PE_GETFLAG. f_equal. f_equal. f_equal.
  apply Z.bits_inj'. intros n Hn.
  rewrite !Z.land_spec, testbit_PE_SETADDR, testbit_FLAGS_MASK by done.
  destruct (Z.ltb_spec n 12); [done|]. by rewrite !andb_false_r.
Qed.

Lemma u32_range z : 0 ≤ u32 z < 4294967296.
Proof. unfold u32. apply Z.mod_pos_bound. lia. Qed.

Lemma u32_small z : 0 ≤ z < 4294967296 → u32 z = z.
Proof. intros Hz. unfold u32. by apply Z.mod_small. Qed.

Lemma u8_small z : 0 ≤ z < 256 → u8 z = z.
Proof. intros Hz. unfold u8. by apply Z.mod_small. Qed.

Lemma u8_range z : 0 ≤ u8 z < 256.
Proof. unfold u8. apply Z.mod_pos_bound. lia. Qed.

Lemma PE_GETADDR_aligned w : PE_GETADDR w `mod` PAGE_SIZE = 0.
Proof.
  change PAGE_SIZE with (2 ^ 12). rewrite <- Z.land_ones by lia.
  unfold PE_GETADDR. rewrite <- Z.land_assoc.
  change (Z.land ADDR_MASK (Z.ones 12)) with 0. apply Z.land_0_r.
Qed.

Lemma PE_GETADDR_range w : 0 ≤ PE_GETADDR w < 4294967296.
Proof.
  unfold PE_GETADDR. split.
  - apply Z.land_nonneg. by right.
  - assert (Z.land w ADDR_MASK = Z.land w ADDR_MASK `mod` 2 ^ 32) as ->.
    { rewrite <- Z.land_ones by lia. rewrite <- Z.land_assoc.
      by change (Z.land ADDR_MASK (Z.ones 32)) with ADDR_MASK. }
    apply Z.mod_pos_bound. lia.
Qed.

(** ** The frame allocator, call by call *)

Section FrameCalls.
Context `{Platform}.

Lemma _get_frame_ok frame t t' :
  _get_frame frame t = Ret (0, t') →
  ∃ c, frame `mod` PAGE_SIZE = 0 ∧ FRAME_ID frame ≠ -1 ∧
       zlookup (frames t) (FRAME_ID frame) = Some c ∧ c ≠ 255 ∧
       frames t' = zupdate (frames t) (FRAME_ID frame) (u8 (c + 1)).
Proof.
  unfold _get_frame.
  destruct (decide (frame `mod` PAGE_SIZE ≠ 0)) as [|Hal]; [discriminate|].
  destruct (decide (FRAME_ID frame = -1)) as [|Hid]; [discriminate|].
  destruct (zlookup (frames t) (FRAME_ID frame)) as [c|] eqn:Hc;
    simpl; [|discriminate].
  destruct (decide (c = u8 (-1))) as [|Hsat]; [discriminate|].
  intros Hret. exists c.
  assert (frames t' = zupdate (frames t) (FRAME_ID frame) (u8 (c + 1))) as Hfr.
  { destruct (decide (FRAME_ID frame = next_available_frame t)).
    - destruct (find_available _ _ _); simpl in Hret; try discriminate.
      by injection Hret as <-.
    - by injection Hret as <-. }
  repeat split; try done.
  destruct (decide (frame `mod` PAGE_SIZE = 0)); [done|contradiction].
Qed.

Lemma allocate_frame_ok t nf t' :
  allocate_frame t = Ret (nf, t') → nf ≠ 0 →
  ∃ c, nf `mod` PAGE_SIZE = 0 ∧ 0 ≤ nf < 4294967296 ∧ FRAME_ID nf ≠ -1 ∧
       zlookup (frames t) (FRAME_ID nf) = Some c ∧ c ≠ 255 ∧
       frames t' = zupdate (frames t) (FRAME_ID nf) (u8 (c + 1)).
Proof.
  unfold allocate_frame, _allocate_frame.
  destruct (decide (next_available_frame t = -1)).
  { intros [= <- _] Hnf. done. }
  destruct (_get_frame _ t) as [[err t1]| | |] eqn:Hget; simpl; try discriminate.
  destruct (decide (err ≠ 0)) as [|Herr]; [discriminate|].
  intros [= <- <-] _.
  assert (err = 0) as -> by (destruct (decide (err = 0)); [done|contradiction]).
  apply _get_frame_ok in Hget as (c & ? & ? & ? & ? & ?).
  exists c. repeat split; try done; apply u32_range.
Qed.

Lemma free_frame_ok f t c :
  f `mod` PAGE_SIZE = 0 → FRAME_ID f ≠ -1 →
  zlookup (frames t) (FRAME_ID f) = Some c → c ≠ 0 →
  ∃ t', free_frame f t = Ret (0, t') ∧
        frames t' = zupdate (frames t) (FRAME_ID f) (u8 (c - 1)).
Proof.
  intros Hal Hid Hc Hc0. unfold free_frame.
  rewrite decide_False by (intros Hne; by apply Hne).
  rewrite decide_False by done. rewrite Hc. simpl.
  rewrite decide_False by done.
  destruct (decide _); eexists; split; done.
Qed.

Lemma counters_ok_zupdate t i c :
  counters_ok t →
  counters_ok {| frames := zupdate (frames t) i (u8 c);
                 next_available_frame := next_available_frame t |}.
Proof.
  unfold counters_ok, zupdate. simpl. intros Hok.
  case_decide; [|done]. apply Forall_insert; [done|]. apply u8_range.
Qed.

Lemma counters_ok_frames t t' :
  frames t' = frames t → counters_ok t → counters_ok t'.
Proof. unfold counters_ok. by intros ->. Qed.

Lemma counters_ok_frames_zupdate t t' i c :
  frames t' = zupdate (frames t) i (u8 c) → counters_ok t → counters_ok t'.
Proof.
  unfold counters_ok, zupdate. intros -> Hok.
  case_decide; [|done]. apply Forall_insert; [done|]. apply u8_range.
Qed.
End FrameCalls.

(** ** Writing page-table entries in a well-formed address space *)

Lemma pt_wf_cr3 vm : pt_wf vm → cr3 vm ≠ 0.
Proof. by intros (? & _). Qed.

Lemma pt_wf_dir vm :
  pt_wf vm → ∃ d, ptmem vm !! cr3 vm = Some d ∧ Forall (pde_ok vm) d.
Proof.
  intros (_ & Hd & _). destruct (ptmem vm !! cr3 vm) as [d|]; [|done].
  by exists d.
Qed.

Lemma pt_wf_pde vm k pde :
  pt_wf vm → read_pe (cr3 vm, k) vm = Ret pde → pde_ok vm pde.
Proof.
  intros (d & Hd & Hall)%pt_wf_dir (d' & Hd' & Hk)%read_pe_Ret.
  simpl in *. assert (d' = d) as -> by congruence.
  apply zlookup_Some in Hk as [_ Hk].
  eapply Forall_lookup_1 in Hall; done.
Qed.

Lemma table_clean_lookup t o w :
  table_clean t → zlookup t o = Some w → PE_GETFLAG w PTE_PRESENT = false → w = 0.
Proof.
  intros Hall [_ Ho]%zlookup_Some Hp.
  eapply Forall_lookup_1 in Hall; [|done]. by apply Hall.
Qed.

Lemma table_clean_zupdate t o w :
  table_clean t → PE_GETFLAG w PTE_PRESENT = true → table_clean (zupdate t o w).
Proof.
  unfold table_clean, zupdate. intros Hall Hp. case_decide; [|done].
  apply Forall_insert; [done|]. intros Hn. congruence.
Qed.

Lemma table_clean_zero_table : table_clean zero_table.
Proof.
  apply Forall_forall. intros w Hw _.
  by apply elem_of_replicate in Hw as [-> _].
Qed.

Lemma zlookup_zero_table o : 0 ≤ o < 1024 → zlookup zero_table o = Some 0.
Proof.
  intros Ho. apply zlookup_Some. split; [lia|].
  apply lookup_replicate. split; [done|].
  change (Z.to_nat PAGE_TABLE_ENTRIES) with (Z.to_nat 1024). lia.
Qed.

(** A mapped page's entry lies in a table other than the directory. *)
Lemma mapped_table vm va q w :
  pt_wf vm → mapped vm va q w →
  q.1 ≠ cr3 vm ∧ (q.1 ∉ kheap vm) ∧
  ∃ pde, read_pe (cr3 vm, PDE_OFFSET va) vm = Ret pde ∧
         PE_GETFLAG pde PDE_PRESENT = true ∧ q = (PE_GETADDR pde, PTE_OFFSET va).
Proof.
  intros Hwf ((pde & Hpde & Hp & ->)%get_pte_Some & Hq & Hw).
  destruct (pt_wf_pde _ _ _ Hwf Hpde Hp) as (? & ? & _).
  simpl. repeat split; try done. by exists pde.
Qed.

Lemma table_clean_zupdate' t o w :
  table_clean t → (PE_GETFLAG w PTE_PRESENT = false → w = 0) →
  table_clean (zupdate t o w).
Proof.
  unfold table_clean, zupdate. intros Hall Hp. case_decide; [|done].
  by apply Forall_insert.
Qed.

(** Writing the entry through which a page is resolved, with a word
    that is present or 0: the page is still resolved through it, every
    other mapping stands, and the address space stays well-formed. *)
Lemma write_resolved vm vm' va p w :
  pt_wf vm →
  get_pte va (cr3 vm) vm = Ret (Some p) →
  (PE_GETFLAG w PTE_PRESENT = false → w = 0) →
  write_pe p w vm = Ret vm' →
  get_pte va (cr3 vm') vm' = Ret (Some p) ∧ read_pe p vm' = Ret w ∧
  (∀ va' q w', mapped vm va' q w' → q ≠ p → mapped vm' va' q w') ∧
  pt_wf vm'.
Proof.
  intros Hwf Hg Hw0 Hwr.
  pose proof Hg as (pde & Hpde & Hpp & ->)%get_pte_Some.
  destruct (pt_wf_pde _ _ _ Hwf Hpde Hpp) as (Hncr3 & Hnheap & Hclean).
  destruct (write_pe_fields _ _ _ _ Hwr) as (_ & Hcr3 & _ & _ & _ & Hheap).
  assert (∀ k, read_pe (cr3 vm, k) vm' = read_pe (cr3 vm, k) vm) as Hdir.
  { intros k. eapply read_write_pe_ne; [done|]. intros [= Heq _]. done. }
  split; [|split; [by eapply read_write_pe_eq|split]].
  - rewrite Hcr3. apply get_pte_Some. exists pde. by rewrite Hdir.
  - intros va' q w' (Hg' & Hr' & Hp') Hne.
    split; [|split; [|done]].
    + rewrite Hcr3.
      apply get_pte_Some in Hg' as (pde' & Hpde' & Hpp' & ->).
      apply get_pte_Some. exists pde'. by rewrite Hdir.
    + by rewrite (read_write_pe_ne _ _ _ _ _ Hwr Hne).
  - destruct Hwf as (Hc & Hd & Hnd & Hhp).
    apply write_pe_Ret in Hwr as (t & w0' & Ht & _ & ->). simpl in *.
    rewrite Ht in Hclean. simpl in Hclean.
    split; [done|]. split; [|split; [done|done]].
    simpl. rewrite lookup_insert_ne by done.
    destruct (ptmem vm !! cr3 vm) as [d|]; [|done]. simpl in *.
    eapply Forall_impl; [exact Hd|]. intros pde' Hok Hpres.
    destruct (Hok Hpres) as (? & ? & Hcl). repeat split; try done.
    simpl. destruct (decide (PE_GETADDR pde' = PE_GETADDR pde)) as [->|Hne].
    + rewrite lookup_insert_eq. simpl. by apply table_clean_zupdate'.
    + by rewrite lookup_insert_ne.
Qed.

(** [create_page] when the page table is there: the entry is written
    over a word that is not present, hence 0. *)
Lemma map_in_table vm vm' va p w0 w :
  pt_wf vm →
  get_pte va (cr3 vm) vm = Ret (Some p) → read_pe p vm = Ret w0 →
  PE_GETFLAG w0 PTE_PRESENT = false → PE_GETFLAG w PTE_PRESENT = true →
  write_pe p w vm = Ret vm' →
  w0 = 0 ∧ mapped vm' va p w ∧
  (∀ va' q w', mapped vm va' q w' → q ≠ p ∧ mapped vm' va' q w') ∧
  pt_wf vm'.
Proof.
  intros Hwf Hg Hr Hnp Hp Hwr.
  destruct (write_resolved vm vm' va p w Hwf Hg) as (Hg' & Hr' & Hpres & Hwf');
    [congruence | done |].
  pose proof Hg as (pde & Hpde & Hpp & ->)%get_pte_Some.
  destruct (pt_wf_pde _ _ _ Hwf Hpde Hpp) as (_ & _ & Hclean).
  pose proof Hr as (t & Ht & Ho)%read_pe_Ret. simpl in Ht, Ho.
  rewrite Ht in Hclean. simpl in Hclean.
  split; [by eapply table_clean_lookup|].
  split; [done|]. split; [|done].
  intros va' q w' Hm.
  assert (q ≠ (PE_GETADDR pde, PTE_OFFSET va)) as Hne.
  { intros ->. destruct Hm as (_ & Hr'' & Hp''). congruence. }
  split; [done|]. by apply Hpres.
Qed.

Lemma PDE_flags_set d0 pt :
  let d := PE_SETADDR
             (PE_SETFLAG (PE_SETFLAG (PE_SETFLAG d0 PDE_PRESENT) PDE_READWRITE)
                PDE_USER) pt in
  PE_GETFLAG d PDE_PRESENT = true.
Proof.
  simpl. rewrite PE_GETFLAG_SETADDR.
  unfold PDE_PRESENT, PDE_READWRITE, PDE_USER.
  rewrite PE_GETFLAG_testbit, !testbit_PE_SETFLAG by lia.
  simpl. by rewrite !orb_true_r.
Qed.

(** [create_page] when the page table is missing: a zeroed page from
    the kernel heap becomes the table, the directory entry is pointed
    at it, and the entry is written into it. *)
Lemma map_in_new_table vm va pt rest d0 w vm3 vm4 :
  pt_wf vm → get_pte va (cr3 vm) vm = Ret None →
  kheap vm = pt :: rest →
  let vm2 := set_ptmem (set_kheap vm rest) (<[pt := zero_table]> (ptmem vm)) in
  let d := PE_SETADDR
             (PE_SETFLAG (PE_SETFLAG (PE_SETFLAG d0 PDE_PRESENT) PDE_READWRITE)
                PDE_USER) pt in
  read_pe (get_pde va (cr3 vm2)) vm2 = Ret d0 →
  write_pe (get_pde va (cr3 vm2)) d vm2 = Ret vm3 →
  PE_GETFLAG w PTE_PRESENT = true →
  write_pe (pt, PTE_OFFSET va) w vm3 = Ret vm4 →
  read_pe (pt, PTE_OFFSET va) vm3 = Ret 0 ∧
  mapped vm4 va (pt, PTE_OFFSET va) w ∧
  (∀ va' q w', mapped vm va' q w' →
     q ≠ (pt, PTE_OFFSET va) ∧ mapped vm4 va' q w') ∧
  pt_wf vm4.
Proof.
  intros Hwf Hg Hheap vm2 d Hd0 Hwd Hp Hww.
  pose proof Hwf as (Hc & Hdir & Hnd & Hhp).
  rewrite Hheap in Hnd, Hhp.
  apply NoDup_cons in Hnd as [Hnotin Hnd].
  apply Forall_cons in Hhp as [(Hal & Hrange & Hncr3) Hhp].
  apply get_pte_None in Hg as (d0' & Hd0' & Hnp).
  assert (∀ q, q.1 ≠ pt → read_pe q vm2 = read_pe q vm) as H2.
  { intros q Hq. unfold read_pe, vm2. simpl. by rewrite lookup_insert_ne. }
  unfold get_pde in Hd0, Hwd. change (cr3 vm2) with (cr3 vm) in Hd0, Hwd.
  rewrite H2 in Hd0 by done. assert (d0' = d0) as -> by congruence.
  assert (PE_GETFLAG d PDE_PRESENT = true) as Hdp by apply PDE_flags_set.
  assert (PE_GETADDR d = pt) as Hda by by apply PE_GETADDR_SETADDR.
  destruct (write_pe_fields _ _ _ _ Hwd) as (_ & Hcr3 & _ & _ & _ & Hk3).
  destruct (write_pe_fields _ _ _ _ Hww) as (_ & Hcr4 & _ & _ & _ & Hk4).
  assert (read_pe (pt, PTE_OFFSET va) vm3 = Ret 0) as Hzero.
  { rewrite (read_write_pe_ne _ _ _ _ _ Hwd) by (intros [= ? _]; done).
    apply read_pe_Ret. exists zero_table. unfold vm2. simpl.
    rewrite lookup_insert_eq. split; [done|].
    apply zlookup_zero_table, PTE_OFFSET_range. }
  assert (∀ k, read_pe (cr3 vm, k) vm4 = read_pe (cr3 vm, k) vm3) as Hdir4.
  { intros k. eapply read_write_pe_ne; [done|]. intros [= ? _]. done. }
  assert (∀ q, q.1 ≠ pt → q.1 ≠ cr3 vm → read_pe q vm4 = read_pe q vm) as Hold.
  { intros q Hq1 Hq2.
    rewrite (read_write_pe_ne _ _ _ _ _ Hww) by (intros ->; done).
    rewrite (read_write_pe_ne _ _ _ _ _ Hwd) by (intros ->; done).
    by apply H2. }
  split; [done|]. split; [|split].
  - split; [|split; [by eapply read_write_pe_eq | done]].
    rewrite Hcr4, Hcr3. apply get_pte_Some. exists d.
    rewrite Hdir4. split; [by eapply read_write_pe_eq|]. by rewrite Hda.
  - intros va' q w' Hm.
    destruct (mapped_table _ _ _ _ Hwf Hm) as (Hq1 & Hq2 & pde' & Hpde' & Hpp' & ->).
    destruct Hm as (_ & Hr' & Hp'). simpl in Hq1, Hq2.
    assert (PE_GETADDR pde' ≠ pt) as Hq3.
    { intros Heq. apply Hq2. rewrite Hheap, Heq. apply elem_of_cons. by left. }
    split; [intros [= ? _]; done|].
    split; [|split; [|done]].
    + rewrite Hcr4, Hcr3. apply get_pte_Some. exists pde'.
      split; [|done]. rewrite Hdir4.
      rewrite (read_write_pe_ne _ _ _ _ _ Hwd).
      * by rewrite H2.
      * intros [= Hk]. rewrite Hk in Hpde'. congruence.
    + by rewrite Hold.
  - split; [by rewrite Hcr4, Hcr3|].
    split; [|split; [by rewrite Hk4, Hk3 | ]].
    + destruct (ptmem vm !! cr3 vm) as [dir|] eqn:Hdm; [|done]. simpl in Hdir.
      apply write_pe_Ret in Hwd as (t2 & w2 & Ht2 & _ & Hvm3).
      apply write_pe_Ret in Hww as (t3 & w3 & Ht3 & _ & Hvm4).
      simpl in Ht2, Ht3.
      unfold vm2 in Ht2. simpl in Ht2. rewrite lookup_insert_ne in Ht2 by done.
      assert (t2 = dir) as -> by congruence.
      rewrite Hvm3 in Ht3. simpl in Ht3.
      rewrite lookup_insert_ne, lookup_insert_eq in Ht3 by done.
      assert (t3 = zero_table) as -> by congruence.
      assert (ptmem vm4 =
              <[pt := zupdate zero_table (PTE_OFFSET va) w]>
                (<[cr3 vm := zupdate dir (PDE_OFFSET va) d]>
                   (<[pt := zero_table]> (ptmem vm)))) as Hpt4.
      { rewrite Hvm4, Hvm3. done. }
      rewrite Hcr4, Hcr3, Hpt4.
      rewrite lookup_insert_ne, lookup_insert_eq by done. simpl.
      assert (∀ pde, pde_ok vm pde → pde_ok vm4 pde) as Hmono.
      { intros pde Hok Hpres. destruct (Hok Hpres) as (Ha & Hb & Hcl).
        assert (PE_GETADDR pde ≠ pt) as Hne.
        { intros Heq. apply Hb. rewrite Hheap, Heq. apply elem_of_cons. by left. }
        rewrite Hcr4, Hcr3, Hk4, Hk3, Hpt4. simpl.
        rewrite !lookup_insert_ne by done.
        repeat split; try done.
        intros Hin. apply Hb. rewrite Hheap. apply elem_of_cons. by right. }
      unfold zupdate. case_decide.
      * apply Forall_insert.
        -- eapply Forall_impl; [exact Hdir | exact Hmono].
        -- intros _. rewrite Hda, Hcr4, Hcr3, Hk4, Hk3, Hpt4. simpl.
           rewrite lookup_insert_eq. simpl.
           repeat split; try done.
           apply table_clean_zupdate; [apply table_clean_zero_table | done].
      * eapply Forall_impl; [exact Hdir | exact Hmono].
    + rewrite Hk4, Hk3. simpl.
      eapply Forall_impl; [exact Hhp|]. intros a (? & ? & ?).
      split; [done|]. split; [done|]. by rewrite Hcr4, Hcr3.
Qed.

(** ** [create_page] and [destroy_page] *)

(** Reads the flags of a word built by the [PE_] macros bit by bit. *)
Ltac flag_bits :=
  unfold PTE_PRESENT, PTE_READWRITE, PTE_USER, PTE_GLOBAL, PTE_ZEROPAGE,
    PTE_COPYONWRITE;
  rewrite ?PE_GETFLAG_testbit by lia;
  repeat first
    [ rewrite testbit_PE_SETFLAG by lia
    | rewrite testbit_PE_UNSETFLAG by lia
    | rewrite testbit_PE_SETADDR by lia ];
  simpl; rewrite ?Z.bits_0; simpl.

Section PageCalls.
Context `{Platform}.

Lemma entry_word_present w type ref nf zf :
  PE_GETFLAG (entry_word w type ref nf zf) PTE_PRESENT = true.
Proof.
  unfold entry_word.
  destruct (read_write_type type), (decide (type = MEM_TYPE_BSS)),
    (decide (ref ≠ 0)); flag_bits; by rewrite ?orb_true_r.
Qed.

Lemma create_page_undo_nonzero nf err vm vm' :
  err ≠ 0 → create_page_undo nf err vm ≠ Ret (0, vm').
Proof.
  intros Herr. unfold create_page_undo.
  destruct (free_frame nf (ft vm)) as [[e t]| | |]; simpl; try done.
  destruct (decide (e ≠ 0)); [done|]. intros [= ? _]. done.
Qed.

(** What a successful [create_page] leaves behind. *)
Lemma create_page_ok va type ref vm vm' :
  vm_wf vm → create_page va type ref vm = Ret (0, vm') →
  ∃ p nf,
    va `mod` PAGE_SIZE = 0 ∧
    mapped vm' va p (entry_word 0 type ref nf (zero_frame vm)) ∧
    (if decide (type ≠ MEM_TYPE_BSS ∧ ref = 0)
     then allocate_frame (ft vm) = Ret (nf, ft vm') ∧ nf ≠ 0
     else ft vm' = ft vm) ∧
    (∀ va' q w, mapped vm va' q w → q ≠ p ∧ mapped vm' va' q w) ∧
    pt_wf vm' ∧ cr3 vm' = cr3 vm ∧ zero_frame vm' = zero_frame vm ∧
    framedata vm' = framedata vm ∧ cow_buffer vm' = cow_buffer vm.
Proof.
  intros [Hwf Hcnt]. unfold create_page.
  destruct (decide (va `mod` PAGE_SIZE ≠ 0)) as [|Hal]; [discriminate|].
  destruct (decide (va < USER_MEM_START)); [discriminate|].
  destruct (decide (ref ≠ 0 ∧ ref `mod` PAGE_SIZE ≠ 0)); [discriminate|].
  destruct (decide (ref ≠ 0 ∧ ref < USER_MEM_START)); [discriminate|].
  assert (va `mod` PAGE_SIZE = 0) as Hal'
    by (destruct (decide (va `mod` PAGE_SIZE = 0)); [done|contradiction]).
  (* the frame *)
  set (alloc := if decide (type ≠ MEM_TYPE_BSS ∧ ref = 0)
                then allocate_frame (ft vm) else Ret (0, ft vm)).
  destruct alloc as [[nf ft1]| | |] eqn:Halloc; simpl; try discriminate.
  destruct (decide (type ≠ MEM_TYPE_BSS ∧ ref = 0 ∧ nf = 0)) as [|Hnf];
    [discriminate|].
  assert (if decide (type ≠ MEM_TYPE_BSS ∧ ref = 0)
          then allocate_frame (ft vm) = Ret (nf, ft1) ∧ nf ≠ 0
          else ft1 = ft vm) as Hft.
  { subst alloc. destruct (decide (type ≠ MEM_TYPE_BSS ∧ ref = 0)) as [[? ?]|].
    - split; [done|]. intros ->. apply Hnf. done.
    - by injection Halloc as _ <-. }
  clear Halloc Hnf.
  set (vm1 := set_ft vm ft1).
  assert (pt_wf vm1) as Hwf1 by done.
  change (cr3 vm1) with (cr3 vm).
  destruct (get_pte va (cr3 vm) vm1) as [[p|]| | |] eqn:Hg; simpl;
    try discriminate.
  - (* the page table is there *)
    destruct (read_pe p vm1) as [w0| | |] eqn:Hr; simpl; try discriminate.
    destruct (PE_GETFLAG w0 PTE_PRESENT) eqn:Hp.
    { intros Hundo. by apply create_page_undo_nonzero in Hundo. }
    unfold create_page_entry. rewrite Hr. simpl.
    match goal with
    | |- context [write_pe ?q ?w ?v] =>
        destruct (write_pe q w v) as [vm2| | |] eqn:Hw
    end; simpl; try discriminate.
    intros [= <-].
    destruct (map_in_table vm1 vm2 va p w0 _ Hwf1 Hg Hr Hp
                (entry_word_present _ _ _ _ _) Hw) as (-> & Hm & Hpres & Hwf2).
    destruct (write_pe_fields _ _ _ _ Hw) as (Hf & Hc & Hz & Hd & Hb & _).
    exists p, nf. rewrite Hf.
    split; [done|]. split; [done|]. split; [done|]. split.
    { intros va' q w Hq. by apply (Hpres va' q w). }
    by split_and!.
  - (* the page table is missing *)
    unfold smemalign_page. change (kheap vm1) with (kheap vm).
    destruct (kheap vm) as [|pt rest] eqn:Hheap.
    { rewrite decide_True by done.
      intros Hundo. by apply create_page_undo_nonzero in Hundo. }
    destruct (decide (pt = 0)).
    { intros Hundo. by apply create_page_undo_nonzero in Hundo. }
    set (vm2 := set_ptmem (set_kheap vm1 rest)
                  (<[pt := zero_table]> (ptmem (set_kheap vm1 rest)))).
    bind_case d0 Hd0. bind_case vm3 Hwd.
    unfold create_page_entry.
    bind_case w0 Hr. bind_case vm4 Hw.
    intros [= <-].
    destruct (map_in_new_table vm1 va pt rest d0 _ vm3 vm4 Hwf1 Hg Hheap
                Hd0 Hwd (entry_word_present _ _ _ _ _) Hw)
      as (Hzero & Hm & Hpres & Hwf4).
    assert (w0 = 0) as -> by congruence.
    destruct (write_pe_fields _ _ _ _ Hwd) as (Hf3 & Hc3 & Hz3 & Hd3 & Hb3 & _).
    destruct (write_pe_fields _ _ _ _ Hw) as (Hf4 & Hc4 & Hz4 & Hd4 & Hb4 & _).
    exists (pt, PTE_OFFSET va), nf.
    rewrite Hf4, Hf3, Hc4, Hc3, Hz4, Hz3, Hd4, Hd3, Hb4, Hb3.
    rewrite Hz3 in Hm.
    split; [done|]. split; [done|]. split; [done|]. split.
    { intros va' q w Hq. by apply (Hpres va' q w). }
    by split_and!.
Qed.
End PageCalls.

Section DestroyPage.
Context `{Platform}.

(** [destroy_page] on a mapped user page whose frame somebody holds. *)
Lemma destroy_page_ok va vm p w c :
  pt_wf vm → va `mod` PAGE_SIZE = 0 → mapped vm va p w →
  PE_GETFLAG w PTE_GLOBAL = false → PE_GETFLAG w PTE_USER = true →
  FRAME_ID (PE_GETADDR w) ≠ -1 →
  zlookup (frames (ft vm)) (FRAME_ID (PE_GETADDR w)) = Some c → c ≠ 0 →
  ∃ vm', destroy_page va vm = Ret (0, vm') ∧
         frames (ft vm') =
           zupdate (frames (ft vm)) (FRAME_ID (PE_GETADDR w)) (u8 (c - 1)) ∧
         (∀ va' q w', mapped vm va' q w' → q ≠ p → mapped vm' va' q w') ∧
         pt_wf vm' ∧ cr3 vm' = cr3 vm ∧ zero_frame vm' = zero_frame vm ∧
         framedata vm' = framedata vm ∧ cow_buffer vm' = cow_buffer vm.
Proof.
  intros Hwf Hal (Hg & Hr & Hp) Hglob Huser Hid Hc Hc0.
  unfold destroy_page.
  rewrite decide_False by (intros Hne; by apply Hne).
  rewrite decide_False by by apply pt_wf_cr3.
  rewrite Hg. simpl. rewrite Hr. simpl. rewrite Hp, Hglob, Huser. simpl.
  destruct (write_pe_defined p 0 vm w Hr) as [vm1 Hw].
  rewrite Hw. simpl.
  destruct (write_pe_fields _ _ _ _ Hw) as (Hf & Hc3 & Hz & Hd & Hb & _).
  destruct (write_resolved vm vm1 va p 0 Hwf Hg) as (_ & _ & Hpres & Hwf1);
    [done | done |].
  rewrite Hf.
  destruct (free_frame_ok (PE_GETADDR w) (ft vm) c) as (t' & Hfree & Hfr);
    [apply PE_GETADDR_aligned | done | done | done |].
  rewrite Hfree. simpl.
  exists (set_ft vm1 t'). split; [done|]. simpl.
  split; [done|]. split; [|by split_and!].
  intros va' q w' Hm Hne. by apply (Hpres va' q w').
Qed.
End DestroyPage.

(** ** The entry [create_page] writes *)

Lemma testbit_PE_SETFLAG_high pe k n :
  0 ≤ k < 12 → 12 ≤ n →
  Z.testbit (PE_SETFLAG pe (Z.shiftl 1 k)) n = Z.testbit pe n.
Proof.
  intros Hk Hn. rewrite testbit_PE_SETFLAG by lia.
  destruct (Z.eqb_spec n k); [lia|]. apply orb_false_r.
Qed.

Lemma PE_GETADDR_SETFLAG pe k :
  0 ≤ k < 12 → PE_GETADDR (PE_SETFLAG pe (Z.shiftl 1 k)) = PE_GETADDR pe.
Proof.
  intros Hk. apply Z.bits_inj'. intros n Hn.
  rewrite !testbit_PE_GETADDR by done.
  destruct (Z.leb_spec 12 n); [|by rewrite !andb_false_r].
  by rewrite testbit_PE_SETFLAG_high.
Qed.

Lemma PE_GETADDR_SETADDR_any pe a : PE_GETADDR (PE_SETADDR pe a) = PE_GETADDR a.
Proof.
  apply Z.bits_inj'. intros n Hn.
  rewrite !testbit_PE_GETADDR, testbit_PE_SETADDR by done.
  destruct (Z.ltb_spec n 12), (Z.leb_spec 12 n), (Z.ltb_spec n 32);
    simpl; rewrite ?andb_true_r, ?andb_false_r; try done; lia.
Qed.

Lemma PE_GETADDR_entry_word w type ref nf zf :
  PE_GETADDR (entry_word w type ref nf zf) =
  PE_GETADDR (if decide (type = MEM_TYPE_BSS) then zf
              else if decide (ref ≠ 0) then ref else nf).
Proof.
  unfold entry_word, PTE_READWRITE.
  destruct (read_write_type type), (decide (type = MEM_TYPE_BSS)),
    (decide (ref ≠ 0));
    rewrite ?PE_GETADDR_SETFLAG by lia; apply PE_GETADDR_SETADDR_any.
Qed.

(** The flags of an entry written over a word that was 0. *)
Lemma entry_word_flags type ref nf zf :
  let w := entry_word 0 type ref nf zf in
  PE_GETFLAG w PTE_PRESENT = true ∧
  PE_GETFLAG w PTE_USER = true ∧
  PE_GETFLAG w PTE_GLOBAL = false ∧
  PE_GETFLAG w PTE_READWRITE = read_write_type type ∧
  PE_GETFLAG w PTE_ZEROPAGE = bool_decide (type = MEM_TYPE_BSS) ∧
  PE_GETFLAG w PTE_COPYONWRITE =
    bool_decide (type ≠ MEM_TYPE_BSS ∧ ref ≠ 0).
Proof.
  unfold entry_word.
  destruct type; simpl;
    destruct (decide (ref ≠ 0)) as [Hr|Hr];
    rewrite ?(bool_decide_eq_true_2 _ Hr), ?(bool_decide_eq_false_2 _ Hr);
    repeat split; try (flag_bits; reflexivity);
    match goal with
    | |- _ = bool_decide ?P =>
        first [ rewrite (bool_decide_eq_true_2 P) by (split; done)
              | rewrite (bool_decide_eq_false_2 P) by (intros [? ?]; done) ]
    end; flag_bits; reflexivity.
Qed.

Section CreatePageEntry.
Context `{Platform}.

(** C1, as the code has it.  A successful [create_page] maps the page
    through an entry that is present and for user mode.  For [Bss]
    the entry points at the zero frame and carries [ZEROPAGE]; for
    another kind with a reference frame it points at that frame and
    carries [COPYONWRITE].  In both cases, and against the claim, the
    switch at the end of [create_page] sets [READWRITE] for every
    kind but [Text] and [RoData], [Bss] included. *)
Theorem create_page_entry_flags va type ref vm vm' :
  vm_wf vm → page_address (zero_frame vm) → 0 ≤ ref < 4294967296 →
  create_page va type ref vm = Ret (0, vm') →
  ∃ p w, mapped vm' va p w ∧
    PE_GETFLAG w PTE_USER = true ∧
    PE_GETFLAG w PTE_READWRITE = read_write_type type ∧
    (type = MEM_TYPE_BSS →
       PE_GETADDR w = zero_frame vm ∧
       PE_GETFLAG w PTE_ZEROPAGE = true ∧
       PE_GETFLAG w PTE_READWRITE = true) ∧
    (type ≠ MEM_TYPE_BSS → ref ≠ 0 →
       PE_GETADDR w = ref ∧
       PE_GETFLAG w PTE_COPYONWRITE = true).
Proof.
  intros Hwf [Hzr Hza] Href Hcreate.
  destruct (create_page_ok va type ref vm vm' Hwf Hcreate)
    as (p & nf & _ & Hm & _).
  destruct (entry_word_flags type ref nf (zero_frame vm))
    as (_ & Hu & _ & Hrw & Hz & Hcow).
  exists p, (entry_word 0 type ref nf (zero_frame vm)).
  split; [done|]. split; [done|]. split; [done|]. split.
  - intros ->. rewrite PE_GETADDR_entry_word, Hz, Hrw.
    rewrite decide_True, bool_decide_eq_true_2 by done.
    split; [|done]. by apply land_ADDR_MASK_aligned.
  - intros Hns Hr. rewrite PE_GETADDR_entry_word, Hcow.
    rewrite decide_False, decide_True by done.
    split; [|by rewrite bool_decide_eq_true_2].
    (* the argument checks of create_page *)
    unfold create_page in Hcreate.
    destruct (decide (va `mod` PAGE_SIZE ≠ 0)); [discriminate|].
    destruct (decide (va < USER_MEM_START)); [discriminate|].
    destruct (decide (ref ≠ 0 ∧ ref `mod` PAGE_SIZE ≠ 0)) as [|Hal];
      [discriminate|].
    apply land_ADDR_MASK_aligned; [done|].
    destruct (decide (ref `mod` PAGE_SIZE = 0)); [done|].
    exfalso. by apply Hal.
Qed.
End CreatePageEntry.

Lemma create_page_entry_flags_witness :
  ∃ vm', @create_page pebbles 0x20000000 MEM_TYPE_BSS 0 vm_empty = Ret (0, vm') ∧
  ∃ p w, mapped vm' 0x20000000 p w ∧
    PE_GETFLAG w PTE_USER = true ∧
    PE_GETFLAG w PTE_READWRITE = true ∧
    (MEM_TYPE_BSS = MEM_TYPE_BSS →
       PE_GETADDR w = 0x101000 ∧
       PE_GETFLAG w PTE_ZEROPAGE = true ∧
       PE_GETFLAG w PTE_READWRITE = true) ∧
    (MEM_TYPE_BSS ≠ MEM_TYPE_BSS → 0 ≠ 0 →
       PE_GETADDR w = 0 ∧
       PE_GETFLAG w PTE_COPYONWRITE = true).
Proof.
  eexists. split; [vm_compute; reflexivity|].
  apply (@create_page_entry_flags pebbles 0x20000000 MEM_TYPE_BSS 0 vm_empty).
  - apply (bool_decide_unpack _). vm_compute. exact I.
  - apply (bool_decide_unpack _). vm_compute. exact I.
  - lia.
  - vm_compute. reflexivity.
Defined.

(** ** Allocation from a well-formed frame table *)

Lemma find_available_total fr n f :
  0 ≤ f < Z.of_nat (length fr) →
  ∃ r, find_available fr n f = Ret r ∧
       from_option (λ g, zlookup fr g = Some 0) True r.
Proof.
  revert f. induction n as [|n IH]; intros f Hf; simpl.
  - by exists None.
  - destruct (zlookup fr f) as [c|] eqn:Hc.
    + simpl. destruct (decide (c = 0)) as [->|].
      * by exists (Some f).
      * apply IH. apply Z.mod_pos_bound. lia.
    + exfalso. unfold zlookup in Hc. rewrite decide_True in Hc by lia.
      apply lookup_ge_None in Hc. lia.
Qed.

Section Allocation.
Context `{Platform}.

Lemma FRAME_ADDR_spec (t : frame_table) (n : Z) :
  platform_ok → frames_fit t → 0 ≤ n < nb_frames t →
  FRAME_ADDR n = n * PAGE_SIZE + USER_MEM_START ∧
  page_address (FRAME_ADDR n) ∧ FRAME_ADDR n ≠ 0 ∧
  FRAME_ID (FRAME_ADDR n) = n.
Proof.
  intros [Hpos Hal] Hfit Hn. unfold frames_fit, PAGE_SIZE in *.
  assert (FRAME_ADDR n = n * 4096 + USER_MEM_START) as Heq.
  { unfold FRAME_ADDR. rewrite Z.shiftl_mul_pow2 by lia.
    apply u32_small. change (2 ^ 12) with 4096. lia. }
  rewrite Heq. split; [done|]. split; [|split].
  - split; [lia|]. unfold PAGE_SIZE.
    rewrite Z.add_comm, Z.mod_add by lia. done.
  - lia.
  - rewrite FRAME_ID_user by lia.
    replace (n * 4096 + USER_MEM_START - USER_MEM_START) with (n * 4096) by lia.
    apply Z.div_mul. lia.
Qed.

(** With a free frame under the hint, [_allocate_frame] hands it out
    and its counter goes from 0 to 1. *)
Lemma allocate_frame_free (t : frame_table) :
  platform_ok → ft_wf t → next_available_frame t ≠ -1 →
  let nf := FRAME_ADDR (next_available_frame t) in
  ∃ t', _allocate_frame t = Ret (nf, t') ∧
        frames t' = zupdate (frames t) (next_available_frame t) 1 ∧
        page_address nf ∧ nf ≠ 0 ∧ FRAME_ID nf = next_available_frame t.
Proof.
  intros Hplat (Hcnt & [Hhint|Hhint] & Hfit) Hnext nf; [done|].
  pose proof (zlookup_lt _ _ _ Hhint) as Hrange.
  destruct (FRAME_ADDR_spec t _ Hplat Hfit Hrange) as (_ & Hpa & Hn0 & Hid).
  fold nf in Hpa, Hn0, Hid.
  unfold _allocate_frame. rewrite decide_False by done. fold nf.
  unfold _get_frame.
  destruct Hpa as [Hr Hal].
  rewrite decide_False by (intros Hne; by apply Hne).
  rewrite Hid. rewrite decide_False by done. rewrite Hhint. simpl.
  rewrite decide_True by done.
  change (u8 (0 + 1)) with 1.
  set (fr := zupdate (frames t) (next_available_frame t) 1).
  destruct (find_available_total fr (length fr) (next_available_frame t))
    as (r & -> & _).
  { unfold fr. rewrite length_zupdate. done. }
  simpl. eexists. split; [done|]. simpl. done.
Qed.
End Allocation.

(** ** The page of an address *)

Lemma PDE_OFFSET_PAGE_ADDR a : PDE_OFFSET (PAGE_ADDR a) = PDE_OFFSET a.
Proof.
  unfold PDE_OFFSET, PAGE_ADDR. rewrite <- Z.land_assoc.
  by change (Z.land ADDR_MASK DIR_MASK) with DIR_MASK.
Qed.

Lemma PTE_OFFSET_PAGE_ADDR a : PTE_OFFSET (PAGE_ADDR a) = PTE_OFFSET a.
Proof.
  unfold PTE_OFFSET, PAGE_ADDR. rewrite <- Z.land_assoc.
  by change (Z.land ADDR_MASK PAGE_MASK) with PAGE_MASK.
Qed.

Lemma get_pte_PAGE_ADDR a dir vm :
  get_pte (PAGE_ADDR a) dir vm = get_pte a dir vm.
Proof.
  unfold get_pte, get_pde.
  by rewrite PDE_OFFSET_PAGE_ADDR, PTE_OFFSET_PAGE_ADDR.
Qed.

Lemma PAGE_ADDR_aligned a : PAGE_ADDR a `mod` PAGE_SIZE = 0.
Proof. apply PE_GETADDR_aligned. Qed.

Lemma testbit_PE_UNSETFLAG_high pe k n :
  0 ≤ k < 12 → 12 ≤ n →
  Z.testbit (PE_UNSETFLAG pe (Z.shiftl 1 k)) n = Z.testbit pe n.
Proof.
  intros Hk Hn. rewrite testbit_PE_UNSETFLAG by lia.
  destruct (Z.eqb_spec n k); [lia|]. apply andb_true_r.
Qed.

Lemma PE_GETADDR_UNSETFLAG pe k :
  0 ≤ k < 12 → PE_GETADDR (PE_UNSETFLAG pe (Z.shiftl 1 k)) = PE_GETADDR pe.
Proof.
  intros Hk. apply Z.bits_inj'. intros n Hn.
  rewrite !testbit_PE_GETADDR by done.
  destruct (Z.leb_spec 12 n); [|by rewrite !andb_false_r].
  by rewrite testbit_PE_UNSETFLAG_high.
Qed.

(** ** Copy on write *)

Lemma mapped_ext vm vm' va q w :
  ptmem vm' = ptmem vm → cr3 vm' = cr3 vm → mapped vm va q w → mapped vm' va q w.
Proof.
  intros Hpt Hc (Hg & Hr & Hp). unfold mapped.
  by rewrite Hc, (get_pte_ext _ _ _ _ Hpt), (read_pe_ext _ _ _ Hpt).
Qed.

Lemma page_contents_insert_eq vm a d :
  page_contents (set_framedata vm (<[a := d]> (framedata vm))) a = d.
Proof. unfold page_contents. simpl. by rewrite lookup_insert_eq. Qed.

Lemma page_contents_insert_ne vm a b d :
  a ≠ b → page_contents (set_framedata vm (<[a := d]> (framedata vm))) b
          = page_contents vm b.
Proof. intros Hab. unfold page_contents. simpl. by rewrite lookup_insert_ne. Qed.

Section CopyOnWrite.
Context `{Platform}.

(** [copy_on_write] on a mapped page, by the count [c] of its frame. *)
Lemma copy_on_write_cases va vm p w c :
  platform_ok → pt_wf vm → ft_wf (ft vm) →
  va `mod` PAGE_SIZE = 0 → mapped vm va p w →
  zlookup (frames (ft vm)) (FRAME_ID (PE_GETADDR w)) = Some c →
  let old := PE_GETADDR w in
  ∃ r vm',
    copy_on_write va vm = Ret (r, vm') ∧
    (c = 1 → r = 0 ∧ vm' = vm) ∧
    (c = 0 → r = ERR_FREE_OWNERLESS_FRAME ∧ vm' = vm) ∧
    (2 ≤ c → next_available_frame (ft vm) = -1 →
       r = ERR_NO_FRAMES ∧ vm' = vm) ∧
    (2 ≤ c → next_available_frame (ft vm) ≠ -1 →
       let nf := FRAME_ADDR (next_available_frame (ft vm)) in
       r = 0 ∧
       mapped vm' va p (PE_SETADDR w nf) ∧
       PE_GETADDR (PE_SETADDR w nf) = nf ∧
       FRAME_ID old ≠ next_available_frame (ft vm) ∧
       frames (ft vm') =
         zupdate (zupdate (frames (ft vm)) (next_available_frame (ft vm)) 1)
           (FRAME_ID old) (c - 1) ∧
       cow_buffer vm' = page_contents vm old ∧
       page_contents vm' nf = page_contents vm old ∧
       page_contents vm' old = page_contents vm old).
Proof.
  intros Hplat Hwf Hft Hal Hm Hc old. subst old.
  set (old := PE_GETADDR w) in *.
  pose proof Hm as (Hg & Hr & Hp).
  unfold copy_on_write.
  rewrite decide_False by (intros Hne; by apply Hne).
  rewrite Hg. simpl. rewrite Hr. simpl. fold old. rewrite Hc. simpl.
  destruct (decide (c = 1)) as [->|Hc1].
  { eexists _, _. split; [done|]. split; [done|].
    split; [done|]. split; intros; lia. }
  destruct (decide (c = 0)) as [->|Hc0].
  { eexists _, _. split; [done|]. split; [done|].
    split; [done|]. split; intros; lia. }
  destruct (decide (next_available_frame (ft vm) = -1)) as [Hnext|Hnext].
  { unfold _allocate_frame. rewrite decide_True by done. simpl.
    eexists _, _. split; [done|]. split; [done|]. split; [done|].
    split; [done|]. intros; done. }
  destruct (allocate_frame_free (ft vm) Hplat Hft Hnext)
    as (t' & Halloc & Hfr & Hpa & Hn0 & Hid).
  set (nf := FRAME_ADDR (next_available_frame (ft vm))) in *.
  rewrite Halloc. simpl. rewrite decide_False by done.
  change (read_pe p (set_cow_buffer (set_ft vm t') _)) with (read_pe p vm).
  rewrite Hr. simpl.
  set (vm1 := set_cow_buffer (set_ft vm t') (page_contents (set_ft vm t') old)).
  destruct (write_pe_defined p (PE_SETADDR w nf) vm1 w Hr) as [vm2 Hw].
  rewrite Hw. simpl.
  rewrite (read_write_pe_eq _ _ _ _ Hw). simpl.
  destruct (write_pe_fields _ _ _ _ Hw) as (Hf2 & Hc2 & Hz2 & Hd2 & Hb2 & _).
  destruct Hpa as [Hnfr Hnfa].
  assert (PE_GETADDR (PE_SETADDR w nf) = nf) as Hnew
      by by apply PE_GETADDR_SETADDR.
  rewrite Hnew.
  destruct Hft as (Hcnt & Hhint & _).
  assert (0 ≤ c < 256) as Hcr.
  { pose proof Hc as [_ Hc']%zlookup_Some.
    eapply Forall_lookup_1 in Hcnt; done. }
  assert (FRAME_ID old ≠ next_available_frame (ft vm)) as Hne.
  { intros Heq. destruct Hhint as [?|Hh]; [done|].
    rewrite Heq in Hc. congruence. }
  assert (old ≠ nf) as Hne' by (intros Heq; apply Hne; by rewrite Heq).
  rewrite Hf2. simpl. rewrite Hfr.
  rewrite zlookup_zupdate_ne by done. rewrite Hc. simpl.
  eexists _, _. split; [done|].
  split; [done|]. split; [done|]. split; [done|].
  intros _ _. simpl. split; [done|]. split; [|split; [done|split; [done|]]].
  - assert (PE_GETFLAG (PE_SETADDR w nf) PTE_PRESENT = true) as Hpn
      by by rewrite PE_GETFLAG_SETADDR.
    destruct (write_resolved vm1 vm2 va p (PE_SETADDR w nf)) as (Hg2 & Hr2 & _);
      [done | done | congruence | done |].
    split; [done|]. split; [done|]. done.
  - rewrite u8_small by lia. split; [done|]. rewrite Hb2, Hd2. simpl.
    split; [done|]. unfold page_contents. simpl.
    rewrite lookup_insert_eq, lookup_insert_ne by done. done.
Qed.
End CopyOnWrite.

Lemma cow_resolved_flags w :
  PE_GETFLAG (cow_resolved w) PTE_COPYONWRITE = false ∧
  PE_GETFLAG (cow_resolved w) PTE_READWRITE = true ∧
  PE_GETFLAG (cow_resolved w) PTE_PRESENT = PE_GETFLAG w PTE_PRESENT ∧
  PE_GETADDR (cow_resolved w) = PE_GETADDR w.
Proof.
  unfold cow_resolved. split; [|split; [|split]].
  - flag_bits. by rewrite andb_false_r.
  - flag_bits. by rewrite orb_true_r.
  - flag_bits. by rewrite andb_true_r, orb_false_r.
  - unfold PTE_READWRITE, PTE_COPYONWRITE.
    by rewrite PE_GETADDR_SETFLAG, PE_GETADDR_UNSETFLAG by lia.
Qed.

Section CopyOnWriteFault.
Context `{Platform}.

(** The copy-on-write branch of the handler, case by case.  On a
    fault at [addr], whose page is mapped by an entry [w] marked
    [COPYONWRITE] and not [ZEROPAGE], the handler clears
    [COPYONWRITE], sets [READWRITE], calls [copy_on_write] and
    resumes, whatever the call returns.  [copy_on_write], by the
    count [c] of the entry's frame: with [c = 1] it returns 0 and
    changes nothing more; with [c ≥ 2] and a free frame under the
    hint it takes that frame, copies the page into it through
    [cow_buffer], points the entry at it and takes exactly one off
    the old frame's count; with [c ≥ 2] and no free frame it returns
    [ERR_NO_FRAMES], and with [c = 0] [ERR_FREE_OWNERLESS_FRAME], in
    both cases changing nothing more. *)
Theorem cow_fault addr vm p w c :
  platform_ok → pt_wf vm → ft_wf (ft vm) →
  mapped vm addr p w →
  PE_GETFLAG w PTE_ZEROPAGE = false →
  PE_GETFLAG w PTE_COPYONWRITE = true →
  zlookup (frames (ft vm)) (FRAME_ID (PE_GETADDR w)) = Some c →
  let old := PE_GETADDR w in
  let w1 := cow_resolved w in
  ∃ vm1 r vm2,
    write_pe p w1 vm = Ret vm1 ∧
    PE_GETFLAG w1 PTE_COPYONWRITE = false ∧
    PE_GETFLAG w1 PTE_READWRITE = true ∧
    copy_on_write (PAGE_ADDR addr) vm1 = Ret (r, vm2) ∧
    _page_fault_handler addr vm = Ret (PF_RESUME, vm2) ∧
    (c = 1 → r = 0 ∧ vm2 = vm1) ∧
    (c = 0 → r = ERR_FREE_OWNERLESS_FRAME ∧ vm2 = vm1) ∧
    (2 ≤ c → next_available_frame (ft vm) = -1 →
       r = ERR_NO_FRAMES ∧ vm2 = vm1) ∧
    (2 ≤ c → next_available_frame (ft vm) ≠ -1 →
       let nf := FRAME_ADDR (next_available_frame (ft vm)) in
       r = 0 ∧
       mapped vm2 addr p (PE_SETADDR w1 nf) ∧
       PE_GETADDR (PE_SETADDR w1 nf) = nf ∧
       FRAME_ID old ≠ next_available_frame (ft vm) ∧
       frames (ft vm2) =
         zupdate (zupdate (frames (ft vm)) (next_available_frame (ft vm)) 1)
           (FRAME_ID old) (c - 1) ∧
       cow_buffer vm2 = page_contents vm old ∧
       page_contents vm2 nf = page_contents vm old ∧
       page_contents vm2 old = page_contents vm old).
Proof.
  intros Hplat Hwf Hft Hm Hz Hcow Hc old w1.
  pose proof Hm as (Hg & Hr & Hp).
  destruct (cow_resolved_flags w) as (Hf1 & Hf2 & Hf3 & Hf4).
  fold w1 in Hf1, Hf2, Hf3, Hf4.
  destruct (write_pe_defined p w1 vm w Hr) as [vm1 Hw].
  destruct (write_pe_fields _ _ _ _ Hw) as (Hft1 & Hc1 & Hz1 & Hd1 & Hb1 & _).
  destruct (write_resolved vm vm1 addr p w1 Hwf Hg) as (Hg1 & Hr1 & _ & Hwf1);
    [congruence | done |].
  assert (mapped vm1 (PAGE_ADDR addr) p w1) as Hm1.
  { split; [by rewrite get_pte_PAGE_ADDR|]. split; [done|]. congruence. }
  destruct (copy_on_write_cases (PAGE_ADDR addr) vm1 p w1 c Hplat Hwf1)
    as (r & vm2 & Hcopy & H1 & H0 & Hfull & Hfree);
    [by rewrite Hft1 | apply PAGE_ADDR_aligned | done
    | by rewrite Hft1, Hf4 |].
  exists vm1, r, vm2.
  split; [done|]. split; [done|]. split; [done|]. split; [done|].
  split.
  { unfold _page_fault_handler.
    rewrite decide_False by by apply pt_wf_cr3.
    rewrite Hg. simpl. rewrite Hr. simpl. rewrite Hz, Hcow.
    fold (cow_resolved w). fold w1. rewrite Hw. simpl.
    rewrite Hcopy. done. }
  split; [done|]. split; [done|]. rewrite Hft1 in Hfull, Hfree.
  split; [done|].
  intros Hc2 Hnext.
  destruct (Hfree Hc2 Hnext) as (-> & (Hg2 & Hr2 & Hp2) & Ha & Hne & Hfr & Hb & Hn & Ho).
  rewrite Hf4 in Hne, Hfr, Hb, Hn, Ho. fold old in Hne, Hfr, Hb, Hn, Ho.
  split; [done|]. split.
  { split; [by rewrite <- get_pte_PAGE_ADDR|]. done. }
  split; [done|]. split; [done|]. split; [done|].
  unfold page_contents in *. rewrite Hd1 in Hb, Hn, Ho. done.
Qed.

(** C2 fails in the code where the frame of the faulting page is
    held more than once and no frame is free.  The handler has made
    the entry writable (it clears [COPYONWRITE] and sets [READWRITE]
    before the call); [copy_on_write] finds no frame to copy to and
    returns [ERR_NO_FRAMES], allocating, copying and retargeting
    nothing; the handler does not look at the result and resumes.
    The faulting process is left with a writable entry on the old
    frame, whose count is still [c ≥ 2]: its writes go to the frame
    the other holders read. *)
Theorem cow_fault_keeps_shared_frame addr vm p w c :
  platform_ok → pt_wf vm → ft_wf (ft vm) →
  mapped vm addr p w →
  PE_GETFLAG w PTE_ZEROPAGE = false →
  PE_GETFLAG w PTE_COPYONWRITE = true →
  zlookup (frames (ft vm)) (FRAME_ID (PE_GETADDR w)) = Some c →
  2 ≤ c → next_available_frame (ft vm) = -1 →
  ∃ vm',
    write_pe p (cow_resolved w) vm = Ret vm' ∧
    copy_on_write (PAGE_ADDR addr) vm' = Ret (ERR_NO_FRAMES, vm') ∧
    _page_fault_handler addr vm = Ret (PF_RESUME, vm') ∧
    mapped vm' addr p (cow_resolved w) ∧
    PE_GETFLAG (cow_resolved w) PTE_READWRITE = true ∧
    PE_GETFLAG (cow_resolved w) PTE_COPYONWRITE = false ∧
    PE_GETADDR (cow_resolved w) = PE_GETADDR w ∧
    zlookup (frames (ft vm')) (FRAME_ID (PE_GETADDR (cow_resolved w))) = Some c ∧
    ft vm' = ft vm ∧ framedata vm' = framedata vm.
Proof.
  intros Hplat Hwf Hft Hm Hz Hcow Hc Hc2 Hnext.
  destruct (cow_fault addr vm p w c Hplat Hwf Hft Hm Hz Hcow Hc)
    as (vm1 & r & vm2 & Hw & Hf1 & Hf2 & Hcopy & Hh & _ & _ & Hfull & _).
  destruct (Hfull Hc2 Hnext) as [-> ->].
  pose proof Hm as (Hg & Hr & Hp).
  destruct (cow_resolved_flags w) as (_ & _ & Hf3 & Hf4).
  destruct (write_pe_fields _ _ _ _ Hw) as (Hft1 & _ & _ & Hd1 & _).
  destruct (write_resolved vm vm1 addr p (cow_resolved w) Hwf Hg)
    as (Hg1 & Hr1 & _); [congruence | done |].
  exists vm1. split; [done|]. split; [done|]. split; [done|].
  split; [split; [done|split; [done|congruence]]|].
  split; [done|]. split; [done|]. split; [done|].
  split; [by rewrite Hft1, Hf4|]. done.
Qed.
End CopyOnWriteFault.

(** A write fault at 0x20000000 in [vm_cow_full]: two processes hold
    the frame of the page, no frame is free, and the handler resumes
    with the entry 0x01000007 (present, writable, user) on the frame
    that is still counted twice. *)
Lemma cow_fault_keeps_shared_frame_witness :
  ∃ vm',
    @_page_fault_handler pebbles 0x20000000 vm_cow_full = Ret (PF_RESUME, vm') ∧
    @copy_on_write pebbles 0x20000000 vm' = Ret (ERR_NO_FRAMES, vm') ∧
    mapped vm_cow_full 0x20000000 (0x102000, 0) 0x01000405 ∧
    mapped vm' 0x20000000 (0x102000, 0) 0x01000007 ∧
    frames (ft vm_cow_full) = [2; 1] ∧
    frames (ft vm') = [2; 1] ∧
    framedata vm' = framedata vm_cow_full.
Proof.
  destruct (@cow_fault_keeps_shared_frame pebbles 0x20000000 vm_cow_full
              (0x102000, 0) 0x01000405 2)
    as (vm' & _ & Hcopy & Hh & Hm & _ & _ & _ & _ & Hft & Hd).
  - apply (bool_decide_unpack _). vm_compute. exact I.
  - apply (bool_decide_unpack _). vm_compute. exact I.
  - apply (bool_decide_unpack _). vm_compute. exact I.
  - repeat split; vm_compute; reflexivity.
  - vm_compute. reflexivity.
  - vm_compute. reflexivity.
  - vm_compute. reflexivity.
  - lia.
  - vm_compute. reflexivity.
  - exists vm'. split; [exact Hh|]. split; [exact Hcopy|].
    split; [repeat split; vm_compute; reflexivity|].
    split; [exact Hm|]. split; [reflexivity|].
    split; [rewrite Hft; reflexivity | exact Hd].
Defined.

(** The same fault in [vm_cow_shared], where a frame is free: the page
    is copied to the free frame and the old frame loses one holder. *)
Lemma cow_fault_witness :
  ∃ vm2,
    @_page_fault_handler pebbles 0x20000000 vm_cow_shared = Ret (PF_RESUME, vm2) ∧
    mapped vm2 0x20000000 (0x102000, 0) 0x01001007 ∧
    frames (ft vm2) = [1; 1; 0] ∧
    page_contents vm2 0x01001000 = [0xAA].
Proof.
  destruct (@cow_fault pebbles 0x20000000 vm_cow_shared (0x102000, 0) 0x01000405 2)
    as (vm1 & r & vm2 & _ & _ & _ & _ & Hh & _ & _ & _ & Hcopy).
  - apply (bool_decide_unpack _). vm_compute. exact I.
  - apply (bool_decide_unpack _). vm_compute. exact I.
  - apply (bool_decide_unpack _). vm_compute. exact I.
  - repeat split; vm_compute; reflexivity.
  - vm_compute. reflexivity.
  - vm_compute. reflexivity.
  - vm_compute. reflexivity.
  - destruct Hcopy as (_ & Hm & _ & _ & Hfr & _ & Hn & _); [lia | vm_compute; lia |].
    exists vm2. split; [exact Hh|]. split; [exact Hm|].
    split; [exact Hfr | exact Hn].
Defined.

(** ** Creating and destroying the pages of a region *)

Section Region.
Context `{Platform}.

Lemma holders_app x L1 L2 : holders x (L1 ++ L2) = holders x L1 + holders x L2.
Proof. induction L1 as [|e L1 IH]; simpl; [done|]. rewrite IH. lia. Qed.

Lemma holders_nonneg x L : 0 ≤ holders x L.
Proof. induction L as [|e L IH]; simpl; [done|]. case_decide; lia. Qed.

Lemma page_ok_preserved F0 vm vm' e :
  (mapped vm e.1.1 e.1.2 e.2 → mapped vm' e.1.1 e.1.2 e.2) →
  page_ok F0 vm e → page_ok F0 vm' e.
Proof.
  intros Hpres (? & Hm & ? & ? & ?). split; [done|].
  split; [by apply Hpres|]. done.
Qed.

Lemma region_inv_create F0 vm va vm' L :
  region_inv F0 vm L →
  create_page va MEM_TYPE_USER 0 vm = Ret (0, vm') →
  ∃ p w, region_inv F0 vm' (L ++ [(va, p, w)]) ∧
         cr3 vm' = cr3 vm ∧ zero_frame vm' = zero_frame vm ∧
         framedata vm' = framedata vm ∧ cow_buffer vm' = cow_buffer vm.
Proof.
  intros (Hwf & Hcnt & HF0 & Hnd & Hall & Hlen & Hcount) Hcreate.
  destruct (create_page_ok va MEM_TYPE_USER 0 vm vm' (conj Hwf Hcnt) Hcreate)
    as (p & nf & Hal & Hm & Halloc & Hpres & Hwf' & Hc' & Hz' & Hd' & Hb').
  rewrite decide_True in Halloc by done. destruct Halloc as [Halloc Hnf].
  destruct (allocate_frame_ok _ _ _ Halloc Hnf)
    as (c0 & Hnfa & Hnfr & Hid & Hc0 & Hsat & Hfr).
  set (w := entry_word 0 MEM_TYPE_USER 0 nf (zero_frame vm)) in *.
  assert (PE_GETADDR w = nf) as Haddr.
  { unfold w. rewrite PE_GETADDR_entry_word. simpl.
    by apply land_ADDR_MASK_aligned. }
  destruct (entry_word_flags MEM_TYPE_USER 0 nf (zero_frame vm))
    as (_ & Hu & Hg & _). fold w in Hu, Hg.
  assert (page_frame_id (va, p, w) = FRAME_ID nf) as Hpid
    by (unfold page_frame_id; simpl; by rewrite Haddr).
  assert (0 ≤ c0 < 255) as Hc0r.
  { pose proof Hc0 as [_ Hc0']%zlookup_Some.
    eapply Forall_lookup_1 in Hcnt; [|done]. simpl in Hcnt. lia. }
  assert (is_Some (zlookup F0 (FRAME_ID nf))) as [cF HcF].
  { pose proof (zlookup_lt _ _ _ Hc0) as Hlt.
    unfold zlookup. rewrite decide_True by lia.
    apply lookup_lt_is_Some. lia. }
  exists p, w. split; [|done].
  split; [done|]. split; [by eapply counters_ok_frames_zupdate|].
  split; [done|]. split; [|split; [|split]].
  - rewrite !fmap_app. apply NoDup_app. split; [done|]. split.
    + intros q Hq Hin. simpl in Hin. apply list_elem_of_singleton in Hin as ->.
      apply list_elem_of_fmap in Hq as ([va' q'] & -> & Hq).
      apply list_elem_of_fmap in Hq as ([[va'' q''] w''] & [= <- <-] & Hq).
      eapply Forall_forall in Hall; [|done].
      destruct Hall as (_ & Hm' & _). simpl in Hm'.
      by destruct (Hpres _ _ _ Hm').
    + simpl. apply NoDup_singleton.
  - apply Forall_app. split.
    + eapply Forall_impl; [done|]. intros e.
      apply page_ok_preserved. intros Hm'.
      by destruct (Hpres _ _ _ Hm').
    + apply Forall_singleton. split; [done|]. split; [done|].
      split; [done|]. split; [done|]. rewrite Hpid. by exists cF.
  - by rewrite Hfr, length_zupdate.
  - intros x c Hx. rewrite Hfr, holders_app. simpl. rewrite Hpid.
    destruct (decide (FRAME_ID nf = x)) as [<-|Hne].
    + rewrite zlookup_zupdate_eq by (eapply zlookup_lt; done).
      pose proof (Hcount _ _ Hx) as Hx'.
      assert (c0 = c + holders (FRAME_ID nf) L) as -> by congruence.
      rewrite u8_small by lia. f_equal. lia.
    + rewrite zlookup_zupdate_ne by done.
      rewrite (Hcount _ _ Hx). f_equal. lia.
Qed.

Lemma region_inv_destroy F0 vm va p w L :
  region_inv F0 vm ((va, p, w) :: L) →
  ∃ vm', destroy_page va vm = Ret (0, vm') ∧ region_inv F0 vm' L ∧
         cr3 vm' = cr3 vm ∧ zero_frame vm' = zero_frame vm ∧
         framedata vm' = framedata vm ∧ cow_buffer vm' = cow_buffer vm.
Proof.
  intros (Hwf & Hcnt & HF0 & Hnd & Hall & Hlen & Hcount).
  apply Forall_cons in Hall as [(Hal & Hm & Hg & Hu & [cF HcF]) Hall].
  simpl in Hal, Hm, Hg, Hu. unfold page_frame_id in HcF. simpl in HcF.
  simpl in Hnd. apply NoDup_cons in Hnd as [Hnotin Hnd].
  pose proof (Hcount _ _ HcF) as Hcur. simpl in Hcur.
  unfold page_frame_id in Hcur at 1. simpl in Hcur.
  rewrite decide_True in Hcur by done.
  assert (0 ≤ cF) as HcF0.
  { pose proof HcF as [_ HcF']%zlookup_Some.
    eapply Forall_lookup_1 in HF0; done. }
  pose proof (holders_nonneg (FRAME_ID (PE_GETADDR w)) L) as Hh.
  assert (FRAME_ID (PE_GETADDR w) ≠ -1) as Hid.
  { intros Heq. rewrite Heq in HcF. discriminate. }
  destruct (destroy_page_ok va vm p w _ Hwf Hal Hm Hg Hu Hid Hcur)
    as (vm' & Hd & Hfr & Hpres & Hwf' & Hrest); [lia|].
  exists vm'. split; [done|]. split; [|done].
  assert (0 ≤ cF + (1 + holders (FRAME_ID (PE_GETADDR w)) L) < 256) as Hrange.
  { pose proof Hcur as [_ Hcur']%zlookup_Some.
    eapply Forall_lookup_1 in Hcnt; [|done]. done. }
  split; [done|]. split; [by eapply counters_ok_frames_zupdate|].
  split; [done|]. split; [done|]. split; [|split].
  - apply Forall_forall. intros e He.
    eapply Forall_forall in Hall as Hok; [|done].
    eapply page_ok_preserved; [|done].
    intros Hm'. apply Hpres; [done|].
    intros Heq. apply Hnotin. rewrite <- Heq.
    apply list_elem_of_fmap. exists e.1. split; [done|].
    apply list_elem_of_fmap. by exists e.
  - by rewrite Hfr, length_zupdate.
  - intros x c Hx. rewrite Hfr.
    destruct (decide (FRAME_ID (PE_GETADDR w) = x)) as [<-|Hne].
    + rewrite zlookup_zupdate_eq by (eapply zlookup_lt; done).
      assert (c = cF) as -> by congruence.
      rewrite u8_small by lia. f_equal. lia.
    + rewrite zlookup_zupdate_ne by done.
      rewrite (Hcount _ _ Hx). simpl. unfold page_frame_id at 1. simpl.
      rewrite decide_False by done. f_equal.
Qed.

Lemma region_inv_framedata F0 vm d L :
  region_inv F0 vm L → region_inv F0 (set_framedata vm d) L.
Proof.
  intros (Hwf & Hcnt & HF0 & Hnd & Hall & Hlen & Hcount).
  split; [done|]. split; [done|]. split; [done|]. split; [done|].
  split; [|done].
  eapply Forall_impl; [done|]. intros e. apply page_ok_preserved.
  by apply mapped_ext.
Qed.

(** Once the pages are gone the counters are those of [F0]. *)
Lemma region_inv_nil F0 vm : region_inv F0 vm [] → frames (ft vm) = F0.
Proof.
  intros (_ & _ & _ & _ & _ & Hlen & Hcount).
  apply list_eq. intros i.
  destruct (F0 !! i) as [c|] eqn:Hi.
  - assert (zlookup F0 (Z.of_nat i) = Some c) as Hz.
    { apply zlookup_Some. split; [lia|]. by rewrite Nat2Z.id. }
    apply Hcount in Hz. simpl in Hz. rewrite Z.add_0_r in Hz.
    apply zlookup_Some in Hz as [_ Hz]. by rewrite Nat2Z.id in Hz.
  - apply lookup_ge_None. apply lookup_ge_None in Hi. lia.
Qed.

Lemma region_inv_init vm :
  vm_wf vm → region_inv (frames (ft vm)) vm [].
Proof.
  intros [Hwf Hcnt]. split; [done|]. split; [done|].
  split; [|split; [apply NoDup_nil_2|split; [done|split; [done|]]]].
  - eapply Forall_impl; [exact Hcnt|]. simpl. lia.
  - intros x c Hx. simpl. by rewrite Z.add_0_r.
Qed.
End Region.

Lemma u32_land_mask va m :
  Z.land (Z.ones 32) m = m → Z.land (u32 va) m = Z.land va m.
Proof.
  intros Hm. unfold u32. change 4294967296 with (2 ^ 32).
  rewrite <- Z.land_ones by lia. by rewrite <- Z.land_assoc, Hm.
Qed.

Lemma get_pte_u32 va dir vm : get_pte (u32 va) dir vm = get_pte va dir vm.
Proof.
  unfold get_pte, get_pde, PDE_OFFSET, PTE_OFFSET.
  by rewrite !u32_land_mask.
Qed.

Lemma u32_add_page va b :
  u32 va = u32 b → u32 (va + PAGE_SIZE) = u32 (b + PAGE_SIZE).
Proof.
  unfold u32. intros Heq.
  rewrite (Z.add_mod va), (Z.add_mod b) by lia. by rewrite Heq.
Qed.

Lemma region_vas_S base i n :
  region_vas base i (S n) = u32 (base + i * PAGE_SIZE) :: region_vas base (i + 1) n.
Proof.
  unfold region_vas. rewrite Nat2Z.inj_succ, seqZ_cons by lia.
  simpl. do 3 f_equal; lia.
Qed.

Section RegionLoops.
Context `{Platform}.

Lemma create_pages_ok F0 n base i vm vm' L :
  0 ≤ i → region_inv F0 vm L →
  create_pages n base i vm = Ret (0, vm') →
  ∃ L', region_inv F0 vm' (L ++ L') ∧ L'.*1.*1 = region_vas base i n ∧
        cr3 vm' = cr3 vm ∧ framedata vm' = framedata vm.
Proof.
  revert i vm L. induction n as [|n IH]; intros i vm L Hi Hinv; simpl.
  - intros [= <-]. exists []. by rewrite app_nil_r.
  - destruct (create_page _ MEM_TYPE_USER 0 vm) as [[err vm1]| | |] eqn:Hc;
      simpl; try discriminate.
    destruct (decide (err ≠ 0)) as [Herr|Herr].
    { destruct (destroy_pages _ _ _ _); simpl; try discriminate.
      intros [= ? _]. done. }
    assert (err = 0) as -> by (destruct (decide (err = 0)); [done|contradiction]).
    destruct (region_inv_create _ _ _ _ _ Hinv Hc)
      as (p & w & Hinv1 & Hc1 & _ & Hd1 & _).
    intros Hrest.
    destruct (IH (i + 1) vm1 _ ltac:(lia) Hinv1 Hrest)
      as (L' & Hinv' & Hvas & Hc' & Hd').
    exists ((u32 (base + i * PAGE_SIZE), p, w) :: L').
    rewrite <- app_assoc in Hinv'. split; [done|].
    split; [|split; congruence].
    rewrite region_vas_S. rewrite <- Hvas. done.
Qed.

Lemma destroy_pages_ok F0 n base i vm L :
  region_inv F0 vm L → L.*1.*1 = region_vas base i n →
  ∃ vm', destroy_pages n base i vm = Ret vm' ∧ region_inv F0 vm' [] ∧
         cr3 vm' = cr3 vm ∧ framedata vm' = framedata vm.
Proof.
  revert i vm L. induction n as [|n IH]; intros i vm L Hinv Hvas; simpl.
  - destruct L; [|discriminate]. by exists vm.
  - rewrite region_vas_S in Hvas.
    destruct L as [|[[va p] w] L]; [discriminate|].
    simpl in Hvas. injection Hvas as -> Hvas.
    destruct (region_inv_destroy _ _ _ _ _ _ Hinv)
      as (vm1 & Hd & Hinv1 & Hc1 & _ & Hd1 & _).
    rewrite Hd. simpl.
    destruct (IH (i + 1) vm1 L Hinv1 Hvas) as (vm' & Hd' & Hinv' & Hc' & Hdd).
    exists vm'. split; [done|]. split; [done|]. split; congruence.
Qed.

Lemma zero_pages_ok n base i va vm :
  (∀ j, i ≤ j < i + Z.of_nat n →
        ∃ q w, mapped vm (u32 (base + j * PAGE_SIZE)) q w) →
  u32 va = u32 (base + i * PAGE_SIZE) →
  ∃ d, zero_pages n va vm = Ret (set_framedata vm d).
Proof.
  revert i va vm. induction n as [|n IH]; intros i va vm Hall Hva; simpl.
  - exists (framedata vm). by destruct vm.
  - destruct (Hall i ltac:(lia)) as (q & w & Hg & Hr & Hp).
    rewrite <- Hva, get_pte_u32 in Hg. rewrite Hg. simpl.
    rewrite Hr. simpl. rewrite Hp.
    set (vm1 := set_framedata vm _).
    destruct (IH (i + 1) (va + PAGE_SIZE) vm1) as [d Hd].
    + intros j Hj. destruct (Hall j ltac:(lia)) as (q' & w' & Hm').
      exists q', w'. by apply (mapped_ext vm).
    + replace (base + (i + 1) * PAGE_SIZE) with (base + i * PAGE_SIZE + PAGE_SIZE) by lia.
      by apply u32_add_page.
    + exists d. by rewrite Hd.
Qed.

Lemma region_pages_mapped F0 vm L base i n :
  Forall (page_ok F0 vm) L → L.*1.*1 = region_vas base i n →
  ∀ j, i ≤ j < i + Z.of_nat n →
       ∃ q w, mapped vm (u32 (base + j * PAGE_SIZE)) q w.
Proof.
  intros Hall Hvas j Hj.
  assert (u32 (base + j * PAGE_SIZE) ∈ L.*1.*1) as Hin.
  { rewrite Hvas. unfold region_vas. apply list_elem_of_fmap.
    exists j. split; [done|]. apply elem_of_seqZ. lia. }
  apply list_elem_of_fmap in Hin as ([va q] & Hva & Hin).
  apply list_elem_of_fmap in Hin as ([[va' q'] w] & Heq & Hin).
  simpl in Hva, Heq. injection Heq as -> ->. subst va'.
  eapply Forall_forall in Hall; [|done].
  destruct Hall as (_ & Hm & _). by exists q', w.
Qed.
End RegionLoops.

(** ** The memregion table *)

Lemma land_low_aligned a : a `mod` PAGE_SIZE = 0 → Z.land a 0xfff = 0.
Proof.
  intros Ha. change 0xfff with (Z.ones 12). rewrite Z.land_ones by lia. done.
Qed.

Lemma land_low_small n : 0 ≤ n < 4096 → Z.land n 0xfff = n.
Proof.
  intros Hn. change 0xfff with (Z.ones 12). rewrite Z.land_ones by lia.
  by apply Z.mod_small.
Qed.

Lemma land_high_small n : 0 ≤ n < 4096 → Z.land n 0xfffff000 = 0.
Proof.
  intros Hn. rewrite <- (land_low_small n Hn), <- Z.land_assoc. apply Z.land_0_r.
Qed.

(** The entry [base | num_pages] splits back into its two parts. *)
Lemma memregion_entry_split base n :
  page_address base → 0 ≤ n < 4096 →
  Z.land (Z.lor base n) 0xfffff000 = base ∧ Z.land (Z.lor base n) 0xfff = n.
Proof.
  intros [Hr Ha] Hn. rewrite !Z.land_lor_distr_l.
  rewrite (land_high_small n), (land_low_small n), (land_low_aligned base) by done.
  rewrite Z.lor_0_r, Z.lor_0_l. split; [|done].
  by apply (land_ADDR_MASK_aligned base).
Qed.

(** The scan of [_remove_pages] stops at the first slot that records
    [base]. *)
Lemma find_memregion_first regions base idx r fuel i :
  0 ≤ i ≤ idx → (Z.to_nat (idx - i) < fuel)%nat →
  zlookup regions idx = Some r → Z.land r 0xfffff000 = base →
  ∃ j rj, i ≤ j ≤ idx ∧ zlookup regions j = Some rj ∧
          Z.land rj 0xfffff000 = base ∧
          (∀ k rk, i ≤ k < j → zlookup regions k = Some rk →
                   Z.land rk 0xfffff000 ≠ base) ∧
          find_memregion fuel regions base i = Ret (Some (j, Z.land rj 0xfff)).
Proof.
  revert i. induction fuel as [|fuel IH]; intros i Hi Hfuel Hidx Hr; [lia|].
  simpl.
  assert (is_Some (zlookup regions i)) as [ri Hri].
  { pose proof (zlookup_lt _ _ _ Hidx). unfold zlookup.
    rewrite decide_True by lia. apply lookup_lt_is_Some. lia. }
  rewrite Hri. simpl.
  destruct (decide (Z.land ri 0xfffff000 = base)) as [Hhit|Hmiss].
  - exists i, ri. split; [lia|]. split; [done|]. split; [done|].
    split; [intros; lia | done].
  - assert (i ≠ idx) by (intros ->; congruence).
    destruct (IH (i + 1)) as (j & rj & Hj & Hrj & Hb & Hfirst & Hfind);
      [lia | lia | done | done |].
    exists j, rj. split; [lia|]. split; [done|]. split; [done|].
    split; [|done].
    intros k rk Hk Hrk. destruct (decide (k = i)) as [->|].
    + congruence.
    + apply (Hfirst k rk); [lia | done].
Qed.

(** The search of [_new_pages] for the next free slot ends within one
    turn of the table: after [k] steps [nextid] is [k + 1] slots past
    [idx], and step 1023 is back at [idx]. *)
Lemma next_memregion_total regions idx fuel k nextid :
  length regions = Z.to_nat PAGE_TABLE_ENTRIES →
  0 ≤ idx < PAGE_TABLE_ENTRIES →
  0 ≤ k ≤ 1023 → k + Z.of_nat fuel = PAGE_TABLE_ENTRIES →
  nextid = (idx + 1 + k) `mod` PAGE_TABLE_ENTRIES →
  ∃ r, next_memregion fuel regions idx nextid = Ret r ∧
       0 ≤ r < PAGE_TABLE_ENTRIES ∧
       (r ≠ idx → zlookup regions r = Some 0).
Proof.
  intros Hlen Hidx. change PAGE_TABLE_ENTRIES with 1024 in *.
  revert k nextid. induction fuel as [|fuel IH]; intros k nextid Hk Hsum Hnext;
    [lia|].
  assert (0 ≤ nextid < 1024) as Hrange
      by (rewrite Hnext; apply Z.mod_pos_bound; lia).
  simpl. destruct (decide (nextid ≠ idx)) as [Hne|Heq].
  - assert (k ≠ 1023) as Hk'.
    { intros ->. apply Hne. rewrite Hnext.
      replace (idx + 1 + 1023) with (idx + 1 * 1024) by lia.
      rewrite Z.mod_add by lia. apply Z.mod_small. lia. }
    assert (is_Some (zlookup regions nextid)) as [r Hr].
    { unfold zlookup. rewrite decide_True by lia.
      apply lookup_lt_is_Some. lia. }
    rewrite Hr. simpl. destruct (decide (r = 0)) as [->|Hr0].
    + exists nextid. split; [done|]. split; [done|]. done.
    + apply (IH (k + 1)); [lia | lia |].
      change PAGE_TABLE_ENTRIES with 1024.
      rewrite Hnext, Z.add_mod_idemp_l by lia. f_equal. lia.
  - exists nextid. split; [done|]. split; [done|].
    intros Hne. exfalso. apply Heq. done.
Qed.

Lemma no_region_before_lookup regions idx base k rk :
  no_region_before regions idx base → 0 ≤ k < idx →
  zlookup regions k = Some rk → Z.land rk 0xfffff000 ≠ base.
Proof.
  intros Hall Hk [_ Hrk]%zlookup_Some.
  apply (Forall_lookup_1 _ _ (Z.to_nat k) rk) in Hall; [done|].
  rewrite lookup_take_lt by lia. done.
Qed.

Lemma no_pages_before_lookup regions idx base k rk :
  no_pages_before regions idx base → 0 ≤ k < idx →
  zlookup regions k = Some rk → Z.land rk 0xfffff000 = base →
  Z.land rk 0xfff = 0.
Proof.
  intros Hall Hk [_ Hrk]%zlookup_Some.
  apply (Forall_lookup_1 _ _ (Z.to_nat k) rk) in Hall; [done|].
  rewrite lookup_take_lt by lia. done.
Qed.

(** ** [new_pages] and [remove_pages] *)

Section NewRemovePages.
Context `{Platform}.

(** What a successful [_new_pages] did. *)
Lemma _new_pages_ok args base len p vm p1 vm1 :
  _new_pages args base len (Some p) vm = Ret (0, Some p1, vm1) →
  ∃ vmA r0 nextid,
    check_array args 2 vm = Ret true ∧
    base `mod` PAGE_SIZE = 0 ∧
    0 ≤ len ≤ 0xfff * PAGE_SIZE ∧ len `mod` PAGE_SIZE = 0 ∧
    next_memregion_idx p ≠ -1 ∧
    create_pages (Z.to_nat (len / PAGE_SIZE)) base 0 vm = Ret (0, vmA) ∧
    zero_pages (Z.to_nat (len / PAGE_SIZE)) base vmA = Ret vm1 ∧
    zlookup (memregions p) (next_memregion_idx p) = Some r0 ∧
    let regions := zupdate (memregions p) (next_memregion_idx p)
                     (Z.lor base (len / PAGE_SIZE)) in
    next_memregion (Z.to_nat PAGE_TABLE_ENTRIES) regions
      (next_memregion_idx p)
      ((next_memregion_idx p + 1) `mod` PAGE_TABLE_ENTRIES) = Ret nextid ∧
    p1 = set_memregions p regions
           (if decide (nextid = next_memregion_idx p) then -1 else nextid).
Proof.
  unfold _new_pages.
  bind_split ok Hok. destruct ok; cbn [negb]; [|discriminate].
  destruct (decide (base `mod` PAGE_SIZE ≠ 0)) as [|Hal]; [discriminate|].
  destruct (decide (len < 0 ∨ len `mod` PAGE_SIZE ≠ 0 ∨ len > 0xfff * PAGE_SIZE))
    as [|Hlen]; [discriminate|].
  destruct (decide (next_memregion_idx p = -1)) as [|Hidx]; [discriminate|].
  bind_split r HcreateA. destruct r as [err vmA].
  destruct (decide (err ≠ 0)) as [Herr|Herr].
  { intros [= ? _]. done. }
  assert (err = 0) as -> by (destruct (decide (err = 0)); [done|contradiction]).
  bind_split vmB Hzero. bind_split r0 Hr0. bind_split nextid Hnext.
  intros [= <- <-].
  exists vmA, r0, nextid.
  split; [done|]. split; [by destruct (decide (base `mod` PAGE_SIZE = 0))|].
  split; [lia|]. split.
  { destruct (decide (len `mod` PAGE_SIZE = 0)); [done|]. exfalso. apply Hlen. tauto. }
  split; [done|]. split; [done|]. split; [done|].
  split; [by apply deref_Ret|]. done.
Qed.

(** C6, amended.  Take a process whose memregion cursor names a free
    slot and whose table records nothing at [base] before that slot.
    If [new_pages(base, len)] succeeds with [len] at least a page,
    then [remove_pages(base)] succeeds, and after it the memregion
    entries and the counters of the frame table are what they were
    before [new_pages].  The cursor is not put back: it stays where
    [new_pages] moved it, except when [new_pages] used the last free
    slot and left the sentinel, in which case [remove_pages] sets it
    to the slot it frees, the slot it was on. *)
Theorem new_pages_remove_pages args base len p vm p1 vm1 :
  vm_wf vm → memregions_ok p → 0 ≤ base < 4294967296 → 0 < len →
  no_region_before (memregions p) (next_memregion_idx p) base →
  _new_pages args base len (Some p) vm = Ret (0, Some p1, vm1) →
  ∃ p2 vm2,
    _remove_pages base (Some p1) vm1 = Ret (0, Some p2, vm2) ∧
    memregions p2 = memregions p ∧
    frames (ft vm2) = frames (ft vm) ∧
    next_memregion_idx p1 ≠ next_memregion_idx p ∧
    next_memregion_idx p2 =
      (if decide (next_memregion_idx p1 = -1)
       then next_memregion_idx p else next_memregion_idx p1) ∧
    p2 = set_memregions p (memregions p) (next_memregion_idx p2).
Proof.
  intros Hwf [Hlen Hcur] Hbase Hpos Hnone Hnew.
  destruct (_new_pages_ok _ _ _ _ _ _ _ Hnew)
    as (vmA & r0 & nextid & _ & Hal & Hl & Hlm & Hidx & Hcreate & Hzero
        & Hr0 & Hnext & ->).
  destruct Hcur as [|Hfree]; [done|].
  set (idx := next_memregion_idx p) in *.
  set (n := len / PAGE_SIZE) in *.
  assert (1 ≤ n < 4096) as Hn.
  { unfold n, PAGE_SIZE in *.
    pose proof (Z.div_mod len 4096 ltac:(lia)) as Hdm. lia. }
  assert (0 ≤ idx < 1024) as Hidxr.
  { pose proof (zlookup_lt _ _ _ Hfree) as Hlt. rewrite Hlen in Hlt.
    change (Z.to_nat PAGE_TABLE_ENTRIES) with 1024%nat in Hlt. lia. }
  (* the pages *)
  destruct (create_pages_ok _ _ _ 0 _ _ [] ltac:(lia) (region_inv_init vm Hwf) Hcreate)
    as (L & HinvA & Hvas & HcA & HdA).
  simpl in HinvA.
  destruct (zero_pages_ok (Z.to_nat n) base 0 base vmA) as [d Hzero'].
  { destruct HinvA as (_ & _ & _ & _ & Hall & _).
    by eapply region_pages_mapped. }
  { f_equal. lia. }
  assert (vm1 = set_framedata vmA d) as -> by congruence.
  pose proof (region_inv_framedata _ _ d _ HinvA) as Hinv1.
  destruct (destroy_pages_ok _ _ _ _ _ _ Hinv1 Hvas)
    as (vm2 & Hdestroy & Hinv2 & Hc2 & Hd2).
  (* the table *)
  set (regions := zupdate (memregions p) idx (Z.lor base n)) in *.
  destruct (memregion_entry_split base n) as [Hhigh Hlow]; [done|lia|].
  assert (zlookup regions idx = Some (Z.lor base n)) as Hentry.
  { apply zlookup_zupdate_eq. by eapply zlookup_lt. }
  destruct (find_memregion_first regions base idx _
              (Z.to_nat PAGE_TABLE_ENTRIES) 0 ltac:(lia)
              ltac:(change (Z.to_nat PAGE_TABLE_ENTRIES) with 1024%nat; lia)
              Hentry Hhigh)
    as (j & rj & Hj & Hrj & Hjb & _ & Hfind).
  assert (j = idx) as ->.
  { destruct (decide (j = idx)) as [|Hne]; [done|]. exfalso.
    unfold regions in Hrj. rewrite zlookup_zupdate_ne in Hrj by done.
    by eapply (no_region_before_lookup _ idx base j rj Hnone); [lia|..]. }
  assert (rj = Z.lor base n) as -> by congruence.
  exists (set_memregions p (memregions p)
            (if decide ((if decide (nextid = idx) then -1 else nextid) = -1)
             then idx else (if decide (nextid = idx) then -1 else nextid))).
  exists vm2.
  split.
  { unfold _remove_pages.
    rewrite decide_False by (intros Hne; by apply Hne).
    cbn [memregions set_memregions next_memregion_idx].
    rewrite Hfind. cbn [mbind outcome_bind from_option snd]. rewrite Hlow.
    rewrite decide_False by lia. rewrite Hdestroy.
    cbn [mbind outcome_bind mret outcome_ret].
    unfold set_memregions. cbn [memregions].
    unfold regions. rewrite zupdate_zupdate, (zupdate_id _ _ _ Hfree).
    done. }
  split; [done|]. split; [by apply region_inv_nil in Hinv2|].
  simpl. split; [|split; [done|done]].
  destruct (decide (nextid = idx)); [lia | done].
Qed.

(** C10, amended.  In a process whose memregion table is not worn
    out and records no pages at [base] before the cursor,
    [new_pages(base, 0)] with a readable argument block returns 0
    and leaves the paging state as it was, writes [base | 0] in the
    slot under the cursor and moves the cursor off that slot, to a
    free slot or to the sentinel; [remove_pages(base)] then returns
    -2 and changes nothing, so the slot keeps its entry. *)
Theorem new_pages_zero_length args base p vm :
  check_array args 2 vm = Ret true → page_address base →
  memregions_ok p → next_memregion_idx p ≠ -1 →
  no_pages_before (memregions p) (next_memregion_idx p) base →
  ∃ p1,
    _new_pages args base 0 (Some p) vm = Ret (0, Some p1, vm) ∧
    memregions p1 =
      zupdate (memregions p) (next_memregion_idx p) (Z.lor base 0) ∧
    zlookup (memregions p1) (next_memregion_idx p) = Some base ∧
    next_memregion_idx p1 ≠ next_memregion_idx p ∧
    (next_memregion_idx p1 = -1 ∨
     zlookup (memregions p1) (next_memregion_idx p1) = Some 0) ∧
    _remove_pages base (Some p1) vm = Ret (-2, Some p1, vm).
Proof.
  intros Hcheck [Hbase Hal] [Hlen Hcur] Hidx Hnone.
  destruct Hcur as [|Hfree]; [done|].
  set (idx := next_memregion_idx p) in *.
  assert (0 ≤ idx < 1024) as Hidxr.
  { pose proof (zlookup_lt _ _ _ Hfree) as Hlt. rewrite Hlen in Hlt.
    change (Z.to_nat PAGE_TABLE_ENTRIES) with 1024%nat in Hlt. lia. }
  set (regions := zupdate (memregions p) idx (Z.lor base 0)).
  assert (length regions = Z.to_nat PAGE_TABLE_ENTRIES) as Hlen'.
  { unfold regions. by rewrite length_zupdate. }
  destruct (next_memregion_total regions idx (Z.to_nat PAGE_TABLE_ENTRIES) 0
              ((idx + 1) `mod` PAGE_TABLE_ENTRIES) Hlen')
    as (nextid & Hnext & Hr & Hzero).
  { done. } { lia. } { done. } { f_equal. lia. }
  destruct (memregion_entry_split base 0) as [Hhigh Hlow]; [done|lia|].
  rewrite Z.lor_0_r in Hhigh, Hlow.
  assert (zlookup regions idx = Some base) as Hentry.
  { unfold regions. rewrite Z.lor_0_r.
    apply zlookup_zupdate_eq. by eapply zlookup_lt. }
  exists (set_memregions p regions
            (if decide (nextid = idx) then -1 else nextid)).
  split.
  { unfold _new_pages. rewrite Hcheck. cbn [mbind outcome_bind negb].
    rewrite decide_False by (intros Hne; by apply Hne).
    rewrite decide_False by (change PAGE_SIZE with 4096; intros [|[Hm|]]; [lia| |lia];
                             by apply Hm).
    rewrite decide_False by done.
    change (Z.to_nat (0 `div` PAGE_SIZE)) with 0%nat.
    change (0 `div` PAGE_SIZE) with 0.
    cbn [create_pages zero_pages mbind outcome_bind].
    rewrite decide_False by (intros Hne; by apply Hne).
    fold idx. rewrite Hfree. cbn [deref mbind outcome_bind].
    fold regions. rewrite Hnext. done. }
  split; [done|]. split; [done|].
  cbn [next_memregion_idx memregions set_memregions].
  split; [destruct (decide (nextid = idx)); [lia|done]|].
  split.
  { destruct (decide (nextid = idx)); [by left|right; by apply Hzero]. }
  destruct (find_memregion_first regions base idx _
              (Z.to_nat PAGE_TABLE_ENTRIES) 0 ltac:(lia)
              ltac:(change (Z.to_nat PAGE_TABLE_ENTRIES) with 1024%nat; lia)
              Hentry Hhigh)
    as (j & rj & Hj & Hrj & Hjb & _ & Hfind).
  assert (Z.land rj 0xfff = 0) as Hcount.
  { destruct (decide (j = idx)) as [->|Hne].
    - assert (rj = base) as -> by congruence. done.
    - unfold regions in Hrj. rewrite zlookup_zupdate_ne in Hrj by done.
      by eapply (no_pages_before_lookup _ idx base j rj Hnone); [lia|..]. }
  unfold _remove_pages.
  rewrite decide_False by (intros Hne; by apply Hne).
  cbn [memregions set_memregions]. rewrite Hfind.
  cbn [mbind outcome_bind from_option snd]. rewrite Hcount.
  by rewrite decide_True.
Qed.
End NewRemovePages.

(** ** [new_pages] and [remove_pages] on the example process *)

Lemma new_pages_one_region :
  @_new_pages pebbles 0x20000000 0x30000000 4096 (Some proc_fresh) vm_user
    = Ret (0, Some proc_one_region, vm_one_region).
Proof. vm_compute. reflexivity. Qed.

(** C6, as stated, fails on the cursor.  A fresh process (cursor on
    slot 0) asks for one page at 0x30000000 and removes it again: both
    calls return 0, the entries and the frame counters are back, and
    the cursor is on slot 1. *)
Lemma new_pages_remove_pages_moves_cursor :
  ∃ p2 vm2,
    @_new_pages pebbles 0x20000000 0x30000000 4096 (Some proc_fresh) vm_user
      = Ret (0, Some proc_one_region, vm_one_region) ∧
    @_remove_pages pebbles 0x30000000 (Some proc_one_region) vm_one_region
      = Ret (0, Some p2, vm2) ∧
    memregions p2 = memregions proc_fresh ∧
    frames (ft vm2) = frames (ft vm_user) ∧
    next_memregion_idx proc_fresh = 0 ∧
    next_memregion_idx p2 = 1.
Proof.
  do 2 eexists.
  split; [exact new_pages_one_region|].
  split; [vm_compute; reflexivity|].
  by vm_compute.
Qed.

Lemma new_pages_remove_pages_witness :
  ∃ p2 vm2,
    @_remove_pages pebbles 0x30000000 (Some proc_one_region) vm_one_region
      = Ret (0, Some p2, vm2) ∧
    memregions p2 = memregions proc_fresh ∧
    frames (ft vm2) = frames (ft vm_user) ∧
    next_memregion_idx p2 = 1.
Proof.
  destruct (@new_pages_remove_pages pebbles 0x20000000 0x30000000 4096
              proc_fresh vm_user proc_one_region vm_one_region)
    as (p2 & vm2 & Hrem & Hregions & Hframes & _ & Hcur & _).
  - apply (bool_decide_unpack _). vm_compute. exact I.
  - apply (bool_decide_unpack _). vm_compute. exact I.
  - lia.
  - lia.
  - apply (bool_decide_unpack _). vm_compute. exact I.
  - vm_compute. reflexivity.
  - exists p2, vm2. split; [exact Hrem|].
    split; [exact Hregions|]. split; [exact Hframes|]. exact Hcur.
Defined.

(** C10, as stated, fails where the process already holds a region at
    the base.  After [new_pages(0x30000000, 4096)], the call
    [new_pages(0x30000000, 0)] returns 0 and takes slot 1, and
    [remove_pages(0x30000000)] then returns 0, not -2: it finds slot 0
    first and removes the one-page region. *)
Lemma zero_length_region_over_region :
  ∃ p2 p3 vm3,
    @_new_pages pebbles 0x20000000 0x30000000 0 (Some proc_one_region)
      vm_one_region = Ret (0, Some p2, vm_one_region) ∧
    zlookup (memregions p2) 0 = Some 0x30000001 ∧
    zlookup (memregions p2) 1 = Some 0x30000000 ∧
    @_remove_pages pebbles 0x30000000 (Some p2) vm_one_region
      = Ret (0, Some p3, vm3) ∧
    zlookup (memregions p3) 0 = Some 0 ∧
    zlookup (memregions p3) 1 = Some 0x30000000 ∧
    frames (ft vm3) = [1; 0; 0; 0].
Proof.
  do 3 eexists.
  split; [vm_compute; reflexivity|].
  split; [vm_compute; reflexivity|].
  split; [vm_compute; reflexivity|].
  split; [vm_compute; reflexivity|].
  by vm_compute.
Qed.

Lemma new_pages_zero_length_witness :
  ∃ p1,
    @_new_pages pebbles 0x20000000 0x40000000 0 (Some proc_fresh) vm_user
      = Ret (0, Some p1, vm_user) ∧
    zlookup (memregions p1) 0 = Some 0x40000000 ∧
    next_memregion_idx p1 ≠ 0 ∧
    @_remove_pages pebbles 0x40000000 (Some p1) vm_user
      = Ret (-2, Some p1, vm_user).
Proof.
  destruct (@new_pages_zero_length pebbles 0x20000000 0x40000000 proc_fresh vm_user)
    as (p1 & Hnew & _ & Hslot & Hcur & _ & Hrem).
  - vm_compute. reflexivity.
  - apply (bool_decide_unpack _). vm_compute. exact I.
  - apply (bool_decide_unpack _). vm_compute. exact I.
  - vm_compute. discriminate.
  - apply (bool_decide_unpack _). vm_compute. exact I.
  - exists p1. split; [exact Hnew|]. split; [exact Hslot|].
    split; [exact Hcur|exact Hrem].
Defined.

(** * Thread lists *)

Lemma load_thread_Ret k a t : tcbs k !! a = Some t → load_thread a k = Ret t.
Proof. unfold load_thread. by intros ->. Qed.

Lemma thread_set_Ret k a f t :
  tcbs k !! a = Some t →
  thread_set a f k = Ret (with_tcbs k (<[a := f t]> (tcbs k))).
Proof. unfold thread_set, load_thread. by intros ->. Qed.

Lemma load_list_with_tcbs r k m : load_list r (with_tcbs k m) = load_list r k.
Proof. by destruct r. Qed.

Lemma list_set_Ret r f k L :
  load_list r k = Ret L →
  ∃ k', list_set r f k = Ret k' ∧ tcbs k' = tcbs k ∧
        load_list r k' = Ret (f L) ∧
        (∀ r2, r2 ≠ r → load_list r2 k' = load_list r2 k) ∧
        num_ticks k' = num_ticks k ∧ no_switch k' = no_switch k ∧
        idle_thread k' = idle_thread k.
Proof.
  destruct r as [| |p]; simpl.
  - intros [= <-]. eexists. split; [done|]. split; [done|]. split; [done|].
    split; [|done]. by intros [| |?].
  - intros [= <-]. eexists. split; [done|]. split; [done|]. split; [done|].
    split; [|done]. by intros [| |?].
  - destruct (pcbs k !! p) as [pr|] eqn:Hp; simpl; [|done].
    intros [= <-]. eexists. split; [done|]. split; [done|]. simpl.
    split; [by rewrite lookup_insert_eq|]. split; [|done].
    intros [| |p2] Hne; simpl; try done.
    rewrite lookup_insert_ne; [done|congruence].
Qed.

(** ** Chains *)

Lemma dll_seg_insert_notin m r p l n a x :
  a ∉ l → dll_seg m r p l n → dll_seg (<[a := x]> m) r p l n.
Proof.
  revert p. induction l as [|b l IH]; intros p Ha; simpl; [done|].
  apply not_elem_of_cons in Ha as [Hab Ha].
  rewrite lookup_insert_ne by done.
  destruct (m !! b); [|done].
  intros (? & ? & ? & ?). eauto.
Qed.

Lemma dll_seg_elem m r p l n a :
  dll_seg m r p l n → a ∈ l → ∃ t, m !! a = Some t ∧ thr_list t = Some r.
Proof.
  revert p. induction l as [|b l IH]; intros p; simpl.
  - intros _ Hin. by apply elem_of_nil in Hin.
  - destruct (m !! b) as [t|] eqn:Hb; [|done].
    intros (Hr & _ & _ & Hseg) Hin. apply elem_of_cons in Hin as [->|Hin]; eauto.
Qed.

Lemma last_or_cons p a l : last_or p (a :: l) = last_or (Some a) l.
Proof.
  unfold last_or. destruct l as [|b l]; [done|]. rewrite last_cons_cons.
  destruct (last (b :: l)) eqn:E; [done|]. by apply last_None in E.
Qed.

Lemma last_or_snoc p l c : last_or p (l ++ [c]) = Some c.
Proof. unfold last_or. by rewrite last_snoc. Qed.

Lemma hd_or_app l1 l2 n : hd_or (l1 ++ l2) n = hd_or l1 (hd_or l2 n).
Proof. by destruct l1. Qed.

Lemma dll_seg_app m r p l1 l2 n :
  dll_seg m r p (l1 ++ l2) n ↔
  dll_seg m r p l1 (hd_or l2 n) ∧ dll_seg m r (last_or p l1) l2 n.
Proof.
  revert p. induction l1 as [|a l1 IH]; intros p; simpl.
  - unfold last_or. simpl. tauto.
  - rewrite last_or_cons, hd_or_app. destruct (m !! a); [|tauto].
    rewrite IH. tauto.
Qed.

Lemma dll_seg_set_next_last m r p l c n n' tc :
  dll_seg m r p (l ++ [c]) n → c ∉ l → m !! c = Some tc →
  dll_seg (<[c := with_next tc n']> m) r p (l ++ [c]) n'.
Proof.
  rewrite !dll_seg_app. simpl. intros [H1 H2] Hc Htc. split.
  - by apply dll_seg_insert_notin.
  - rewrite lookup_insert_eq. rewrite Htc in H2. simpl. tauto.
Qed.

Lemma dll_seg_set_prev_head m r p l c n p' tc :
  dll_seg m r p (c :: l) n → c ∉ l → m !! c = Some tc →
  dll_seg (<[c := with_prev tc p']> m) r p' (c :: l) n.
Proof.
  simpl. intros H1 Hc Htc. rewrite lookup_insert_eq. rewrite Htc in H1.
  simpl. destruct H1 as (? & ? & ? & ?).
  split; [done|]. split; [done|]. split; [done|].
  by apply dll_seg_insert_notin.
Qed.

Lemma wake_of_insert k m a x b :
  tcbs k !! a = Some x →
  wake_of (with_tcbs k (<[a := m x]> (tcbs k))) b =
    if decide (a = b) then wake (m x) else wake_of k b.
Proof.
  intros Ha. unfold wake_of. simpl. destruct (decide (a = b)) as [->|].
  - by rewrite lookup_insert_eq.
  - by rewrite lookup_insert_ne.
Qed.

(** ** Frames *)

Lemma kernel_frame_refl r a k : kernel_frame r a k k.
Proof. by repeat split. Qed.

Lemma kernel_frame_trans r a k1 k2 k3 :
  kernel_frame r a k1 k2 → kernel_frame r a k2 k3 → kernel_frame r a k1 k3.
Proof.
  intros (Hn1 & Hl1 & Hw1 & Ht1) (Hn2 & Hl2 & Hw2 & Ht2).
  split; [congruence|]. split.
  { intros r2 Hr. rewrite Hl2, Hl1; done. }
  split.
  { intros b Hb. rewrite Hw2, Hw1; done. }
  intros b t Hb Ht Hr. apply Ht2; [done| |done]. by apply Ht1.
Qed.

Lemma thread_set_frame r a k c f tc :
  tcbs k !! c = Some tc → c = a ∨ (thr_list tc = Some r ∧ wake (f tc) = wake tc) →
  kernel_frame r a k (with_tcbs k (<[c := f tc]> (tcbs k))).
Proof.
  intros Hc Hor. split; [done|]. split.
  { intros r2 _. apply load_list_with_tcbs. }
  split.
  { intros b Hb. rewrite (wake_of_insert k f c tc b Hc).
    destruct (decide (c = b)) as [<-|]; [|done].
    destruct Hor as [->|[_ ->]]; [done|]. unfold wake_of. by rewrite Hc. }
  intros b t Hb Ht Hr. simpl.
  destruct (decide (c = b)) as [<-|]; [|by rewrite lookup_insert_ne].
  destruct Hor as [->|[Hr' _]]; [done|]. congruence.
Qed.

Lemma list_set_frame r a f k L :
  load_list r k = Ret L →
  ∃ k', list_set r f k = Ret k' ∧ tcbs k' = tcbs k ∧
        load_list r k' = Ret (f L) ∧ kernel_frame r a k k'.
Proof.
  intros HL. destruct (list_set_Ret r f k L HL)
    as (k' & Hset & Ht & Hl & Hother & Hn & _ & _).
  exists k'. split; [done|]. split; [done|]. split; [done|].
  split; [done|]. split; [done|]. split.
  - intros b _. unfold wake_of. by rewrite Ht.
  - intros b t _ Hb _. by rewrite Ht.
Qed.

Lemma dll_seg_frame m m' r p l n :
  (∀ b t, b ∈ l → m !! b = Some t → thr_list t = Some r → m' !! b = Some t) →
  dll_seg m r p l n → dll_seg m' r p l n.
Proof.
  revert p. induction l as [|b l IH]; intros p Hm; simpl; [done|].
  destruct (m !! b) as [t|] eqn:Hb; [|done].
  intros (Hrb & Hp & Hn & Hseg).
  rewrite (Hm b t); [|by left|done|done].
  split; [done|]. split; [done|]. split; [done|].
  apply IH; [|done]. intros b' t' Hin. apply Hm. by right.
Qed.

Lemma is_thrlist_frame r a k k' r2 L l :
  kernel_frame r a k k' → r2 ≠ r → a ∉ l →
  is_thrlist k r2 L l → is_thrlist k' r2 L l.
Proof.
  intros (_ & _ & _ & Ht) Hr Ha (Hnd & Hsz & Hh & Htl & Hseg).
  split; [done|]. split; [done|]. split; [done|]. split; [done|].
  eapply dll_seg_frame; [|done].
  intros b t Hin Hb Hrb. apply Ht; [|done|congruence].
  intros ->. done.
Qed.

Lemma sorted_by_wake_frame r a k k' l :
  kernel_frame r a k k' → a ∉ l → sorted_by_wake k l → sorted_by_wake k' l.
Proof.
  intros (_ & _ & Hw & _) Ha. unfold sorted_by_wake.
  assert (wake_of k' <$> l = wake_of k <$> l) as ->; [|done].
  apply list_fmap_ext. intros i b Hb. apply Hw.
  intros ->. apply Ha. by eapply list_elem_of_lookup_2.
Qed.

Lemma hd_or_nonempty l n n' : l ≠ [] → hd_or l n = hd_or l n'.
Proof. by destruct l. Qed.

Lemma last_or_None l : last_or None l = last l.
Proof. unfold last_or. by destruct (last l). Qed.

(** ** [thrlist_remove] *)

Lemma thrlist_remove_spec k r L l1 a l2 :
  load_list r k = Ret L → is_thrlist k r L (l1 ++ a :: l2) →
  ∃ k' L' t',
    thrlist_remove (Some a) k = Ret (0, k') ∧
    load_list r k' = Ret L' ∧ is_thrlist k' r L' (l1 ++ l2) ∧
    tcbs k' !! a = Some t' ∧ thr_list t' = None ∧ wake t' = wake_of k a ∧
    kernel_frame r a k k'.
Proof.
  intros HL (Hnd & [Hsz Hszb] & Hh & Htl & Hseg).
  apply dll_seg_app in Hseg as [Hseg1 Hseg2]. simpl in Hseg1, Hseg2.
  destruct (tcbs k !! a) as [t|] eqn:Ha; [|done].
  destruct Hseg2 as (Hr & Hp & Hn & Hseg2).
  apply NoDup_app in Hnd as (Hnd1 & Hdisj & Hnd2).
  apply NoDup_cons in Hnd2 as [Ha2 Hnd2].
  assert (a ∉ l1) as Ha1. { intros Hin. apply (Hdisj a Hin). by left. }
  assert (∃ k1 L1,
    (match prev t with
     | Some p => thread_set p (λ x, with_next x (next t)) k
     | None => list_set r (λ L, with_head L (next t)) k
     end) = Ret k1 ∧
    load_list r k1 = Ret L1 ∧ head L1 = hd_or (l1 ++ l2) None ∧
    tail L1 = tail L ∧ size L1 = size L ∧
    dll_seg (tcbs k1) r None l1 (hd_or l2 None) ∧
    dll_seg (tcbs k1) r (Some a) l2 None ∧ tcbs k1 !! a = Some t ∧
    kernel_frame r a k k1)
    as (k1 & L1 & Hs1 & HL1 & Hh1 & Ht1 & Hz1 & Hseg1' & Hseg2' & Ha' & Hf1).
  { rewrite Hp. destruct l1 as [|x l1' _] using rev_ind.
    - unfold last_or; simpl.
      destruct (list_set_frame r a (λ L, with_head L (next t)) k L HL)
        as (k1 & Hset & Htc & Hl & Hfr).
      exists k1, (with_head L (next t)). rewrite Htc.
      split; [done|]. split; [done|]. simpl. by rewrite Hn.
    - rewrite last_or_snoc.
      destruct (dll_seg_elem _ _ _ _ _ x Hseg1) as (tx & Hx & Hrx).
      { apply elem_of_app. right. by left. }
      apply NoDup_app in Hnd1 as (_ & Hx1 & _).
      assert (x ∉ l1') as Hxl1.
      { intros Hin. apply (Hx1 x Hin). by left. }
      assert (x ∉ a :: l2) as Hxl2.
      { apply Hdisj, elem_of_app. right. by left. }
      apply not_elem_of_cons in Hxl2 as [Hxa Hxl2].
      exists (with_tcbs k (<[x := with_next tx (next t)]> (tcbs k))), L.
      split; [exact (thread_set_Ret k x (λ x, with_next x (next t)) tx Hx)|].
      split; [by rewrite load_list_with_tcbs|].
      split.
      { rewrite Hh, (hd_or_app (l1' ++ [x]) (a :: l2)), (hd_or_app (l1' ++ [x]) l2).
        apply hd_or_nonempty. by destruct l1'. }
      split; [done|]. split; [done|]. simpl. split.
      { rewrite <- Hn. by apply (dll_seg_set_next_last _ _ _ _ _ (Some a)). }
      split; [by apply dll_seg_insert_notin|].
      split; [by rewrite lookup_insert_ne|].
      apply (thread_set_frame r a k x (λ x, with_next x (next t)) tx Hx).
      right. done. }
  assert (∃ k2 L2,
    (match next t with
     | Some n => thread_set n (λ x, with_prev x (prev t)) k1
     | None => list_set r (λ L, with_tail L (prev t)) k1
     end) = Ret k2 ∧
    load_list r k2 = Ret L2 ∧ head L2 = hd_or (l1 ++ l2) None ∧
    tail L2 = last (l1 ++ l2) ∧ size L2 = size L ∧
    dll_seg (tcbs k2) r None l1 (hd_or l2 None) ∧
    dll_seg (tcbs k2) r (last_or None l1) l2 None ∧ tcbs k2 !! a = Some t ∧
    kernel_frame r a k1 k2)
    as (k2 & L2 & Hs2 & HL2 & Hh2 & Ht2 & Hz2 & Hseg1'' & Hseg2'' & Ha'' & Hf2).
  { rewrite Hn, Hp. destruct l2 as [|n l2'].
    - simpl.
      destruct (list_set_frame r a (λ L, with_tail L (last_or None l1)) k1 L1 HL1)
        as (k2 & Hset & Htc & Hl & Hfr).
      exists k2, (with_tail L1 (last_or None l1)). rewrite Htc.
      split; [done|]. split; [done|]. simpl.
      split; [done|]. split; [by rewrite app_nil_r, last_or_None|].
      done.
    - simpl.
      simpl in Hseg2'. destruct (tcbs k1 !! n) as [tn|] eqn:Hnn; [|done].
      assert (n ∉ l1) as Hnl1.
      { intros Hin. apply (Hdisj n Hin). right. by left. }
      assert (n ≠ a) as Hna. { intros ->. apply Ha2. by left. }
      apply NoDup_cons in Hnd2 as [Hnl2 _].
      exists (with_tcbs k1 (<[n := with_prev tn (last_or None l1)]> (tcbs k1))), L1.
      split; [exact (thread_set_Ret k1 n (λ x, with_prev x (last_or None l1)) tn Hnn)|].
      split; [by rewrite load_list_with_tcbs|].
      split; [done|].
      split; [by rewrite Ht1, Htl, !last_app_cons|].
      split; [done|]. simpl.
      split; [by apply dll_seg_insert_notin|].
      split.
      { apply (dll_seg_set_prev_head _ _ (Some a)); [|done|done].
        simpl. by rewrite Hnn. }
      split; [by rewrite lookup_insert_ne|].
      apply (thread_set_frame r a k1 n (λ x, with_prev x (last_or None l1)) tn Hnn).
      right. split; [|done]. tauto. }
  destruct (list_set_frame r a (λ L, with_size L (u32 (size L - 1))) k2 L2 HL2)
    as (k3 & Hs3 & Htc3 & HL3 & Hf3).
  set (t1 := with_list t None).
  set (t2 := with_next t1 None).
  set (t3 := with_prev t2 None).
  set (k4 := with_tcbs k3 (<[a := t1]> (tcbs k3))).
  set (k5 := with_tcbs k4 (<[a := t2]> (tcbs k4))).
  set (k6 := with_tcbs k5 (<[a := t3]> (tcbs k5))).
  assert (tcbs k3 !! a = Some t) as Ha3 by (by rewrite Htc3).
  assert (tcbs k4 !! a = Some t1) as Ha4 by apply lookup_insert_eq.
  assert (tcbs k5 !! a = Some t2) as Ha5 by apply lookup_insert_eq.
  exists k6, (with_size L2 (u32 (size L2 - 1))), t3.
  split.
  { unfold thrlist_remove. rewrite (load_thread_Ret _ _ _ Ha).
    cbn [mbind outcome_bind]. rewrite Hr, Hs1. cbn [mbind outcome_bind].
    rewrite (load_thread_Ret _ _ _ Ha'). cbn [mbind outcome_bind].
    rewrite Hr. cbn [deref mbind outcome_bind]. rewrite Hs2.
    cbn [mbind outcome_bind].
    rewrite (load_thread_Ret _ _ _ Ha''). cbn [mbind outcome_bind].
    rewrite Hr. cbn [deref mbind outcome_bind]. rewrite Hs3.
    cbn [mbind outcome_bind].
    rewrite (thread_set_Ret k3 a _ t Ha3). cbn [mbind outcome_bind].
    rewrite (thread_set_Ret k4 a _ t1 Ha4). cbn [mbind outcome_bind].
    rewrite (thread_set_Ret k5 a _ t2 Ha5). done. }
  split; [unfold k6, k5, k4; by rewrite !load_list_with_tcbs|].
  split.
  { split; [apply NoDup_app; split; [done|]; split; [|done];
            intros y Hy1 Hy2; apply (Hdisj y Hy1); by right|].
    split.
    { simpl. rewrite Hz2, Hsz, !length_app. simpl.
      rewrite length_app in Hsz. simpl in Hsz.
      unfold u32. rewrite Z.mod_small; lia. }
    split; [done|]. split; [done|].
    unfold k6, k5, k4. simpl. apply dll_seg_app. rewrite Htc3. split.
    + do 3 (apply dll_seg_insert_notin; [done|]). done.
    + do 3 (apply dll_seg_insert_notin; [done|]). done. }
  split; [apply lookup_insert_eq|]. split; [done|].
  split; [unfold wake_of; by rewrite Ha|].
  eapply kernel_frame_trans; [exact Hf1|].
  eapply kernel_frame_trans; [exact Hf2|].
  eapply kernel_frame_trans; [exact Hf3|].
  eapply kernel_frame_trans;
    [apply (thread_set_frame r a k3 a (λ t, with_list t None) t Ha3); by left|].
  eapply kernel_frame_trans;
    [apply (thread_set_frame r a k4 a (λ t, with_next t None) t1 Ha4); by left|].
  apply (thread_set_frame r a k5 a (λ t, with_prev t None) t2 Ha5). by left.
Qed.

(** ** [thrlist_add_head] and [thrlist_add_tail] *)

Lemma is_thrlist_fresh k r L l a t :
  is_thrlist k r L l → tcbs k !! a = Some t → thr_list t = None → a ∉ l.
Proof.
  intros (_ & _ & _ & _ & Hseg) Ha Hr Hin.
  destruct (dll_seg_elem _ _ _ _ _ a Hseg Hin) as (t' & Ha' & Hr'). congruence.
Qed.

Lemma thrlist_add_head_spec k r L l a t :
  load_list r k = Ret L → is_thrlist k r L l →
  tcbs k !! a = Some t → thr_list t = None →
  Z.of_nat (length l) + 1 < 4294967296 →
  ∃ k' L' t',
    thrlist_add_head (Some a) (Some r) k = Ret (0, k') ∧
    load_list r k' = Ret L' ∧ is_thrlist k' r L' (a :: l) ∧
    tcbs k' !! a = Some t' ∧ wake t' = wake t ∧
    kernel_frame r a k k'.
Proof.
  intros HL Hlist Ha Hr Hlen.
  pose proof (is_thrlist_fresh _ _ _ _ _ _ Hlist Ha Hr) as Hal.
  destruct Hlist as (Hnd & [Hsz Hszb] & Hh & Htl & Hseg).
  set (t1 := with_next t (head L)).
  set (t2 := with_prev t1 None).
  set (k1 := with_tcbs k (<[a := t1]> (tcbs k))).
  set (k2 := with_tcbs k1 (<[a := t2]> (tcbs k1))).
  assert (tcbs k1 !! a = Some t1) as Ha1 by apply lookup_insert_eq.
  assert (tcbs k2 !! a = Some t2) as Ha2 by apply lookup_insert_eq.
  assert (load_list r k2 = Ret L) as HL2.
  { unfold k2, k1. by rewrite !load_list_with_tcbs. }
  assert (dll_seg (tcbs k2) r None l None) as Hseg2.
  { unfold k2, k1. simpl. by do 2 (apply dll_seg_insert_notin; [done|]). }
  assert (∃ k3 L3,
    (if decide (size L > 0)
     then h ← deref (head L); thread_set h (λ t, with_prev t (Some a)) k2
     else list_set r (λ L, with_tail L (Some a)) k2) = Ret k3 ∧
    load_list r k3 = Ret L3 ∧ size L3 = size L ∧ tail L3 = last (a :: l) ∧
    dll_seg (tcbs k3) r (Some a) l None ∧ tcbs k3 !! a = Some t2 ∧
    kernel_frame r a k2 k3)
    as (k3 & L3 & Hs3 & HL3 & Hz3 & Ht3 & Hseg3 & Ha3 & Hf3).
  { destruct l as [|h l'].
    - simpl in Hsz. rewrite decide_False by lia.
      destruct (list_set_frame r a (λ L, with_tail L (Some a)) k2 L HL2)
        as (k3 & Hset & Htc & Hl & Hfr).
      exists k3, (with_tail L (Some a)). rewrite Htc.
      repeat (split; [done|]). done.
    - simpl in Hsz. rewrite decide_True by lia.
      simpl in Hh. rewrite Hh. cbn [deref mbind outcome_bind].
      cbn [dll_seg] in Hseg2. destruct (tcbs k2 !! h) as [th|] eqn:Hhh; [|done].
      apply not_elem_of_cons in Hal as [Hah Hal].
      apply NoDup_cons in Hnd as [Hhl _].
      exists (with_tcbs k2 (<[h := with_prev th (Some a)]> (tcbs k2))), L.
      split; [exact (thread_set_Ret k2 h (λ t, with_prev t (Some a)) th Hhh)|].
      split; [by rewrite load_list_with_tcbs|].
      split; [done|].
      split; [by rewrite Htl, last_cons_cons|].
      split.
      { apply (dll_seg_set_prev_head _ _ None); [|done|done].
        cbn [dll_seg]. by rewrite Hhh. }
      split; [simpl; by rewrite lookup_insert_ne|].
      apply (thread_set_frame r a k2 h (λ t, with_prev t (Some a)) th Hhh).
      right. split; [|done]. tauto. }
  destruct (list_set_frame r a (λ L, with_head L (Some a)) k3 L3 HL3)
    as (k4 & Hs4 & Htc4 & HL4 & Hf4).
  destruct (list_set_frame r a (λ L, with_size L (u32 (size L + 1))) k4 _ HL4)
    as (k5 & Hs5 & Htc5 & HL5 & Hf5).
  assert (tcbs k5 !! a = Some t2) as Ha5 by (by rewrite Htc5, Htc4).
  exists (with_tcbs k5 (<[a := with_list t2 (Some r)]> (tcbs k5))).
  eexists. exists (with_list t2 (Some r)).
  split.
  { unfold thrlist_add_head. rewrite (load_thread_Ret _ _ _ Ha).
    cbn [mbind outcome_bind]. rewrite decide_False by (by rewrite Hr; intros []).
    rewrite HL. cbn [mbind outcome_bind].
    rewrite (thread_set_Ret k a (λ t, with_next t (head L)) t Ha).
    cbn [mbind outcome_bind]. fold t1. fold k1.
    rewrite (thread_set_Ret k1 a (λ t, with_prev t None) t1 Ha1).
    cbn [mbind outcome_bind]. fold t2. fold k2.
    rewrite Hs3. cbn [mbind outcome_bind].
    rewrite Hs4. cbn [mbind outcome_bind].
    rewrite Hs5. cbn [mbind outcome_bind].
    rewrite (thread_set_Ret k5 a (λ t, with_list t (Some r)) t2 Ha5). done. }
  split; [rewrite load_list_with_tcbs; exact HL5|].
  split.
  { split; [by apply NoDup_cons|]. split.
    { simpl. rewrite Hz3, Hsz. unfold u32. rewrite Z.mod_small; lia. }
    split; [done|]. split; [done|].
    simpl. rewrite lookup_insert_eq. simpl.
    split; [done|]. split; [done|]. split; [done|].
    apply dll_seg_insert_notin; [done|]. by rewrite Htc5, Htc4. }
  split; [apply lookup_insert_eq|]. split; [done|].
  eapply kernel_frame_trans;
    [apply (thread_set_frame r a k a (λ t, with_next t (head L)) t Ha); by left|].
  eapply kernel_frame_trans;
    [apply (thread_set_frame r a k1 a (λ t, with_prev t None) t1 Ha1); by left|].
  eapply kernel_frame_trans; [exact Hf3|].
  eapply kernel_frame_trans; [exact Hf4|].
  eapply kernel_frame_trans; [exact Hf5|].
  apply (thread_set_frame r a k5 a (λ t, with_list t (Some r)) t2 Ha5). by left.
Qed.

Lemma thrlist_add_tail_spec k r L l a t :
  load_list r k = Ret L → is_thrlist k r L l →
  tcbs k !! a = Some t → thr_list t = None →
  Z.of_nat (length l) + 1 < 4294967296 →
  ∃ k' L' t',
    thrlist_add_tail (Some a) (Some r) k = Ret (0, k') ∧
    load_list r k' = Ret L' ∧ is_thrlist k' r L' (l ++ [a]) ∧
    tcbs k' !! a = Some t' ∧ wake t' = wake t ∧
    kernel_frame r a k k'.
Proof.
  intros HL Hlist Ha Hr Hlen.
  pose proof (is_thrlist_fresh _ _ _ _ _ _ Hlist Ha Hr) as Hal.
  destruct Hlist as (Hnd & [Hsz Hszb] & Hh & Htl & Hseg).
  set (t1 := with_prev t (tail L)).
  set (t2 := with_next t1 None).
  set (k1 := with_tcbs k (<[a := t1]> (tcbs k))).
  set (k2 := with_tcbs k1 (<[a := t2]> (tcbs k1))).
  assert (tcbs k1 !! a = Some t1) as Ha1 by apply lookup_insert_eq.
  assert (tcbs k2 !! a = Some t2) as Ha2 by apply lookup_insert_eq.
  assert (load_list r k2 = Ret L) as HL2.
  { unfold k2, k1. by rewrite !load_list_with_tcbs. }
  assert (dll_seg (tcbs k2) r None l None) as Hseg2.
  { unfold k2, k1. simpl. by do 2 (apply dll_seg_insert_notin; [done|]). }
  assert (∃ k3 L3,
    (if decide (size L > 0)
     then tl ← deref (tail L); thread_set tl (λ t, with_next t (Some a)) k2
     else list_set r (λ L, with_head L (Some a)) k2) = Ret k3 ∧
    load_list r k3 = Ret L3 ∧ size L3 = size L ∧
    head L3 = hd_or (l ++ [a]) None ∧
    dll_seg (tcbs k3) r None l (Some a) ∧ tcbs k3 !! a = Some t2 ∧
    kernel_frame r a k2 k3)
    as (k3 & L3 & Hs3 & HL3 & Hz3 & Hh3 & Hseg3 & Ha3 & Hf3).
  { destruct l as [|c l' _] using rev_ind.
    - simpl in Hsz. rewrite decide_False by lia.
      destruct (list_set_frame r a (λ L, with_head L (Some a)) k2 L HL2)
        as (k3 & Hset & Htc & Hl & Hfr).
      exists k3, (with_head L (Some a)). rewrite Htc.
      repeat (split; [done|]). done.
    - rewrite length_app in Hsz. simpl in Hsz. rewrite decide_True by lia.
      rewrite last_snoc in Htl. rewrite Htl. cbn [deref mbind outcome_bind].
      destruct (dll_seg_elem _ _ _ _ _ c Hseg2) as (tc & Hc & Hrc).
      { apply elem_of_app. right. by left. }
      apply not_elem_of_app in Hal as [Hal Hac].
      apply not_elem_of_cons in Hac as [Hac _].
      apply NoDup_app in Hnd as (_ & Hcl & _).
      assert (c ∉ l') as Hcl'. { intros Hin. apply (Hcl c Hin). by left. }
      exists (with_tcbs k2 (<[c := with_next tc (Some a)]> (tcbs k2))), L.
      split; [exact (thread_set_Ret k2 c (λ t, with_next t (Some a)) tc Hc)|].
      split; [by rewrite load_list_with_tcbs|].
      split; [done|].
      split.
      { rewrite Hh, (hd_or_app (l' ++ [c]) [a]). apply hd_or_nonempty.
        by destruct l'. }
      split; [by apply (dll_seg_set_next_last _ _ _ _ _ None)|].
      split; [simpl; by rewrite lookup_insert_ne|].
      apply (thread_set_frame r a k2 c (λ t, with_next t (Some a)) tc Hc).
      right. split; [|done]. tauto. }
  destruct (list_set_frame r a (λ L, with_tail L (Some a)) k3 L3 HL3)
    as (k4 & Hs4 & Htc4 & HL4 & Hf4).
  destruct (list_set_frame r a (λ L, with_size L (u32 (size L + 1))) k4 _ HL4)
    as (k5 & Hs5 & Htc5 & HL5 & Hf5).
  assert (tcbs k5 !! a = Some t2) as Ha5 by (by rewrite Htc5, Htc4).
  exists (with_tcbs k5 (<[a := with_list t2 (Some r)]> (tcbs k5))).
  eexists. exists (with_list t2 (Some r)).
  split.
  { unfold thrlist_add_tail. rewrite (load_thread_Ret _ _ _ Ha).
    cbn [mbind outcome_bind]. rewrite decide_False by (by rewrite Hr; intros []).
    rewrite HL. cbn [mbind outcome_bind].
    rewrite (thread_set_Ret k a (λ t, with_prev t (tail L)) t Ha).
    cbn [mbind outcome_bind]. fold t1. fold k1.
    rewrite (thread_set_Ret k1 a (λ t, with_next t None) t1 Ha1).
    cbn [mbind outcome_bind]. fold t2. fold k2.
    rewrite Hs3. cbn [mbind outcome_bind].
    rewrite Hs4. cbn [mbind outcome_bind].
    rewrite Hs5. cbn [mbind outcome_bind].
    rewrite (thread_set_Ret k5 a (λ t, with_list t (Some r)) t2 Ha5). done. }
  split; [rewrite load_list_with_tcbs; exact HL5|].
  split.
  { split.
    { apply NoDup_app. split; [done|]. split; [|apply NoDup_singleton].
      intros x Hx ->%list_elem_of_singleton. done. }
    split.
    { simpl. rewrite Hz3, Hsz, length_app. simpl.
      unfold u32. rewrite Z.mod_small; lia. }
    split; [done|]. split; [simpl; by rewrite last_snoc|].
    cbn [tcbs with_tcbs]. apply dll_seg_app. split.
    - apply dll_seg_insert_notin; [done|]. by rewrite Htc5, Htc4.
    - cbn [dll_seg]. rewrite lookup_insert_eq. simpl.
      split; [done|]. split; [|done]. by rewrite Htl, last_or_None. }
  split; [apply lookup_insert_eq|]. split; [done|].
  eapply kernel_frame_trans;
    [apply (thread_set_frame r a k a (λ t, with_prev t (tail L)) t Ha); by left|].
  eapply kernel_frame_trans;
    [apply (thread_set_frame r a k1 a (λ t, with_next t None) t1 Ha1); by left|].
  eapply kernel_frame_trans; [exact Hf3|].
  eapply kernel_frame_trans; [exact Hf4|].
  eapply kernel_frame_trans; [exact Hf5|].
  apply (thread_set_frame r a k5 a (λ t, with_list t (Some r)) t2 Ha5). by left.
Qed.

(** ** [thrlist_add_sorted] *)

Lemma sorted_scan_None fuel w k : sorted_scan fuel None w k = Ret None.
Proof. by destruct fuel. Qed.

Lemma sorted_scan_Some fuel c w k :
  sorted_scan fuel (Some c) w k =
    tc ← load_thread c k;
    if decide (wake tc > w) then
      match fuel with
      | O => Undefined
      | S fuel' => sorted_scan fuel' (prev tc) w k
      end
    else Ret (Some c).
Proof. by destruct fuel. Qed.

Lemma sorted_scan_spec k r l1 l2 n w fuel :
  dll_seg (tcbs k) r None (l1 ++ l2) n →
  Forall (λ b, wake_of k b > w) l2 → Forall (λ b, wake_of k b ≤ w) l1 →
  (length l2 ≤ fuel)%nat →
  sorted_scan fuel (last (l1 ++ l2)) w k = Ret (last l1).
Proof.
  revert fuel n. induction l2 as [|x l2 IH] using rev_ind; intros fuel n Hseg H2 H1 Hfuel.
  - rewrite app_nil_r in *. destruct l1 as [|c l1' _] using rev_ind.
    + apply sorted_scan_None.
    + rewrite last_snoc, sorted_scan_Some.
      destruct (dll_seg_elem _ _ _ _ _ c Hseg) as (tc & Hc & _).
      { apply elem_of_app. right. by left. }
      rewrite (load_thread_Ret _ _ _ Hc). cbn [mbind outcome_bind].
      rewrite Forall_app, Forall_singleton in H1. destruct H1 as [_ H1].
      unfold wake_of in H1. rewrite Hc in H1. simpl in H1.
      by rewrite decide_False by lia.
  - rewrite app_assoc in *. rewrite last_snoc, sorted_scan_Some.
    apply dll_seg_app in Hseg as [Hseg Hx]. cbn [dll_seg] in Hx.
    destruct (tcbs k !! x) as [tx|] eqn:Htx; [|done].
    destruct Hx as (_ & Hp & _).
    rewrite (load_thread_Ret _ _ _ Htx). cbn [mbind outcome_bind].
    rewrite Forall_app, Forall_singleton in H2. destruct H2 as [H2 Hwx].
    unfold wake_of in Hwx. rewrite Htx in Hwx. simpl in Hwx.
    rewrite decide_True by lia.
    rewrite length_app in Hfuel. simpl in Hfuel.
    destruct fuel as [|fuel]; [lia|].
    rewrite Hp, last_or_None. eapply IH; [done|done|done|lia].
Qed.

Lemma sorted_split k l w :
  sorted_by_wake k l →
  ∃ l1 l2, l = l1 ++ l2 ∧ Forall (λ b, wake_of k b > w) l2 ∧
           Forall (λ b, wake_of k b ≤ w) l1.
Proof.
  unfold sorted_by_wake.
  induction l as [|x l IH] using rev_ind; intros Hs.
  - exists [], []. by repeat split.
  - rewrite fmap_app in Hs. apply StronglySorted_app in Hs as (Hle & Hs & _).
    destruct (decide (wake_of k x > w)) as [Hx|Hx].
    + destruct (IH Hs) as (l1 & l2 & -> & H2 & H1).
      exists l1, (l2 ++ [x]). rewrite app_assoc. split; [done|].
      split; [|done]. apply Forall_app. split; [done|]. by apply Forall_singleton.
    + exists (l ++ [x]), []. rewrite app_nil_r. split; [done|].
      split; [done|]. apply Forall_app. split; [|apply Forall_singleton; lia].
      apply Forall_forall. intros b Hb.
      specialize (Hle (wake_of k b) (wake_of k x)).
      etrans; [apply Hle|lia].
      * apply list_elem_of_fmap. by exists b.
      * simpl. by left.
Qed.

Lemma sorted_insert k k' l1 l2 a w :
  sorted_by_wake k (l1 ++ l2) → a ∉ l1 ++ l2 →
  (∀ b, b ≠ a → wake_of k' b = wake_of k b) → wake_of k' a = w →
  Forall (λ b, wake_of k b > w) l2 → Forall (λ b, wake_of k b ≤ w) l1 →
  sorted_by_wake k' (l1 ++ a :: l2).
Proof.
  unfold sorted_by_wake. intros Hs Ha Hw Hwa H2 H1.
  apply not_elem_of_app in Ha as [Ha1 Ha2].
  assert (∀ l : list nat, a ∉ l → wake_of k' <$> l = wake_of k <$> l) as Hext.
  { intros l Hl. apply list_fmap_ext. intros i b Hb. apply Hw.
    intros ->. apply Hl. by eapply list_elem_of_lookup_2. }
  rewrite fmap_app, fmap_cons, (Hext l1 Ha1), (Hext l2 Ha2), Hwa.
  rewrite fmap_app in Hs. apply StronglySorted_app in Hs as (Hle & Hs1 & Hs2).
  apply StronglySorted_app. split; [|split; [done|]].
  - intros x1 x2 Hx1 Hx2. apply elem_of_cons in Hx2 as [->|Hx2].
    + apply list_elem_of_fmap in Hx1 as (b & -> & Hb).
      rewrite Forall_forall in H1. by apply H1.
    + by apply Hle.
  - constructor; [done|]. apply Forall_fmap. eapply Forall_impl; [exact H2|].
    simpl. intros b Hb. lia.
Qed.

Lemma dll_seg_cons m r p a l n t :
  m !! a = Some t → thr_list t = Some r → prev t = p → next t = hd_or l n →
  dll_seg m r (Some a) l n → dll_seg m r p (a :: l) n.
Proof. intros Ha ????. cbn [dll_seg]. by rewrite Ha. Qed.

Lemma thrlist_add_sorted_spec k r L l a t fuel :
  load_list r k = Ret L → is_thrlist k r L l → sorted_by_wake k l →
  tcbs k !! a = Some t → thr_list t = None →
  Z.of_nat (length l) + 1 < 4294967296 → (length l ≤ fuel)%nat →
  ∃ k' L' l1 l2 t',
    l = l1 ++ l2 ∧
    thrlist_add_sorted fuel (Some a) (Some r) k = Ret (0, k') ∧
    load_list r k' = Ret L' ∧ is_thrlist k' r L' (l1 ++ a :: l2) ∧
    sorted_by_wake k' (l1 ++ a :: l2) ∧
    tcbs k' !! a = Some t' ∧ wake t' = wake t ∧
    kernel_frame r a k k'.
Proof.
  intros HL Hlist Hsorted Ha Hr Hlen Hfuel.
  pose proof (is_thrlist_fresh _ _ _ _ _ _ Hlist Ha Hr) as Hal.
  destruct (sorted_split k l (wake t) Hsorted) as (l1 & l2 & -> & H2 & H1).
  assert (∀ k' t', tcbs k' !! a = Some t' → wake t' = wake t →
                   kernel_frame r a k k' →
                   sorted_by_wake k' (l1 ++ a :: l2)) as Hsort.
  { intros k' t' Ha' Hw' (_ & _ & Hw & _).
    apply (sorted_insert k k' l1 l2 a (wake t)); try done.
    unfold wake_of. by rewrite Ha'. }
  unfold thrlist_add_sorted. rewrite (load_thread_Ret _ _ _ Ha).
  cbn [mbind outcome_bind]. rewrite decide_False by (by rewrite Hr; intros []).
  rewrite HL. cbn [mbind outcome_bind].
  pose proof Hlist as (Hnd & [Hsz Hszb] & Hh & Htl & Hseg).
  destruct (decide (size L = 0)) as [Hz|Hz].
  { assert (l1 = [] ∧ l2 = []) as [-> ->].
    { rewrite Hsz in Hz. destruct l1, l2; simpl in Hz; try lia. done. }
    destruct (thrlist_add_head_spec k r L [] a t HL Hlist Ha Hr Hlen)
      as (k' & L' & t' & Hadd & HL' & Hlist' & Ha' & Hw' & Hf).
    exists k', L', [], [], t'. repeat (split; [done|]). split; [|done].
    by apply (Hsort k' t'). }
  rewrite Htl, (sorted_scan_spec k r l1 l2 None (wake t) fuel Hseg H2 H1)
    by (rewrite length_app in Hfuel; lia).
  cbn [mbind outcome_bind].
  destruct l1 as [|c l1' _] using rev_ind.
  { simpl. simpl in Hlist, Hlen.
    destruct (thrlist_add_head_spec k r L l2 a t HL Hlist Ha Hr Hlen)
      as (k' & L' & t' & Hadd & HL' & Hlist' & Ha' & Hw' & Hf).
    exists k', L', [], l2, t'. repeat (split; [done|]). split; [|done].
    by apply (Hsort k' t'). }
  rewrite last_snoc.
  destruct l2 as [|n l2'].
  { rewrite app_nil_r, last_snoc. rewrite decide_True by done.
    rewrite app_nil_r in Hlist, Hlen.
    destruct (thrlist_add_tail_spec k r L _ a t HL Hlist Ha Hr Hlen)
      as (k' & L' & t' & Hadd & HL' & Hlist' & Ha' & Hw' & Hf).
    exists k', L', (l1' ++ [c]), [], t'. rewrite app_nil_r.
    repeat (split; [done|]). split; [|done].
    by apply (Hsort k' t'). }
  (* the thread goes between [c] and [n] *)
  apply NoDup_app in Hnd as (Hnd1 & Hdisj & Hnd2).
  apply NoDup_app in Hnd1 as (_ & Hc1 & _).
  assert (c ∉ l1') as Hcl1. { intros Hin. apply (Hc1 c Hin). by left. }
  assert (c ∉ n :: l2') as Hcl2.
  { apply Hdisj, elem_of_app. right. by left. }
  assert (n ∉ l1' ++ [c]) as Hnl1.
  { intros Hin. apply (Hdisj n Hin). by left. }
  apply NoDup_cons in Hnd2 as [Hnl2 _].
  apply not_elem_of_app in Hal as [Hal1 Hal2].
  assert (a ≠ c) as Hac.
  { intros ->. apply Hal1, elem_of_app. right. by left. }
  assert (a ≠ n) as Han. { intros ->. apply Hal2. by left. }
  assert (c ≠ n) as Hcn. { intros ->. apply Hcl2. by left. }
  rewrite decide_False.
  2:{ rewrite last_app_cons. intros Heq. symmetry in Heq.
      apply last_Some_elem_of in Heq. done. }
  apply dll_seg_app in Hseg as [Hseg1 Hseg2].
  rewrite last_or_snoc in Hseg2. cbn [hd_or] in Hseg1.
  destruct (dll_seg_elem _ _ _ _ _ c Hseg1) as (tc & Hc & Hrc).
  { apply elem_of_app. right. by left. }
  assert (next tc = Some n) as Hnc.
  { apply dll_seg_app in Hseg1 as [_ Hcc]. cbn [dll_seg] in Hcc.
    rewrite Hc in Hcc. tauto. }
  destruct (dll_seg_elem _ _ _ _ _ n Hseg2) as (tn & Hn & Hrn); [by left|].
  set (t1 := with_prev t (Some c)).
  set (t2 := with_next t1 (Some n)).
  set (t3 := with_list t2 (Some r)).
  set (k1 := with_tcbs k (<[a := t1]> (tcbs k))).
  set (k2 := with_tcbs k1 (<[a := t2]> (tcbs k1))).
  set (k3 := with_tcbs k2 (<[n := with_prev tn (Some a)]> (tcbs k2))).
  set (k4 := with_tcbs k3 (<[c := with_next tc (Some a)]> (tcbs k3))).
  assert (tcbs k1 !! a = Some t1) as Ha1 by apply lookup_insert_eq.
  assert (tcbs k1 !! c = Some tc) as Hc1'.
  { unfold k1. simpl. by rewrite lookup_insert_ne. }
  assert (tcbs k2 !! c = Some tc) as Hc2.
  { unfold k2. simpl. by rewrite lookup_insert_ne. }
  assert (tcbs k2 !! n = Some tn) as Hn2.
  { unfold k2, k1. simpl. by rewrite !lookup_insert_ne. }
  assert (tcbs k3 !! c = Some tc) as Hc3.
  { unfold k3. simpl. rewrite lookup_insert_ne; [done|congruence]. }
  assert (load_list r k4 = Ret L) as HL4.
  { unfold k4, k3, k2, k1. by rewrite !load_list_with_tcbs. }
  destruct (list_set_frame r a (λ L, with_size L (u32 (size L + 1))) k4 L HL4)
    as (k5 & Hs5 & Htc5 & HL5 & Hf5).
  assert (tcbs k5 !! a = Some t2) as Ha5.
  { rewrite Htc5. unfold k4, k3. simpl.
    rewrite !lookup_insert_ne by congruence. apply lookup_insert_eq. }
  exists (with_tcbs k5 (<[a := t3]> (tcbs k5))).
  eexists. exists (l1' ++ [c]), (n :: l2'), t3.
  split; [done|]. split.
  { rewrite (thread_set_Ret k a (λ t, with_prev t (Some c)) t Ha).
    cbn [mbind outcome_bind]. fold t1. fold k1.
    rewrite (load_thread_Ret _ _ _ Hc1'). cbn [mbind outcome_bind].
    rewrite Hnc.
    rewrite (thread_set_Ret k1 a (λ t, with_next t (Some n)) t1 Ha1).
    cbn [mbind outcome_bind]. fold t2. fold k2.
    rewrite (load_thread_Ret _ _ _ Hc2). cbn [mbind outcome_bind].
    rewrite Hnc.
    rewrite (thread_set_Ret k2 n (λ t, with_prev t (Some a)) tn Hn2).
    cbn [mbind outcome_bind]. fold k3.
    rewrite (thread_set_Ret k3 c (λ t, with_next t (Some a)) tc Hc3).
    cbn [mbind outcome_bind]. fold k4. rewrite Hs5.
    cbn [mbind outcome_bind].
    rewrite (thread_set_Ret k5 a (λ t, with_list t (Some r)) t2 Ha5). done. }
  split; [rewrite load_list_with_tcbs; exact HL5|].
  assert (kernel_frame r a k (with_tcbs k5 (<[a := t3]> (tcbs k5)))) as Hf.
  { eapply kernel_frame_trans;
      [apply (thread_set_frame r a k a (λ t, with_prev t (Some c)) t Ha); by left|].
    eapply kernel_frame_trans;
      [apply (thread_set_frame r a k1 a (λ t, with_next t (Some n)) t1 Ha1); by left|].
    eapply kernel_frame_trans;
      [apply (thread_set_frame r a k2 n (λ t, with_prev t (Some a)) tn Hn2);
       right; by split|].
    eapply kernel_frame_trans;
      [apply (thread_set_frame r a k3 c (λ t, with_next t (Some a)) tc Hc3);
       right; by split|].
    eapply kernel_frame_trans; [exact Hf5|].
    apply (thread_set_frame r a k5 a (λ t, with_list t (Some r)) t2 Ha5). by left. }
  split.
  { split.
    { apply NoDup_app. pose proof Hlist as (Hnd & _).
      apply NoDup_app in Hnd as (Hnd1 & _ & Hnd2). split; [done|]. split.
      - intros x Hx [->|Hx2]%elem_of_cons; [by apply Hal1|].
        by apply (Hdisj x Hx).
      - apply NoDup_cons. split; [done|done]. }
    split.
    { simpl. rewrite Hsz, !length_app. simpl.
      rewrite !length_app in Hlen. simpl in Hlen.
      unfold u32. rewrite Z.mod_small; lia. }
    split.
    { simpl. rewrite Hh, (hd_or_app (l1' ++ [c]) (n :: l2')),
        (hd_or_app (l1' ++ [c]) (a :: n :: l2')).
      apply hd_or_nonempty. by destruct l1'. }
    split; [simpl; by rewrite Htl, !last_app_cons, last_cons_cons|].
    cbn [tcbs with_tcbs]. rewrite Htc5. apply dll_seg_app. split.
    - apply dll_seg_insert_notin; [done|]. cbn [hd_or].
      unfold k4. cbn [tcbs with_tcbs].
      apply (dll_seg_set_next_last _ _ _ _ _ (Some n)); [|done|done].
      unfold k3, k2, k1. cbn [tcbs with_tcbs].
      apply dll_seg_insert_notin; [done|].
      by do 2 (apply dll_seg_insert_notin; [done|]).
    - rewrite last_or_snoc.
      apply (dll_seg_cons _ _ _ _ _ _ t3); [apply lookup_insert_eq|done..|].
      apply dll_seg_insert_notin; [done|].
      unfold k4. cbn [tcbs with_tcbs].
      apply dll_seg_insert_notin; [done|].
      unfold k3. cbn [tcbs with_tcbs].
      apply (dll_seg_set_prev_head _ _ (Some c)); [|done|done].
      unfold k2, k1. cbn [tcbs with_tcbs].
      by do 2 (apply dll_seg_insert_notin; [done|]). }
  split; [by apply (Hsort _ t3); [apply lookup_insert_eq|..]|].
  split; [apply lookup_insert_eq|]. done.
Qed.

(** * The sleep queue *)

Lemma is_thrlist_insert_notin k r L l a x :
  is_thrlist k r L l → a ∉ l →
  is_thrlist (with_tcbs k (<[a := x]> (tcbs k))) r L l.
Proof.
  intros (Hnd & Hsz & Hh & Htl & Hseg) Ha.
  repeat (split; [done|]). by apply dll_seg_insert_notin.
Qed.

Lemma sorted_by_wake_ext k k' l :
  (∀ b, b ∈ l → wake_of k' b = wake_of k b) →
  sorted_by_wake k l → sorted_by_wake k' l.
Proof.
  intros Hw. unfold sorted_by_wake.
  assert (wake_of k' <$> l = wake_of k <$> l) as ->; [|done].
  apply list_fmap_ext. intros i b Hb. apply Hw.
  by eapply list_elem_of_lookup_2.
Qed.

Lemma sorted_by_wake_remove k l1 a l2 :
  sorted_by_wake k (l1 ++ a :: l2) → sorted_by_wake k (l1 ++ l2).
Proof.
  unfold sorted_by_wake. rewrite !fmap_app, fmap_cons, !StronglySorted_app.
  intros (Hle & Hs1 & Hs2). split; [|split; [done|]].
  - intros x1 x2 H1 H2. apply Hle; [done|]. by right.
  - by apply StronglySorted_cons in Hs2 as [_ ?].
Qed.

Lemma filter_ne_notin (a : nat) (l : list nat) : a ∉ l → filter (λ b, b ≠ a) l = l.
Proof.
  induction l as [|b l IH]; [done|].
  intros [Hab Hal]%not_elem_of_cons.
  rewrite filter_cons_True by done. by rewrite IH.
Qed.

Lemma filter_ne_split (a : nat) (l1 l2 : list nat) :
  NoDup (l1 ++ a :: l2) → filter (λ b, b ≠ a) (l1 ++ a :: l2) = l1 ++ l2.
Proof.
  intros (_ & Hdisj & [Ha2 _]%NoDup_cons)%NoDup_app.
  rewrite filter_app, filter_cons_False by (intros Hne; by apply Hne).
  rewrite !filter_ne_notin; [done|done|].
  intros Hin. apply (Hdisj a Hin). by left.
Qed.

Lemma load_list_sleeping k : load_list L_sleeping k = Ret (sleeping k).
Proof. done. Qed.

(** [unset_state] takes the thread out of its list and leaves the sleep
    queue with the other threads it had. *)
Lemma unset_state_spec k a l :
  is_thrlist k L_sleeping (sleeping k) l → sorted_by_wake k l →
  thread_placed k a l →
  ∃ err k1 t1,
    unset_state (Some a) k = Ret (err, k1) ∧ 0 ≤ err ∧
    is_thrlist k1 L_sleeping (sleeping k1) (filter (λ b, b ≠ a) l) ∧
    sorted_by_wake k1 (filter (λ b, b ≠ a) l) ∧
    tcbs k1 !! a = Some t1 ∧ thr_list t1 = None ∧
    num_ticks k1 = num_ticks k.
Proof.
  intros Hlist Hsorted Hplaced. unfold thread_placed in Hplaced.
  destruct (tcbs k !! a) as [t|] eqn:Ha; [|done].
  unfold unset_state.
  destruct (thr_list t) as [r|] eqn:Hr.
  - assert (∃ k' t',
      thrlist_remove (Some a) k = Ret (0, k') ∧
      is_thrlist k' L_sleeping (sleeping k') (filter (λ b, b ≠ a) l) ∧
      sorted_by_wake k' (filter (λ b, b ≠ a) l) ∧
      tcbs k' !! a = Some t' ∧ thr_list t' = None ∧
      num_ticks k' = num_ticks k) as (k' & t' & Hrem & Hl' & Hs' & Ha' & Hr' & Hn').
    { destruct (decide (r = L_sleeping)) as [->|Hne].
      - apply list_elem_of_split in Hplaced as (l1 & l2 & ->).
        destruct (thrlist_remove_spec k L_sleeping _ l1 a l2
                    (load_list_sleeping k) Hlist)
          as (k' & L' & t' & Hrem & HL' & Hl' & Ha' & Hr' & _ & Hf).
        pose proof Hlist as (Hnd & _). rewrite (filter_ne_split _ _ _ Hnd).
        injection HL' as <-.
        exists k', t'. repeat (split; [done|]).
        destruct Hf as (Hn & _ & Hw & _).
        split; [|by repeat split].
        eapply sorted_by_wake_ext; [|by eapply sorted_by_wake_remove].
        intros b Hb. apply Hw. intros ->.
        pose proof Hl' as (Hnd' & _).
        apply NoDup_app in Hnd as (_ & Hdisj & [Ha2 _]%NoDup_cons).
        apply elem_of_app in Hb as [Hb|Hb]; [|done].
        apply (Hdisj a Hb). by left.
      - destruct Hplaced as (l' & Hplaced).
        destruct (load_list r k) as [L| | |] eqn:HL; try done.
        destruct Hplaced as [Hlist' Hin].
        apply list_elem_of_split in Hin as (l1 & l2 & ->).
        destruct (thrlist_remove_spec k r L l1 a l2 HL Hlist')
          as (k' & L' & t' & Hrem & HL' & Hl' & Ha' & Hr' & _ & Hf).
        assert (a ∉ l) as Hal.
        { intros Hin. destruct Hlist as (_ & _ & _ & _ & Hseg).
          destruct (dll_seg_elem _ _ _ _ _ a Hseg Hin) as (t0 & Ht0 & Hr0).
          congruence. }
        rewrite (filter_ne_notin _ _ Hal).
        pose proof Hf as (Hn & Hother & Hw & _).
        assert (sleeping k' = sleeping k) as Hsl.
        { specialize (Hother L_sleeping ltac:(done)). simpl in Hother. congruence. }
        exists k', t'. split; [done|]. rewrite Hsl.
        split; [by eapply (is_thrlist_frame r a k k')|].
        split; [by eapply sorted_by_wake_frame|]. done. }
    rewrite Hrem. cbn [mbind outcome_bind]. rewrite decide_True by lia.
    rewrite (thread_set_Ret k' a (λ t, with_state t THR_ZOMBIE) t' Ha').
    cbn [mbind outcome_bind].
    assert (a ∉ filter (λ b, b ≠ a) l) as Hnotin.
    { intros [Hne _]%list_elem_of_filter. done. }
    eexists _, _, _. split; [done|]. split; [lia|].
    split; [by apply is_thrlist_insert_notin|].
    split.
    { eapply sorted_by_wake_ext; [|exact Hs']. intros b Hb.
      rewrite (wake_of_insert k' (λ t, with_state t THR_ZOMBIE) a t' b Ha').
      rewrite decide_False; [done|]. by intros ->. }
    split; [apply lookup_insert_eq|]. done.
  - assert (a ∉ l) as Hal.
    { intros Hin. destruct Hlist as (_ & _ & _ & _ & Hseg).
      destruct (dll_seg_elem _ _ _ _ _ a Hseg Hin) as (t0 & Ht0 & Hr0).
      congruence. }
    unfold thrlist_remove. rewrite (load_thread_Ret _ _ _ Ha).
    cbn [mbind outcome_bind]. rewrite Hr. cbn [mbind outcome_bind].
    rewrite decide_True by lia.
    rewrite (thread_set_Ret k a (λ t, with_state t THR_ZOMBIE) t Ha).
    cbn [mbind outcome_bind]. rewrite (filter_ne_notin _ _ Hal).
    eexists _, _, _. split; [done|]. split; [lia|].
    split; [by apply is_thrlist_insert_notin|].
    split.
    { eapply sorted_by_wake_ext; [|exact Hsorted]. intros b Hb.
      rewrite (wake_of_insert k (λ t, with_state t THR_ZOMBIE) a t b Ha).
      rewrite decide_False; [done|]. by intros ->. }
    split; [apply lookup_insert_eq|]. done.
Qed.

(** C8.  Let the sleep queue hold the threads [l], well linked and
    sorted non-decreasing by [wake], with room for one more.  Then
    (1) [set_sleeping] of any thread that is in no list, in the queue
    or in another well-linked list returns 0, gives the thread the wake
    time [num_ticks + sleep] (modulo 2^32) and leaves a queue that holds
    the thread among the others in their old order, well linked and
    sorted; (2) [thrlist_add_sorted] of a thread that is in no list does
    the same for the wake time the thread has; and (3) [thrlist_remove]
    of a thread of the queue leaves the others in their order, well
    linked and sorted. *)
Theorem sleep_queue_sorted k l :
  is_thrlist k L_sleeping (sleeping k) l → sorted_by_wake k l →
  Z.of_nat (length l) + 1 < 4294967296 →
  (∀ fuel a sleep, (length l ≤ fuel)%nat → thread_placed k a l →
     ∃ k' l1 l2,
       set_sleeping fuel (Some a) sleep k = Ret (0, k') ∧
       filter (λ b, b ≠ a) l = l1 ++ l2 ∧
       wake_of k' a = u32 (num_ticks k + sleep) ∧
       is_thrlist k' L_sleeping (sleeping k') (l1 ++ a :: l2) ∧
       sorted_by_wake k' (l1 ++ a :: l2)) ∧
  (∀ fuel a t, (length l ≤ fuel)%nat →
     tcbs k !! a = Some t → thr_list t = None →
     ∃ k' l1 l2,
       thrlist_add_sorted fuel (Some a) (Some L_sleeping) k = Ret (0, k') ∧
       l = l1 ++ l2 ∧ wake_of k' a = wake t ∧
       is_thrlist k' L_sleeping (sleeping k') (l1 ++ a :: l2) ∧
       sorted_by_wake k' (l1 ++ a :: l2)) ∧
  (∀ a, a ∈ l →
     ∃ k', thrlist_remove (Some a) k = Ret (0, k') ∧
       is_thrlist k' L_sleeping (sleeping k') (filter (λ b, b ≠ a) l) ∧
       sorted_by_wake k' (filter (λ b, b ≠ a) l)).
Proof.
  intros Hlist Hsorted Hlen. split; [|split].
  - intros fuel a sleep Hfuel Hplaced.
    destruct (unset_state_spec k a l Hlist Hsorted Hplaced)
      as (err & k1 & t1 & Hunset & Herr & Hl1 & Hs1 & Ha1 & Hr1 & Hn1).
    set (l' := filter (λ b, b ≠ a) l) in *.
    assert (a ∉ l') as Hal'. { intros [Hne _]%list_elem_of_filter. done. }
    assert (length l' ≤ length l)%nat as Hlen' by apply length_filter.
    set (t2 := with_wake t1 (u32 (get_time k1 + sleep))).
    set (t3 := with_state t2 THR_SLEEPING).
    set (k2 := with_tcbs k1 (<[a := t2]> (tcbs k1))).
    set (k3 := with_tcbs k2 (<[a := t3]> (tcbs k2))).
    assert (tcbs k2 !! a = Some t2) as Ha2 by apply lookup_insert_eq.
    assert (tcbs k3 !! a = Some t3) as Ha3 by apply lookup_insert_eq.
    assert (is_thrlist k3 L_sleeping (sleeping k3) l') as Hl3.
    { apply is_thrlist_insert_notin; [|done].
      by apply (is_thrlist_insert_notin k1). }
    assert (sorted_by_wake k3 l') as Hs3.
    { eapply sorted_by_wake_ext; [|exact Hs1]. intros b Hb.
      unfold wake_of, k3, k2. simpl.
      rewrite !lookup_insert_ne; [done|by intros ->..]. }
    destruct (thrlist_add_sorted_spec k3 L_sleeping _ l' a t3 fuel
                (load_list_sleeping k3) Hl3 Hs3 Ha3 Hr1)
      as (k' & L' & l1 & l2 & t' & Hsplit & Hadd & HL' & Hl' & Hs' & Ha' & Hw' & _);
      [lia|lia|].
    injection HL' as <-.
    exists k', l1, l2. split.
    { unfold set_sleeping. rewrite Hunset. cbn [mbind outcome_bind].
      rewrite decide_False by lia.
      rewrite (thread_set_Ret k1 a (λ t, with_wake t (u32 (get_time k1 + sleep)))
                 t1 Ha1).
      cbn [mbind outcome_bind]. fold t2. fold k2.
      rewrite (thread_set_Ret k2 a (λ t, with_state t THR_SLEEPING) t2 Ha2).
      cbn [mbind outcome_bind]. done. }
    split; [done|]. split; [|done].
    unfold wake_of. rewrite Ha'. cbn [from_option]. rewrite Hw'.
    simpl. unfold get_time. by rewrite Hn1.
  - intros fuel a t Hfuel Ha Hr.
    destruct (thrlist_add_sorted_spec k L_sleeping _ l a t fuel
                (load_list_sleeping k) Hlist Hsorted Ha Hr Hlen Hfuel)
      as (k' & L' & l1 & l2 & t' & Hsplit & Hadd & HL' & Hl' & Hs' & Ha' & Hw' & _).
    injection HL' as <-.
    exists k', l1, l2. repeat (split; [done|]). split; [|done].
    unfold wake_of. rewrite Ha'. done.
  - intros a Hin. apply list_elem_of_split in Hin as (l1 & l2 & ->).
    destruct (thrlist_remove_spec k L_sleeping _ l1 a l2
                (load_list_sleeping k) Hlist)
      as (k' & L' & t' & Hrem & HL' & Hl' & Ha' & Hr' & _ & Hf).
    pose proof Hlist as (Hnd & _). rewrite (filter_ne_split _ _ _ Hnd).
    injection HL' as <-.
    exists k'. split; [done|]. split; [done|].
    destruct Hf as (_ & _ & Hw & _).
    eapply sorted_by_wake_ext; [|by eapply sorted_by_wake_remove].
    intros b Hb. apply Hw. intros ->.
    apply NoDup_app in Hnd as (_ & Hdisj & [Ha2 _]%NoDup_cons).
    apply elem_of_app in Hb as [Hb|Hb]; [|done].
    apply (Hdisj a Hb). by left.
Qed.

Lemma sleep_queue_sorted_witness :
  (∃ k' l1 l2,
     set_sleeping 2 (Some 1%nat) 10 kernel_sleepers = Ret (0, k') ∧
     filter (λ b, b ≠ 1%nat) [2%nat; 3%nat] = l1 ++ l2 ∧
     wake_of k' 1%nat = 15 ∧
     is_thrlist k' L_sleeping (sleeping k') (l1 ++ 1%nat :: l2) ∧
     sorted_by_wake k' (l1 ++ 1%nat :: l2)) ∧
  (∃ k' l1 l2,
     thrlist_add_sorted 2 (Some 4%nat) (Some L_sleeping) kernel_sleepers
       = Ret (0, k') ∧
     [2%nat; 3%nat] = l1 ++ l2 ∧ wake_of k' 4%nat = 12 ∧
     is_thrlist k' L_sleeping (sleeping k') (l1 ++ 4%nat :: l2) ∧
     sorted_by_wake k' (l1 ++ 4%nat :: l2)) ∧
  (∃ k', thrlist_remove (Some 2%nat) kernel_sleepers = Ret (0, k') ∧
     is_thrlist k' L_sleeping (sleeping k') [3%nat] ∧
     sorted_by_wake k' [3%nat]).
Proof.
  destruct (sleep_queue_sorted kernel_sleepers [2%nat; 3%nat])
    as (Hsleep & Hadd & Hremove).
  - apply (bool_decide_unpack _). vm_compute. exact I.
  - apply (bool_decide_unpack _). vm_compute. exact I.
  - simpl. lia.
  - split; [|split].
    + apply (Hsleep 2%nat 1%nat 10); [simpl; lia|].
      exists [1%nat]. apply (bool_decide_unpack _). vm_compute. exact I.
    + apply (Hadd 2%nat 4%nat
               (with_list (example_thread 35 THR_BLOCKED L_running None None 12) None));
        [simpl; lia|vm_compute; reflexivity|reflexivity].
    + apply (Hremove 2%nat). apply (bool_decide_unpack _). vm_compute. exact I.
Defined.

(** * [sleep] *)

(** C9.  [sleep(0)] returns 0 and [sleep(t)] with [t < 0] returns
    [ERR_NEGATIVE_SLEEP]; in both cases the call returns without a
    context switch and the kernel state, the sleep queue in it, is what
    it was. *)
Theorem sleep_not_positive fuel ticks k :
  ticks ≤ 0 →
  ∃ ret,
    _sleep fuel ticks k = Ret (ret, k, None) ∧
    (ticks = 0 → ret = 0) ∧ (ticks < 0 → ret = ERR_NEGATIVE_SLEEP).
Proof.
  intros Hticks. unfold _sleep.
  destruct (decide (ticks = 0)) as [->|Hne].
  - exists 0. split; [done|]. split; [done|lia].
  - rewrite decide_True by lia. exists ERR_NEGATIVE_SLEEP.
    split; [done|]. split; [done|done].
Qed.

Lemma sleep_not_positive_witness :
  _sleep 2 0 kernel_sleepers = Ret (0, kernel_sleepers, None) ∧
  _sleep 2 (-3) kernel_sleepers = Ret (-8, kernel_sleepers, None).
Proof.
  split.
  - destruct (sleep_not_positive 2 0 kernel_sleepers) as (ret & Hs & H0 & _);
      [lia|]. by rewrite Hs, H0.
  - destruct (sleep_not_positive 2 (-3) kernel_sleepers) as (ret & Hs & _ & Hn);
      [lia|]. by rewrite Hs, Hn.
Defined.

(** * Mutex wait lists *)

Lemma load_mutex_Ret k mp m : mutexes k !! mp = Some m → load_mutex mp k = Ret m.
Proof. unfold load_mutex. by intros ->. Qed.

Lemma mutex_set_Ret k mp f m :
  mutexes k !! mp = Some m →
  mutex_set mp f k = Ret (with_mutexes k (<[mp := f m]> (mutexes k))).
Proof. unfold mutex_set, load_mutex. by intros ->. Qed.

Lemma wait_chain_ext m m' a q :
  (∀ b t, b = a ∨ b ∈ q → m !! b = Some t →
          ∃ t', m' !! b = Some t' ∧ mutex_nextwait t' = mutex_nextwait t) →
  wait_chain m a q → wait_chain m' a q.
Proof.
  revert a. induction q as [|c q IH]; intros a Hext; simpl.
  - destruct (m !! a) as [t|] eqn:Ha; [|done].
    destruct (Hext a t) as (t' & -> & _); [by left|done|done].
  - destruct (m !! a) as [t|] eqn:Ha; [|done].
    destruct (Hext a t) as (t' & -> & ->); [by left|done|].
    intros [Hn Hc]. split; [done|]. apply IH; [|done].
    intros b tb Hb. apply Hext. right.
    destruct Hb as [->|Hb]; [by left|by right].
Qed.

Lemma wait_chain_head m a q : wait_chain m a q → is_Some (m !! a).
Proof. destruct q; simpl; destruct (m !! a); by eauto. Qed.

(** Appending behind the last block of a chain. *)
Lemma wait_chain_snoc m a q tl ttl thr x :
  wait_chain m a q → NoDup (a :: q) → last (a :: q) = Some tl →
  m !! tl = Some ttl → thr ∉ a :: q → m !! thr = Some x →
  wait_chain (<[tl := with_mutex_nextwait ttl (Some thr)]> m) a (q ++ [thr]).
Proof.
  revert a. induction q as [|c q IH]; intros a Hc Hnd Hl Htl Hthr Hx.
  - injection Hl as <-. simpl. rewrite lookup_insert_eq. simpl.
    split; [done|]. apply not_elem_of_cons in Hthr as [Hne _].
    rewrite lookup_insert_ne by done. by rewrite Hx.
  - rewrite last_cons_cons in Hl. apply NoDup_cons in Hnd as [Ha Hnd].
    assert (tl ≠ a) as Hne.
    { intros ->. apply Ha. by eapply last_Some_elem_of. }
    simpl in Hc. destruct (m !! a) as [t|] eqn:Hma; [|done].
    destruct Hc as [Hn Hc].
    cbn [wait_chain app]. rewrite lookup_insert_ne by done. rewrite Hma.
    split; [done|]. apply IH; try done.
    apply not_elem_of_cons in Hthr as [_ Hthr]. done.
Qed.

Lemma wait_queue_mutex_set k mp f m q :
  mutexes k !! mp = Some m →
  first_waiting (f m) = first_waiting m → last_waiting (f m) = last_waiting m →
  wait_queue k mp q →
  wait_queue (with_mutexes k (<[mp := f m]> (mutexes k))) mp q.
Proof.
  intros Hm Hf Hl. unfold wait_queue. simpl. rewrite lookup_insert_eq, Hm, Hf, Hl.
  done.
Qed.

Lemma wait_queue_thread_set k mp a f t q :
  tcbs k !! a = Some t → mutex_nextwait (f t) = mutex_nextwait t →
  wait_queue k mp q →
  wait_queue (with_tcbs k (<[a := f t]> (tcbs k))) mp q.
Proof.
  intros Ha Hf. unfold wait_queue. simpl.
  destruct (mutexes k !! mp) as [m|]; [|done].
  intros (Hnd & Hl & Hq). split; [done|]. split; [done|].
  destruct q as [|b q]; [done|]. destruct Hq as [Hfirst Hc].
  split; [done|]. eapply wait_chain_ext; [|exact Hc].
  intros c tc _ Hc'. destruct (decide (a = c)) as [->|Hne].
  - rewrite lookup_insert_eq. exists (f t). split; [done|]. congruence.
  - rewrite lookup_insert_ne by done. by exists tc.
Qed.

Lemma state_of_thread_set k a f t b :
  tcbs k !! a = Some t → state (f t) = state t →
  state_of (with_tcbs k (<[a := f t]> (tcbs k))) b = state_of k b.
Proof.
  intros Ha Hf. unfold state_of. simpl.
  destruct (decide (a = b)) as [->|Hne].
  - rewrite lookup_insert_eq, Ha. simpl. by rewrite Hf.
  - by rewrite lookup_insert_ne.
Qed.

(** ** [waitlist_addLast] *)

Lemma waitlist_addLast_spec k mp q thr x :
  operational k = true → wait_queue k mp q →
  thr ∉ q → tcbs k !! thr = Some x →
  ∃ k', waitlist_addLast mp (Some thr) k = Ret k' ∧
        wait_queue k' mp (q ++ [thr]) ∧
        (∀ b, state_of k' b = state_of k b).
Proof.
  intros Hop Hq Hthr Hx. unfold waitlist_addLast. rewrite Hop. cbn [negb].
  unfold wait_queue in Hq.
  destruct (mutexes k !! mp) as [m|] eqn:Hm; [|done].
  destruct Hq as (Hnd & Hl & Hq).
  rewrite (load_mutex_Ret _ _ _ Hm). cbn [mbind outcome_bind].
  destruct q as [|a q].
  - simpl in Hl. rewrite Hl.
    rewrite (mutex_set_Ret k mp (λ m, with_first_waiting m (Some thr)) m Hm).
    cbn [mbind outcome_bind].
    erewrite mutex_set_Ret; [|apply lookup_insert_eq].
    eexists. split; [done|]. split; [|done].
    unfold wait_queue. simpl. rewrite lookup_insert_eq. simpl.
    split; [apply NoDup_singleton|]. split; [done|]. split; [done|].
    by rewrite Hx.
  - destruct Hq as [Hfirst Hc].
    destruct (last (a :: q)) as [tl|] eqn:Hlast.
    2:{ by apply last_None in Hlast. }
    rewrite Hl.
    assert (tl ∈ a :: q) as Htlin by (by eapply last_Some_elem_of).
    assert (∃ ttl, tcbs k !! tl = Some ttl) as [ttl Httl].
    { clear -Hc Htlin. revert a Hc Htlin.
      induction q as [|c q IH]; intros a Hc Hin.
      - apply list_elem_of_singleton in Hin as ->.
        by apply wait_chain_head in Hc.
      - apply elem_of_cons in Hin as [->|Hin].
        + by apply wait_chain_head in Hc.
        + simpl in Hc. destruct (tcbs k !! a); [|done].
          destruct Hc as [_ Hc]. by apply (IH c). }
    rewrite (thread_set_Ret k tl (λ t, with_mutex_nextwait t (Some thr)) ttl Httl).
    cbn [mbind outcome_bind].
    erewrite mutex_set_Ret; [|exact Hm].
    eexists. split; [done|]. split.
    + unfold wait_queue. cbn [mutexes with_mutexes with_tcbs tcbs].
      rewrite lookup_insert_eq.
      cbn [last_waiting with_last_waiting first_waiting].
      split.
      { apply NoDup_app. split; [done|]. split; [|apply NoDup_singleton].
        intros y Hy ->%list_elem_of_singleton. done. }
      split; [by rewrite last_snoc|]. cbn [app]. split; [done|].
      by eapply wait_chain_snoc.
    + intros b.
      apply (state_of_thread_set k tl (λ t, with_mutex_nextwait t (Some thr))
               ttl b Httl). done.
Qed.

(** ** [waitlist_removeHead] and [mutex_unlock] *)

Lemma waitlist_removeHead_spec k mp a q :
  operational k = true → wait_queue k mp (a :: q) →
  ∃ k', waitlist_removeHead mp k = Ret (Some a, k') ∧
        wait_queue k' mp q ∧ tcbs k' = tcbs k ∧ operational k' = true ∧
        running k' = running k.
Proof.
  intros Hop Hq. unfold waitlist_removeHead. rewrite Hop. cbn [negb].
  unfold wait_queue in Hq.
  destruct (mutexes k !! mp) as [m|] eqn:Hm; [|done].
  destruct Hq as (Hnd & Hl & Hfirst & Hc).
  rewrite (load_mutex_Ret _ _ _ Hm). cbn [mbind outcome_bind].
  rewrite Hfirst.
  destruct (wait_chain_head _ _ _ Hc) as [ta Hta].
  rewrite (load_thread_Ret _ _ _ Hta). cbn [mbind outcome_bind].
  rewrite (mutex_set_Ret k mp (λ m, with_first_waiting m (mutex_nextwait ta)) m Hm).
  cbn [mbind outcome_bind].
  erewrite load_mutex_Ret; [|apply lookup_insert_eq].
  cbn [mbind outcome_bind last_waiting with_first_waiting].
  destruct q as [|b q].
  - simpl in Hl. rewrite Hl. rewrite decide_True by done.
    erewrite mutex_set_Ret; [|apply lookup_insert_eq].
    cbn [mbind outcome_bind]. eexists. split; [done|].
    split; [|done].
    unfold wait_queue. simpl. rewrite lookup_insert_eq. simpl.
    split; [apply NoDup_nil_2|]. done.
  - rewrite last_cons_cons in Hl. apply NoDup_cons in Hnd as [Ha Hnd].
    rewrite decide_False.
    2:{ rewrite Hl. intros Heq. apply Ha. by eapply last_Some_elem_of. }
    cbn [mbind outcome_bind]. eexists. split; [done|].
    split; [|done].
    simpl in Hc. rewrite Hta in Hc. destruct Hc as [Hn Hc].
    unfold wait_queue. simpl. rewrite lookup_insert_eq. simpl.
    split; [done|]. split; [done|]. split; [done|].
    destruct (tcbs k !! b); [|done]. done.
Qed.

Lemma unlock_loop_spec fuel k mp q1 a q2 :
  operational k = true → wait_queue k mp (q1 ++ a :: q2) →
  Forall (λ b, state_of k b ≠ Some THR_RUNNING) q1 →
  state_of k a = Some THR_RUNNING → (length q1 < fuel)%nat →
  ∃ k', unlock_loop fuel mp k = Ret k' ∧ wait_queue k' mp q2 ∧
        (owner <$> mutexes k' !! mp) = Some (Some a) ∧
        tcbs k' = tcbs k ∧ operational k' = true.
Proof.
  revert fuel k. induction q1 as [|x q1 IH]; intros fuel k Hop Hq Hq1 Ha Hfuel.
  - destruct fuel as [|fuel]; [simpl in Hfuel; lia|]. simpl in Hq.
    destruct (waitlist_removeHead_spec k mp a q2 Hop Hq)
      as (k1 & Hrem & Hq' & Ht1 & Hop1 & _).
    cbn [unlock_loop]. rewrite Hrem. cbn [mbind outcome_bind].
    pose proof Hq' as Hq''. unfold wait_queue in Hq''.
    destruct (mutexes k1 !! mp) as [m1|] eqn:Hm1; [|done].
    rewrite (mutex_set_Ret k1 mp (λ m, with_owner m (Some a)) m1 Hm1).
    cbn [mbind outcome_bind].
    erewrite load_mutex_Ret; [|apply lookup_insert_eq].
    cbn [mbind outcome_bind owner with_owner].
    unfold state_of in Ha. rewrite <- Ht1 in Ha.
    destruct (tcbs k1 !! a) as [ta|] eqn:Hta; [|done].
    unfold load_thread. cbn [tcbs with_mutexes]. rewrite Hta.
    cbn [deref mbind outcome_bind]. injection Ha as Ha.
    rewrite decide_False by (intros Hne; by apply Hne).
    eexists. split; [done|].
    split; [by apply (wait_queue_mutex_set k1 mp (λ m, with_owner m (Some a)))|].
    simpl. rewrite lookup_insert_eq. done.
  - destruct fuel as [|fuel]; [simpl in Hfuel; lia|]. simpl in Hq.
    destruct (waitlist_removeHead_spec k mp x (q1 ++ a :: q2) Hop Hq)
      as (k1 & Hrem & Hq' & Ht1 & Hop1 & _).
    cbn [unlock_loop]. rewrite Hrem. cbn [mbind outcome_bind].
    pose proof Hq' as Hq''. unfold wait_queue in Hq''.
    destruct (mutexes k1 !! mp) as [m1|] eqn:Hm1; [|done].
    rewrite (mutex_set_Ret k1 mp (λ m, with_owner m (Some x)) m1 Hm1).
    cbn [mbind outcome_bind].
    erewrite load_mutex_Ret; [|apply lookup_insert_eq].
    cbn [mbind outcome_bind owner with_owner].
    apply Forall_cons in Hq1 as [Hx Hq1].
    assert (is_Some (tcbs k !! x)) as [tx Htx].
    { unfold wait_queue in Hq. destruct (mutexes k !! mp); [|done].
      destruct Hq as (_ & _ & _ & Hc). by apply wait_chain_head in Hc. }
    unfold load_thread. cbn [tcbs with_mutexes]. rewrite Ht1, Htx.
    cbn [deref mbind outcome_bind].
    unfold state_of in Hx. rewrite Htx in Hx. simpl in Hx.
    rewrite decide_True by congruence.
    set (k2 := with_mutexes k1 (<[mp := with_owner m1 (Some x)]> (mutexes k1))).
    destruct (IH fuel k2) as (k' & Hloop & Hq2 & Hown & Ht' & Hop').
    + done.
    + by apply (wait_queue_mutex_set k1 mp (λ m, with_owner m (Some x))).
    + unfold state_of, k2. simpl. by rewrite Ht1.
    + unfold state_of, k2. simpl. by rewrite Ht1.
    + simpl in Hfuel. lia.
    + exists k'. split; [done|]. split; [done|]. split; [done|].
      split; [|done]. rewrite Ht'. unfold k2. simpl. done.
Qed.

(** The hand-over on a wait list whose links are in order.  Let the
    threads [q] wait for the mutex [mp], the earliest first, in the
    sense of [wait_queue].  Then [waitlist_addLast] puts a new waiter
    behind them, [waitlist_removeHead] takes the earliest of them, and
    [mutex_unlock], called by the owner, passes over the waiters at the
    head whose state is not [THR_RUNNING], makes the first waiter whose
    state is [THR_RUNNING] the owner, leaves those behind it waiting in
    their order and yields to the new owner.  ([wait_queue] with an
    empty list leaves [first_waiting] open, and a thread has one
    [mutex_nextwait] for all mutexes: the kernel does not keep the
    links in order along every run.) *)
Theorem mutex_fifo k mp q :
  operational k = true → wait_queue k mp q →
  (∀ thr x, thr ∉ q → tcbs k !! thr = Some x →
     ∃ k', waitlist_addLast mp (Some thr) k = Ret k' ∧
           wait_queue k' mp (q ++ [thr])) ∧
  (∀ a q', q = a :: q' →
     ∃ k', waitlist_removeHead mp k = Ret (Some a, k') ∧
           wait_queue k' mp q') ∧
  (∀ fuel me q1 a q2, q = q1 ++ a :: q2 → holds_mutex k me mp →
     Forall (λ b, state_of k b ≠ Some THR_RUNNING) q1 →
     state_of k a = Some THR_RUNNING → (length q1 < fuel)%nat →
     ∃ k' ta,
       mutex_unlock fuel mp k = Ret (k', Some (tid ta)) ∧
       tcbs k !! a = Some ta ∧
       (owner <$> mutexes k' !! mp) = Some (Some a) ∧
       wait_queue k' mp q2).
Proof.
  intros Hop Hq. split; [|split].
  - intros thr x Hthr Hx.
    destruct (waitlist_addLast_spec k mp q thr x Hop Hq Hthr Hx)
      as (k' & Hadd & Hq' & _).
    by exists k'.
  - intros a q' ->.
    destruct (waitlist_removeHead_spec k mp a q' Hop Hq)
      as (k' & Hrem & Hq' & _).
    by exists k'.
  - intros fuel me q1 a q2 -> (Hself & Hacq & Hown) Hq1 Ha Hfuel.
    destruct (mutexes k !! mp) as [m|] eqn:Hm; [|done].
    destruct (tcbs k !! me) as [tme|] eqn:Hme; [|done].
    simpl in Hacq, Hown. injection Hacq as Hacq. injection Hown as Hown.
    set (m1 := with_list_owner m (Some me)).
    set (k1 := with_mutexes k (<[mp := m1]> (mutexes k))).
    set (tme2 := with_acquired_lock tme (previous_lock m1)).
    set (k2 := with_tcbs k1 (<[me := tme2]> (tcbs k1))).
    set (m3 := with_previous_lock m1 None).
    set (k3 := with_mutexes k2 (<[mp := m3]> (mutexes k2))).
    assert (mutexes k1 !! mp = Some m1) as Hm1 by apply lookup_insert_eq.
    assert (mutexes k3 !! mp = Some m3) as Hm3 by apply lookup_insert_eq.
    assert (wait_queue k3 mp (q1 ++ a :: q2)) as Hq3.
    { apply (wait_queue_mutex_set k2 mp (λ m, with_previous_lock m None) m1);
        [done..|].
      apply (wait_queue_thread_set k1 mp me
               (λ t, with_acquired_lock t (previous_lock m1)) tme); [done..|].
      by apply (wait_queue_mutex_set k mp (λ m, with_list_owner m (Some me)) m). }
    assert (∀ b, state_of k3 b = state_of k b) as Hst.
    { intros b.
      apply (state_of_thread_set k1 me
               (λ t, with_acquired_lock t (previous_lock m1)) tme b); done. }
    destruct (unlock_loop_spec fuel k3 mp q1 a q2)
      as (k4 & Hloop & Hq4 & Hown4 & Ht4 & Hop4); [done|done| |by rewrite Hst|done|].
    { eapply Forall_impl; [exact Hq1|]. intros b Hb. by rewrite Hst. }
    destruct (mutexes k4 !! mp) as [m4|] eqn:Hm4; [|done].
    simpl in Hown4. injection Hown4 as Hown4.
    set (k5 := with_mutexes k4 (<[mp := with_mlock m4 false]> (mutexes k4))).
    set (k6 := with_mutexes k5
                 (<[mp := with_list_owner (with_mlock m4 false) None]> (mutexes k5))).
    assert (mutexes k5 !! mp = Some (with_mlock m4 false)) as Hm5
      by apply lookup_insert_eq.
    assert (∃ ta ta', tcbs k !! a = Some ta ∧ tcbs k6 !! a = Some ta' ∧
                      tid ta' = tid ta) as (ta & ta' & Hta & Hta' & Htid).
    { unfold state_of in Ha. destruct (tcbs k !! a) as [ta|] eqn:Hta; [|done].
      exists ta. change (tcbs k6) with (tcbs k4). rewrite Ht4.
      change (tcbs k3) with (<[me := tme2]> (tcbs k)).
      destruct (decide (me = a)) as [->|Hne].
      - rewrite lookup_insert_eq. exists tme2. split; [done|]. split; [done|].
        assert (tme = ta) as -> by congruence. done.
      - rewrite lookup_insert_ne by done. by exists ta. }
    exists k6, ta. split.
    { unfold mutex_unlock. rewrite Hop. cbn [negb].
      unfold get_self. rewrite Hself. cbn [mbind outcome_bind].
      rewrite (mutex_set_Ret k mp (λ m, with_list_owner m (Some me)) m Hm).
      cbn [mbind outcome_bind]. fold m1. fold k1.
      rewrite (load_thread_Ret k1 me tme Hme). cbn [mbind outcome_bind].
      rewrite Hacq. rewrite decide_False by (intros Hne; by apply Hne).
      cbn [deref mbind outcome_bind].
      rewrite (load_mutex_Ret _ _ _ Hm1). cbn [mbind outcome_bind].
      rewrite (thread_set_Ret k1 me (λ t, with_acquired_lock t (previous_lock m1))
                 tme Hme).
      cbn [mbind outcome_bind]. fold tme2. fold k2.
      rewrite (mutex_set_Ret k2 mp (λ m, with_previous_lock m None) m1 Hm1).
      cbn [mbind outcome_bind]. fold m3. fold k3.
      rewrite (load_mutex_Ret _ _ _ Hm3). cbn [mbind outcome_bind].
      rewrite decide_False by (simpl; by rewrite Hown).
      rewrite Hloop. cbn [mbind outcome_bind].
      rewrite (mutex_set_Ret k4 mp (λ m, with_mlock m false) m4 Hm4).
      cbn [mbind outcome_bind]. fold k5.
      rewrite (mutex_set_Ret k5 mp (λ m, with_list_owner m None) _ Hm5).
      cbn [mbind outcome_bind]. fold k6.
      erewrite load_mutex_Ret; [|apply lookup_insert_eq].
      cbn [mbind outcome_bind owner with_list_owner with_mlock].
      rewrite Hown4. rewrite (load_thread_Ret k6 a ta' Hta').
      cbn [mbind outcome_bind]. by rewrite Htid. }
    split; [done|]. split.
    { unfold k6. simpl. rewrite lookup_insert_eq. simpl. by rewrite Hown4. }
    apply (wait_queue_mutex_set k5 mp (λ m, with_list_owner m None)
             (with_mlock m4 false)); [done..|].
    apply (wait_queue_mutex_set k4 mp (λ m, with_mlock m false) m4); done.
Qed.

Lemma mutex_fifo_witness :
  (∃ k', waitlist_addLast 7 (Some 4%nat) kernel_mutex = Ret k' ∧
         wait_queue k' 7 [2%nat; 3%nat; 4%nat]) ∧
  (∃ k', waitlist_removeHead 7 kernel_mutex = Ret (Some 2%nat, k') ∧
         wait_queue k' 7 [3%nat]) ∧
  (∃ k', mutex_unlock 2 7 kernel_mutex = Ret (k', Some 34) ∧
         (owner <$> mutexes k' !! 7%nat) = Some (Some 3%nat) ∧
         wait_queue k' 7 []).
Proof.
  destruct (mutex_fifo kernel_mutex 7 [2%nat; 3%nat]) as (Hadd & Hrem & Hunlock).
  - reflexivity.
  - apply (bool_decide_unpack _). vm_compute. exact I.
  - split; [|split].
    + eapply (Hadd 4%nat);
        [apply (bool_decide_unpack _); vm_compute; exact I
        |vm_compute; reflexivity].
    + apply (Hrem 2%nat [3%nat]). reflexivity.
    + destruct (Hunlock 2%nat 1%nat [2%nat] 3%nat [])
        as (k' & ta & Hu & Hta & Hown & Hq').
      * reflexivity.
      * apply (bool_decide_unpack _). vm_compute. exact I.
      * apply (bool_decide_unpack _). vm_compute. exact I.
      * reflexivity.
      * simpl. lia.
      * exists k'. vm_compute in Hta. injection Hta as <-.
        split; [exact Hu|]. split; [exact Hown|exact Hq'].
Defined.

(** * Reader/writer locks *)

(** A reader that comes back from [cond_wait] waits again as long as a
    writer is in or writers wait. *)
Lemma reader_woken_rechecks self l :
  writer_in l = true ∨ writers_waiting l > 0 →
  ∃ l', rwlock_lock_woken self RWLOCK_READ l = Ret (l', false) ∧
        readers_in l' = readers_in l ∧ writer_in l' = writer_in l ∧
        no_writers_in l' = no_writers_in l ++ [self].
Proof.
  intros Hcond. unfold rwlock_lock_woken, reader_try. simpl.
  assert (writer_in l || bool_decide (writers_waiting l > 0) = true) as ->.
  { destruct Hcond as [->|Hw]; [done|].
    rewrite (bool_decide_eq_true_2 _ Hw). by destruct (writer_in l). }
  eexists. split; [done|]. done.
Qed.

(** C4 fails in the code.  The writer that comes back from [cond_wait]
    sets [writer_in] whatever the lock holds then.  In the run below
    thread 1 reads, thread 2 asks to write and waits, thread 1 leaves
    and signals thread 2, thread 3 asks to write and finds the lock
    free, and thread 2, when the mutex comes to it, enters as well: the
    two writers are in together. *)
Theorem rwlock_two_writers :
  (∀ self l, ∃ l',
     rwlock_lock_woken self RWLOCK_WRITE l = Ret (l', true) ∧
     writer_in l' = true ∧ readers_in l' = readers_in l) ∧
  (∃ s4 s5,
     rw_run [EV_LOCK 1 RWLOCK_READ; EV_LOCK 2 RWLOCK_WRITE; EV_UNLOCK 1;
             EV_LOCK 3 RWLOCK_WRITE] rw_system_init = Ret s4 ∧
     rw_pos_of s4 2 = RW_WOKEN RWLOCK_WRITE ∧
     rw_pos_of s4 3 = RW_IN RWLOCK_WRITE ∧
     writer_in (rw_lock s4) = true ∧
     rw_step (EV_WOKEN 2) s4 = Ret s5 ∧
     rw_pos_of s5 2 = RW_IN RWLOCK_WRITE ∧
     rw_pos_of s5 3 = RW_IN RWLOCK_WRITE).
Proof.
  split.
  - intros self l. eexists. split; [done|]. done.
  - do 2 eexists. split; [vm_compute; reflexivity|].
    split; [vm_compute; reflexivity|]. split; [vm_compute; reflexivity|].
    split; [vm_compute; reflexivity|]. split; [vm_compute; reflexivity|].
    split; vm_compute; reflexivity.
Qed.

(** * [wait] *)

Lemma load_process_Ret k p pr : pcbs k !! p = Some pr → load_process p k = Ret pr.
Proof. unfold load_process. by intros ->. Qed.

Lemma exited_scan_None fuel k : exited_scan fuel None k = Ret None.
Proof. by destruct fuel. Qed.




(** * The frame allocator as a whole *)

(** A search that finds nothing has seen a held frame at each of the
    [n] places it looked at. *)
Lemma find_available_None fr n f :
  0 ≤ f < Z.of_nat (length fr) →
  find_available fr n f = Ret None →
  ∀ i, 0 ≤ i < Z.of_nat n →
    ∃ c, zlookup fr ((f + i) `mod` Z.of_nat (length fr)) = Some c ∧ c ≠ 0.
Proof.
  revert f. induction n as [|n IH]; intros f Hf Hfind i Hi; [lia|].
  cbn [find_available] in Hfind.
  destruct (zlookup fr f) as [c|] eqn:Hc; simpl in Hfind; [|discriminate].
  destruct (decide (c = 0)) as [|Hc0]; [discriminate|].
  destruct (decide (i = 0)) as [->|Hi0].
  - exists c. by rewrite Z.add_0_r, Z.mod_small by lia.
  - assert (0 ≤ (f + 1) `mod` Z.of_nat (length fr) < Z.of_nat (length fr))
      as Hf' by (apply Z.mod_pos_bound; lia).
    destruct (IH _ Hf' Hfind (i - 1)) as (c' & Hc' & Hne); [lia|].
    exists c'. split; [|done]. rewrite <- Hc'. f_equal.
    rewrite Zplus_mod_idemp_l. f_equal. lia.
Qed.

Lemma find_available_full fr f :
  0 ≤ f < Z.of_nat (length fr) →
  find_available fr (length fr) f = Ret None → Forall (λ c, c ≠ 0) fr.
Proof.
  intros Hf Hfind. apply Forall_lookup. intros j c Hj.
  pose proof (lookup_lt_Some _ _ _ Hj) as Hlt.
  destruct (find_available_None fr _ f Hf Hfind
              ((Z.of_nat j - f) `mod` Z.of_nat (length fr)))
    as (c' & Hc' & Hne).
  { apply Z.mod_pos_bound. lia. }
  rewrite Zplus_mod_idemp_r in Hc'.
  replace (f + (Z.of_nat j - f)) with (Z.of_nat j) in Hc' by lia.
  rewrite Z.mod_small in Hc' by lia.
  unfold zlookup in Hc'. rewrite decide_True in Hc' by lia.
  rewrite Nat2Z.id in Hc'. congruence.
Qed.

Lemma zlookup_is_Some {A} (l : list A) (i : Z) :
  0 ≤ i < Z.of_nat (length l) → ∃ x, zlookup l i = Some x.
Proof.
  intros Hi. unfold zlookup. rewrite decide_True by lia.
  apply lookup_lt_is_Some. lia.
Qed.

Lemma Forall_zupdate {A} (P : A → Prop) (l : list A) (i : Z) (x : A) :
  Forall P l → P x → Forall P (zupdate l i x).
Proof.
  intros Hl Hx. unfold zupdate. case_decide; [|done]. by apply Forall_insert.
Qed.

Lemma Forall_zlookup {A} (P : A → Prop) (l : list A) (i : Z) (x : A) :
  Forall P l → zlookup l i = Some x → P x.
Proof.
  intros Hl Hx. apply zlookup_Some in Hx as [_ Hx].
  by eapply Forall_lookup_1.
Qed.

Lemma zupdate_zupdate_id {A} (l : list A) (i : Z) (x y : A) :
  zlookup l i = Some x → zupdate (zupdate l i y) i x = l.
Proof.
  intros Hx. rewrite zupdate_zupdate. by apply zupdate_id.
Qed.

Section Allocator.
Context `{Platform}.

Lemma init_frame_table_inv nb :
  0 < nb → USER_MEM_START + PAGE_SIZE * nb ≤ 4294967296 →
  alloc_inv (init_frame_table nb).
Proof.
  intros Hnb Hfit. unfold alloc_inv, ft_wf, init_frame_table.
  split; [split; [|split]|].
  - unfold counters_ok. simpl. apply Forall_replicate. lia.
  - right. simpl. unfold zlookup. rewrite decide_True by lia.
    apply lookup_replicate_2. lia.
  - unfold frames_fit, nb_frames. simpl. rewrite length_replicate. lia.
  - intros Hh. simpl in Hh. lia.
Qed.

(** [_get_frame] on a frame of the table, case by case. *)
Lemma _get_frame_spec frame t :
  alloc_inv t → FRAME_ID frame < nb_frames t →
  ∃ err t', _get_frame frame t = Ret (err, t') ∧ alloc_inv t' ∧
    (err ≠ 0 → t' = t) ∧
    (err = 0 →
       ∃ c, frame `mod` PAGE_SIZE = 0 ∧ 0 ≤ FRAME_ID frame ∧
            zlookup (frames t) (FRAME_ID frame) = Some c ∧ c < 255 ∧
            frames t' = zupdate (frames t) (FRAME_ID frame) (c + 1) ∧
            (FRAME_ID frame ≠ next_available_frame t →
             next_available_frame t' = next_available_frame t)).
Proof.
  intros [(Hcnt & Hhint & Hfit) Hcomp] Hid. unfold _get_frame.
  destruct (decide (frame `mod` PAGE_SIZE ≠ 0)) as [|Hal].
  { exists (-1), t. by repeat split. }
  destruct (decide (FRAME_ID frame = -1)) as [|Hk].
  { exists ERR_KERNEL_FRAME, t. by repeat split. }
  pose proof (FRAME_ID_nonneg _ Hk) as Hid0.
  destruct (zlookup_is_Some (frames t) (FRAME_ID frame)) as [c Hc].
  { unfold nb_frames in Hid. lia. }
  rewrite Hc. cbn [mbind outcome_bind deref].
  pose proof (Forall_zlookup _ _ _ _ Hcnt Hc) as Hcr. simpl in Hcr.
  change (u8 (-1)) with 255.
  destruct (decide (c = 255)) as [|Hc255].
  { exists ERR_TOO_MANY_FRAME_OWNERS, t. by repeat split. }
  rewrite (u8_small (c + 1)) by lia.
  set (fr := zupdate (frames t) (FRAME_ID frame) (c + 1)).
  assert (length fr = length (frames t)) as Hlen by apply length_zupdate.
  assert (Forall (λ c, 0 ≤ c < 256) fr) as Hcnt'.
  { apply Forall_zupdate; [done|]. simpl. lia. }
  assert (Hal' : frame `mod` PAGE_SIZE = 0).
  { destruct (decide (frame `mod` PAGE_SIZE = 0)); [done|contradiction]. }
  destruct (decide (FRAME_ID frame = next_available_frame t)) as [Heq|Hne].
  - destruct (find_available_total fr (length fr) (next_available_frame t))
      as (r & Hr & Hfree).
    { rewrite Hlen, <- Heq. unfold nb_frames in Hid. lia. }
    rewrite Hr. cbn [mbind outcome_bind].
    eexists 0, _. split; [done|]. split; [|split; [done|]].
    + split; [split; [|split]|]; try done.
      * destruct r as [g|]; simpl; [by right|by left].
      * unfold frames_fit, nb_frames in *. simpl. by rewrite Hlen.
      * intros Hh. simpl in Hh. simpl. destruct r as [g|].
        { simpl in Hh, Hfree. apply zlookup_lt in Hfree. lia. }
        apply (find_available_full fr (next_available_frame t)); [|done].
        rewrite Hlen, <- Heq. unfold nb_frames in Hid. lia.
    + intros _. exists c. simpl. repeat split; try done; lia.
  - eexists 0, _. split; [done|]. split; [|split; [done|]].
    + split; [split; [|split]|]; try done.
      * destruct Hhint as [Hh|Hh]; [by left|right]. simpl.
        unfold fr. by rewrite zlookup_zupdate_ne.
      * unfold frames_fit, nb_frames in *. simpl. by rewrite Hlen.
      * intros Hh. simpl in Hh. simpl. specialize (Hcomp Hh).
        apply Forall_zupdate; [done|].
        pose proof (Forall_zlookup _ _ _ _ Hcomp Hc) as Hc0. simpl in Hc0. lia.
    + intros _. exists c. simpl. repeat split; try done; lia.
Qed.

(** [free_frame] on a frame of the table, case by case. *)
Lemma free_frame_spec frame t :
  alloc_inv t → FRAME_ID frame < nb_frames t →
  ∃ err t', free_frame frame t = Ret (err, t') ∧ alloc_inv t' ∧
    (err ≠ 0 → t' = t) ∧
    (err = 0 →
       ∃ c, frame `mod` PAGE_SIZE = 0 ∧ 0 ≤ FRAME_ID frame ∧
            zlookup (frames t) (FRAME_ID frame) = Some c ∧ 0 < c ∧
            frames t' = zupdate (frames t) (FRAME_ID frame) (c - 1) ∧
            (next_available_frame t ≠ -1 →
             next_available_frame t' = next_available_frame t)).
Proof.
  intros [(Hcnt & Hhint & Hfit) Hcomp] Hid. unfold free_frame.
  destruct (decide (frame `mod` PAGE_SIZE ≠ 0)) as [|Hal].
  { exists (-1), t. by repeat split. }
  destruct (decide (FRAME_ID frame = -1)) as [|Hk].
  { exists ERR_KERNEL_FRAME, t. by repeat split. }
  pose proof (FRAME_ID_nonneg _ Hk) as Hid0.
  destruct (zlookup_is_Some (frames t) (FRAME_ID frame)) as [c Hc].
  { unfold nb_frames in Hid. lia. }
  rewrite Hc. cbn [mbind outcome_bind deref].
  pose proof (Forall_zlookup _ _ _ _ Hcnt Hc) as Hcr. simpl in Hcr.
  destruct (decide (c = 0)) as [|Hc0].
  { exists ERR_FREE_OWNERLESS_FRAME, t. by repeat split. }
  rewrite (u8_small (c - 1)) by lia.
  set (fr := zupdate (frames t) (FRAME_ID frame) (c - 1)).
  assert (length fr = length (frames t)) as Hlen by apply length_zupdate.
  assert (Forall (λ c, 0 ≤ c < 256) fr) as Hcnt'.
  { apply Forall_zupdate; [done|]. simpl. lia. }
  assert (Hal' : frame `mod` PAGE_SIZE = 0).
  { destruct (decide (frame `mod` PAGE_SIZE = 0)); [done|contradiction]. }
  assert (zlookup fr (FRAME_ID frame) = Some (c - 1)) as Hnew.
  { apply zlookup_zupdate_eq. unfold nb_frames in Hid. lia. }
  destruct (decide (c - 1 = 0 ∧ next_available_frame t = -1)) as [[Hz Hh]|Hno].
  - eexists 0, _. split; [done|]. split; [|split; [done|]].
    + split; [split; [|split]|]; try done.
      * right. simpl. by rewrite Hnew, Hz.
      * unfold frames_fit, nb_frames in *. simpl. by rewrite Hlen.
      * intros Hh'. simpl in Hh'. lia.
    + intros _. exists c. simpl. repeat split; try done; lia.
  - eexists 0, _. split; [done|]. split; [|split; [done|]].
    + split; [split; [|split]|]; try done.
      * destruct Hhint as [Hh|Hh]; [by left|right]. simpl.
        unfold fr. rewrite zlookup_zupdate_ne; [done|].
        intros Heq. rewrite <- Heq in Hh. congruence.
      * unfold frames_fit, nb_frames in *. simpl. by rewrite Hlen.
      * intros Hh. simpl in Hh. simpl. specialize (Hcomp Hh).
        apply Forall_zupdate; [done|]. lia.
    + intros _. exists c. simpl. repeat split; try done; lia.
Qed.

(** [_allocate_frame], case by case. *)
Lemma _allocate_frame_spec t :
  platform_ok → alloc_inv t →
  ∃ frame t', _allocate_frame t = Ret (frame, t') ∧ alloc_inv t' ∧
    (frame = 0 ↔ Forall (λ c, c ≠ 0) (frames t)) ∧
    (frame = 0 → t' = t) ∧
    (frame ≠ 0 →
       page_address frame ∧ USER_MEM_START ≤ frame ∧
       0 ≤ FRAME_ID frame < nb_frames t ∧
       zlookup (frames t) (FRAME_ID frame) = Some 0 ∧
       frames t' = zupdate (frames t) (FRAME_ID frame) 1).
Proof.
  intros Hplat Hinv. pose proof Hinv as [(Hcnt & Hhint & Hfit) Hcomp].
  unfold _allocate_frame.
  destruct (decide (next_available_frame t = -1)) as [Hh|Hh].
  { exists 0, t. split; [done|]. split; [done|]. split; [|done].
    split; [intros _; by apply Hcomp|done]. }
  destruct Hhint as [|Hhint]; [done|].
  pose proof (zlookup_lt _ _ _ Hhint) as Hrange.
  destruct (FRAME_ADDR_spec t _ Hplat Hfit Hrange) as (Haddr & Hpa & Hn0 & Hid).
  destruct (_get_frame_spec (FRAME_ADDR (next_available_frame t)) t Hinv)
    as (err & t' & Hget & Hinv' & Herr & Hok).
  { rewrite Hid. unfold nb_frames. lia. }
  assert (err = 0) as ->.
  { revert Hget. unfold _get_frame.
    rewrite decide_False by (intros Hne; apply Hne; apply Hpa).
    rewrite Hid, decide_False by done. rewrite Hhint.
    cbn [mbind outcome_bind deref]. rewrite decide_False by done.
    rewrite decide_True by done.
    destruct (find_available _ _ _); cbn [mbind outcome_bind]; congruence. }
  rewrite Hget. cbn [mbind outcome_bind]. rewrite decide_False by (by intros []).
  eexists _, t'. split; [done|]. split; [done|].
  destruct (Hok eq_refl) as (c & _ & _ & Hc & _ & Hfr & _).
  rewrite Hid in Hc, Hfr. rewrite Hhint in Hc. injection Hc as <-.
  split; [|split; [done|]].
  - split; [done|]. intros Hall.
    pose proof (Forall_zlookup _ _ _ _ Hall Hhint). done.
  - intros _. rewrite Hid. unfold nb_frames.
    repeat split; try done; try apply Hpa; try lia.
    destruct Hplat as [Hpos _]. rewrite Haddr. unfold PAGE_SIZE. lia.
Qed.
End Allocator.

Section AllocatorTheorems.
Context `{Platform}.

Lemma alloc_step_inv nb c t :
  platform_ok → alloc_inv t → nb_frames t = nb → call_in_table nb c →
  ∃ r t', alloc_step c t = Ret (r, t') ∧ alloc_inv t' ∧ nb_frames t' = nb.
Proof.
  intros Hplat Hinv Hnb Hc.
  assert (∀ t' i x, frames t' = zupdate (frames t) i x → nb_frames t' = nb)
    as Hlen.
  { intros t' i x Hfr. unfold nb_frames in *. by rewrite Hfr, length_zupdate. }
  destruct c as [frame|frame|]; simpl in Hc; cbn [alloc_step].
  - destruct (_get_frame_spec frame t Hinv) as (err & t' & Hg & Hinv' & He & Hz);
      [by rewrite Hnb|].
    exists err, t'. split; [done|]. split; [done|].
    destruct (decide (err = 0)) as [Hr|Hr]; [|by rewrite (He Hr)].
    destruct (Hz Hr) as (c & _ & _ & _ & _ & Hfr & _). by eapply Hlen.
  - destruct (free_frame_spec frame t Hinv) as (err & t' & Hg & Hinv' & He & Hz);
      [by rewrite Hnb|].
    exists err, t'. split; [done|]. split; [done|].
    destruct (decide (err = 0)) as [Hr|Hr]; [|by rewrite (He Hr)].
    destruct (Hz Hr) as (c & _ & _ & _ & _ & Hfr & _). by eapply Hlen.
  - destruct (_allocate_frame_spec t Hplat Hinv)
      as (frame & t' & Hg & Hinv' & _ & He & Hz).
    exists frame, t'. split; [done|]. split; [done|].
    destruct (decide (frame = 0)) as [Hr|Hr]; [by rewrite (He Hr)|].
    destruct (Hz Hr) as (_ & _ & _ & _ & Hfr). by eapply Hlen.
Qed.

(** X1.  The frame allocator keeps its invariant.  From the table
    [init_frame_allocator] builds for [nb] frames, every sequence of
    [get_frame], [free_frame] and [allocate_frame] calls on frames
    below the end of the table returns (no call panics or reads
    outside the table) and leaves a table of [nb] counters in which
    every counter is a byte, the hint [next_available_frame] names a
    frame nobody holds, and the hint is [-1] only when every frame is
    held. *)
Theorem allocator_invariant (nb : Z) (cs : list alloc_call) :
  platform_ok → 0 < nb → USER_MEM_START + PAGE_SIZE * nb ≤ 4294967296 →
  Forall (call_in_table nb) cs →
  ∃ t, alloc_run cs (init_frame_table nb) = Ret t ∧
       nb_frames t = nb ∧ counters_ok t ∧ hint_ok t ∧ hint_complete t.
Proof.
  intros Hplat Hnb Hfit Hcs.
  assert (∀ t, alloc_inv t → nb_frames t = nb →
            ∃ t', alloc_run cs t = Ret t' ∧ alloc_inv t' ∧ nb_frames t' = nb)
    as Hrun.
  { induction Hcs as [|c cs Hc Hcs IH]; intros t Hinv Hlen.
    - by exists t.
    - destruct (alloc_step_inv nb c t Hplat Hinv Hlen Hc)
        as (r & t1 & Hstep & Hinv1 & Hlen1).
      cbn [alloc_run]. rewrite Hstep. cbn [mbind outcome_bind].
      by apply IH. }
  destruct (Hrun (init_frame_table nb)) as (t & Ht & [(? & ? & ?) ?] & ?).
  - by apply init_frame_table_inv.
  - unfold nb_frames, init_frame_table. simpl. rewrite length_replicate. lia.
  - by exists t.
Qed.

(** X2.  On a table that satisfies the invariant, [allocate_frame]
    returns [NULL] exactly when every frame is held, and then changes
    nothing; otherwise it returns the page-aligned address, at or
    above [USER_MEM_START], of a frame whose counter was 0, and sets
    that counter to 1 without touching another counter. *)
Theorem allocate_frame_exhausted (t : frame_table) :
  platform_ok → alloc_inv t →
  ∃ frame t', allocate_frame t = Ret (frame, t') ∧
    (frame = 0 ↔ Forall (λ c, c ≠ 0) (frames t)) ∧
    (frame = 0 → t' = t) ∧
    (frame ≠ 0 →
       page_address frame ∧ USER_MEM_START ≤ frame ∧
       zlookup (frames t) (FRAME_ID frame) = Some 0 ∧
       frames t' = zupdate (frames t) (FRAME_ID frame) 1).
Proof.
  intros Hplat Hinv.
  destruct (_allocate_frame_spec t Hplat Hinv)
    as (frame & t' & Hg & _ & Hiff & He & Hz).
  exists frame, t'. split; [done|]. split; [done|]. split; [done|].
  intros Hne. destruct (Hz Hne) as (? & ? & _ & ? & ?). done.
Qed.

(** X3.  Allocation and release are inverse on the counters: a frame
    obtained from [allocate_frame] can be given back with
    [free_frame], which returns 0 and leaves every counter as it was
    before the allocation, the invariant still holding and a frame
    being available again. *)
Theorem allocate_free_round_trip (t t1 : frame_table) (frame : Z) :
  platform_ok → alloc_inv t →
  allocate_frame t = Ret (frame, t1) → frame ≠ 0 →
  ∃ t2, free_frame frame t1 = Ret (0, t2) ∧ frames t2 = frames t ∧
        alloc_inv t2 ∧ next_available_frame t2 ≠ -1.
Proof.
  intros Hplat Hinv Halloc Hne.
  destruct (_allocate_frame_spec t Hplat Hinv)
    as (frame' & t1' & Hg & Hinv1 & _ & _ & Hz).
  unfold allocate_frame in Halloc. rewrite Halloc in Hg.
  injection Hg as <- <-.
  destruct (Hz Hne) as ([_ Hal] & Huser & Hid & Hc & Hfr).
  assert (zlookup (frames t1) (FRAME_ID frame) = Some 1) as Hc1.
  { rewrite Hfr. apply zlookup_zupdate_eq. unfold nb_frames in Hid. lia. }
  destruct (free_frame_spec frame t1 Hinv1) as (err & t2 & Hfree & Hinv2 & _ & Hok).
  { unfold nb_frames in *. rewrite Hfr, length_zupdate. lia. }
  assert (err = 0) as ->.
  { revert Hfree. unfold free_frame.
    rewrite decide_False by (intros Hx; by apply Hx).
    rewrite decide_False by lia. rewrite Hc1.
    cbn [mbind outcome_bind deref]. rewrite decide_False by done.
    destruct (decide _); congruence. }
  exists t2. split; [done|].
  destruct (Hok eq_refl) as (c & _ & _ & Hc' & _ & Hfr2 & _).
  rewrite Hc1 in Hc'. injection Hc' as <-.
  assert (frames t2 = frames t) as Hsame.
  { rewrite Hfr2, Hfr. change (1 - 1) with 0. by apply zupdate_zupdate_id. }
  split; [done|]. split; [done|].
  destruct Hinv2 as [_ Hcomp2]. intros Hh. specialize (Hcomp2 Hh).
  rewrite Hsame in Hcomp2.
  by pose proof (Forall_zlookup _ _ _ _ Hcomp2 Hc).
Qed.

(** X4.  Sharing and release are inverse on the counters: for a
    page-aligned frame of the table whose counter [c] is below 255,
    [get_frame] returns 0 and brings the counter to [c + 1], and a
    following [free_frame] returns 0 and leaves every counter as it
    was before. *)
Theorem get_free_round_trip (t : frame_table) (frame c : Z) :
  alloc_inv t → frame `mod` PAGE_SIZE = 0 →
  zlookup (frames t) (FRAME_ID frame) = Some c → c ≠ 255 →
  ∃ t1 t2,
    get_frame frame t = Ret (0, t1) ∧
    frames t1 = zupdate (frames t) (FRAME_ID frame) (c + 1) ∧
    free_frame frame t1 = Ret (0, t2) ∧ frames t2 = frames t.
Proof.
  intros Hinv Hal Hc Hc255.
  pose proof (zlookup_lt _ _ _ Hc) as Hid.
  destruct (_get_frame_spec frame t Hinv) as (err & t1 & Hget & Hinv1 & _ & Hok);
    [unfold nb_frames; lia|].
  assert (err = 0) as ->.
  { revert Hget. unfold _get_frame.
    rewrite decide_False by (intros Hx; by apply Hx).
    rewrite decide_False by lia. rewrite Hc.
    cbn [mbind outcome_bind deref]. rewrite decide_False by done.
    destruct (decide _); [|congruence].
    destruct (find_available _ _ _); cbn [mbind outcome_bind]; congruence. }
  destruct (Hok eq_refl) as (c' & _ & _ & Hc' & Hlt & Hfr & _).
  rewrite Hc in Hc'. injection Hc' as <-.
  assert (zlookup (frames t1) (FRAME_ID frame) = Some (c + 1)) as Hc1.
  { rewrite Hfr. by apply zlookup_zupdate_eq. }
  destruct Hinv as [(Hcnt & _) _].
  pose proof (Forall_zlookup _ _ _ _ Hcnt Hc) as Hcr. simpl in Hcr.
  destruct (free_frame_spec frame t1 Hinv1) as (err & t2 & Hfree & _ & _ & Hok2).
  { unfold nb_frames. rewrite Hfr, length_zupdate. lia. }
  assert (err = 0) as ->.
  { revert Hfree. unfold free_frame.
    rewrite decide_False by (intros Hx; by apply Hx).
    rewrite decide_False by lia. rewrite Hc1.
    cbn [mbind outcome_bind deref]. rewrite decide_False by lia.
    destruct (decide _); congruence. }
  exists t1, t2. split; [done|]. split; [done|]. split; [done|].
  destruct (Hok2 eq_refl) as (c' & _ & _ & Hc' & _ & Hfr2 & _).
  rewrite Hc1 in Hc'. injection Hc' as <-.
  rewrite Hfr2, Hfr. replace (c + 1 - 1) with c by lia.
  by apply zupdate_zupdate_id.
Qed.

(** X5.  [free_frame] refuses what it cannot release and changes
    nothing when it does: an address off a page boundary gives [-1],
    a frame below [USER_MEM_START] [ERR_KERNEL_FRAME], and a frame
    whose counter is 0 [ERR_FREE_OWNERLESS_FRAME], so that no counter
    goes below 0. *)
Theorem free_frame_refusals (t : frame_table) (frame : Z) :
  (frame `mod` PAGE_SIZE ≠ 0 → free_frame frame t = Ret (-1, t)) ∧
  (frame `mod` PAGE_SIZE = 0 → frame < USER_MEM_START →
     free_frame frame t = Ret (ERR_KERNEL_FRAME, t)) ∧
  (frame `mod` PAGE_SIZE = 0 →
   zlookup (frames t) (FRAME_ID frame) = Some 0 →
     free_frame frame t = Ret (ERR_FREE_OWNERLESS_FRAME, t)).
Proof.
  unfold free_frame. split; [|split].
  - intros Hal. by rewrite decide_True.
  - intros Hal Hk. rewrite decide_False by (intros Hx; by apply Hx).
    by rewrite decide_True by by apply FRAME_ID_kernel.
  - intros Hal Hc. rewrite decide_False by (intros Hx; by apply Hx).
    pose proof (zlookup_lt _ _ _ Hc).
    rewrite decide_False by lia. rewrite Hc.
    cbn [mbind outcome_bind deref]. by rewrite decide_True.
Qed.
End AllocatorTheorems.

Lemma allocator_invariant_witness :
  ∃ t, @alloc_run pebbles
         [CALL_ALLOCATE_FRAME; CALL_ALLOCATE_FRAME; CALL_GET_FRAME 0x01000000;
          CALL_FREE_FRAME 0x01001000; CALL_FREE_FRAME 0x00005000;
          CALL_ALLOCATE_FRAME; CALL_ALLOCATE_FRAME]
         (init_frame_table 2) = Ret t ∧
       nb_frames t = 2 ∧ counters_ok t ∧ hint_ok t ∧ hint_complete t.
Proof.
  apply (@allocator_invariant pebbles 2).
  - apply (bool_decide_unpack _). vm_compute. exact I.
  - lia.
  - apply (bool_decide_unpack _). vm_compute. exact I.
  - apply (bool_decide_unpack _). vm_compute. exact I.
Defined.

Lemma allocate_frame_exhausted_witness :
  let t := {| frames := [1; 0; 2]; next_available_frame := 1 |} in
  ∃ frame t', @allocate_frame pebbles t = Ret (frame, t') ∧
    (frame = 0 ↔ Forall (λ c, c ≠ 0) (frames t)) ∧
    (frame = 0 → t' = t) ∧
    (frame ≠ 0 →
       page_address frame ∧ @USER_MEM_START pebbles ≤ frame ∧
       zlookup (frames t) (@FRAME_ID pebbles frame) = Some 0 ∧
       frames t' = zupdate (frames t) (@FRAME_ID pebbles frame) 1).
Proof.
  apply (@allocate_frame_exhausted pebbles).
  - apply (bool_decide_unpack _). vm_compute. exact I.
  - apply (bool_decide_unpack _). vm_compute. exact I.
Defined.

Lemma allocate_free_round_trip_witness :
  let t := {| frames := [1; 0; 2]; next_available_frame := 1 |} in
  let t1 := {| frames := [1; 1; 2]; next_available_frame := -1 |} in
  ∃ t2, @free_frame pebbles 0x01001000 t1 = Ret (0, t2) ∧
        frames t2 = frames t ∧ @alloc_inv pebbles t2 ∧
        next_available_frame t2 ≠ -1.
Proof.
  apply (@allocate_free_round_trip pebbles
           {| frames := [1; 0; 2]; next_available_frame := 1 |}).
  - apply (bool_decide_unpack _). vm_compute. exact I.
  - apply (bool_decide_unpack _). vm_compute. exact I.
  - vm_compute. reflexivity.
  - lia.
Defined.

Lemma get_free_round_trip_witness :
  let t := {| frames := [1; 0; 2]; next_available_frame := 1 |} in
  ∃ t1 t2,
    @get_frame pebbles 0x01002000 t = Ret (0, t1) ∧
    frames t1 = zupdate (frames t) (@FRAME_ID pebbles 0x01002000) (2 + 1) ∧
    @free_frame pebbles 0x01002000 t1 = Ret (0, t2) ∧ frames t2 = frames t.
Proof.
  apply (@get_free_round_trip pebbles).
  - apply (bool_decide_unpack _). vm_compute. exact I.
  - vm_compute. reflexivity.
  - vm_compute. reflexivity.
  - lia.
Defined.

(** * Pages: faults on zero-fill pages, failures of [create_page] *)

Lemma zfod_resolved_flags w frame :
  PE_GETFLAG (zfod_resolved w frame) PTE_ZEROPAGE = false ∧
  PE_GETFLAG (zfod_resolved w frame) PTE_READWRITE = true ∧
  PE_GETFLAG (zfod_resolved w frame) PTE_PRESENT = PE_GETFLAG w PTE_PRESENT ∧
  PE_GETFLAG (zfod_resolved w frame) PTE_USER = PE_GETFLAG w PTE_USER ∧
  PE_GETFLAG (zfod_resolved w frame) PTE_COPYONWRITE =
    PE_GETFLAG w PTE_COPYONWRITE.
Proof.
  unfold zfod_resolved. split; [|split; [|split; [|split]]].
  - flag_bits. by rewrite andb_false_r.
  - flag_bits. by rewrite orb_true_r.
  - flag_bits. by rewrite andb_true_r, orb_false_r.
  - flag_bits. by rewrite andb_true_r, orb_false_r.
  - flag_bits. by rewrite andb_true_r, orb_false_r.
Qed.

Section ZeroFill.
Context `{Platform}.

(** X6.  Zero fill on demand.  On a fault at [addr], whose page is
    mapped by an entry [w] marked [ZEROPAGE]: with no free frame the
    handler changes nothing and leaves the fault to the thread (it
    does not try the copy-on-write branch); with a free frame under
    the hint it takes that frame, whose counter goes from 0 to 1,
    points the entry at it with [ZEROPAGE] cleared and [READWRITE]
    set, the other flags kept, fills the page with zeroes and resumes;
    the other mappings and the contents of the other frames, the zero
    frame among them, stay as they were. *)
Theorem zfod_fault addr vm p w :
  platform_ok → pt_wf vm → ft_wf (ft vm) →
  mapped vm addr p w → PE_GETFLAG w PTE_ZEROPAGE = true →
  (next_available_frame (ft vm) = -1 →
     _page_fault_handler addr vm = Ret (PF_DELIVER, vm)) ∧
  (next_available_frame (ft vm) ≠ -1 →
     let nf := FRAME_ADDR (next_available_frame (ft vm)) in
     let w1 := zfod_resolved w nf in
     ∃ vm',
       _page_fault_handler addr vm = Ret (PF_RESUME, vm') ∧
       mapped vm' addr p w1 ∧ PE_GETADDR w1 = nf ∧
       PE_GETFLAG w1 PTE_ZEROPAGE = false ∧
       PE_GETFLAG w1 PTE_READWRITE = true ∧
       PE_GETFLAG w1 PTE_USER = PE_GETFLAG w PTE_USER ∧
       PE_GETFLAG w1 PTE_COPYONWRITE = PE_GETFLAG w PTE_COPYONWRITE ∧
       zlookup (frames (ft vm)) (FRAME_ID nf) = Some 0 ∧
       frames (ft vm') = zupdate (frames (ft vm)) (FRAME_ID nf) 1 ∧
       page_contents vm' nf = zero_page ∧
       (∀ a, a ≠ nf → page_contents vm' a = page_contents vm a) ∧
       (∀ va' q w', mapped vm va' q w' → q ≠ p → mapped vm' va' q w') ∧
       pt_wf vm').
Proof.
  intros Hplat Hwf Hft (Hg & Hr & Hp) Hz.
  pose proof (pt_wf_cr3 _ Hwf) as Hcr3. split.
  - intros Hnone. unfold _page_fault_handler.
    rewrite decide_False by done. rewrite Hg. cbn [mbind outcome_bind].
    rewrite Hr. cbn [mbind outcome_bind]. rewrite Hz.
    unfold allocate_frame, _allocate_frame. rewrite decide_True by done.
    cbn [mbind outcome_bind]. by rewrite decide_False by (by intros []).
  - intros Hsome nf w1.
    destruct (allocate_frame_free (ft vm) Hplat Hft Hsome)
      as (t' & Halloc & Hfr & Hpa & Hn0 & Hid).
    fold nf in Halloc, Hpa, Hn0, Hid.
    destruct (zfod_resolved_flags w nf) as (Hf1 & Hf2 & Hf3 & Hf4 & Hf5).
    fold w1 in Hf1, Hf2, Hf3, Hf4, Hf5.
    assert (PE_GETADDR w1 = nf) as Haddr.
    { unfold w1, zfod_resolved. apply PE_GETADDR_SETADDR; apply Hpa. }
    set (vm0 := set_ft vm t').
    assert (pt_wf vm0) as Hwf0 by done.
    assert (read_pe p vm0 = Ret w) as Hr0 by done.
    destruct (write_pe_defined p w1 vm0 w Hr0) as [vm1 Hw].
    destruct (write_pe_fields _ _ _ _ Hw) as (Hft1 & Hc1 & Hz1 & Hd1 & Hb1 & _).
    destruct (write_resolved vm0 vm1 addr p w1 Hwf0 Hg)
      as (Hg1 & Hr1 & Hpres & Hwf1); [congruence | done |].
    set (vm2 := set_framedata vm1 (<[nf := zero_page]> (framedata vm1))).
    exists vm2. split; [|split; [|split; [done|]]].
    + unfold _page_fault_handler.
      rewrite decide_False by done. rewrite Hg. cbn [mbind outcome_bind].
      rewrite Hr. cbn [mbind outcome_bind]. rewrite Hz.
      unfold allocate_frame. rewrite Halloc. cbn [mbind outcome_bind].
      rewrite decide_True by done.
      fold (zfod_resolved w nf). fold w1. fold vm0. rewrite Hw.
      cbn [mbind outcome_bind]. by rewrite Haddr.
    + split; [done|]. split; [done|]. congruence.
    + split; [done|]. split; [done|]. split; [done|]. split; [done|].
      split; [by rewrite Hid; destruct Hft as (_ & [|] & _)|].
      split; [by simpl; rewrite Hft1, Hid|].
      split; [apply page_contents_insert_eq|].
      split.
      { intros a Ha. unfold vm2. rewrite page_contents_insert_ne by done.
        unfold page_contents. by rewrite Hd1. }
      split; [|done].
      intros va' q w' Hm Hne. by apply (Hpres va' q w').
Qed.
End ZeroFill.

Lemma zfod_fault_witness :
  let vm := {|
    ft := {| frames := [1; 0]; next_available_frame := 1 |};
    ptmem := {[ 0x100000 := cow_directory;
                0x102000 := <[0%nat := 0x00101207]> zero_table ]};
    cr3 := 0x100000; zero_frame := 0x101000; framedata := ∅;
    cow_buffer := []; kheap := [] |} in
  ∃ vm',
    @_page_fault_handler pebbles 0x20000abc vm = Ret (PF_RESUME, vm') ∧
    mapped vm' 0x20000abc (0x102000, 0) 0x01001007 ∧
    frames (ft vm') = [1; 1] ∧
    page_contents vm' 0x01001000 = zero_page.
Proof.
  intros vm.
  destruct (@zfod_fault pebbles 0x20000abc vm (0x102000, 0) 0x00101207)
    as [_ Hfree].
  - apply (bool_decide_unpack _). vm_compute. exact I.
  - apply (bool_decide_unpack _). vm_compute. exact I.
  - apply (bool_decide_unpack _). vm_compute. exact I.
  - repeat split; vm_compute; reflexivity.
  - vm_compute. reflexivity.
  - destruct Hfree as (vm' & Hh & Hm & _ & _ & _ & _ & _ & _ & Hfr & Hpc & _);
      [vm_compute; lia|].
    exists vm'. split; [exact Hh|]. split; [exact Hm|]. split; [exact Hfr|exact Hpc].
Defined.

(** ** [create_page] on a page that is already there, and the way back *)

Section CreatePageFailures.
Context `{Platform}.

(** The frame [allocate_frame] has just handed out goes back with
    [free_frame], and the counters are what they were. *)
Lemma allocate_then_free t nf t1 :
  counters_ok t → allocate_frame t = Ret (nf, t1) → nf ≠ 0 →
  ∃ t2, free_frame nf t1 = Ret (0, t2) ∧ frames t2 = frames t.
Proof.
  intros Hcnt Halloc Hnf.
  destruct (allocate_frame_ok _ _ _ Halloc Hnf)
    as (c & Hal & Hr & Hid & Hc & Hc255 & Hfr).
  pose proof (Forall_zlookup _ _ _ _ Hcnt Hc) as Hcr. simpl in Hcr.
  rewrite u8_small in Hfr by lia.
  destruct (free_frame_ok nf t1 (c + 1)) as (t2 & Hfree & Hfr2);
    [done | done | | lia |].
  { rewrite Hfr. apply zlookup_zupdate_eq. by apply zlookup_lt in Hc. }
  exists t2. split; [done|]. rewrite Hfr2, Hfr.
  replace (c + 1 - 1) with c by lia. rewrite u8_small by lia.
  by apply zupdate_zupdate_id.
Qed.

(** X7.  [create_page] on a page that is already mapped, its
    arguments being valid.  For a kind other than [Bss] and without a
    reference frame, the call allocates a frame before it looks at
    the page table, finds the entry present, gives the frame back and
    returns [ERR_PAGE_ALREADY_PRESENT] ([ERR_NO_FRAMES] when no frame
    was free): the counters and the page tables are as before.  For
    [Bss] or with a reference frame there is no frame to give back,
    [free_frame(NULL)] is refused, and the call panics instead of
    returning the error. *)
Theorem create_page_already_present va type ref vm p w :
  platform_ok → pt_wf vm → ft_wf (ft vm) →
  va `mod` PAGE_SIZE = 0 → USER_MEM_START ≤ va →
  (ref ≠ 0 → ref `mod` PAGE_SIZE = 0 ∧ USER_MEM_START ≤ ref) →
  mapped vm va p w →
  (type ≠ MEM_TYPE_BSS → ref = 0 →
     ∃ vm',
       create_page va type ref vm =
         Ret (if decide (next_available_frame (ft vm) = -1)
              then ERR_NO_FRAMES else ERR_PAGE_ALREADY_PRESENT, vm') ∧
       frames (ft vm') = frames (ft vm) ∧ ptmem vm' = ptmem vm ∧
       kheap vm' = kheap vm ∧ framedata vm' = framedata vm) ∧
  (type = MEM_TYPE_BSS ∨ ref ≠ 0 →
     create_page va type ref vm = ThreadPanic).
Proof.
  intros Hplat Hwf Hft Hal Hva Href (Hg & Hr & Hp).
  pose proof Hplat as [Hpos _].
  assert (create_page va type ref vm =
    '(new_frame, ft1) ←
      (if decide (type ≠ MEM_TYPE_BSS ∧ ref = 0)
       then allocate_frame (ft vm) else Ret (0, ft vm));
    if decide (type ≠ MEM_TYPE_BSS ∧ ref = 0 ∧ new_frame = 0)
    then Ret (ERR_NO_FRAMES, vm)
    else create_page_undo new_frame ERR_PAGE_ALREADY_PRESENT (set_ft vm ft1))
    as ->.
  { unfold create_page.
    rewrite decide_False by (intros Hne; by apply Hne).
    rewrite decide_False by lia.
    rewrite decide_False by (intros [Hr0 Hne]; by destruct (Href Hr0)).
    rewrite decide_False by (intros [Hr0 Hlt]; destruct (Href Hr0); lia).
    destruct (if decide (type ≠ MEM_TYPE_BSS ∧ ref = 0)
              then allocate_frame (ft vm) else Ret (0, ft vm))
      as [[nf ft1]| | |]; cbn [mbind outcome_bind]; try done.
    destruct (decide _); [done|].
    change (cr3 (set_ft vm ft1)) with (cr3 vm).
    change (get_pte va (cr3 vm) (set_ft vm ft1)) with (get_pte va (cr3 vm) vm).
    rewrite Hg. cbn [mbind outcome_bind].
    change (read_pe p (set_ft vm ft1)) with (read_pe p vm).
    rewrite Hr. cbn [mbind outcome_bind]. by rewrite Hp. }
  split.
  - intros Hty Href0. rewrite decide_True by done.
    destruct (decide (next_available_frame (ft vm) = -1)) as [Hh|Hh].
    + unfold allocate_frame, _allocate_frame. rewrite decide_True by done.
      cbn [mbind outcome_bind]. rewrite decide_True by done. by exists vm.
    + destruct (allocate_frame_free (ft vm) Hplat Hft Hh)
        as (t1 & Halloc & _ & _ & Hn0 & _).
      destruct (allocate_then_free (ft vm)
                  (FRAME_ADDR (next_available_frame (ft vm))) t1)
        as (t2 & Hfree & Hfr); [apply Hft | done | done |].
      unfold allocate_frame at 1. rewrite Halloc. cbn [mbind outcome_bind].
      rewrite decide_False by (by intros (_ & _ & ?)).
      unfold create_page_undo. change (ft (set_ft vm t1)) with t1.
      rewrite Hfree. cbn [mbind outcome_bind].
      rewrite decide_False by (by intros []).
      by exists (set_ft (set_ft vm t1) t2).
  - intros Hty. rewrite decide_False by (intros [? ?]; by destruct Hty).
    cbn [mbind outcome_bind].
    rewrite decide_False by (intros (? & ? & _); by destruct Hty).
    unfold create_page_undo, free_frame.
    rewrite decide_False by (intros Hne; by apply Hne).
    rewrite decide_True by (apply FRAME_ID_kernel; lia).
    cbn [mbind outcome_bind]. by rewrite decide_True.
Qed.

(** X8.  A page made by [create_page] with a frame of its own (a kind
    other than [Bss], no reference frame) is taken back by
    [destroy_page]: the call returns 0, the entry of the page reads 0
    again, every counter is what it was before the page was made, and
    the pages that were mapped before are still mapped as they
    were. *)
Theorem create_destroy_page va type vm vm1 :
  vm_wf vm → type ≠ MEM_TYPE_BSS →
  create_page va type 0 vm = Ret (0, vm1) →
  ∃ p vm2,
    destroy_page va vm1 = Ret (0, vm2) ∧
    get_pte va (cr3 vm2) vm2 = Ret (Some p) ∧ read_pe p vm2 = Ret 0 ∧
    frames (ft vm2) = frames (ft vm) ∧
    (∀ va' q w', mapped vm va' q w' → mapped vm2 va' q w') ∧
    pt_wf vm2.
Proof.
  intros Hvm Hty Hcreate. pose proof Hvm as [Hwf Hcnt].
  destruct (create_page_ok _ _ _ _ _ Hvm Hcreate)
    as (p & nf & Hal & Hm & Halloc & Hpres & Hwf1 & Hcr & _).
  rewrite decide_True in Halloc by done. destruct Halloc as [Halloc Hnf].
  destruct (allocate_frame_ok _ _ _ Halloc Hnf)
    as (c & Hal' & Hr & Hid & Hc & Hc255 & Hfr).
  pose proof (Forall_zlookup _ _ _ _ Hcnt Hc) as Hcr'. simpl in Hcr'.
  rewrite u8_small in Hfr by lia.
  set (w := entry_word 0 type 0 nf (zero_frame vm)) in *.
  destruct (entry_word_flags type 0 nf (zero_frame vm))
    as (Hf1 & Hf2 & Hf3 & _). fold w in Hf1, Hf2, Hf3.
  assert (PE_GETADDR w = nf) as Haddr.
  { unfold w. rewrite PE_GETADDR_entry_word.
    rewrite decide_False by done. rewrite decide_False by (by intros Hx; apply Hx).
    by apply land_ADDR_MASK_aligned. }
  destruct (destroy_page_ok va vm1 p w (c + 1)) as (vm2 & Hd & Hfr2 & Hpres2 & Hwf2 & Hcr2 & _);
    try done; try (rewrite Haddr; try done).
  { rewrite Hfr. apply zlookup_zupdate_eq. by apply zlookup_lt in Hc. }
  { lia. }
  exists p, vm2. split; [done|].
  assert (get_pte va (cr3 vm2) vm2 = Ret (Some p) ∧ read_pe p vm2 = Ret 0)
    as [Hg2 Hr2].
  { revert Hd. destruct Hm as (Hg1 & Hr1 & Hp1). unfold destroy_page.
    rewrite decide_False by (intros Hne; by apply Hne).
    rewrite decide_False by by apply pt_wf_cr3.
    rewrite Hg1. cbn [mbind outcome_bind]. rewrite Hr1. cbn [mbind outcome_bind].
    rewrite Hp1, Hf3, Hf2. cbn [negb].
    bind_split vm1' Hw. destruct (free_frame _ _) as [[e t']| | |];
      cbn [mbind outcome_bind]; try discriminate.
    destruct (decide (e ≠ 0)); [discriminate|]. intros [= <-].
    destruct (write_resolved vm1 vm1' va p 0 Hwf1 Hg1) as (Hg' & Hr' & _);
      [done | done |].
    destruct (write_pe_fields _ _ _ _ Hw) as (_ & Hc3 & _).
    split; [|done]. change (cr3 (set_ft vm1' t')) with (cr3 vm1').
    by rewrite Hc3 in *. }
  split; [done|]. split; [done|]. split.
  { rewrite Hfr2, Haddr, Hfr. replace (c + 1 - 1) with c by lia.
    rewrite u8_small by lia. by apply zupdate_zupdate_id. }
  split; [|done].
  intros va' q w' Hq. destruct (Hpres va' q w' Hq) as [Hne Hq1].
  by apply (Hpres2 va' q w').
Qed.

(** X9.  [destroy_page] has no test for [ZEROPAGE] (the loops of
    [destroy_paging] and [reset_paging] have one): called on a page
    [create_page] made for the kind [Bss], whose entry still points
    at the zero frame, a page of the kernel, it clears the entry,
    has [free_frame] refuse the zero frame and panics. *)
Theorem destroy_zero_page va ref vm vm1 :
  platform_ok → vm_wf vm →
  page_address (zero_frame vm) → zero_frame vm < USER_MEM_START →
  create_page va MEM_TYPE_BSS ref vm = Ret (0, vm1) →
  destroy_page va vm1 = ThreadPanic.
Proof.
  intros Hplat Hvm [Hzr Hzal] Hzk Hcreate.
  destruct (create_page_ok _ _ _ _ _ Hvm Hcreate)
    as (p & nf & Hal & (Hg1 & Hr1 & Hp1) & _ & _ & Hwf1 & _).
  set (w := entry_word 0 MEM_TYPE_BSS ref nf (zero_frame vm)) in *.
  destruct (entry_word_flags MEM_TYPE_BSS ref nf (zero_frame vm))
    as (Hf1 & Hf2 & Hf3 & _). fold w in Hf1, Hf2, Hf3.
  assert (PE_GETADDR w = zero_frame vm) as Haddr.
  { unfold w. rewrite PE_GETADDR_entry_word.
    rewrite decide_True by done. by apply land_ADDR_MASK_aligned. }
  unfold destroy_page.
  rewrite decide_False by (intros Hne; by apply Hne).
  rewrite decide_False by by apply pt_wf_cr3.
  rewrite Hg1. cbn [mbind outcome_bind]. rewrite Hr1. cbn [mbind outcome_bind].
  rewrite Hp1, Hf3, Hf2. cbn [negb].
  destruct (write_pe_defined p 0 vm1 w Hr1) as [vm1' Hw].
  rewrite Hw. cbn [mbind outcome_bind]. rewrite Haddr.
  unfold free_frame.
  rewrite decide_False by (intros Hne; by apply Hne).
  rewrite decide_True by by apply FRAME_ID_kernel.
  cbn [mbind outcome_bind]. by rewrite decide_True.
Qed.
End CreatePageFailures.

Lemma create_page_already_present_witness :
  (∃ vm', @create_page pebbles 0x20000000 MEM_TYPE_USER 0 vm_cow_shared =
            Ret (ERR_PAGE_ALREADY_PRESENT, vm') ∧
          frames (ft vm') = [2; 0; 0] ∧
          ptmem vm' = ptmem vm_cow_shared) ∧
  @create_page pebbles 0x20000000 MEM_TYPE_BSS 0 vm_cow_shared = ThreadPanic.
Proof.
  assert (@platform_ok pebbles) as Hplat
    by (apply (bool_decide_unpack _); vm_compute; exact I).
  assert (pt_wf vm_cow_shared) as Hwf
    by (apply (bool_decide_unpack _); vm_compute; exact I).
  assert (@ft_wf pebbles (ft vm_cow_shared)) as Hft
    by (apply (bool_decide_unpack _); vm_compute; exact I).
  assert (mapped vm_cow_shared 0x20000000 (0x102000, 0) 0x01000405) as Hm
    by (repeat split; vm_compute; reflexivity).
  split.
  - destruct (@create_page_already_present pebbles 0x20000000 MEM_TYPE_USER 0
                vm_cow_shared (0x102000, 0) 0x01000405 Hplat Hwf Hft)
      as [Hown _]; [reflexivity | vm_compute; discriminate | lia | exact Hm |].
    destruct Hown as (vm' & Hc & Hfr & Hpt & _); [discriminate | reflexivity |].
    exists vm'. split; [exact Hc|]. split; [exact Hfr | exact Hpt].
  - destruct (@create_page_already_present pebbles 0x20000000 MEM_TYPE_BSS 0
                vm_cow_shared (0x102000, 0) 0x01000405 Hplat Hwf Hft)
      as [_ Hbss]; [reflexivity | vm_compute; discriminate | lia | exact Hm |].
    apply Hbss. left. reflexivity.
Defined.

Lemma create_destroy_page_witness :
  ∃ vm1 p vm2,
    @create_page pebbles 0x20000000 MEM_TYPE_USER 0 vm_empty = Ret (0, vm1) ∧
    frames (ft vm1) = [1; 0; 0; 0] ∧
    @destroy_page pebbles 0x20000000 vm1 = Ret (0, vm2) ∧
    read_pe p vm2 = Ret 0 ∧ frames (ft vm2) = [0; 0; 0; 0].
Proof.
  assert (∃ vm1, @create_page pebbles 0x20000000 MEM_TYPE_USER 0 vm_empty
                 = Ret (0, vm1) ∧ frames (ft vm1) = [1; 0; 0; 0])
    as (vm1 & Hc & Hf1) by (eexists; split; vm_compute; reflexivity).
  destruct (@create_destroy_page pebbles 0x20000000 MEM_TYPE_USER vm_empty vm1)
    as (p & vm2 & Hd & _ & Hr & Hfr & _).
  - apply (bool_decide_unpack _). vm_compute. exact I.
  - discriminate.
  - exact Hc.
  - exists vm1, p, vm2.
    split; [exact Hc|]. split; [exact Hf1|]. split; [exact Hd|].
    split; [exact Hr | exact Hfr].
Defined.

Lemma destroy_zero_page_witness :
  ∃ vm1,
    @create_page pebbles 0x20000000 MEM_TYPE_BSS 0 vm_empty = Ret (0, vm1) ∧
    @destroy_page pebbles 0x20000000 vm1 = ThreadPanic.
Proof.
  assert (∃ vm1, @create_page pebbles 0x20000000 MEM_TYPE_BSS 0 vm_empty
                 = Ret (0, vm1))
    as (vm1 & Hc) by (eexists; vm_compute; reflexivity).
  exists vm1. split; [exact Hc|].
  apply (@destroy_zero_page pebbles 0x20000000 0 vm_empty vm1).
  - apply (bool_decide_unpack _). vm_compute. exact I.
  - apply (bool_decide_unpack _). vm_compute. exact I.
  - apply (bool_decide_unpack _). vm_compute. exact I.
  - vm_compute. reflexivity.
  - exact Hc.
Defined.

(** * Checks of user pointers *)

Lemma PAGE_ADDR_spec a :
  0 ≤ a < 4294967296 → PAGE_ADDR a = PAGE_SIZE * (a / PAGE_SIZE).
Proof.
  intros Ha. unfold PAGE_ADDR, PAGE_SIZE.
  change 4096 with (2 ^ 12).
  rewrite <- (Z.shiftr_div_pow2 a 12), Z.mul_comm, <- Z.shiftl_mul_pow2 by lia.
  apply Z.bits_inj'. intros n Hn.
  rewrite Z.land_spec, testbit_ADDR_MASK by done.
  destruct (Z.leb_spec 12 n).
  - rewrite Z.shiftl_spec, Z.shiftr_spec by lia.
    replace (n - 12 + 12) with n by lia.
    destruct (Z.ltb_spec n 32); simpl; [by rewrite andb_true_r|].
    rewrite andb_false_r. symmetry.
    rewrite <- (Z.mod_small a (2 ^ 32)) by lia.
    apply Z.mod_pow2_bits_high. lia.
  - rewrite Z.shiftl_spec_low by lia. simpl. by rewrite andb_false_r.
Qed.

Lemma PAGE_ADDR_bounds a :
  0 ≤ a < 4294967296 → PAGE_ADDR a ≤ a < PAGE_ADDR a + PAGE_SIZE.
Proof.
  intros Ha. rewrite PAGE_ADDR_spec by done. unfold PAGE_SIZE.
  pose proof (Z.mod_pos_bound a 4096 ltac:(lia)).
  pose proof (Z.div_mod a 4096 ltac:(lia)). lia.
Qed.

Lemma PAGE_ADDR_same a b :
  0 ≤ a < 4294967296 → PAGE_ADDR a ≤ b < PAGE_ADDR a + PAGE_SIZE →
  PAGE_ADDR b = PAGE_ADDR a.
Proof.
  intros Ha Hb. pose proof (PAGE_ADDR_bounds a Ha) as Hab.
  rewrite (PAGE_ADDR_spec a) in * by done. unfold PAGE_SIZE in *.
  assert (0 ≤ a / 4096 < 1048576) as Hq.
  { split; [apply Z.div_pos; lia|]. apply Z.div_lt_upper_bound; lia. }
  rewrite PAGE_ADDR_spec by lia. unfold PAGE_SIZE. f_equal.
  symmetry. apply (Z.div_unique b 4096 (a / 4096) (b - 4096 * (a / 4096))); lia.
Qed.

(** [get_pte] and [check_page] stay inside tables that are there. *)
Lemma get_pte_total va vm :
  tables_present vm →
  ∃ r, get_pte va (cr3 vm) vm = Ret r ∧
       ∀ q, r = Some q → ∃ w, read_pe q vm = Ret w.
Proof.
  intros [Hd Hall]. unfold table_present in Hd.
  destruct (ptmem vm !! cr3 vm) as [d|] eqn:Hdir; [|done].
  cbn [from_option] in Hd, Hall.
  change PAGE_TABLE_ENTRIES with 1024 in Hd.
  destruct (zlookup_is_Some d (PDE_OFFSET va)) as [pde Hpde].
  { pose proof (PDE_OFFSET_range va). lia. }
  unfold get_pte, get_pde, read_pe. cbn [fst snd]. rewrite Hdir.
  cbn [mbind outcome_bind deref]. rewrite Hpde. cbn [mbind outcome_bind deref].
  destruct (PE_GETFLAG pde PDE_PRESENT) eqn:Hp; [|by exists None].
  eexists. split; [done|]. intros q [= <-].
  pose proof (Forall_zlookup _ _ _ _ Hall Hpde Hp) as Ht.
  unfold table_present in Ht. cbn [fst snd].
  destruct (ptmem vm !! PE_GETADDR pde) as [t|]; [|done].
  cbn [from_option] in Ht. change PAGE_TABLE_ENTRIES with 1024 in Ht.
  destruct (zlookup_is_Some t (PTE_OFFSET va)) as [w Hw].
  { pose proof (PTE_OFFSET_range va). lia. }
  exists w. cbn [mbind outcome_bind deref]. by rewrite Hw.
Qed.

Lemma check_page_total addr write vm :
  tables_present vm → ∃ b, check_page addr write vm = Ret b.
Proof.
  intros Htp. unfold check_page.
  destruct (get_pte_total (PAGE_ADDR addr) vm Htp) as (r & -> & Hr).
  cbn [mbind outcome_bind]. destruct r as [q|]; [|by eexists].
  destruct (Hr q eq_refl) as [w ->]. cbn [mbind outcome_bind]. by eexists.
Qed.

Lemma check_page_same_page a b write vm :
  PAGE_ADDR b = PAGE_ADDR a → check_page b write vm = check_page a write vm.
Proof. unfold check_page. by intros ->. Qed.

Lemma check_array_loop_done fuel cursor checked len vm :
  len ≤ checked → check_array_loop fuel cursor checked len vm = Ret true.
Proof. intros Hle. destruct fuel; simpl; by rewrite decide_False by lia. Qed.

Lemma check_array_loop_spec array len vm fuel :
  tables_present vm → 0 < array →
  ∀ cursor checked,
    checked = cursor - array → array ≤ cursor →
    cursor + (len - checked) ≤ 4294967296 →
    (Z.to_nat (len - checked) ≤ fuel)%nat →
    ∃ b, check_array_loop fuel cursor checked len vm = Ret b ∧
         (b = true ↔
          ∀ a, cursor ≤ a < cursor + (len - checked) →
               check_page a false vm = Ret true).
Proof.
  intros Htp Harr.
  induction fuel as [|fuel IH]; intros cursor checked Hck Hc Hend Hfuel.
  { exists true. split; [apply check_array_loop_done; lia|].
    split; [|done]. intros _ a Ha. lia. }
  destruct (decide (checked < len)) as [Hlt|Hge].
  2: { exists true. split; [apply check_array_loop_done; lia|].
       split; [|done]. intros _ a Ha. lia. }
  cbn [check_array_loop]. rewrite decide_True by done.
  destruct (check_page_total cursor false vm Htp) as [ok Hok].
  rewrite Hok. cbn [mbind outcome_bind].
  pose proof (PAGE_ADDR_bounds cursor ltac:(lia)) as Hpb.
  assert (PAGE_ADDR cursor + PAGE_SIZE ≤ 4294967296) as Htop.
  { rewrite PAGE_ADDR_spec by lia. unfold PAGE_SIZE.
    assert (cursor / 4096 < 1048576) by (apply Z.div_lt_upper_bound; lia). lia. }
  destruct ok; cbn [negb].
  2: { exists false. split; [done|]. split; [done|].
       intros Hall. specialize (Hall cursor ltac:(lia)). congruence. }
  set (checked' := checked + (PAGE_SIZE - (cursor - PAGE_ADDR cursor))).
  assert (u32 (checked + u32 (PAGE_SIZE - (cursor - PAGE_ADDR cursor))) = checked')
    as ->.
  { rewrite (u32_small (PAGE_SIZE - _)) by (unfold PAGE_SIZE in *; lia).
    apply u32_small. unfold checked', PAGE_SIZE in *. lia. }
  assert (∀ a, cursor ≤ a < PAGE_ADDR cursor + PAGE_SIZE →
               check_page a false vm = Ret true) as Hfirst.
  { intros a Ha. rewrite <- Hok. apply check_page_same_page.
    apply PAGE_ADDR_same; lia. }
  destruct (decide (checked' < len)) as [Hlt'|Hge'].
  - assert (u32 (PAGE_ADDR cursor + PAGE_SIZE) = PAGE_ADDR cursor + PAGE_SIZE)
      as Hcur by (apply u32_small; unfold checked' in Hlt'; lia).
    rewrite Hcur.
    destruct (IH (PAGE_ADDR cursor + PAGE_SIZE) checked') as (b & Hb & Hiff);
      [unfold checked'; lia | lia | unfold checked'; lia | unfold checked'; lia |].
    exists b. split; [done|]. rewrite Hiff. split.
    + intros Hall a Ha.
      destruct (decide (a < PAGE_ADDR cursor + PAGE_SIZE)); [apply Hfirst; lia|].
      apply Hall. unfold checked'. lia.
    + intros Hall a Ha. apply Hall. unfold checked' in Ha. lia.
  - exists true. split; [apply check_array_loop_done; lia|].
    split; [|done]. intros _ a Ha. apply Hfirst. unfold checked' in Hge'. lia.
Qed.

(** X10.  In an address space whose page tables are there, for a
    pointer [array] that is not [NULL] and [len] bytes that end at or
    below the top of the 32-bit address space, [check_array(array,
    len)] returns, and returns true exactly when the page of every
    byte from [array] to [array + len - 1] has a present entry in a
    present page table, so with [len] 0 it returns true.  ([len]
    counts bytes: the call [check_array(args, 2)] of the system calls
    covers the first two bytes of the argument block.  From [NULL] the
    count of checked bytes can wrap to 0 at the top of the address
    space, and the statement does not cover that.) *)
Theorem check_array_pages array len vm :
  tables_present vm → 0 < array → array + len ≤ 4294967296 →
  ∃ b, check_array array len vm = Ret b ∧
       (b = true ↔
        ∀ a, array ≤ a < array + len → check_page a false vm = Ret true).
Proof.
  intros Htp Ha Hend. unfold check_array.
  destruct (check_array_loop_spec array len vm (Z.to_nat len) Htp Ha array 0)
    as (b & Hb & Hiff); [lia | lia | lia | lia |].
  exists b. split; [done|]. rewrite Hiff.
  by replace (len - 0) with len by lia.
Qed.

Lemma check_array_pages_witness :
  ∃ b, check_array 0x20000ffc 8 vm_cow_shared = Ret b ∧
       (b = true ↔
        ∀ a, 0x20000ffc ≤ a < 0x20000ffc + 8 →
             check_page a false vm_cow_shared = Ret true).
Proof.
  apply check_array_pages.
  - apply (bool_decide_unpack _). vm_compute. exact I.
  - lia.
  - lia.
Defined.

(** * [new_pages] when it fails *)

Section NewPagesFailure.
Context `{Platform}.

(** What a failed [create_page] for a page of [new_pages] leaves
    behind: the state it found, but for the hint of the frame table
    and, when [smemalign] returned [NULL], the heap's next answer. *)
Lemma create_page_failed va vm err vm' :
  counters_ok (ft vm) →
  create_page va MEM_TYPE_USER 0 vm = Ret (err, vm') → err ≠ 0 →
  ptmem vm' = ptmem vm ∧ cr3 vm' = cr3 vm ∧ zero_frame vm' = zero_frame vm ∧
  framedata vm' = framedata vm ∧ cow_buffer vm' = cow_buffer vm ∧
  frames (ft vm') = frames (ft vm) ∧
  (kheap vm' = kheap vm ∨ ∃ a, kheap vm = a :: kheap vm').
Proof.
  intros Hcnt. unfold create_page.
  destruct (decide (va `mod` PAGE_SIZE ≠ 0)); [intros [= <- <-] _; tauto|].
  destruct (decide (va < USER_MEM_START)); [intros [= <- <-] _; tauto|].
  rewrite decide_False by (by intros [? _]).
  rewrite decide_False by (by intros [? _]).
  rewrite decide_True by done.
  destruct (allocate_frame (ft vm)) as [[nf ft1]| | |] eqn:Halloc;
    cbn [mbind outcome_bind]; try discriminate.
  destruct (decide (MEM_TYPE_USER ≠ MEM_TYPE_BSS ∧ 0 = 0 ∧ nf = 0)) as [|Hnf];
    [intros [= <- <-] _; tauto|].
  assert (nf ≠ 0) as Hnf0 by (intros ->; by apply Hnf).
  destruct (allocate_then_free (ft vm) nf ft1 Hcnt Halloc Hnf0)
    as (t2 & Hfree & Hfr).
  assert (∀ vmx e, ft vmx = ft1 →
            create_page_undo nf e vmx = Ret (e, set_ft vmx t2)) as Hundo.
  { intros vmx e Hx. unfold create_page_undo. rewrite Hx, Hfree.
    cbn [mbind outcome_bind]. by rewrite decide_False by (by intros []). }
  change (cr3 (set_ft vm ft1)) with (cr3 vm).
  bind_split pte Hg. destruct pte as [q|].
  - bind_split w Hr. destruct (PE_GETFLAG w PTE_PRESENT).
    + rewrite Hundo by done. intros [= <- <-] _. simpl. tauto.
    + unfold create_page_entry. bind_split w' Hr'. bind_split vm2 Hw.
      intros [= <- _] Herr. done.
  - unfold smemalign_page. change (kheap (set_ft vm ft1)) with (kheap vm).
    destruct (kheap vm) as [|a rest] eqn:Hheap.
    + rewrite decide_True by done. rewrite Hundo by done.
      intros [= <- <-] _. simpl. tauto.
    + destruct (decide (a = 0)).
      * rewrite Hundo by done. intros [= <- <-] _. simpl.
        repeat split; try done. right. by exists a.
      * bind_split d0 Hd0. bind_split vm3 Hwd.
        unfold create_page_entry. bind_split w' Hr'. bind_split vm4 Hw.
        intros [= <- _] Herr. done.
Qed.

Lemma pt_wf_transfer vm vm' :
  pt_wf vm → ptmem vm' = ptmem vm → cr3 vm' = cr3 vm →
  (kheap vm' = kheap vm ∨ ∃ a, kheap vm = a :: kheap vm') →
  pt_wf vm'.
Proof.
  intros (Hc & Hdir & Hnd & Hheap) Hpt Hcr Hk. unfold pt_wf.
  rewrite Hpt, Hcr.
  assert (kheap vm' ⊆ kheap vm) as Hsub.
  { destruct Hk as [->|[a ->]]; [done|]. intros x Hx. by right. }
  split; [done|]. split; [|split].
  - destruct (ptmem vm !! cr3 vm) as [d|]; [|done]. simpl in *.
    eapply Forall_impl; [done|]. intros pde Hok Hp.
    destruct (Hok Hp) as (Hne & Hnin & Hcl). rewrite Hcr, Hpt.
    split; [done|]. split; [|done]. intros Hin. by apply Hnin, Hsub.
  - destruct Hk as [->|[a Ha]]; [done|]. rewrite Ha in Hnd.
    by apply NoDup_cons in Hnd as [_ ?].
  - assert (Forall (heap_page_ok vm) (kheap vm')) as Hall.
    { destruct Hk as [->|[a Ha]]; [done|]. rewrite Ha in Hheap.
      by apply Forall_cons in Hheap as [_ ?]. }
    eapply Forall_impl; [done|]. intros a. unfold heap_page_ok. by rewrite Hcr.
Qed.

Lemma region_inv_transfer F0 vm vm' L :
  region_inv F0 vm L →
  ptmem vm' = ptmem vm → cr3 vm' = cr3 vm →
  frames (ft vm') = frames (ft vm) →
  (kheap vm' = kheap vm ∨ ∃ a, kheap vm = a :: kheap vm') →
  region_inv F0 vm' L.
Proof.
  intros (Hwf & Hcnt & HF0 & Hnd & Hall & Hlen & Hcount) Hpt Hcr Hfr Hk.
  split; [by eapply pt_wf_transfer|].
  split; [by eapply counters_ok_frames|].
  split; [done|]. split; [done|]. split; [|by rewrite Hfr].
  eapply Forall_impl; [done|]. intros e. apply page_ok_preserved.
  by apply mapped_ext.
Qed.

Lemma region_vas_snoc base n :
  region_vas base 0 (S n) =
  region_vas base 0 n ++ [u32 (base + Z.of_nat n * PAGE_SIZE)].
Proof.
  unfold region_vas. rewrite Nat2Z.inj_succ.
  replace (Z.succ (Z.of_nat n)) with (Z.of_nat n + 1) by lia.
  rewrite seqZ_app by lia. rewrite fmap_app. f_equal.
Qed.

(** The loop of [_new_pages] when a page cannot be created: the pages
    made before it are destroyed again. *)
Lemma create_pages_failed F0 n base i vm L err vm' :
  0 ≤ i → region_inv F0 vm L → L.*1.*1 = region_vas base 0 (Z.to_nat i) →
  create_pages n base i vm = Ret (err, vm') → err ≠ 0 →
  region_inv F0 vm' [] ∧ cr3 vm' = cr3 vm ∧ framedata vm' = framedata vm.
Proof.
  revert i vm L. induction n as [|n IH]; intros i vm L Hi Hinv Hvas;
    cbn [create_pages].
  { intros [= <- _] Herr. done. }
  destruct (create_page _ MEM_TYPE_USER 0 vm) as [[e vm1]| | |] eqn:Hc;
    cbn [mbind outcome_bind]; try discriminate.
  destruct (decide (e ≠ 0)) as [He|He].
  - destruct (create_page_failed _ _ _ _ (proj1 (proj2 Hinv)) Hc He)
      as (Hpt & Hcr & _ & Hfd & _ & Hfr & Hk).
    pose proof (region_inv_transfer _ _ _ _ Hinv Hpt Hcr Hfr Hk) as Hinv1.
    destruct (destroy_pages_ok F0 (Z.to_nat i) base 0 vm1 L Hinv1 Hvas)
      as (vm2 & Hd & Hinv2 & Hcr2 & Hfd2).
    rewrite Hd. cbn [mbind outcome_bind]. intros [= <- <-] _.
    split; [done|]. split; congruence.
  - assert (e = 0) as -> by (destruct (decide (e = 0)); [done|contradiction]).
    destruct (region_inv_create _ _ _ _ _ Hinv Hc)
      as (p & w & Hinv1 & Hc1 & _ & Hd1 & _).
    intros Hrest Herr.
    destruct (IH (i + 1) vm1 _ ltac:(lia) Hinv1) with (2 := Hrest)
      as (Hinv' & Hc' & Hd'); [|done|].
    + replace (Z.to_nat (i + 1)) with (S (Z.to_nat i)) by lia.
      rewrite region_vas_snoc, !fmap_app, Hvas. simpl.
      by rewrite Z2Nat.id by lia.
    + split; [done|]. split; congruence.
Qed.

(** ** The mappings across [create_page] and [destroy_page] *)

(** A write to an entry of a page table makes no mapping through
    another entry. *)
Lemma write_back vm vm' p w va q w' :
  p.1 ≠ cr3 vm → write_pe p w vm = Ret vm' →
  mapped vm' va q w' → q ≠ p → mapped vm va q w'.
Proof.
  intros Hp Hwr (Hg & Hr & Hpr) Hne.
  destruct (write_pe_fields _ _ _ _ Hwr) as (_ & Hcr3 & _).
  rewrite Hcr3 in Hg.
  apply get_pte_Some in Hg as (pde & Hpde & Hpp & ->).
  rewrite (read_write_pe_ne _ _ _ _ _ Hwr) in Hpde
    by (intros Heq; apply Hp; by rewrite <- Heq).
  split; [apply get_pte_Some; by exists pde|]. split; [|done].
  by rewrite <- (read_write_pe_ne _ _ _ _ _ Hwr Hne).
Qed.

(** [destroy_page] takes the mapping of its page away and leaves the
    others as they are. *)
Lemma destroy_page_maps va vm vm' :
  pt_wf vm → destroy_page va vm = Ret (0, vm') →
  ∃ p, get_pte va (cr3 vm) vm = Ret (Some p) ∧
       (∀ va' q w', mapped vm va' q w' → q ≠ p → mapped vm' va' q w') ∧
       (∀ va' q w', mapped vm' va' q w' → q ≠ p ∧ mapped vm va' q w').
Proof.
  intros Hwf. unfold destroy_page.
  destruct (decide (va `mod` PAGE_SIZE ≠ 0)); [discriminate|].
  destruct (decide (cr3 vm = 0)); [discriminate|].
  bind_split pte Hg. destruct pte as [p|]; [|discriminate].
  bind_split w Hr.
  destruct (PE_GETFLAG w PTE_PRESENT); cbn [negb]; [|discriminate].
  destruct (PE_GETFLAG w PTE_GLOBAL); [discriminate|].
  destruct (PE_GETFLAG w PTE_USER); cbn [negb]; [|discriminate].
  bind_split vm1 Hw.
  destruct (free_frame (PE_GETADDR w) (ft vm1)) as [[e t']| | |];
    cbn [mbind outcome_bind]; try discriminate.
  destruct (decide (e ≠ 0)); [discriminate|]. intros [= <-].
  exists p. split; [done|].
  destruct (write_resolved vm vm1 va p 0 Hwf Hg) as (_ & Hr0 & Hpres & _);
    [done | done |].
  pose proof Hg as (pde & Hpde & Hpp & Hpeq)%get_pte_Some.
  destruct (pt_wf_pde _ _ _ Hwf Hpde Hpp) as (Hncr3 & _).
  split.
  - intros va' q w' Hm Hne. apply (mapped_ext vm1); [done | done |].
    by apply Hpres.
  - intros va' q w' Hm. apply (mapped_ext _ vm1) in Hm; [|done|done].
    assert (q ≠ p) as Hne.
    { intros ->. destruct Hm as (_ & Hrq & Hpq). rewrite Hr0 in Hrq.
      injection Hrq as <-. done. }
    split; [done|]. eapply write_back; [|exact Hw|exact Hm|done].
    by subst p.
Qed.

(** [create_page] adds the mapping of its page and leaves the others
    as they are. *)
Lemma create_page_maps va type ref vm vm' :
  vm_wf vm → create_page va type ref vm = Ret (0, vm') →
  ∃ p, get_pte va (cr3 vm') vm' = Ret (Some p) ∧
       (∀ va' q w', mapped vm va' q w' → q ≠ p ∧ mapped vm' va' q w') ∧
       (∀ va' q w', mapped vm' va' q w' → q = p ∨ mapped vm va' q w').
Proof.
  intros Hvm Hcreate.
  destruct (create_page_ok va type ref vm vm' Hvm Hcreate)
    as (p & nf0 & _ & Hm & _ & Hpres & _ & Hcr & _).
  pose proof Hm as (Hgp & _).
  exists p. split; [done|]. split; [done|].
  revert Hcreate. destruct Hvm as [Hwf Hcnt]. unfold create_page.
  destruct (decide (va `mod` PAGE_SIZE ≠ 0)); [discriminate|].
  destruct (decide (va < USER_MEM_START)); [discriminate|].
  destruct (decide (ref ≠ 0 ∧ ref `mod` PAGE_SIZE ≠ 0)); [discriminate|].
  destruct (decide (ref ≠ 0 ∧ ref < USER_MEM_START)); [discriminate|].
  bind_split r Halloc. destruct r as [nf ft1].
  destruct (decide (type ≠ MEM_TYPE_BSS ∧ ref = 0 ∧ nf = 0)); [discriminate|].
  set (vm1 := set_ft vm ft1).
  assert (pt_wf vm1) as Hwf1 by done.
  change (cr3 vm1) with (cr3 vm).
  bind_split pte Hg. destruct pte as [pA|].
  - bind_split w0 Hr.
    destruct (PE_GETFLAG w0 PTE_PRESENT) eqn:Hp.
    { intros Hundo. by apply create_page_undo_nonzero in Hundo. }
    unfold create_page_entry. rewrite Hr. cbn [mbind outcome_bind].
    bind_split vm2 Hw. intros [= <-].
    destruct (map_in_table vm1 vm2 va pA w0 _ Hwf1 Hg Hr Hp
                (entry_word_present _ _ _ _ _) Hw) as (_ & (Hg2 & _) & _).
    assert (pA = p) as -> by congruence.
    pose proof Hg as (pde & Hpde & Hpp & Hpeq)%get_pte_Some.
    destruct (pt_wf_pde _ _ _ Hwf1 Hpde Hpp) as (Hncr3 & _).
    intros va' q w' Hq. destruct (decide (q = p)) as [|Hne]; [by left|].
    right. apply (mapped_ext vm1); [done | done |].
    eapply write_back; [|exact Hw|exact Hq|done]. by subst p.
  - unfold smemalign_page. change (kheap vm1) with (kheap vm).
    destruct (kheap vm) as [|pt rest] eqn:Hheap.
    { rewrite decide_True by done.
      intros Hundo. by apply create_page_undo_nonzero in Hundo. }
    destruct (decide (pt = 0)).
    { intros Hundo. by apply create_page_undo_nonzero in Hundo. }
    set (vm2 := set_ptmem (set_kheap vm1 rest)
                  (<[pt := zero_table]> (ptmem (set_kheap vm1 rest)))).
    bind_split d0 Hd0. bind_split vm3 Hwd.
    unfold create_page_entry.
    bind_split w0 Hr. bind_split vm4 Hw. intros [= <-].
    destruct (map_in_new_table vm1 va pt rest d0 _ vm3 vm4 Hwf1 Hg Hheap
                Hd0 Hwd (entry_word_present _ _ _ _ _) Hw)
      as (_ & (Hg4 & _) & _).
    assert (p = (pt, PTE_OFFSET va)) as -> by congruence.
    pose proof Hwf as (_ & _ & _ & Hhp). rewrite Hheap in Hhp.
    apply Forall_cons in Hhp as [(Hal & Hrg & Hptcr3) _].
    destruct (write_pe_fields _ _ _ _ Hwd) as (_ & Hcr3 & _).
    destruct (write_pe_fields _ _ _ _ Hw) as (_ & Hcr4 & _).
    change (cr3 vm2) with (cr3 vm) in *.
    assert (∀ q, q.1 ≠ pt → read_pe q vm2 = read_pe q vm) as H2.
    { intros q Hq. unfold read_pe, vm2. cbn [ptmem set_ptmem set_kheap set_ft vm1].
      by rewrite lookup_insert_ne. }
    assert (∀ o w1, read_pe (pt, o) vm2 = Ret w1 → w1 = 0) as Hzero.
    { intros o w1. unfold read_pe, vm2.
      cbn [ptmem set_ptmem set_kheap set_ft vm1 fst snd].
      rewrite lookup_insert_eq. cbn [deref mbind outcome_bind].
      intros (Ho & Hl)%deref_Ret%zlookup_Some.
      unfold zero_table in Hl. by apply lookup_replicate in Hl as [-> _]. }
    intros va' q w' Hq.
    destruct (decide (q = (pt, PTE_OFFSET va))) as [|Hne]; [by left|].
    right.
    assert (mapped vm3 va' q w') as (Hg3 & Hr3 & Hp3).
    { eapply write_back; [|exact Hw|exact Hq|done]. simpl. congruence. }
    rewrite Hcr3 in Hg3.
    apply get_pte_Some in Hg3 as (pde' & Hpde' & Hpp' & ->).
    unfold get_pde in Hwd.
    destruct (decide (PDE_OFFSET va' = PDE_OFFSET va)) as [Heq|Hdiff].
    + exfalso. rewrite Heq in Hpde'.
      rewrite (read_write_pe_eq _ _ _ _ Hwd) in Hpde'. injection Hpde' as <-.
      rewrite PE_GETADDR_SETADDR in Hr3 by done.
      rewrite (read_write_pe_ne _ _ _ _ _ Hwd) in Hr3
        by (intros [= Hx _]; done).
      apply Hzero in Hr3. subst w'. done.
    + rewrite (read_write_pe_ne _ _ _ _ _ Hwd) in Hpde'
        by (intros [= Hx]; done).
      rewrite H2 in Hpde' by done.
      destruct (pt_wf_pde _ _ _ Hwf Hpde' Hpp') as (Hn1 & Hn2 & _).
      rewrite Hheap in Hn2. apply not_elem_of_cons in Hn2 as [Hn2 _].
      rewrite (read_write_pe_ne _ _ _ _ _ Hwd) in Hr3
        by (intros [= Hx _]; done).
      rewrite H2 in Hr3 by done.
      split; [apply get_pte_Some; by exists pde'|]. done.
Qed.

(** The roll-back loop takes the mappings of its pages away and
    leaves the others as they are. *)
Lemma destroy_pages_maps F0 n :
  ∀ base i vm L vm',
    region_inv F0 vm L → L.*1.*1 = region_vas base i n →
    destroy_pages n base i vm = Ret vm' →
    (∀ va q w, mapped vm va q w → q ∉ L.*1.*2 → mapped vm' va q w) ∧
    (∀ va q w, mapped vm' va q w → (q ∉ L.*1.*2) ∧ mapped vm va q w).
Proof.
  induction n as [|n IH]; intros base i vm L vm' Hinv Hvas;
    cbn [destroy_pages].
  - simpl in Hvas. destruct L; [|discriminate]. intros [= <-]. split; [done|].
    intros va q w Hm. split; [apply not_elem_of_nil|done].
  - rewrite region_vas_S in Hvas.
    destruct L as [|[[va p] w] L]; [discriminate|].
    simpl in Hvas. injection Hvas as -> Hvas.
    destruct (region_inv_destroy _ _ _ _ _ _ Hinv)
      as (vm1 & Hd & Hinv1 & _).
    rewrite Hd. cbn [mbind outcome_bind].
    rewrite decide_False by (intros Hx; by apply Hx).
    intros Hrest.
    destruct (IH _ _ _ _ _ Hinv1 Hvas Hrest) as [Hfwd Hback].
    destruct (destroy_page_maps _ _ _ (proj1 Hinv) Hd)
      as (p' & Hgp & Hfwd1 & Hback1).
    assert (p' = p) as ->.
    { destruct Hinv as (_ & _ & _ & _ & Hall & _).
      apply Forall_cons in Hall as [(_ & (Hg & _) & _) _]. simpl in Hg.
      congruence. }
    split.
    + intros va' q w' Hm Hq. simpl in Hq.
      apply not_elem_of_cons in Hq as [Hqp Hq]. apply Hfwd; [|done].
      by apply Hfwd1.
    + intros va' q w' Hm. destruct (Hback _ _ _ Hm) as [Hq Hm1].
      destruct (Hback1 _ _ _ Hm1) as [Hqp Hm0].
      split; [|done]. simpl. by apply not_elem_of_cons.
Qed.

(** The loop of [_new_pages] when a page cannot be created: the
    pages mapped in [vm0], before the first page of the region was
    created, are the pages mapped in the end. *)
Lemma create_pages_failed_maps F0 vm0 n :
  ∀ base i vm L err vm',
    0 ≤ i → region_inv F0 vm L → L.*1.*1 = region_vas base 0 (Z.to_nat i) →
    (∀ va q w, mapped vm0 va q w → (q ∉ L.*1.*2) ∧ mapped vm va q w) →
    (∀ va q w, mapped vm va q w → (q ∈ L.*1.*2) ∨ mapped vm0 va q w) →
    create_pages n base i vm = Ret (err, vm') → err ≠ 0 →
    ∀ va q w, mapped vm' va q w ↔ mapped vm0 va q w.
Proof.
  induction n as [|n IH]; intros base i vm L err vm' Hi Hinv Hvas Hfwd Hback;
    cbn [create_pages].
  { intros [= <- _] Herr. done. }
  destruct (create_page _ MEM_TYPE_USER 0 vm) as [[e vm1]| | |] eqn:Hc;
    cbn [mbind outcome_bind]; try discriminate.
  destruct (decide (e ≠ 0)) as [He|He].
  - destruct (create_page_failed _ _ _ _ (proj1 (proj2 Hinv)) Hc He)
      as (Hpt & Hcr & _ & Hfd & _ & Hfr & Hk).
    pose proof (region_inv_transfer _ _ _ _ Hinv Hpt Hcr Hfr Hk) as Hinv1.
    destruct (destroy_pages (Z.to_nat i) base 0 vm1) as [vm2| | |] eqn:Hd;
      cbn [mbind outcome_bind]; try discriminate.
    intros [= <- <-] _.
    destruct (destroy_pages_maps _ _ _ _ _ _ _ Hinv1 Hvas Hd) as [Hf2 Hb2].
    intros va q w. split.
    + intros Hm. destruct (Hb2 _ _ _ Hm) as [Hq Hm1].
      apply (mapped_ext vm1 vm) in Hm1; [|done|done].
      destruct (Hback _ _ _ Hm1); done.
    + intros Hm. destruct (Hfwd _ _ _ Hm) as [Hq Hm1].
      apply Hf2; [|done]. by apply (mapped_ext vm).
  - assert (e = 0) as -> by (destruct (decide (e = 0)); [done|contradiction]).
    destruct (region_inv_create _ _ _ _ _ Hinv Hc)
      as (p & w & Hinv1 & Hc1 & _ & Hd1 & _).
    destruct (create_page_maps _ _ _ _ _
                (conj (proj1 Hinv) (proj1 (proj2 Hinv))) Hc)
      as (p' & Hgp & Hf1 & Hb1).
    assert (p' = p) as ->.
    { destruct Hinv1 as (_ & _ & _ & _ & Hall & _).
      apply Forall_app in Hall as [_ Hall].
      apply Forall_singleton in Hall as (_ & (Hg & _) & _). simpl in Hg.
      congruence. }
    intros Hrest Herr.
    apply (IH base (i + 1) vm1 (L ++ [(u32 (base + i * PAGE_SIZE), p, w)])
             err vm'); [lia | done | | | | done | done].
    + replace (Z.to_nat (i + 1)) with (S (Z.to_nat i)) by lia.
      rewrite region_vas_snoc, !fmap_app, Hvas. simpl.
      by rewrite Z2Nat.id by lia.
    + intros va q w' Hm. destruct (Hfwd _ _ _ Hm) as [Hq Hm1].
      destruct (Hf1 _ _ _ Hm1) as [Hqp Hm2]. split; [|done].
      rewrite !fmap_app. simpl. intros [?|Hin]%elem_of_app; [done|].
      by apply list_elem_of_singleton in Hin.
    + intros va q w' Hm. rewrite !fmap_app. simpl.
      destruct (Hb1 _ _ _ Hm) as [->|Hm1].
      * left. apply elem_of_app. right. by left.
      * destruct (Hback _ _ _ Hm1) as [Hq|Hm0]; [|by right].
        left. apply elem_of_app. by left.
Qed.

(** X11.  [new_pages] when it fails.  Whatever error the call
    returns (a bad argument block, base or length, a table of regions
    that is worn out, no frame or no page table for one of the pages,
    a page that is already mapped), the table of regions and its
    cursor, every counter of the frame table, the contents of the
    frames and the page directory in use are what they were, the
    page tables are well formed, and the pages that are mapped are
    those that were mapped, through the same entries and with the
    same words: the pages the call had created before the failing
    one have been destroyed again.  (A page table that the call
    allocated for such a page stays in the directory, with its
    entries cleared, the kernel heap has handed out its page, and the
    hint of the frame table may have moved.) *)
Theorem new_pages_failure args base len p vm err p' vm' :
  vm_wf vm →
  _new_pages args base len (Some p) vm = Ret (err, p', vm') → err ≠ 0 →
  p' = Some p ∧ frames (ft vm') = frames (ft vm) ∧
  framedata vm' = framedata vm ∧ cr3 vm' = cr3 vm ∧ pt_wf vm' ∧
  ∀ va q w, mapped vm' va q w ↔ mapped vm va q w.
Proof.
  intros Hvm. pose proof Hvm as [Hwf Hcnt]. unfold _new_pages.
  bind_split ok Hok. destruct ok; cbn [negb]; [|by intros [= <- <- <-] _].
  destruct (decide (base `mod` PAGE_SIZE ≠ 0)); [by intros [= <- <- <-] _|].
  destruct (decide _); [by intros [= <- <- <-] _|].
  destruct (decide (next_memregion_idx p = -1)); [by intros [= <- <- <-] _|].
  bind_split r Hcreate. destruct r as [e vmA].
  destruct (decide (e ≠ 0)) as [He|He].
  - intros [= <- <- <-] _.
    destruct (create_pages_failed (frames (ft vm))
                (Z.to_nat (len / PAGE_SIZE)) base 0 vm [] e vmA)
      as (Hinv & Hcr & Hfd); [done | by apply region_inv_init | done | done | done |].
    split; [done|]. split; [by apply region_inv_nil|].
    split; [done|]. split; [done|]. split; [apply Hinv|].
    apply (create_pages_failed_maps (frames (ft vm)) vm
             (Z.to_nat (len / PAGE_SIZE)) base 0 vm [] e vmA);
      [done | by apply region_inv_init | done | | | done | done].
    + intros va q w Hm. split; [apply not_elem_of_nil|done].
    + intros va q w Hm. by right.
  - bind_split vmB Hzero. bind_split r0 Hr0. bind_split nextid Hnext.
    intros [= <- _ _] Herr. done.
Qed.
End NewPagesFailure.

Lemma new_pages_failure_witness :
  ∃ vm',
    @_new_pages pebbles 0x20000000 0x1ffff000 8192 (Some proc_fresh) vm_user =
      Ret (ERR_PAGE_ALREADY_PRESENT, Some proc_fresh, vm') ∧
    frames (ft vm') = [1; 0; 0; 0] ∧ framedata vm' = ∅ ∧
    (∀ q w, ¬ mapped vm' 0x1ffff000 q w) ∧
    mapped vm' 0x20000000 (0x102000, 0) 0x01000007.
Proof.
  assert (∃ vm', @_new_pages pebbles 0x20000000 0x1ffff000 8192
                   (Some proc_fresh) vm_user =
                 Ret (ERR_PAGE_ALREADY_PRESENT, Some proc_fresh, vm'))
    as [vm' Hrun] by (eexists; vm_compute; reflexivity).
  destruct (@new_pages_failure pebbles 0x20000000 0x1ffff000 8192 proc_fresh
              vm_user ERR_PAGE_ALREADY_PRESENT (Some proc_fresh) vm')
    as (_ & Hfr & Hfd & _ & _ & Hmaps).
  - apply (bool_decide_unpack _). vm_compute. exact I.
  - exact Hrun.
  - discriminate.
  - exists vm'. split; [exact Hrun|]. split; [exact Hfr|]. split; [exact Hfd|].
    split.
    + intros q w Hm. apply Hmaps in Hm. destruct Hm as (Hg & _).
      vm_compute in Hg. discriminate.
    + apply Hmaps. repeat split; vm_compute; reflexivity.
Defined.

(** * Lists of threads: adding, removing, finding, destroying *)

Lemma in_list_refused k a t :
  tcbs k !! a = Some t → thr_list t ≠ None →
  ∀ r fuel,
    thrlist_add_head (Some a) (Some r) k = Ret (ERR_THR_IN_LIST, k) ∧
    thrlist_add_tail (Some a) (Some r) k = Ret (ERR_THR_IN_LIST, k) ∧
    thrlist_add_sorted fuel (Some a) (Some r) k = Ret (ERR_THR_IN_LIST, k).
Proof.
  intros Ha Hr r fuel.
  unfold thrlist_add_head, thrlist_add_tail, thrlist_add_sorted.
  rewrite (load_thread_Ret _ _ _ Ha). cbn [mbind outcome_bind].
  by rewrite !decide_True by done.
Qed.

Lemma is_thrlist_member k r L l a :
  is_thrlist k r L l → a ∈ l → ∃ t, tcbs k !! a = Some t ∧ thr_list t = Some r.
Proof.
  intros (_ & _ & _ & _ & Hseg) Hin. by eapply dll_seg_elem.
Qed.

(** X12.  A list of threads behaves as a double-ended queue of
    distinct threads.  On a well-linked list that holds the threads
    [l], for a thread that is in no list: [thrlist_add_head] puts it
    before the others and [thrlist_add_tail] behind them; while it is
    in the list, every further [thrlist_add_head], [thrlist_add_tail]
    or [thrlist_add_sorted] of it, to this or another list, is refused
    with [ERR_THR_IN_LIST] and changes nothing; and [thrlist_remove]
    takes it out again, leaving the list with the threads [l] in their
    order and the thread in no list. *)
Theorem thrlist_add_remove k r L l a t :
  load_list r k = Ret L → is_thrlist k r L l →
  tcbs k !! a = Some t → thr_list t = None →
  Z.of_nat (length l) + 1 < 4294967296 →
  ∀ at_head : bool,
    let add := if at_head then thrlist_add_head else thrlist_add_tail in
    ∃ k1 L1 k2 L2 t2,
      add (Some a) (Some r) k = Ret (0, k1) ∧
      load_list r k1 = Ret L1 ∧
      is_thrlist k1 r L1 (if at_head then a :: l else l ++ [a]) ∧
      (∀ r' fuel,
         thrlist_add_head (Some a) (Some r') k1 = Ret (ERR_THR_IN_LIST, k1) ∧
         thrlist_add_tail (Some a) (Some r') k1 = Ret (ERR_THR_IN_LIST, k1) ∧
         thrlist_add_sorted fuel (Some a) (Some r') k1 =
           Ret (ERR_THR_IN_LIST, k1)) ∧
      thrlist_remove (Some a) k1 = Ret (0, k2) ∧
      load_list r k2 = Ret L2 ∧ is_thrlist k2 r L2 l ∧
      tcbs k2 !! a = Some t2 ∧ thr_list t2 = None.
Proof.
  intros HL Hlist Ha Hr Hlen at_head add.
  assert (∃ k1 L1 l1 l2,
    add (Some a) (Some r) k = Ret (0, k1) ∧ load_list r k1 = Ret L1 ∧
    (if at_head then a :: l else l ++ [a]) = l1 ++ a :: l2 ∧ l = l1 ++ l2 ∧
    is_thrlist k1 r L1 (l1 ++ a :: l2))
    as (k1 & L1 & l1 & l2 & Hadd & HL1 & Hshape & Hl & Hlist1).
  { destruct at_head; unfold add.
    - destruct (thrlist_add_head_spec k r L l a t HL Hlist Ha Hr Hlen)
        as (k1 & L1 & t1 & Hadd & HL1 & Hlist1 & _).
      by exists k1, L1, [], l.
    - destruct (thrlist_add_tail_spec k r L l a t HL Hlist Ha Hr Hlen)
        as (k1 & L1 & t1 & Hadd & HL1 & Hlist1 & _).
      exists k1, L1, l, []. by rewrite app_nil_r. }
  destruct (is_thrlist_member k1 r L1 _ a Hlist1) as (t1 & Ha1 & Hr1).
  { apply elem_of_app. right. by left. }
  destruct (thrlist_remove_spec k1 r L1 l1 a l2 HL1 Hlist1)
    as (k2 & L2 & t2 & Hrem & HL2 & Hlist2 & Ha2 & Hr2 & _).
  exists k1, L1, k2, L2, t2. rewrite Hshape.
  split; [done|]. split; [done|]. split; [done|]. split.
  { apply (in_list_refused k1 a t1 Ha1). by rewrite Hr1. }
  rewrite Hl. split; [done|]. split; [done|]. split; [done|]. by split.
Qed.

(** ** [thrlist_find] *)

Lemma dll_seg_cons_inv m r p a l n :
  dll_seg m r p (a :: l) n →
  ∃ t, m !! a = Some t ∧ thr_list t = Some r ∧ prev t = p ∧
       next t = hd_or l n ∧ dll_seg m r (Some a) l n.
Proof.
  cbn [dll_seg]. destruct (m !! a) as [t|]; [|done].
  intros (? & ? & ? & ?). by exists t.
Qed.

Lemma find_scan_spec k r id l1 b l2 p fuel tb :
  dll_seg (tcbs k) r p (l1 ++ b :: l2) None →
  Forall (λ c, (tid <$> tcbs k !! c) ≠ Some id) l1 →
  tcbs k !! b = Some tb → tid tb = id →
  (length l1 ≤ fuel)%nat →
  find_scan fuel (hd_or (l1 ++ b :: l2) None) id k = Ret (Some b).
Proof.
  revert p fuel. induction l1 as [|c l1 IH]; intros p fuel Hseg Hne Hb Hid Hfuel.
  - simpl. destruct fuel; cbn [find_scan];
      rewrite (load_thread_Ret _ _ _ Hb); cbn [mbind outcome_bind];
      by rewrite decide_False by (intros Hx; by apply Hx).
  - apply Forall_cons in Hne as [Hc Hne].
    rewrite <- app_comm_cons in Hseg. apply dll_seg_cons_inv in Hseg.
    destruct Hseg as (tc & Htc & _ & _ & Hn & Hseg).
    destruct fuel as [|fuel]; [simpl in Hfuel; lia|].
    simpl. rewrite (load_thread_Ret _ _ _ Htc). cbn [mbind outcome_bind].
    rewrite Htc in Hc. simpl in Hc.
    rewrite decide_True by congruence. rewrite Hn.
    eapply IH; try done. simpl in Hfuel. lia.
Qed.

Lemma find_scan_none k r id l p fuel :
  dll_seg (tcbs k) r p l None →
  Forall (λ c, (tid <$> tcbs k !! c) ≠ Some id) l →
  (length l ≤ fuel)%nat →
  find_scan fuel (hd_or l None) id k = Ret None.
Proof.
  revert p fuel. induction l as [|c l IH]; intros p fuel Hseg Hne Hfuel.
  - by destruct fuel.
  - apply Forall_cons in Hne as [Hc Hne]. apply dll_seg_cons_inv in Hseg.
    destruct Hseg as (tc & Htc & _ & _ & Hn & Hseg).
    destruct fuel as [|fuel]; [simpl in Hfuel; lia|].
    simpl. rewrite (load_thread_Ret _ _ _ Htc). cbn [mbind outcome_bind].
    rewrite Htc in Hc. simpl in Hc.
    rewrite decide_True by congruence. rewrite Hn.
    eapply IH; try done. simpl in Hfuel. lia.
Qed.

(** X13.  [thrlist_find] on a well-linked list returns the first
    thread of the list, from the head on, whose [tid] is the one asked
    for, and [NULL] when the list holds no such thread, as it does for
    a [NULL] list. *)
Theorem thrlist_find_first k r L l id fuel :
  load_list r k = Ret L → is_thrlist k r L l → (length l ≤ fuel)%nat →
  (Forall (λ c, (tid <$> tcbs k !! c) ≠ Some id) l →
     thrlist_find fuel id (Some r) k = Ret None) ∧
  (∀ l1 b l2, l = l1 ++ b :: l2 →
     Forall (λ c, (tid <$> tcbs k !! c) ≠ Some id) l1 →
     (tid <$> tcbs k !! b) = Some id →
     thrlist_find fuel id (Some r) k = Ret (Some b)) ∧
  thrlist_find fuel id None k = Ret None.
Proof.
  intros HL (Hnd & Hsz & Hh & Htl & Hseg) Hfuel.
  unfold thrlist_find. rewrite HL. cbn [mbind outcome_bind]. rewrite Hh.
  split; [|split; [|done]].
  - intros Hne. by eapply find_scan_none.
  - intros l1 b l2 -> Hne Hb.
    destruct (tcbs k !! b) as [tb|] eqn:Htb; [|done].
    injection Hb as Hb.
    eapply find_scan_spec; try done.
    rewrite length_app in Hfuel. lia.
Qed.

(** ** [thrlist_destroy] *)

Lemma thrlist_destroy_spec k r l fuel :
  ∀ L, load_list r k = Ret L → is_thrlist k r L l → (length l ≤ fuel)%nat →
  ∃ k' L',
    thrlist_destroy fuel (Some r) k = Ret (0, k') ∧
    load_list r k' = Ret L' ∧ is_thrlist k' r L' [] ∧
    (∀ b, b ∈ l → ∃ t, tcbs k' !! b = Some t ∧ thr_list t = None) ∧
    (∀ b t, tcbs k !! b = Some t → thr_list t ≠ Some r → tcbs k' !! b = Some t) ∧
    (∀ r2, r2 ≠ r → load_list r2 k' = load_list r2 k).
Proof.
  revert k fuel. induction l as [|a l IH]; intros k fuel L HL Hlist Hfuel.
  - pose proof Hlist as (_ & [Hsz _] & _).
    exists k, L. split.
    { destruct fuel; cbn [thrlist_destroy]; rewrite HL; cbn [mbind outcome_bind];
        by rewrite decide_False by (simpl in Hsz; lia). }
    split; [done|]. split; [done|]. split; [|done].
    intros b Hb. by apply elem_of_nil in Hb.
  - destruct fuel as [|fuel]; [simpl in Hfuel; lia|].
    pose proof Hlist as (Hnd & [Hsz _] & Hh & _).
    destruct (thrlist_remove_spec k r L [] a l HL Hlist)
      as (k1 & L1 & t1 & Hrem & HL1 & Hlist1 & Ha1 & Hr1 & _ & Hf).
    destruct (IH k1 fuel L1 HL1 Hlist1) as (k' & L' & Hd & HL' & Hlist' & Hout & Hold & Hoth).
    { simpl in Hfuel. lia. }
    exists k', L'. split.
    { cbn [thrlist_destroy]. rewrite HL. cbn [mbind outcome_bind].
      rewrite decide_True by (simpl in Hsz; lia).
      rewrite Hh. simpl hd_or. rewrite Hrem. cbn [mbind outcome_bind]. done. }
    split; [done|]. split; [done|].
    destruct Hf as (_ & Hl2 & _ & Ht).
    split; [|split].
    + intros b [->|Hb]%elem_of_cons; [|by apply Hout].
      exists t1. split; [|done]. apply Hold; [done|]. by rewrite Hr1.
    + intros b t Hb Hr. apply Hold; [|done].
      apply Ht; [|done|done]. intros ->.
      destruct (is_thrlist_member k r L (a :: l) a Hlist) as (ta & Hta & Hra);
        [by left|]. congruence.
    + intros r2 Hr2. rewrite Hoth by done. by apply Hl2.
Qed.

(** X14.  [thrlist_destroy] empties a well-linked list: it returns 0,
    the list is left with size 0 and no head and no tail, every thread
    it held is in no list, and the threads of other lists and the other
    lists are untouched. *)
Theorem thrlist_destroy_empties k r L l fuel :
  load_list r k = Ret L → is_thrlist k r L l → (length l ≤ fuel)%nat →
  ∃ k',
    thrlist_destroy fuel (Some r) k = Ret (0, k') ∧
    load_list r k' = Ret {| head := None; tail := None; size := 0 |} ∧
    (∀ b, b ∈ l → ∃ t, tcbs k' !! b = Some t ∧ thr_list t = None) ∧
    (∀ b t, tcbs k !! b = Some t → thr_list t ≠ Some r → tcbs k' !! b = Some t) ∧
    (∀ r2, r2 ≠ r → load_list r2 k' = load_list r2 k).
Proof.
  intros HL Hlist Hfuel.
  destruct (thrlist_destroy_spec k r l fuel L HL Hlist Hfuel)
    as (k' & L' & Hd & HL' & (_ & [Hsz _] & Hh & Htl & _) & Hrest).
  exists k'. split; [done|]. split; [|done].
  rewrite HL'. destruct L' as [h tl sz]. simpl in *. by subst.
Qed.

Lemma thrlist_add_remove_witness :
  ∃ k1 k2,
    thrlist_add_head (Some 4%nat) (Some L_sleeping) kernel_sleepers = Ret (0, k1) ∧
    is_thrlist k1 L_sleeping (sleeping k1) [4; 2; 3]%nat ∧
    thrlist_add_tail (Some 4%nat) (Some L_running) k1 = Ret (ERR_THR_IN_LIST, k1) ∧
    thrlist_remove (Some 4%nat) k1 = Ret (0, k2) ∧
    is_thrlist k2 L_sleeping (sleeping k2) [2; 3]%nat.
Proof.
  destruct (thrlist_add_remove kernel_sleepers L_sleeping
              (sleeping kernel_sleepers) [2; 3]%nat 4%nat
              (with_list (example_thread 35 THR_BLOCKED L_running None None 12) None))
    with (at_head := true)
    as (k1 & L1 & k2 & L2 & t2 & Hadd & HL1 & Hl1 & Href & Hrem & HL2 & Hl2 & _).
  - reflexivity.
  - apply (bool_decide_unpack _). vm_compute. exact I.
  - reflexivity.
  - reflexivity.
  - simpl. lia.
  - simpl in HL1, HL2. injection HL1 as <-. injection HL2 as <-.
    exists k1, k2. split; [exact Hadd|]. split; [exact Hl1|].
    split; [exact (proj1 (proj2 (Href L_running O)))|].
    split; [exact Hrem | exact Hl2].
Defined.

Lemma thrlist_find_first_witness :
  thrlist_find 5 34 (Some L_sleeping) kernel_sleepers = Ret (Some 3%nat) ∧
  thrlist_find 5 99 (Some L_sleeping) kernel_sleepers = Ret None.
Proof.
  assert (is_thrlist kernel_sleepers L_sleeping (sleeping kernel_sleepers)
            [2; 3]%nat) as Hlist
    by (apply (bool_decide_unpack _); vm_compute; exact I).
  split.
  - destruct (thrlist_find_first kernel_sleepers L_sleeping
                (sleeping kernel_sleepers) [2; 3]%nat 34 5 eq_refl Hlist)
      as (_ & Hfound & _); [simpl; lia|].
    apply (Hfound [2%nat] 3%nat []).
    + reflexivity.
    + apply (bool_decide_unpack _). vm_compute. exact I.
    + reflexivity.
  - destruct (thrlist_find_first kernel_sleepers L_sleeping
                (sleeping kernel_sleepers) [2; 3]%nat 99 5 eq_refl Hlist)
      as (Hnone & _); [simpl; lia|].
    apply Hnone. apply (bool_decide_unpack _). vm_compute. exact I.
Defined.

Lemma thrlist_destroy_empties_witness :
  ∃ k',
    thrlist_destroy 5 (Some L_sleeping) kernel_sleepers = Ret (0, k') ∧
    sleeping k' = {| head := None; tail := None; size := 0 |} ∧
    running k' = running kernel_sleepers ∧
    (∀ b, b ∈ [2; 3]%nat → ∃ t, tcbs k' !! b = Some t ∧ thr_list t = None).
Proof.
  destruct (thrlist_destroy_empties kernel_sleepers L_sleeping
              (sleeping kernel_sleepers) [2; 3]%nat 5)
    as (k' & Hd & HL & Hout & _ & Hoth).
  - reflexivity.
  - apply (bool_decide_unpack _). vm_compute. exact I.
  - simpl. lia.
  - exists k'. split; [exact Hd|].
    simpl in HL. injection HL as HL.
    specialize (Hoth L_running ltac:(discriminate)). simpl in Hoth.
    injection Hoth as Hoth.
    split; [exact HL|]. split; [exact Hoth | exact Hout].
Defined.

(** * The scheduler: what a change of state leaves alone *)

Lemma same_globals_refl k : same_globals k k.
Proof. by repeat split. Qed.

Lemma sched_frame_refl P k : sched_frame P k k.
Proof. split; [apply same_globals_refl|]. by repeat split. Qed.

Lemma sched_frame_trans P k1 k2 k3 :
  sched_frame P k1 k2 → sched_frame P k2 k3 → sched_frame P k1 k3.
Proof.
  intros ((? & ? & ? & ? & ?) & Hi1 & Hs1 & Hp1)
         ((? & ? & ? & ? & ?) & Hi2 & Hs2 & Hp2).
  split; [repeat split; congruence|]. split; [|split].
  - intros b. by rewrite Hi2, Hi1.
  - intros b Hb. by rewrite Hs2, Hs1.
  - intros p. by rewrite Hp2, Hp1.
Qed.

Lemma sched_frame_mono (P Q : nat → Prop) k k' :
  (∀ b, P b → Q b) → sched_frame P k k' → sched_frame Q k k'.
Proof.
  intros HPQ (Hg & Hi & Hs & Hp). split; [done|]. split; [done|].
  split; [|done]. intros b Hb. apply Hs. intros HP. by apply Hb, HPQ.
Qed.

Lemma thread_set_sched_frame P c f k k' :
  thread_set c f k = Ret k' →
  (∀ t, thread_ident (f t) = thread_ident t) →
  (P c ∨ ∀ t, state (f t) = state t) →
  sched_frame P k k'.
Proof.
  unfold thread_set, load_thread.
  destruct (tcbs k !! c) as [t|] eqn:Hc; [|discriminate].
  cbn [mbind outcome_bind deref]. intros [= <-] Hid Hst.
  split; [by repeat split|]. split; [|split; [|done]].
  - intros b. simpl. destruct (decide (c = b)) as [<-|].
    + rewrite lookup_insert_eq, Hc. simpl. by rewrite Hid.
    + by rewrite lookup_insert_ne.
  - intros b Hb. unfold state_of. simpl.
    destruct (decide (c = b)) as [<-|]; [|by rewrite lookup_insert_ne].
    rewrite lookup_insert_eq, Hc. simpl.
    destruct Hst as [HP|Hst]; [done|]. by rewrite Hst.
Qed.

Lemma list_set_sched_frame P r f k k' :
  list_set r f k = Ret k' → sched_frame P k k'.
Proof.
  destruct r as [| |p]; simpl.
  - intros [= <-]. by repeat split.
  - intros [= <-]. by repeat split.
  - destruct (pcbs k !! p) as [pr|] eqn:Hp; [|discriminate]. simpl.
    intros [= <-]. split; [by repeat split|]. split; [done|]. split; [done|].
    intros q. simpl. destruct (decide (p = q)) as [<-|].
    + rewrite lookup_insert_eq, Hp. split; by eexists.
    + by rewrite lookup_insert_ne.
Qed.

(** Chains the frames of the assignments a list operation consists of. *)
Ltac sched_frame_chain P :=
  repeat first
    [ apply sched_frame_refl
    | match goal with
      | H : thread_set ?c ?f ?k = Ret ?k' |- sched_frame _ ?k _ =>
          apply (sched_frame_trans P k k');
          [ apply (thread_set_sched_frame P c f k k' H);
            [ done | first [ by right | by left ] ]
          | clear H ]
      | H : list_set ?r ?f ?k = Ret ?k' |- sched_frame _ ?k _ =>
          apply (sched_frame_trans P k k');
          [ apply (list_set_sched_frame P r f k k' H) | clear H ]
      end ].

Lemma thrlist_remove_sched_frame P b k e k' :
  thrlist_remove (Some b) k = Ret (e, k') → sched_frame P k k'.
Proof.
  unfold thrlist_remove. bind_split t Ht.
  destruct (thr_list t) as [r|]; [|intros [= _ <-]; apply sched_frame_refl].
  bind_split k1 H1. bind_split t1 Ht1. bind_split r1 Hr1.
  bind_split k2 H2. bind_split t2 Ht2. bind_split r2 Hr2.
  bind_split k3 H3. bind_split k4 H4. bind_split k5 H5. bind_split k6 H6.
  intros [= _ <-].
  destruct (prev t), (next t1); sched_frame_chain P.
Qed.

Lemma thrlist_add_tail_sched_frame P b r k e k' :
  thrlist_add_tail (Some b) (Some r) k = Ret (e, k') → sched_frame P k k'.
Proof.
  unfold thrlist_add_tail. bind_split t Ht.
  destruct (decide _); [intros [= _ <-]; apply sched_frame_refl|].
  bind_split L HL. bind_split k1 H1. bind_split k2 H2. bind_split k3 H3.
  bind_split k4 H4. bind_split k5 H5. bind_split k6 H6. intros [= _ <-].
  destruct (decide (size L > 0)).
  - revert H3. bind_split tl Htl. intros H3. sched_frame_chain P.
  - sched_frame_chain P.
Qed.

Lemma thrlist_add_head_sched_frame P b r k e k' :
  thrlist_add_head (Some b) (Some r) k = Ret (e, k') → sched_frame P k k'.
Proof.
  unfold thrlist_add_head. bind_split t Ht.
  destruct (decide _); [intros [= _ <-]; apply sched_frame_refl|].
  bind_split L HL. bind_split k1 H1. bind_split k2 H2. bind_split k3 H3.
  bind_split k4 H4. bind_split k5 H5. bind_split k6 H6. intros [= _ <-].
  destruct (decide (size L > 0)).
  - revert H3. bind_split h Hh. intros H3. sched_frame_chain P.
  - sched_frame_chain P.
Qed.

Lemma unset_state_sched_frame (P : nat → Prop) a k e k' :
  P a → unset_state (Some a) k = Ret (e, k') → sched_frame P k k'.
Proof.
  intros HP. unfold unset_state. bind_split r Hrem. destruct r as [err k1].
  apply (thrlist_remove_sched_frame P) in Hrem.
  destruct (decide (err >= 0)).
  - bind_split k2 H2. intros [= _ <-].
    eapply sched_frame_trans; [done|]. sched_frame_chain P.
  - by intros [= _ <-].
Qed.

Lemma set_runnable_sched_frame (P : nat → Prop) a k e k' :
  P a → set_runnable (Some a) k = Ret (e, k') → sched_frame P k k'.
Proof.
  intros HP. unfold set_runnable. bind_split r Hun. destruct r as [err k1].
  apply (unset_state_sched_frame P a _ _ _ HP) in Hun.
  destruct (decide (err < 0)); [by intros [= _ <-]|].
  bind_split k2 H2. intros Hadd%(thrlist_add_tail_sched_frame P).
  eapply sched_frame_trans; [done|].
  eapply sched_frame_trans; [|done]. sched_frame_chain P.
Qed.

Lemma sched_frame_state k k' b :
  sched_frame (λ _, False) k k' → state_of k' b = state_of k b.
Proof. intros (_ & _ & Hs & _). apply Hs. tauto. Qed.

(** * The scheduler: moving a thread between the queues *)

Lemma sched_wf_insert_notin k lr ls a x :
  sched_wf k lr ls → a ∉ lr → a ∉ ls →
  sched_wf (with_tcbs k (<[a := x]> (tcbs k))) lr ls.
Proof.
  intros (Hr & Hs & Hsort) Har Has.
  split; [by apply is_thrlist_insert_notin|].
  split; [by apply is_thrlist_insert_notin|].
  eapply sorted_by_wake_ext; [|done]. intros b Hb.
  unfold wake_of. simpl. rewrite lookup_insert_ne; [done|]. by intros ->.
Qed.

Lemma lists_disjoint k r1 L1 l1 r2 L2 l2 a :
  is_thrlist k r1 L1 l1 → is_thrlist k r2 L2 l2 → r1 ≠ r2 →
  a ∈ l1 → a ∉ l2.
Proof.
  intros H1 H2 Hne Ha1 Ha2.
  destruct (is_thrlist_member _ _ _ _ _ H1 Ha1) as (t1 & Ht1 & Hr1).
  destruct (is_thrlist_member _ _ _ _ _ H2 Ha2) as (t2 & Ht2 & Hr2).
  congruence.
Qed.

Lemma filter_ne_not_in (a : nat) (l : list nat) : a ∉ filter (λ b, b ≠ a) l.
Proof. by intros [Hne _]%list_elem_of_filter. Qed.

Lemma thrlist_remove_sched k lr ls a :
  sched_wf k lr ls → a ∈ lr ∨ a ∈ ls →
  ∃ k1 t1,
    thrlist_remove (Some a) k = Ret (0, k1) ∧
    sched_wf k1 (filter (λ b, b ≠ a) lr) (filter (λ b, b ≠ a) ls) ∧
    tcbs k1 !! a = Some t1 ∧ thr_list t1 = None.
Proof.
  intros (Hr & Hs & Hsort) [Hin|Hin].
  - pose proof (lists_disjoint _ _ _ _ _ _ _ a Hr Hs ltac:(done) Hin) as Has.
    apply list_elem_of_split in Hin as (l1 & l2 & ->).
    destruct (thrlist_remove_spec k L_running (running k) l1 a l2 eq_refl Hr)
      as (k1 & L1 & t1 & Hrem & HL1 & Hl1 & Ha1 & Hr1 & _ & Hf).
    simpl in HL1. injection HL1 as <-.
    pose proof Hf as (_ & Hoth & _).
    specialize (Hoth L_sleeping ltac:(done)). simpl in Hoth. injection Hoth as Hsl.
    exists k1, t1. split; [done|]. split; [|done].
    pose proof Hr as (Hnd & _).
    unfold sched_wf.
    rewrite (filter_ne_split _ _ _ Hnd), (filter_ne_notin _ _ Has), Hsl.
    split; [done|].
    split; [by eapply (is_thrlist_frame L_running a k k1)|].
    by eapply sorted_by_wake_frame.
  - pose proof (lists_disjoint _ _ _ _ _ _ _ a Hs Hr ltac:(done) Hin) as Har.
    apply list_elem_of_split in Hin as (l1 & l2 & ->).
    destruct (thrlist_remove_spec k L_sleeping (sleeping k) l1 a l2 eq_refl Hs)
      as (k1 & L1 & t1 & Hrem & HL1 & Hl1 & Ha1 & Hr1 & _ & Hf).
    simpl in HL1. injection HL1 as <-.
    pose proof Hf as (_ & Hoth & Hw & _).
    specialize (Hoth L_running ltac:(done)). simpl in Hoth. injection Hoth as Hrl.
    exists k1, t1. split; [done|]. split; [|done].
    pose proof Hs as (Hnd & _).
    unfold sched_wf.
    rewrite (filter_ne_split _ _ _ Hnd), (filter_ne_notin _ _ Har), Hrl.
    split; [by eapply (is_thrlist_frame L_sleeping a k k1)|].
    split; [done|].
    eapply sorted_by_wake_ext; [|by eapply sorted_by_wake_remove].
    intros b Hb. apply Hw. intros ->.
    apply NoDup_app in Hnd as (_ & Hdisj & [Ha2 _]%NoDup_cons).
    apply elem_of_app in Hb as [Hb|Hb]; [|done].
    apply (Hdisj a Hb). by left.
Qed.

Lemma unset_state_sched k lr ls a :
  sched_wf k lr ls → sched_placed k a lr ls →
  ∃ err k1 t1,
    unset_state (Some a) k = Ret (err, k1) ∧ 0 ≤ err ∧
    sched_wf k1 (filter (λ b, b ≠ a) lr) (filter (λ b, b ≠ a) ls) ∧
    tcbs k1 !! a = Some t1 ∧ thr_list t1 = None ∧ state t1 = THR_ZOMBIE.
Proof.
  intros Hwf Hpl. unfold unset_state.
  assert (∃ err k0 t0,
    thrlist_remove (Some a) k = Ret (err, k0) ∧ 0 ≤ err ∧
    sched_wf k0 (filter (λ b, b ≠ a) lr) (filter (λ b, b ≠ a) ls) ∧
    tcbs k0 !! a = Some t0 ∧ thr_list t0 = None)
    as (err & k0 & t0 & Hrem & Herr & Hwf0 & Ha0 & Hr0).
  { destruct Hpl as [Hin|[Hin|Hno]].
    - destruct (thrlist_remove_sched k lr ls a Hwf (or_introl Hin))
        as (k0 & t0 & ? & ? & ? & ?). by exists 0, k0, t0.
    - destruct (thrlist_remove_sched k lr ls a Hwf (or_intror Hin))
        as (k0 & t0 & ? & ? & ? & ?). by exists 0, k0, t0.
    - destruct (tcbs k !! a) as [t|] eqn:Ha; [|done]. injection Hno as Hno.
      destruct Hwf as (Hr & Hs & Hsort).
      pose proof (is_thrlist_fresh _ _ _ _ _ _ Hr Ha Hno) as Har.
      pose proof (is_thrlist_fresh _ _ _ _ _ _ Hs Ha Hno) as Has.
      exists 1, k, t. unfold thrlist_remove.
      rewrite (load_thread_Ret _ _ _ Ha). cbn [mbind outcome_bind].
      rewrite Hno. rewrite !filter_ne_notin by done.
      split; [reflexivity|]. split; [lia|]. split; [by split|]. by split. }
  rewrite Hrem. cbn [mbind outcome_bind]. rewrite decide_True by lia.
  rewrite (thread_set_Ret k0 a (λ t, with_state t THR_ZOMBIE) t0 Ha0).
  cbn [mbind outcome_bind].
  eexists err, _, _. split; [done|]. split; [done|].
  split; [apply sched_wf_insert_notin; [done|apply filter_ne_not_in..]|].
  split; [apply lookup_insert_eq|]. done.
Qed.

Lemma length_filter_le {A} (P : A → Prop) `{∀ x, Decision (P x)} (l : list A) :
  (length (filter P l) ≤ length l)%nat.
Proof.
  induction l as [|x l IH]; [done|].
  rewrite filter_cons. destruct (decide (P x)); simpl; lia.
Qed.

(** [set_runnable] moves the thread to the end of the run queue. *)
Lemma set_runnable_sched k lr ls a :
  sched_wf k lr ls → sched_placed k a lr ls →
  Z.of_nat (length lr) + 1 < 4294967296 →
  ∃ k',
    set_runnable (Some a) k = Ret (0, k') ∧
    sched_wf k' (filter (λ b, b ≠ a) lr ++ [a]) (filter (λ b, b ≠ a) ls) ∧
    state_of k' a = Some THR_RUNNING ∧ sched_frame (eq a) k k'.
Proof.
  intros Hwf Hpl Hlen.
  destruct (unset_state_sched k lr ls a Hwf Hpl)
    as (err & k1 & t1 & Hun & Herr & Hwf1 & Ha1 & Hr1 & _).
  set (lr' := filter (λ b, b ≠ a) lr) in *.
  set (ls' := filter (λ b, b ≠ a) ls) in *.
  set (k2 := with_tcbs k1 (<[a := with_state t1 THR_RUNNING]> (tcbs k1))).
  assert (sched_wf k2 lr' ls') as (Hr2 & Hs2 & Hsort2).
  { apply sched_wf_insert_notin; [done|apply filter_ne_not_in..]. }
  assert (tcbs k2 !! a = Some (with_state t1 THR_RUNNING)) as Ha2
    by apply lookup_insert_eq.
  destruct (thrlist_add_tail_spec k2 L_running (running k2) lr' a _ eq_refl Hr2 Ha2)
    as (k3 & L3 & t3 & Hadd & HL3 & Hl3 & Ha3 & _ & Hf); [done| |].
  { pose proof (length_filter_le (λ b, b ≠ a) lr). fold lr' in H. lia. }
  simpl in HL3. injection HL3 as <-.
  assert (set_runnable (Some a) k = Ret (0, k3)) as Hrun.
  { unfold set_runnable. rewrite Hun. cbn [mbind outcome_bind].
    rewrite decide_False by lia.
    rewrite (thread_set_Ret k1 a (λ t, with_state t THR_RUNNING) t1 Ha1).
    cbn [mbind outcome_bind]. done. }
  exists k3. split; [done|].
  pose proof Hf as (_ & Hoth & _).
  specialize (Hoth L_sleeping ltac:(done)). simpl in Hoth. injection Hoth as Hsl.
  split; [|split; [|by eapply (set_runnable_sched_frame (eq a))]].
  - split; [done|]. rewrite Hsl.
    split; [eapply (is_thrlist_frame L_running a k2 k3); try done;
            apply filter_ne_not_in|].
    eapply sorted_by_wake_frame; [done|apply filter_ne_not_in|done].
  - rewrite (sched_frame_state k2 k3 a).
    + unfold state_of. by rewrite Ha2.
    + by eapply thrlist_add_tail_sched_frame.
Qed.

(** * The scheduler: the setters of thread.c *)

Lemma dll_seg_links m m' r p l n :
  (∀ b t, m !! b = Some t →
     ∃ t', m' !! b = Some t' ∧ thr_list t' = thr_list t ∧
           prev t' = prev t ∧ next t' = next t) →
  dll_seg m r p l n → dll_seg m' r p l n.
Proof.
  intros Hm. revert p. induction l as [|a l IH]; intros p; simpl; [done|].
  destruct (m !! a) as [t|] eqn:Ha; [|done].
  destruct (Hm _ _ Ha) as (t' & -> & -> & -> & ->).
  intros (? & ? & ? & ?). repeat split; auto.
Qed.

Lemma sched_wf_set_state k lr ls a t s :
  sched_wf k lr ls → tcbs k !! a = Some t →
  sched_wf (with_tcbs k (<[a := with_state t s]> (tcbs k))) lr ls.
Proof.
  intros (Hr & Hs & Hsort) Ha.
  assert (∀ b t0, tcbs k !! b = Some t0 →
            ∃ t', <[a := with_state t s]> (tcbs k) !! b = Some t' ∧
                  thr_list t' = thr_list t0 ∧ prev t' = prev t0 ∧
                  next t' = next t0) as Hlinks.
  { intros b t0 Hb. destruct (decide (a = b)) as [<-|].
    - rewrite lookup_insert_eq. eexists. split; [done|].
      assert (t0 = t) as -> by congruence. done.
    - rewrite lookup_insert_ne by done. by exists t0. }
  split; [|split].
  - destruct Hr as (? & ? & ? & ? & Hseg). repeat (split; [done|]).
    by eapply dll_seg_links.
  - destruct Hs as (? & ? & ? & ? & Hseg). repeat (split; [done|]).
    by eapply dll_seg_links.
  - eapply sorted_by_wake_ext; [|done]. intros b _.
    rewrite (wake_of_insert k (λ t, with_state t s) a t b Ha).
    destruct (decide (a = b)) as [<-|]; [|done].
    unfold wake_of. by rewrite Ha.
Qed.

Lemma sched_frame_wake P k k' b :
  sched_frame P k k' → wake_of k' b = wake_of k b.
Proof.
  intros (_ & Hi & _). specialize (Hi b). unfold wake_of.
  destruct (tcbs k' !! b), (tcbs k !! b); simpl in *; try done.
  unfold thread_ident in Hi. congruence.
Qed.

Lemma sched_frame_process P k k' b :
  sched_frame P k k' →
  (process <$> tcbs k' !! b) = (process <$> tcbs k !! b).
Proof.
  intros (_ & Hi & _). specialize (Hi b).
  destruct (tcbs k' !! b), (tcbs k !! b); simpl in *; try done.
  unfold thread_ident in Hi. congruence.
Qed.

(** X15.  The setters of thread.c keep the state of a thread and the
    list it is in together.  Let the run queue and the sleep queue be
    well linked, and take a thread that is in one of them or in no
    list.  Then [set_runnable] returns 0 and leaves the thread at the
    end of the run queue in state [THR_RUNNING]; [set_blocked] returns
    0 and leaves it in no list in state [THR_BLOCKED]; and, when the
    thread has a process, [set_running] returns 0 and leaves it at the
    head of the run queue, where [get_running] finds it, in state
    [THR_RUNNING].  In each case the thread is gone from the place it
    was at, the other threads keep their order in both queues, and the
    sleep queue stays sorted. *)
Theorem thread_state_setters k lr ls a :
  sched_wf k lr ls → sched_placed k a lr ls →
  Z.of_nat (length lr) + 1 < 4294967296 →
  let lr' := filter (λ b, b ≠ a) lr in
  let ls' := filter (λ b, b ≠ a) ls in
  (∃ k', set_runnable (Some a) k = Ret (0, k') ∧
         sched_wf k' (lr' ++ [a]) ls' ∧
         state_of k' a = Some THR_RUNNING) ∧
  (∃ k', set_blocked (Some a) k = Ret (0, k') ∧
         sched_wf k' lr' ls' ∧
         state_of k' a = Some THR_BLOCKED ∧
         (thr_list <$> tcbs k' !! a) = Some None) ∧
  (∀ p, (process <$> tcbs k !! a) = Some (Some p) → is_Some (pcbs k !! p) →
     ∃ k', set_running (Some a) k = Ret (0, k') ∧
           sched_wf k' (a :: lr') ls' ∧
           state_of k' a = Some THR_RUNNING ∧
           get_running k' = Some a).
Proof.
  intros Hwf Hpl Hlen lr' ls'. split; [|split].
  - destruct (set_runnable_sched k lr ls a Hwf Hpl Hlen) as (k' & ? & ? & ? & _).
    by exists k'.
  - destruct (unset_state_sched k lr ls a Hwf Hpl)
      as (err & k1 & t1 & Hun & Herr & Hwf1 & Ha1 & Hr1 & _).
    fold lr' ls' in Hwf1.
    eexists. split.
    { unfold set_blocked. rewrite Hun. cbn [mbind outcome_bind].
      rewrite decide_False by lia.
      rewrite (thread_set_Ret k1 a (λ t, with_state t THR_BLOCKED) t1 Ha1).
      cbn [mbind outcome_bind]. done. }
    split; [apply sched_wf_insert_notin; [done|apply filter_ne_not_in..]|].
    unfold state_of. simpl. rewrite lookup_insert_eq. simpl. by rewrite Hr1.
  - intros p Hp Hpr.
    destruct (unset_state_sched k lr ls a Hwf Hpl)
      as (err & k1 & t1 & Hun & Herr & Hwf1 & Ha1 & Hr1 & _).
    fold lr' ls' in Hwf1. pose proof Hwf1 as (Hrun1 & Hsl1 & Hsort1).
    destruct (thrlist_add_head_spec k1 L_running (running k1) lr' a t1
                eq_refl Hrun1 Ha1 Hr1)
      as (k2 & L2 & t2 & Hadd & HL2 & Hl2 & Ha2 & _ & Hf).
    { pose proof (length_filter_le (λ b, b ≠ a) lr). fold lr' in H. lia. }
    simpl in HL2. injection HL2 as <-.
    pose proof (unset_state_sched_frame (eq a) a _ _ _ eq_refl Hun) as Hf1.
    pose proof (thrlist_add_head_sched_frame (eq a) _ _ _ _ _ Hadd) as Hf2.
    pose proof (sched_frame_trans _ _ _ _ Hf1 Hf2) as Hf12.
    assert (sched_wf k2 (a :: lr') ls') as Hwf2.
    { pose proof Hf as (_ & Hoth & _).
      specialize (Hoth L_sleeping ltac:(done)). simpl in Hoth.
      injection Hoth as Hsl. unfold sched_wf. rewrite Hsl.
      split; [done|].
      split; [eapply (is_thrlist_frame L_running a k1 k2); try done;
              apply filter_ne_not_in|].
      eapply sorted_by_wake_frame; [done|apply filter_ne_not_in|done]. }
    set (k3 := with_tcbs k2 (<[a := with_state t2 THR_RUNNING]> (tcbs k2))).
    assert (process t2 = Some p) as Hp2.
    { pose proof (sched_frame_process _ _ _ a Hf12) as Hpp.
      rewrite Hp, Ha2 in Hpp. simpl in Hpp. congruence. }
    assert (is_Some (pcbs k2 !! p)) as [pr Hpr2].
    { destruct Hf12 as (_ & _ & _ & Hdom). by apply Hdom. }
    exists k3. split.
    { unfold set_running. rewrite Hun. cbn [mbind outcome_bind].
      rewrite decide_False by lia. rewrite Hadd. cbn [mbind outcome_bind].
      rewrite decide_False by lia.
      rewrite (thread_set_Ret k2 a (λ t, with_state t THR_RUNNING) t2 Ha2).
      cbn [mbind outcome_bind]. fold k3.
      unfold load_thread. simpl. rewrite lookup_insert_eq.
      cbn [mbind outcome_bind deref with_state process]. rewrite Hp2.
      cbn [mbind outcome_bind deref]. rewrite Hpr2. done. }
    assert (sched_wf k3 (a :: lr') ls') as Hwf3 by by apply sched_wf_set_state.
    split; [done|]. split.
    { unfold state_of. simpl. by rewrite lookup_insert_eq. }
    destruct Hwf3 as ((_ & _ & Hh & _) & _). done.
Qed.

Lemma thread_state_setters_witness :
  ∃ k1 k2 k3,
    set_runnable (Some 2%nat) kernel_sleepers = Ret (0, k1) ∧
    sched_wf k1 [1; 2]%nat [3%nat] ∧
    set_blocked (Some 2%nat) kernel_sleepers = Ret (0, k2) ∧
    sched_wf k2 [1%nat] [3%nat] ∧
    set_running (Some 2%nat) kernel_sleepers = Ret (0, k3) ∧
    sched_wf k3 [2; 1]%nat [3%nat].
Proof.
  destruct (thread_state_setters kernel_sleepers [1%nat] [2; 3]%nat 2%nat)
    as ((k1 & Hrun & Hwf1 & _) & (k2 & Hbl & Hwf2 & _) & Hrunning).
  - apply (bool_decide_unpack _). vm_compute. exact I.
  - apply (bool_decide_unpack _). vm_compute. exact I.
  - simpl. lia.
  - destruct (Hrunning 1%nat) as (k3 & Hr3 & Hwf3 & _).
    + reflexivity.
    + apply (bool_decide_unpack _). vm_compute. exact I.
    + exists k1, k2, k3. split; [exact Hrun|]. split; [exact Hwf1|].
      split; [exact Hbl|]. split; [exact Hwf2|]. split; [exact Hr3|exact Hwf3].
Defined.

(** * The timer and [yield] *)

Lemma filter_none {A} (P : A → Prop) `{∀ x, Decision (P x)} (l : list A) :
  Forall (λ x, ¬ P x) l → filter P l = [].
Proof.
  induction 1 as [|x l Hx Hl IH]; [done|]. by rewrite filter_cons_False.
Qed.

Lemma filter_all {A} (P : A → Prop) `{∀ x, Decision (P x)} (l : list A) :
  Forall P l → filter P l = l.
Proof.
  induction 1 as [|x l Hx Hl IH]; [done|]. rewrite filter_cons_True by done.
  by rewrite IH.
Qed.

Lemma Forall_filter_self {A} (P : A → Prop) `{∀ x, Decision (P x)} (l : list A) :
  Forall P (filter P l).
Proof. apply Forall_forall. by intros x [? _]%list_elem_of_filter. Qed.

(** A sorted sleep queue has the sleepers that are due in front. *)
Lemma sorted_due_split k T ls :
  sorted_by_wake k ls → ls = due k T ls ++ not_due k T ls.
Proof.
  unfold sorted_by_wake, due, not_due. induction ls as [|a l IH]; [done|].
  rewrite fmap_cons. intros [Hs Hall]%StronglySorted_inv.
  rewrite !filter_cons. destruct (decide (wake_of k a ≤ T)).
  - rewrite decide_False by lia. simpl. f_equal. by apply IH.
  - rewrite decide_True by lia.
    assert (Forall (λ b, T < wake_of k b) l) as Hgt.
    { rewrite Forall_fmap in Hall. eapply Forall_impl; [exact Hall|].
      intros b Hb. simpl in Hb. lia. }
    rewrite (filter_none (λ b, wake_of k b ≤ T) l).
    + simpl. f_equal. symmetry. by apply filter_all.
    + eapply Forall_impl; [exact Hgt|]. intros b Hb. simpl in Hb. lia.
Qed.

Lemma sched_wf_head k lr ls :
  sched_wf k lr ls → get_running k = hd_or lr None ∧ get_sleeping k = hd_or ls None.
Proof. by intros ((_ & _ & ? & _) & (_ & _ & ? & _) & _). Qed.

Lemma timer_wake_spec d :
  ∀ fuel k lr rest aw,
    sched_wf k lr (d ++ rest) →
    Forall (λ b, wake_of k b ≤ num_ticks k) d →
    Forall (λ b, num_ticks k < wake_of k b) rest →
    (length d ≤ fuel)%nat →
    Z.of_nat (length lr + length d) + 1 < 4294967296 →
    ∃ k', timer_wake fuel aw k = Ret (aw || bool_decide (d ≠ []), k') ∧
          sched_wf k' (lr ++ d) rest ∧
          Forall (λ b, state_of k' b = Some THR_RUNNING) d ∧
          sched_frame (λ b, b ∈ d) k k'.
Proof.
  induction d as [|a d IH]; intros fuel k lr rest aw Hwf Hdue Hrest Hfuel Hlen.
  - exists k. rewrite app_nil_r, orb_false_r. simpl in Hwf.
    split; [|split; [done|split; [done|apply sched_frame_refl]]].
    destruct (sched_wf_head _ _ _ Hwf) as [_ Hhd].
    assert (∀ (X : nat → outcome (bool * kernel)),
              match get_sleeping k with
              | None => Ret (aw, k)
              | Some h =>
                  th ← load_thread h k;
                  if decide (wake th ≤ num_ticks k) then X h else Ret (aw, k)
              end = Ret (aw, k)) as Hstep.
    { intros X. rewrite Hhd. destruct rest as [|b rest]; [done|]. simpl.
      apply Forall_cons in Hrest as [Hb _].
      destruct Hwf as (_ & Hs & _).
      destruct (is_thrlist_member _ _ _ _ b Hs) as (tb & Htb & _); [by left|].
      rewrite (load_thread_Ret _ _ _ Htb). cbn [mbind outcome_bind].
      unfold wake_of in Hb. rewrite Htb in Hb. simpl in Hb.
      by rewrite decide_False by lia. }
    destruct fuel; cbn [timer_wake].
    + apply (Hstep (λ _, Undefined)).
    + apply (Hstep (λ h, '(_, k) ← set_runnable (Some h) k; timer_wake fuel true k)).
  - destruct fuel as [|fuel]; [simpl in Hfuel; lia|].
    apply Forall_cons in Hdue as [Ha Hdue].
    destruct (sched_wf_head _ _ _ Hwf) as [_ Hhd].
    pose proof Hwf as (Hr & Hs & _).
    destruct (is_thrlist_member _ _ _ _ a Hs) as (ta & Hta & _); [by left|].
    assert (a ∉ lr) as Har.
    { eapply (lists_disjoint k L_sleeping _ _ L_running); try done. by left. }
    pose proof Hs as (Hnd & _). simpl in Hnd.
    apply NoDup_cons in Hnd as [Hnotin Hnd].
    destruct (set_runnable_sched k lr ((a :: d) ++ rest) a Hwf)
      as (k1 & Hrun & Hwf1 & Hst1 & Hf1).
    { right. left. by left. }
    { simpl in Hlen. lia. }
    rewrite (filter_ne_notin _ _ Har) in Hwf1.
    rewrite <- app_comm_cons, filter_cons_False in Hwf1 by (intros Hx; by apply Hx).
    rewrite (filter_ne_notin _ _ Hnotin) in Hwf1.
    pose proof Hf1 as ((_ & _ & Hticks & _) & _).
    destruct (IH fuel k1 (lr ++ [a]) rest true Hwf1)
      as (k' & Hwake & Hwf' & Hst' & Hf').
    { eapply Forall_impl; [exact Hdue|]. intros b Hb. simpl in *.
      by rewrite (sched_frame_wake _ _ _ b Hf1), Hticks. }
    { eapply Forall_impl; [exact Hrest|]. intros b Hb. simpl in *.
      by rewrite (sched_frame_wake _ _ _ b Hf1), Hticks. }
    { simpl in Hfuel. lia. }
    { rewrite length_app. simpl in *. lia. }
    exists k'. split; [|split; [|split]].
    + cbn [timer_wake]. rewrite Hhd. simpl hd_or. cbn iota beta.
      rewrite (load_thread_Ret _ _ _ Hta). cbn [mbind outcome_bind].
      unfold wake_of in Ha. rewrite Hta in Ha. simpl in Ha.
      rewrite decide_True by done. rewrite Hrun. cbn [mbind outcome_bind].
      rewrite Hwake. by rewrite orb_true_r.
    + by rewrite <- app_assoc in Hwf'.
    + apply Forall_cons. split; [|done].
      destruct Hf' as (_ & _ & Hs' & _). rewrite Hs'; [done|].
      intros Hin. apply Hnotin. apply elem_of_app. by left.
    + eapply sched_frame_trans.
      * eapply sched_frame_mono; [|exact Hf1]. intros b <-. by left.
      * eapply sched_frame_mono; [|exact Hf']. intros b Hb. by right.
Qed.

Lemma timer_wake_none fuel k lr ls aw :
  sched_wf k lr ls →
  Forall (λ b, num_ticks k < wake_of k b) ls →
  timer_wake fuel aw k = Ret (aw, k).
Proof.
  intros Hwf Hrest.
  destruct (sched_wf_head _ _ _ Hwf) as [_ Hhd].
  destruct fuel; cbn [timer_wake]; rewrite Hhd;
    (destruct ls as [|b ls]; [done|]); simpl hd_or; cbn iota beta;
    apply Forall_cons in Hrest as [Hb _];
    destruct Hwf as (_ & Hs & _);
    (destruct (is_thrlist_member _ _ _ _ b Hs) as (tb & Htb & _); [by left|]);
    rewrite (load_thread_Ret _ _ _ Htb); cbn [mbind outcome_bind];
    unfold wake_of in Hb; rewrite Htb in Hb; simpl in Hb;
    by rewrite decide_False by lia.
Qed.

Lemma hd_or_lookup l : hd_or l None = l !! 0%nat.
Proof. by destruct l. Qed.

(** What the handler has done when its loop is over: the tick is
    counted and the sleepers that are due are at the end of the run
    queue, in the order of their wake times. *)
Lemma timer_woken k lr ls fuel :
  sched_wf k lr ls →
  (length ls ≤ fuel)%nat →
  Z.of_nat (length lr + length ls) + 1 < 4294967296 →
  let T := u32 (num_ticks k + 1) in
  let woken := due k T ls in
  ∃ k1, timer_wake fuel false (with_num_ticks k T) = Ret (bool_decide (woken ≠ []), k1) ∧
        sched_wf k1 (lr ++ woken) (not_due k T ls) ∧
        Forall (λ b, state_of k1 b = Some THR_RUNNING) woken ∧
        sched_frame (λ b, b ∈ woken) (with_num_ticks k T) k1.
Proof.
  intros Hwf Hfuel Hlen T woken.
  assert (sched_wf (with_num_ticks k T) lr (woken ++ not_due k T ls)) as Hwf0.
  { unfold woken. rewrite <- sorted_due_split by apply Hwf. exact Hwf. }
  pose proof (length_filter_le (λ b, wake_of k b ≤ T) ls) as Hle.
  destruct (timer_wake_spec woken fuel (with_num_ticks k T) lr (not_due k T ls)
              false Hwf0) as (k1 & Hw & Hrest).
  - apply (Forall_filter_self (λ b, wake_of k b ≤ T)).
  - apply (Forall_filter_self (λ b, T < wake_of k b)).
  - unfold woken, due. lia.
  - unfold woken, due. lia.
  - exists k1. by split.
Qed.

(** X16.  A timer tick under a running thread that is not the idle
    thread.  While [no_switch] is set the handler only counts the tick.
    Otherwise it counts the tick, moves every sleeper whose wake time
    has come from the sleep queue to the end of the run queue, in the
    order of their wake times, puts the interrupted thread behind them
    and switches to the thread now at the head of the run queue, with
    [no_switch] set; the sleep queue keeps the other sleepers, sorted,
    and both queues stay well linked. *)
Theorem timer_tick_preempts k self lr ls fuel :
  sched_wf k (self :: lr) ls →
  idle_thread k ≠ Some self →
  (length ls ≤ fuel)%nat →
  Z.of_nat (length lr + length ls) + 2 < 4294967296 →
  let T := u32 (num_ticks k + 1) in
  let woken := due k T ls in
  (no_switch k = true → timer_handler fuel k = Ret (with_num_ticks k T, None)) ∧
  (no_switch k = false →
   ∃ k' next,
     timer_handler fuel k = Ret (k', Some (self, Some next)) ∧
     (lr ++ woken ++ [self]) !! 0%nat = Some next ∧
     sched_wf k' (lr ++ woken ++ [self]) (not_due k T ls) ∧
     Forall (λ b, state_of k' b = Some THR_RUNNING) (woken ++ [self]) ∧
     num_ticks k' = T ∧ no_switch k' = true).
Proof.
  intros Hwf Hidle Hfuel Hlen T woken. split; intros Hns.
  { unfold timer_handler. cbv zeta. cbn [no_switch with_num_ticks].
    by rewrite Hns. }
  destruct (timer_woken k (self :: lr) ls fuel Hwf Hfuel)
    as (k1 & Hw & Hwf1 & Hst1 & Hf1); [simpl length; lia|].
  change (u32 (num_ticks k + 1)) with T in Hw, Hf1, Hwf1, Hst1.
  change (due k T ls) with woken in Hw, Hwf1, Hst1, Hf1.
  assert (length woken ≤ length ls)%nat as Hlenw
    by apply (length_filter_le (λ b, wake_of k b ≤ T)).
  clearbody woken.
  pose proof Hf1 as ((Hid1 & Hns1 & Ht1 & _) & _).
  cbn [idle_thread num_ticks no_switch with_num_ticks] in Hid1, Hns1, Ht1.
  pose proof Hwf1 as (Hr1 & Hs1 & _).
  destruct (sched_wf_head _ _ _ Hwf1) as [Hhd1 _]. simpl in Hhd1.
  pose proof Hr1 as (Hnd & _). rewrite <- app_comm_cons in Hnd.
  apply NoDup_cons in Hnd as [Hself _].
  assert (self ∉ not_due k T ls) as Hself'.
  { eapply (lists_disjoint k1 L_running _ _ L_sleeping); try done. by left. }
  destruct (set_runnable_sched k1 ((self :: lr) ++ woken) (not_due k T ls) self Hwf1)
    as (k2 & Hrun & Hwf2 & Hst2 & Hf2).
  { left. by left. }
  { rewrite length_app. simpl length. lia. }
  rewrite <- app_comm_cons, filter_cons_False in Hwf2 by (intros Hx; by apply Hx).
  rewrite (filter_ne_notin _ _ Hself), (filter_ne_notin _ _ Hself') in Hwf2.
  rewrite <- app_assoc in Hwf2.
  destruct (sched_wf_head _ _ _ Hwf2) as [Hhd2 _]. rewrite hd_or_lookup in Hhd2.
  assert (is_Some ((lr ++ woken ++ [self]) !! 0%nat)) as [next Hnext].
  { apply lookup_lt_is_Some. rewrite !length_app. simpl. lia. }
  pose proof Hf2 as ((Hid2 & Hns2 & Ht2 & _) & _ & Hother & _).
  assert (Some self ≠ idle_thread k) as Hidle' by congruence.
  exists (dont_switch_me_out k2), next.
  split; [|split; [done|split; [exact Hwf2|split; [|split]]]].
  - unfold timer_handler. cbv zeta. fold T.
    change (no_switch (with_num_ticks k T)) with (no_switch k). rewrite Hns.
    rewrite Hw. cbn [mbind outcome_bind]. unfold is_idle at 1.
    rewrite Hhd1, Hid1, (bool_decide_eq_false_2 (Some self = idle_thread k)),
      andb_false_r by done.
    unfold get_self. rewrite Hhd1. cbn [mbind outcome_bind].
    unfold is_idle.
    rewrite Hid1, (bool_decide_eq_false_2 (Some self = idle_thread k)) by done.
    cbn [negb]. rewrite Hrun. cbn [mbind outcome_bind].
    by rewrite Hhd2, Hnext.
  - apply Forall_app. split.
    + apply Forall_forall. intros b Hb.
      change (state_of (dont_switch_me_out k2) b) with (state_of k2 b).
      rewrite Hother.
      * rewrite Forall_forall in Hst1. by apply Hst1.
      * intros <-. apply Hself. apply elem_of_app. by right.
    + by apply Forall_singleton.
  - cbn [num_ticks dont_switch_me_out with_no_switch]. by rewrite Ht2, Ht1.
  - reflexivity.
Qed.

Lemma timer_tick_preempts_witness :
  timer_handler 2 (dont_switch_me_out (with_num_ticks kernel_sleepers 9))
    = Ret (dont_switch_me_out (with_num_ticks kernel_sleepers 10), None) ∧
  ∃ k', timer_handler 2 (with_num_ticks kernel_sleepers 9)
          = Ret (k', Some (1%nat, Some 2%nat)) ∧
        sched_wf k' [2; 1]%nat [3%nat] ∧
        num_ticks k' = 10 ∧ no_switch k' = true.
Proof.
  split.
  - apply (timer_tick_preempts
             (dont_switch_me_out (with_num_ticks kernel_sleepers 9))
             1%nat [] [2; 3]%nat 2).
    + apply (bool_decide_unpack _). vm_compute. exact I.
    + discriminate.
    + simpl. lia.
    + simpl. lia.
    + reflexivity.
  - destruct (timer_tick_preempts (with_num_ticks kernel_sleepers 9)
                1%nat [] [2; 3]%nat 2) as [_ Hswitch].
    + apply (bool_decide_unpack _). vm_compute. exact I.
    + discriminate.
    + simpl. lia.
    + simpl. lia.
    + destruct (Hswitch eq_refl) as (k' & next & Hret & Hnext & Hwf & _ & Ht & Hns).
      injection Hnext as <-. exists k'.
      split; [exact Hret|]. split; [exact Hwf|]. split; [exact Ht|exact Hns].
Defined.

(** The thread at the head of the run queue leaves it: the next one
    is the head. *)
Lemma head_steps_aside k self next l ls :
  sched_wf k (self :: next :: l) ls →
  ∃ e k2, unset_state (Some self) k = Ret (e, k2) ∧
          get_running k2 = Some next ∧ sched_wf k2 (next :: l) ls ∧
          (thr_list <$> tcbs k2 !! self) = Some None ∧
          sched_frame (eq self) k k2.
Proof.
  intros Hwf. pose proof Hwf as (Hr & Hs & _).
  pose proof Hr as (Hnd & _). apply NoDup_cons in Hnd as [Hself _].
  assert (self ∉ ls) as Hself'.
  { eapply (lists_disjoint k L_running _ _ L_sleeping); try done. by left. }
  destruct (unset_state_sched k (self :: next :: l) ls self Hwf)
    as (e & k2 & t2 & Hun & _ & Hwf2 & Ht2 & Hl2 & _).
  { left. by left. }
  rewrite filter_cons_False in Hwf2 by (intros Hx; by apply Hx).
  rewrite (filter_ne_notin _ _ Hself), (filter_ne_notin _ _ Hself') in Hwf2.
  exists e, k2. split; [done|]. split; [|split; [done|split]].
  - by destruct (sched_wf_head _ _ _ Hwf2) as [-> _].
  - by rewrite Ht2; simpl; rewrite Hl2.
  - by eapply (unset_state_sched_frame (eq self)).
Qed.

Lemma no_switch_restore k :
  no_switch k = false → you_can_switch_me_out_now (dont_switch_me_out k) = k.
Proof. destruct k. simpl. by intros ->. Qed.

(** X17.  A timer tick under the idle thread, with switching allowed.
    The handler counts the tick and moves the sleepers that are due to
    the end of the run queue.  When no other thread is runnable then,
    it returns to the idle thread with [no_switch] clear and nothing
    else changed.  Otherwise the idle thread leaves the run queue (it
    is in no list any more) and the handler switches to the thread now
    at the head, with [no_switch] set. *)
Theorem timer_tick_idle k self lr ls fuel :
  sched_wf k (self :: lr) ls →
  idle_thread k = Some self →
  no_switch k = false →
  (length ls ≤ fuel)%nat →
  Z.of_nat (length lr + length ls) + 2 < 4294967296 →
  let T := u32 (num_ticks k + 1) in
  let woken := due k T ls in
  match lr ++ woken with
  | [] => timer_handler fuel k = Ret (with_num_ticks k T, None)
  | next :: _ =>
      ∃ k', timer_handler fuel k = Ret (k', Some (self, Some next)) ∧
            sched_wf k' (lr ++ woken) (not_due k T ls) ∧
            (thr_list <$> tcbs k' !! self) = Some None ∧
            Forall (λ b, state_of k' b = Some THR_RUNNING) woken ∧
            num_ticks k' = T ∧ no_switch k' = true
  end.
Proof.
  intros Hwf Hidle Hns Hfuel Hlen T woken.
  destruct (timer_woken k (self :: lr) ls fuel Hwf Hfuel)
    as (k1 & Hw & Hwf1 & Hst1 & Hf1); [simpl length; lia|].
  change (u32 (num_ticks k + 1)) with T in Hw, Hf1, Hwf1, Hst1.
  change (due k T ls) with woken in Hw, Hwf1, Hst1, Hf1.
  assert (woken = [] → k1 = with_num_ticks k T) as Hk1.
  { intros H0. rewrite H0 in Hw.
    rewrite (timer_wake_none fuel _ (self :: lr) ls false) in Hw.
    - by injection Hw as <-.
    - exact Hwf.
    - rewrite (sorted_due_split k T ls) by apply Hwf. fold woken.
      rewrite H0. apply (Forall_filter_self (λ b, T < wake_of k b)). }
  clearbody woken.
  pose proof Hf1 as ((Hid1 & Hns1 & Ht1 & _) & _).
  cbn [idle_thread num_ticks no_switch with_num_ticks] in Hid1, Hns1, Ht1.
  destruct (sched_wf_head _ _ _ Hwf1) as [Hhd1 _]. simpl in Hhd1.
  pose proof Hwf1 as ((_ & (Hsz & _) & _) & _).
  pose proof Hwf1 as ((Hnd & _) & _). rewrite <- app_comm_cons in Hnd.
  apply NoDup_cons in Hnd as [Hself _].
  unfold timer_handler. cbv zeta. fold T.
  change (no_switch (with_num_ticks k T)) with (no_switch k). rewrite Hns.
  rewrite Hw. cbn [mbind outcome_bind]. unfold is_idle, get_self.
  rewrite Hhd1, Hid1, Hidle, (bool_decide_eq_true_2 (Some self = Some self)) by done.
  cbn [mbind outcome_bind negb]. unfold num_runnable. rewrite Hsz.
  destruct (lr ++ woken) as [|next l] eqn:Hl.
  - apply app_eq_nil in Hl as [-> ->].
    rewrite (bool_decide_eq_false_2 ([] ≠ [])) by (intros Hx; by apply Hx).
    cbn [andb]. simpl length. rewrite decide_False by lia.
    cbn [mbind outcome_bind]. rewrite (Hk1 eq_refl).
    rewrite (bool_decide_eq_true_2 (Some self = Some self)) by done.
    cbn [negb mbind outcome_bind]. by rewrite no_switch_restore.
  - rewrite <- app_comm_cons, Hl in Hwf1.
    destruct (head_steps_aside k1 self next l _ Hwf1)
      as (e & k2 & Hun & Hhd2 & Hwf2 & Hl2 & Hf2).
    pose proof Hf2 as ((Hid2 & Hns2 & Ht2 & _) & _ & Hother & _).
    exists (dont_switch_me_out k2).
    split; [|split; [exact Hwf2|split; [exact Hl2|split; [|split]]]].
    + rewrite andb_true_r. rewrite Hun.
      destruct (bool_decide (woken ≠ [])) eqn:Haw; cbn [mbind outcome_bind].
      * by rewrite Hhd2.
      * rewrite <- app_comm_cons, Hl. simpl length.
        rewrite decide_True by lia.
        rewrite (bool_decide_eq_true_2 (Some self = Some self)) by done.
        cbn [negb mbind outcome_bind]. by rewrite Hhd2.
    + apply Forall_forall. intros b Hb.
      change (state_of (dont_switch_me_out k2) b) with (state_of k2 b).
      rewrite Hother.
      * rewrite Forall_forall in Hst1. by apply Hst1.
      * intros <-. apply Hself. rewrite <- Hl. apply elem_of_app. by right.
    + cbn [num_ticks dont_switch_me_out with_no_switch]. by rewrite Ht2, Ht1.
    + reflexivity.
Qed.

Lemma timer_tick_idle_witness :
  (∃ k', timer_handler 2 kernel_idling = Ret (k', Some (1%nat, Some 2%nat)) ∧
         sched_wf k' [2%nat] [3%nat] ∧
         (thr_list <$> tcbs k' !! 1%nat) = Some None ∧ no_switch k' = true) ∧
  timer_handler 2 (with_num_ticks kernel_idling 5)
    = Ret (with_num_ticks kernel_idling 6, None).
Proof.
  split.
  - destruct (timer_tick_idle kernel_idling 1%nat [] [2; 3]%nat 2)
      as (k' & Hret & Hwf & Hl & _ & _ & Hns).
    + apply (bool_decide_unpack _). vm_compute. exact I.
    + reflexivity.
    + reflexivity.
    + simpl. lia.
    + simpl. lia.
    + exists k'. split; [exact Hret|]. split; [exact Hwf|].
      split; [exact Hl|exact Hns].
  - apply (timer_tick_idle (with_num_ticks kernel_idling 5) 1%nat [] [2; 3]%nat 2).
    + apply (bool_decide_unpack _). vm_compute. exact I.
    + reflexivity.
    + reflexivity.
    + simpl. lia.
    + simpl. lia.
Defined.

(** The running thread goes to the end of the run queue. *)
Lemma requeue_self k self lr ls :
  sched_wf k (self :: lr) ls →
  Z.of_nat (length lr) + 2 < 4294967296 →
  ∃ k2, set_runnable (Some self) (dont_switch_me_out k) = Ret (0, k2) ∧
        sched_wf k2 (lr ++ [self]) ls ∧
        state_of k2 self = Some THR_RUNNING ∧ no_switch k2 = true ∧
        get_running k2 = (lr ++ [self]) !! 0%nat.
Proof.
  intros Hwf Hlen. pose proof Hwf as (Hr & Hs & _).
  pose proof Hr as (Hnd & _). apply NoDup_cons in Hnd as [Hself _].
  assert (self ∉ ls) as Hself'.
  { eapply (lists_disjoint k L_running _ _ L_sleeping); try done. by left. }
  destruct (set_runnable_sched (dont_switch_me_out k) (self :: lr) ls self Hwf)
    as (k2 & Hrun & Hwf2 & Hst2 & Hf2).
  { left. by left. }
  { simpl length. lia. }
  rewrite filter_cons_False in Hwf2 by (intros Hx; by apply Hx).
  rewrite (filter_ne_notin _ _ Hself), (filter_ne_notin _ _ Hself') in Hwf2.
  exists k2. split; [done|]. split; [done|]. split; [done|]. split.
  - by destruct Hf2 as ((_ & -> & _) & _).
  - destruct (sched_wf_head _ _ _ Hwf2) as [-> _]. apply hd_or_lookup.
Qed.

(** X18.  [yield].  With a negative thread id the caller goes to the
    end of the run queue and the call switches to the thread now at the
    head (the caller itself when it is alone), with [no_switch] set.
    With an id that is not negative the call switches to the thread
    found for it when that thread is in state [THR_RUNNING], the caller
    going to the end of the run queue as well; when no thread is found,
    or the thread found is in another state, the call returns
    [ERR_YIELD_NOT_RUNNABLE] and changes nothing. *)
Theorem yield_rotates k self lr ls :
  sched_wf k (self :: lr) ls →
  Z.of_nat (length lr) + 2 < 4294967296 →
  (∀ id found, id < 0 →
     ∃ k' next,
       _yield id found k = Ret (0, k', Some (self, Some next)) ∧
       (lr ++ [self]) !! 0%nat = Some next ∧
       sched_wf k' (lr ++ [self]) ls ∧
       state_of k' self = Some THR_RUNNING ∧ no_switch k' = true) ∧
  (∀ id o s, 0 ≤ id → state_of k o = Some s →
     if decide (s = THR_RUNNING) then
       ∃ k', _yield id (Some o) k = Ret (0, k', Some (self, Some o)) ∧
             sched_wf k' (lr ++ [self]) ls ∧
             state_of k' self = Some THR_RUNNING ∧ no_switch k' = true
     else _yield id (Some o) k = Ret (ERR_YIELD_NOT_RUNNABLE, k, None)) ∧
  (∀ id, 0 ≤ id → _yield id None k = Ret (ERR_YIELD_NOT_RUNNABLE, k, None)).
Proof.
  intros Hwf Hlen.
  destruct (requeue_self k self lr ls Hwf Hlen)
    as (k2 & Hrun & Hwf2 & Hst2 & Hns2 & Hhd2).
  destruct (sched_wf_head _ _ _ Hwf) as [Hhd _]. simpl in Hhd.
  assert (get_self k = Ret self) as Hself by (unfold get_self; by rewrite Hhd).
  split; [|split].
  - intros id found Hid.
    assert (is_Some ((lr ++ [self]) !! 0%nat)) as [next Hnext].
    { apply lookup_lt_is_Some. rewrite length_app. simpl. lia. }
    exists k2, next. split; [|done].
    unfold _yield. rewrite Hself. cbn [mbind outcome_bind].
    rewrite decide_False by lia. cbn [mbind outcome_bind].
    rewrite Hrun. cbn [mbind outcome_bind]. by rewrite Hhd2, Hnext.
  - intros id o s Hid Hs. unfold state_of in Hs.
    destruct (tcbs k !! o) as [t|] eqn:Ht; [|done]. injection Hs as Hs.
    assert (_yield id (Some o) k =
            if decide (s = THR_RUNNING)
            then '(_, k) ← set_runnable (Some self) (dont_switch_me_out k);
                 Ret (0, k, Some (self, Some o))
            else Ret (ERR_YIELD_NOT_RUNNABLE, k, None)) as ->.
    { unfold _yield. rewrite Hself. cbn [mbind outcome_bind].
      rewrite decide_True by lia. rewrite (load_thread_Ret _ _ _ Ht).
      cbn [mbind outcome_bind]. rewrite Hs.
      destruct (decide (s = THR_RUNNING)) as [->|Hne].
      - by rewrite decide_False by (intros Hx; by apply Hx).
      - by rewrite decide_True. }
    destruct (decide (s = THR_RUNNING)) as [->|Hne]; [|done].
    exists k2. split; [|done]. by rewrite Hrun.
  - intros id Hid. unfold _yield. rewrite Hself. cbn [mbind outcome_bind].
    by rewrite decide_True by lia.
Qed.

Lemma yield_rotates_witness :
  (∃ k', _yield (-1) None kernel_sleepers = Ret (0, k', Some (1%nat, Some 1%nat)) ∧
         sched_wf k' [1%nat] [2; 3]%nat ∧ no_switch k' = true) ∧
  (∃ k', _yield 32 (Some 1%nat) kernel_sleepers
           = Ret (0, k', Some (1%nat, Some 1%nat))) ∧
  _yield 33 (Some 2%nat) kernel_sleepers
    = Ret (ERR_YIELD_NOT_RUNNABLE, kernel_sleepers, None) ∧
  _yield 99 None kernel_sleepers
    = Ret (ERR_YIELD_NOT_RUNNABLE, kernel_sleepers, None).
Proof.
  destruct (yield_rotates kernel_sleepers 1%nat [] [2; 3]%nat)
    as (Hnext & Hto & Hnone).
  - apply (bool_decide_unpack _). vm_compute. exact I.
  - simpl. lia.
  - split; [|split; [|split]].
    + destruct (Hnext (-1) None) as (k' & next & Hret & Hn & Hwf & _ & Hns); [lia|].
      injection Hn as <-. exists k'.
      split; [exact Hret|]. split; [exact Hwf|exact Hns].
    + destruct (Hto 32 1%nat THR_RUNNING) as (k' & Hret & _); [lia|reflexivity|].
      by exists k'.
    + apply (Hto 33 2%nat THR_SLEEPING); [lia|reflexivity].
    + apply Hnone. lia.
Defined.

(** * Mutexes: [mutex_lock] and [mutex_unlock] together *)

Ltac lookup_now :=
  cbn [mutexes tcbs with_mutexes with_tcbs];
  first [ eassumption | apply lookup_insert_eq
        | rewrite lookup_insert_ne by done; eassumption
        | match goal with H : ∀ x, _ !! _ = Some _ |- _ => apply H end ].

(** One step of a run through assignments to mutexes and threads. *)
Ltac kstep :=
  cbn [mbind outcome_bind deref];
  first
    [ erewrite load_mutex_Ret by lookup_now
    | erewrite mutex_set_Ret by lookup_now
    | erewrite load_thread_Ret by lookup_now
    | erewrite thread_set_Ret by lookup_now ];
  cbn [mutexes tcbs pcbs running sleeping idle_thread num_ticks no_switch
       operational with_mutexes with_tcbs].

Lemma get_self_Ret k me : get_running k = Some me → get_self k = Ret me.
Proof. unfold get_self. by intros ->. Qed.

(** X19.  The order of locks.  A thread has to release its mutexes in
    the reverse order of their acquisition: [mutex_unlock] on a mutex
    that is not the one the caller acquired last stops the kernel.
    [mutex_lock] on the mutex the caller acquired last kills the
    caller, for a relock; but on a mutex the caller owns and acquired
    before another one it returns as for a fresh acquisition, with the
    mutex recorded as acquired last and the other mutex as its
    predecessor. *)
Theorem mutex_lock_order k mp me tme m fuel :
  operational k = true → get_running k = Some me →
  tcbs k !! me = Some tme → mutexes k !! mp = Some m →
  (acquired_lock tme ≠ Some mp → mutex_unlock fuel mp k = KernelPanic) ∧
  (owner m = Some me →
     if decide (acquired_lock tme = Some mp)
     then mutex_lock_enter mp k = ThreadPanic
     else ∃ k', mutex_lock_enter mp k = Ret (k', LOCK_RETURN) ∧
                owner_of k' mp = Some (Some me) ∧
                acquired_by k' me = Some (Some mp) ∧
                previous_of k' mp = Some (acquired_lock tme)).
Proof.
  intros Hop Hself Hme Hm. split.
  - intros Hacq. unfold mutex_unlock. rewrite Hop, (get_self_Ret _ _ Hself).
    cbn [negb]. do 2 kstep. cbn [mbind outcome_bind].
    by rewrite decide_True by congruence.
  - intros Hown.
    assert (mutex_lock_enter mp k =
            lock_acquire me mp
              (with_mutexes k (<[mp := with_list_owner m (Some me)]> (mutexes k)))
            ≫= λ k, Ret (k, LOCK_RETURN)) as ->.
    { unfold mutex_lock_enter. rewrite Hop, (get_self_Ret _ _ Hself).
      cbn [negb]. do 2 kstep. cbn [mbind outcome_bind owner with_list_owner].
      rewrite decide_False by congruence. unfold lock_wait. kstep.
      cbn [mbind outcome_bind owner with_list_owner].
      by rewrite decide_False by (intros Hne; by apply Hne). }
    unfold lock_acquire. kstep. cbn [mbind outcome_bind].
    destruct (decide (acquired_lock tme = Some mp)) as [Heq|Hne].
    + by rewrite decide_True by done.
    + rewrite decide_False by congruence. do 4 kstep.
      cbn [mbind outcome_bind]. eexists. split; [reflexivity|].
      unfold owner_of, acquired_by, previous_of.
      cbn [mutexes tcbs with_mutexes with_tcbs].
      rewrite !lookup_insert_eq. simpl. by rewrite Hown.
Qed.

Lemma mutex_lock_order_witness :
  mutex_lock_enter 7 kernel_mutex = ThreadPanic ∧
  mutex_unlock 1 8 (mutex_init 8 kernel_mutex) = KernelPanic.
Proof.
  split.
  - refine (proj2 (mutex_lock_order kernel_mutex 7%nat 1%nat _ _ 1%nat
                     eq_refl eq_refl eq_refl eq_refl) eq_refl).
  - refine (proj1 (mutex_lock_order (mutex_init 8 kernel_mutex) 8%nat 1%nat _ _ 1%nat
                     eq_refl eq_refl eq_refl eq_refl) _).
    discriminate.
Defined.

(** X20.  An uncontended lock and its release.  On a mutex that has no
    owner and no waiter, [mutex_lock] returns at once with the caller
    as owner, the mutex as the caller's last acquisition and the
    caller's earlier one remembered in the mutex.  [mutex_unlock] then
    returns without yielding and leaves every thread as it was before
    the lock and the mutex free again: no owner, no predecessor, the
    interaction lock released. *)
Theorem mutex_lock_unlock_free k mp me tme m fuel :
  operational k = true → get_running k = Some me →
  tcbs k !! me = Some tme → mutexes k !! mp = Some m →
  owner m = None → first_waiting m = None →
  acquired_lock tme ≠ Some mp → (0 < fuel)%nat →
  ∃ k1,
    mutex_lock_enter mp k = Ret (k1, LOCK_RETURN) ∧
    holds_mutex k1 me mp ∧
    previous_of k1 mp = Some (acquired_lock tme) ∧
    interaction_lock k1 mp = Some false ∧
    ∀ b, ∃ k1' k2,
      mutex_set mp (λ m, with_mlock m b) k1 = Ret k1' ∧
      mutex_unlock fuel mp k1' = Ret (k2, None) ∧
      tcbs k2 = tcbs k ∧
      mutexes k2 =
        <[mp := with_previous_lock (with_list_owner (with_mlock m false) None) None]>
          (mutexes k).
Proof.
  intros Hop Hself Hme Hm Hown Hfirst Hacq Hfuel.
  eexists. split; [|split; [|split; [|split]]].
  - unfold mutex_lock_enter. rewrite Hop, (get_self_Ret _ _ Hself).
    cbn [negb]. do 2 kstep. cbn [mbind outcome_bind owner with_list_owner].
    rewrite decide_True by done. kstep. unfold lock_acquire. kstep.
    cbn [mbind outcome_bind]. rewrite decide_False by congruence.
    do 4 kstep. cbn [mbind outcome_bind]. reflexivity.
  - unfold holds_mutex. cbn [mutexes tcbs with_mutexes with_tcbs].
    rewrite !lookup_insert_eq. split; [exact Hself|]. by split.
  - unfold previous_of. cbn. by rewrite !lookup_insert_eq.
  - unfold interaction_lock. cbn. by rewrite !lookup_insert_eq.
  - intros b. eexists. eexists. split; [|split; [|split]].
    + kstep. reflexivity.
    + unfold mutex_unlock. cbn [operational with_mutexes with_tcbs].
      rewrite Hop. cbn [negb].
      erewrite get_self_Ret by (cbn; exact Hself).
      do 2 kstep. cbn [mbind outcome_bind acquired_lock with_acquired_lock].
      rewrite decide_False by (intros Hne; by apply Hne).
      do 4 kstep. cbn [mbind outcome_bind].
      rewrite decide_False by (cbn; discriminate).
      destruct fuel as [|fuel]; [lia|]. cbn [unlock_loop].
      unfold waitlist_removeHead. cbn [operational with_mutexes with_tcbs].
      rewrite Hop. cbn [negb]. kstep.
      cbn [mbind outcome_bind first_waiting with_previous_lock with_list_owner
           with_mlock with_owner].
      rewrite Hfirst. do 2 kstep. cbn [mbind outcome_bind owner with_owner].
      do 3 kstep. cbn [mbind outcome_bind owner with_owner with_list_owner with_mlock].
      reflexivity.
    + cbn [tcbs with_mutexes with_tcbs]. rewrite insert_insert_eq.
      apply insert_id. rewrite Hme. f_equal. by destruct tme.
    + cbn [mutexes with_mutexes with_tcbs]. rewrite !insert_insert_eq.
      f_equal. destruct m. cbn in *. by subst.
Qed.

Lemma mutex_lock_unlock_free_witness :
  ∃ k1 k1' k2,
    mutex_lock_enter 7 (mutex_init 7 kernel_sleepers) = Ret (k1, LOCK_RETURN) ∧
    holds_mutex k1 1%nat 7%nat ∧
    mutex_set 7 (λ m, with_mlock m true) k1 = Ret k1' ∧
    mutex_unlock 1 7 k1' = Ret (k2, None) ∧
    tcbs k2 = tcbs kernel_sleepers ∧
    mutexes k2 = mutexes (mutex_init 7 kernel_sleepers).
Proof.
  destruct (mutex_lock_unlock_free (mutex_init 7 kernel_sleepers) 7%nat 1%nat
              _ _ 1%nat eq_refl eq_refl eq_refl eq_refl eq_refl eq_refl)
    as (k1 & Hlock & Hholds & _ & _ & Hunlock).
  - discriminate.
  - lia.
  - destruct (Hunlock true) as (k1' & k2 & Hset & Hun & Ht & Hm).
    exists k1, k1', k2. split; [exact Hlock|]. split; [exact Hholds|].
    split; [exact Hset|]. split; [exact Hun|]. split; [exact Ht|].
    rewrite Hm. apply insert_id. reflexivity.
Defined.

(** What [waitlist_addLast] leaves alone. *)
Lemma waitlist_addLast_frame k mp thr k' :
  waitlist_addLast mp thr k = Ret k' →
  operational k' = operational k ∧ running k' = running k ∧
  (∀ m, mutexes k !! mp = Some m →
     ∃ m', mutexes k' !! mp = Some m' ∧ owner m' = owner m ∧
           previous_lock m' = previous_lock m) ∧
  (∀ b t, tcbs k !! b = Some t →
     ∃ t', tcbs k' !! b = Some t' ∧ tid t' = tid t ∧
           acquired_lock t' = acquired_lock t ∧ state t' = state t).
Proof.
  unfold waitlist_addLast. destruct (operational k) eqn:Hop; cbn [negb].
  2:{ intros [= <-]. rewrite Hop. split; [done|]. split; [done|].
      split; [intros m Hm|intros b t Hb]; eauto. }
  unfold load_mutex at 1. destruct (mutexes k !! mp) as [m|] eqn:Hm; [|done].
  cbn [deref mbind outcome_bind].
  destruct (last_waiting m) as [l|].
  - unfold thread_set, load_thread.
    destruct (tcbs k !! l) as [tl|] eqn:Hl; [|done].
    cbn [deref mbind outcome_bind]. kstep. intros [= <-].
    cbn [operational mutexes tcbs running with_mutexes with_tcbs].
    split; [done|]. split; [done|]. split.
    + intros m0 [= <-]. rewrite lookup_insert_eq. by eexists.
    + intros b t Hb. destruct (decide (l = b)) as [->|Hne].
      * rewrite lookup_insert_eq. eexists. split; [done|].
        assert (tl = t) as -> by congruence. done.
      * rewrite lookup_insert_ne by done. by exists t.
  - do 2 kstep. intros [= <-].
    cbn [operational mutexes tcbs running with_mutexes with_tcbs].
    split; [done|]. split; [done|]. split.
    + intros m0 [= <-]. rewrite lookup_insert_eq. by eexists.
    + intros b t Hb. by exists t.
Qed.

(** X21.  A contended lock.  On a mutex that another thread owns,
    [mutex_lock] puts the caller behind the threads that wait already,
    releases the interaction lock and yields to the owner; the owner
    stays the owner and the caller acquires nothing.  When the caller
    runs again and the mutex still has that owner, it yields to the
    owner once more and is not queued a second time. *)
Theorem mutex_lock_contended k mp me tme m o to q :
  operational k = true → get_running k = Some me →
  tcbs k !! me = Some tme → mutexes k !! mp = Some m →
  owner m = Some o → o ≠ me → tcbs k !! o = Some to →
  wait_queue k mp q → me ∉ q →
  ∃ k1,
    mutex_lock_enter mp k = Ret (k1, LOCK_YIELD (tid to)) ∧
    wait_queue k1 mp (q ++ [me]) ∧
    owner_of k1 mp = Some (Some o) ∧
    interaction_lock k1 mp = Some false ∧
    acquired_by k1 me = Some (acquired_lock tme) ∧
    ∃ k2, mutex_lock_resume me mp k1 = Ret (k2, LOCK_YIELD (tid to)) ∧
          wait_queue k2 mp (q ++ [me]) ∧
          owner_of k2 mp = Some (Some o) ∧
          interaction_lock k2 mp = Some false.
Proof.
  intros Hop Hself Hme Hm Hown Hne Ho Hq Hnotin.
  set (k0 := with_mutexes k (<[mp := with_list_owner m (Some me)]> (mutexes k))).
  assert (wait_queue k0 mp q) as Hq0
    by by apply (wait_queue_mutex_set k mp (λ m, with_list_owner m (Some me))).
  destruct (waitlist_addLast_spec k0 mp q me tme Hop Hq0 Hnotin Hme)
    as (ka & Hadd & Hqa & _).
  destruct (waitlist_addLast_frame _ _ _ _ Hadd) as (Hopa & _ & Hma & Hta).
  destruct (Hma (with_list_owner m (Some me))) as (ma & Hma' & Howna & _);
    [apply lookup_insert_eq|].
  destruct (Hta o to Ho) as (to' & Ho' & Htid & _).
  destruct (Hta me tme Hme) as (tme' & Hme' & _ & Hacq' & _).
  cbn [owner with_list_owner] in Howna. rewrite Hown in Howna.
  set (m1 := with_list_owner (with_mlock ma false) None).
  set (k1 := with_mutexes ka (<[mp := m1]> (mutexes ka))).
  assert (wait_queue k1 mp (q ++ [me])) as Hq1.
  { unfold k1, m1.
    by apply (wait_queue_mutex_set ka mp
                (λ m, with_list_owner (with_mlock m false) None)). }
  exists k1. split; [|split; [exact Hq1|split; [|split; [|split]]]].
  - unfold mutex_lock_enter. rewrite Hop, (get_self_Ret _ _ Hself).
    cbn [negb]. do 2 kstep. cbn [mbind outcome_bind owner with_list_owner].
    rewrite decide_False by congruence. unfold lock_wait. kstep.
    cbn [mbind outcome_bind owner with_list_owner].
    rewrite decide_True by congruence. cbn [negb]. fold k0. rewrite Hadd.
    do 3 kstep. rewrite insert_insert_eq.
    cbn [mbind outcome_bind owner with_list_owner with_mlock]. rewrite Howna.
    kstep. cbn [mbind outcome_bind]. by rewrite Htid.
  - unfold owner_of, k1. cbn. rewrite lookup_insert_eq. cbn. by rewrite Howna.
  - unfold interaction_lock, k1. cbn. by rewrite lookup_insert_eq.
  - unfold acquired_by, k1. cbn. rewrite Hme'. cbn. by rewrite Hacq'.
  - assert (mutexes k1 !! mp = Some m1) as Hm1 by apply lookup_insert_eq.
    assert (tcbs k1 !! o = Some to') as Ho1 by exact Ho'.
    assert (owner m1 = Some o) as Hown1 by exact Howna.
    clearbody k1 m1.
    eexists. split; [|split; [|split]].
    + unfold mutex_lock_resume, lock_wait. do 2 kstep.
      cbn [mbind outcome_bind owner with_list_owner with_mlock].
      rewrite Hown1, decide_True by congruence. cbn [negb]. do 3 kstep.
      cbn [mbind outcome_bind owner with_list_owner with_mlock]. rewrite Hown1.
      kstep. cbn [mbind outcome_bind]. rewrite Htid. reflexivity.
    + rewrite !insert_insert_eq.
      by apply (wait_queue_mutex_set k1 mp
                  (λ m, with_list_owner
                          (with_mlock (with_list_owner m (Some me)) false) None)).
    + unfold owner_of. cbn. rewrite lookup_insert_eq. cbn. by rewrite Hown1.
    + unfold interaction_lock. cbn. by rewrite lookup_insert_eq.
Qed.

Lemma mutex_lock_contended_witness :
  ∃ k1 k2,
    mutex_lock_enter 7 kernel_contended = Ret (k1, LOCK_YIELD 33) ∧
    wait_queue k1 7 [1%nat] ∧ owner_of k1 7 = Some (Some 2%nat) ∧
    mutex_lock_resume 1 7 k1 = Ret (k2, LOCK_YIELD 33) ∧
    wait_queue k2 7 [1%nat].
Proof.
  destruct (mutex_lock_contended kernel_contended 7%nat 1%nat
              (example_thread 32 THR_RUNNING L_running None None 0)
              {| mlock := true; owner := Some 2%nat; list_owner := None;
                 first_waiting := None; last_waiting := None;
                 previous_lock := None |}
              2%nat
              (with_acquired_lock
                 (example_thread 33 THR_SLEEPING L_sleeping (Some 3%nat) None 10)
                 (Some 7%nat))
              [])
    as (k1 & Henter & Hq1 & Hown1 & _ & _ & k2 & Hres & Hq2 & _).
  - reflexivity.
  - reflexivity.
  - reflexivity.
  - reflexivity.
  - reflexivity.
  - discriminate.
  - reflexivity.
  - apply (bool_decide_unpack _). vm_compute. exact I.
  - apply not_elem_of_nil.
  - exists k1, k2. split; [exact Henter|]. split; [exact Hq1|].
    split; [exact Hown1|]. split; [exact Hres|exact Hq2].
Defined.

(** [mutex_unlock] by the owner, with a waiter that can run: the one
    statement of what it leaves. *)
Lemma mutex_unlock_spec k mp me q1 a q2 fuel :
  operational k = true → wait_queue k mp (q1 ++ a :: q2) →
  holds_mutex k me mp →
  Forall (λ b, state_of k b ≠ Some THR_RUNNING) q1 →
  state_of k a = Some THR_RUNNING → (length q1 < fuel)%nat →
  ∃ k' ta m',
    mutex_unlock fuel mp k = Ret (k', Some (tid ta)) ∧
    tcbs k !! a = Some ta ∧
    mutexes k' !! mp = Some m' ∧ owner m' = Some a ∧ mlock m' = false ∧
    wait_queue k' mp q2 ∧
    (∀ b, b ≠ me → tcbs k' !! b = tcbs k !! b) ∧
    acquired_by k' me = previous_of k mp ∧ operational k' = true.
Proof.
  intros Hop Hq (Hself & Hacq & Hown) Hq1 Ha Hfuel.
  destruct (mutexes k !! mp) as [m|] eqn:Hm; [|done].
  destruct (tcbs k !! me) as [tme|] eqn:Hme; [|done].
  simpl in Hacq, Hown. injection Hacq as Hacq. injection Hown as Hown.
  set (m1 := with_list_owner m (Some me)).
  set (k1 := with_mutexes k (<[mp := m1]> (mutexes k))).
  set (tme2 := with_acquired_lock tme (previous_lock m1)).
  set (k2 := with_tcbs k1 (<[me := tme2]> (tcbs k1))).
  set (m3 := with_previous_lock m1 None).
  set (k3 := with_mutexes k2 (<[mp := m3]> (mutexes k2))).
  assert (mutexes k1 !! mp = Some m1) as Hm1 by apply lookup_insert_eq.
  assert (mutexes k3 !! mp = Some m3) as Hm3 by apply lookup_insert_eq.
  assert (wait_queue k3 mp (q1 ++ a :: q2)) as Hq3.
  { apply (wait_queue_mutex_set k2 mp (λ m, with_previous_lock m None) m1);
      [done..|].
    apply (wait_queue_thread_set k1 mp me
             (λ t, with_acquired_lock t (previous_lock m1)) tme); [done..|].
    by apply (wait_queue_mutex_set k mp (λ m, with_list_owner m (Some me)) m). }
  assert (∀ b, state_of k3 b = state_of k b) as Hst.
  { intros b.
    apply (state_of_thread_set k1 me
             (λ t, with_acquired_lock t (previous_lock m1)) tme b); done. }
  destruct (unlock_loop_spec fuel k3 mp q1 a q2)
    as (k4 & Hloop & Hq4 & Hown4 & Ht4 & Hop4); [done|done| |by rewrite Hst|done|].
  { eapply Forall_impl; [exact Hq1|]. intros b Hb. by rewrite Hst. }
  destruct (mutexes k4 !! mp) as [m4|] eqn:Hm4; [|done].
  simpl in Hown4. injection Hown4 as Hown4.
  set (k5 := with_mutexes k4 (<[mp := with_mlock m4 false]> (mutexes k4))).
  set (k6 := with_mutexes k5
               (<[mp := with_list_owner (with_mlock m4 false) None]> (mutexes k5))).
  assert (mutexes k5 !! mp = Some (with_mlock m4 false)) as Hm5
    by apply lookup_insert_eq.
  assert (∃ ta ta', tcbs k !! a = Some ta ∧ tcbs k6 !! a = Some ta' ∧
                    tid ta' = tid ta) as (ta & ta' & Hta & Hta' & Htid).
  { unfold state_of in Ha. destruct (tcbs k !! a) as [ta|] eqn:Hta; [|done].
    exists ta. change (tcbs k6) with (tcbs k4). rewrite Ht4.
    change (tcbs k3) with (<[me := tme2]> (tcbs k)).
    destruct (decide (me = a)) as [->|Hne].
    - rewrite lookup_insert_eq. exists tme2. split; [done|]. split; [done|].
      assert (tme = ta) as -> by congruence. done.
    - rewrite lookup_insert_ne by done. by exists ta. }
  exists k6, ta, (with_list_owner (with_mlock m4 false) None).
  split.
  { unfold mutex_unlock. rewrite Hop. cbn [negb].
    unfold get_self. rewrite Hself. cbn [mbind outcome_bind].
    rewrite (mutex_set_Ret k mp (λ m, with_list_owner m (Some me)) m Hm).
    cbn [mbind outcome_bind]. fold m1. fold k1.
    rewrite (load_thread_Ret k1 me tme Hme). cbn [mbind outcome_bind].
    rewrite Hacq. rewrite decide_False by (intros Hne; by apply Hne).
    cbn [deref mbind outcome_bind].
    rewrite (load_mutex_Ret _ _ _ Hm1). cbn [mbind outcome_bind].
    rewrite (thread_set_Ret k1 me (λ t, with_acquired_lock t (previous_lock m1))
               tme Hme).
    cbn [mbind outcome_bind]. fold tme2. fold k2.
    rewrite (mutex_set_Ret k2 mp (λ m, with_previous_lock m None) m1 Hm1).
    cbn [mbind outcome_bind]. fold m3. fold k3.
    rewrite (load_mutex_Ret _ _ _ Hm3). cbn [mbind outcome_bind].
    rewrite decide_False by (simpl; by rewrite Hown).
    rewrite Hloop. cbn [mbind outcome_bind].
    rewrite (mutex_set_Ret k4 mp (λ m, with_mlock m false) m4 Hm4).
    cbn [mbind outcome_bind]. fold k5.
    rewrite (mutex_set_Ret k5 mp (λ m, with_list_owner m None) _ Hm5).
    cbn [mbind outcome_bind]. fold k6.
    erewrite load_mutex_Ret; [|apply lookup_insert_eq].
    cbn [mbind outcome_bind owner with_list_owner with_mlock].
    rewrite Hown4. rewrite (load_thread_Ret k6 a ta' Hta').
    cbn [mbind outcome_bind]. by rewrite Htid. }
  split; [done|]. split; [apply lookup_insert_eq|]. split; [exact Hown4|].
  split; [done|]. split.
  { apply (wait_queue_mutex_set k5 mp (λ m, with_list_owner m None)
             (with_mlock m4 false)); [done..|].
    apply (wait_queue_mutex_set k4 mp (λ m, with_mlock m false) m4); done. }
  split; [|split; [|exact Hop4]].
  - intros b Hb. change (tcbs k6) with (tcbs k4). rewrite Ht4.
    change (tcbs k3) with (<[me := tme2]> (tcbs k)). by rewrite lookup_insert_ne.
  - unfold acquired_by, previous_of. change (tcbs k6) with (tcbs k4).
    rewrite Ht4. change (tcbs k3) with (<[me := tme2]> (tcbs k)).
    by rewrite lookup_insert_eq, Hm.
Qed.

Lemma wait_queue_ext k k' mp q :
  tcbs k' = tcbs k → mutexes k' = mutexes k →
  wait_queue k mp q → wait_queue k' mp q.
Proof. unfold wait_queue. by intros -> ->. Qed.

Lemma wait_queue_sched_frame P k k' mp q :
  sched_frame P k k' → wait_queue k mp q → wait_queue k' mp q.
Proof.
  intros ((_ & _ & _ & _ & Hmx) & Hid & _). unfold wait_queue. rewrite Hmx.
  destruct (mutexes k !! mp) as [m|]; [|done].
  intros (Hnd & Hl & Hq). split; [done|]. split; [done|].
  destruct q as [|b q]; [done|]. destruct Hq as [Hfirst Hc].
  split; [done|]. eapply wait_chain_ext; [|exact Hc].
  intros c tc _ Hc'. specialize (Hid c). rewrite Hc' in Hid.
  destruct (tcbs k' !! c) as [tc'|]; [|done].
  exists tc'. split; [done|]. simpl in Hid. unfold thread_ident in Hid. congruence.
Qed.

(** X22.  The hand-off of a mutex.  When the owner calls
    [mutex_unlock] and a thread that can run waits, the owner yields to
    the first such waiter, which is the owner now.  Whatever the
    scheduler does to the lists and the states of the threads before
    that waiter runs again, its [mutex_lock] then returns: it is the
    owner, the mutex is its last acquisition and remembers its earlier
    one, the interaction lock is released, the waiters behind it still
    wait in their order, and the thread that released the mutex has it
    no longer as its last acquisition but the one before. *)
Theorem mutex_handoff k mp me q1 a q2 fuel :
  operational k = true → holds_mutex k me mp →
  wait_queue k mp (q1 ++ a :: q2) →
  Forall (λ b, state_of k b ≠ Some THR_RUNNING) q1 →
  state_of k a = Some THR_RUNNING →
  acquired_by k a ≠ Some (Some mp) →
  (length q1 < fuel)%nat →
  ∃ k1 ta,
    mutex_unlock fuel mp k = Ret (k1, Some (tid ta)) ∧
    tcbs k !! a = Some ta ∧
    ∀ k1', sched_frame (λ _, True) k1 k1' →
      ∃ k2, mutex_lock_resume a mp k1' = Ret (k2, LOCK_RETURN) ∧
            owner_of k2 mp = Some (Some a) ∧
            acquired_by k2 a = Some (Some mp) ∧
            previous_of k2 mp = Some (acquired_lock ta) ∧
            interaction_lock k2 mp = Some false ∧
            wait_queue k2 mp q2 ∧
            acquired_by k2 me = previous_of k mp.
Proof.
  intros Hop Hholds Hq Hq1 Ha Hacq Hfuel.
  assert (a ≠ me) as Hne.
  { intros ->. by destruct Hholds as (_ & ? & _). }
  destruct (mutex_unlock_spec k mp me q1 a q2 fuel Hop Hq Hholds Hq1 Ha Hfuel)
    as (k1 & ta & m1 & Hun & Hta & Hm1 & Hown1 & _ & Hq2 & Hframe & Hrel & _).
  exists k1, ta. split; [done|]. split; [done|].
  intros k1' Hf. pose proof (wait_queue_sched_frame _ _ _ _ _ Hf Hq2) as Hq2'.
  pose proof Hf as ((_ & _ & _ & _ & Hmx) & Hid & _).
  rewrite <- Hmx in Hm1.
  assert (∃ ta', tcbs k1' !! a = Some ta' ∧ acquired_lock ta' = acquired_lock ta)
    as (ta' & Hta' & Hacq').
  { specialize (Hid a). rewrite (Hframe a Hne), Hta in Hid.
    destruct (tcbs k1' !! a) as [ta'|]; [|done]. exists ta'. split; [done|].
    simpl in Hid. unfold thread_ident in Hid. congruence. }
  assert (acquired_by k1' me = previous_of k mp) as Hrel'.
  { rewrite <- Hrel. unfold acquired_by. specialize (Hid me).
    destruct (tcbs k1' !! me), (tcbs k1 !! me); simpl in *; try done.
    unfold thread_ident in Hid. congruence. }
  assert (Some mp ≠ acquired_lock ta') as Hfresh.
  { rewrite Hacq'. intros Heq. apply Hacq. unfold acquired_by.
    rewrite Hta. simpl. by rewrite <- Heq. }
  eexists. split; [|split; [|split; [|split; [|split; [|split]]]]].
  - unfold mutex_lock_resume, lock_wait. do 2 kstep.
    cbn [mbind outcome_bind owner with_list_owner]. rewrite Hown1.
    rewrite decide_False by (intros Hx; by apply Hx).
    unfold lock_acquire. kstep. cbn [mbind outcome_bind].
    rewrite decide_False by done. do 4 kstep. cbn [mbind outcome_bind].
    reflexivity.
  - unfold owner_of. cbn. rewrite !lookup_insert_eq. cbn. by rewrite Hown1.
  - unfold acquired_by. cbn. by rewrite lookup_insert_eq.
  - unfold previous_of. cbn. rewrite !lookup_insert_eq. cbn. by rewrite Hacq'.
  - unfold interaction_lock. cbn. by rewrite !lookup_insert_eq.
  - set (f := λ m, with_list_owner
                     (with_mlock
                        (with_previous_lock (with_list_owner m (Some a))
                           (acquired_lock ta')) false) None).
    set (ka := with_tcbs k1' (<[a := with_acquired_lock ta' (Some mp)]> (tcbs k1'))).
    apply (wait_queue_ext (with_mutexes ka (<[mp := f m1]> (mutexes ka)))).
    + reflexivity.
    + cbn. by rewrite !insert_insert_eq.
    + apply (wait_queue_mutex_set ka mp f m1); [done..|].
      by apply (wait_queue_thread_set k1' mp a
                  (λ t, with_acquired_lock t (Some mp)) ta').
  - rewrite <- Hrel'. unfold acquired_by. cbn. by rewrite lookup_insert_ne.
Qed.

Lemma mutex_handoff_witness :
  ∃ k1 k2,
    mutex_unlock 2 7 kernel_mutex = Ret (k1, Some 34) ∧
    mutex_lock_resume 3 7 k1 = Ret (k2, LOCK_RETURN) ∧
    owner_of k2 7 = Some (Some 3%nat) ∧
    acquired_by k2 3 = Some (Some 7%nat) ∧
    acquired_by k2 1 = Some None ∧
    wait_queue k2 7 [].
Proof.
  destruct (mutex_handoff kernel_mutex 7%nat 1%nat [2%nat] 3%nat [] 2)
    as (k1 & ta & Hun & Hta & Hres).
  - reflexivity.
  - apply (bool_decide_unpack _). vm_compute. exact I.
  - apply (bool_decide_unpack _). vm_compute. exact I.
  - apply Forall_singleton. discriminate.
  - reflexivity.
  - discriminate.
  - simpl. lia.
  - injection Hta as <-.
    destruct (Hres k1 (sched_frame_refl _ k1))
      as (k2 & Hr & Hown & Hacq & _ & _ & Hq & Hrel).
    exists k1, k2. split; [exact Hun|]. split; [exact Hr|].
    split; [exact Hown|]. split; [exact Hacq|]. split; [exact Hrel|exact Hq].
Defined.

(** X23.  A waiter left behind.  [waitlist_addLast] does not clear the
    field [mutex_nextwait] of the thread it appends, and
    [waitlist_removeHead] takes the list for empty when [first_waiting]
    is [NULL] whereas [waitlist_addLast] does so when [last_waiting]
    is.  So when the only waiter [a] is removed and its field still
    names a thread [c] from an earlier wait, the list is empty for
    [waitlist_addLast] but has [c] at its head for
    [waitlist_removeHead]; and a [mutex_unlock] in such a state, by an
    owner for whose mutex nobody waits, makes [c] the owner and yields
    to it when [c] is in state [THR_RUNNING]. *)
Theorem mutex_stale_waiter k mp m c tc :
  operational k = true → mutexes k !! mp = Some m → tcbs k !! c = Some tc →
  (∀ a ta, wait_queue k mp [a] → tcbs k !! a = Some ta →
     mutex_nextwait ta = Some c →
     ∃ k1 m1, waitlist_removeHead mp k = Ret (Some a, k1) ∧
              wait_queue k1 mp [] ∧ mutexes k1 !! mp = Some m1 ∧
              first_waiting m1 = Some c ∧ last_waiting m1 = None) ∧
  (∀ me fuel, holds_mutex k me mp → wait_queue k mp [] →
     first_waiting m = Some c → state tc = THR_RUNNING → (0 < fuel)%nat →
     ∃ k', mutex_unlock fuel mp k = Ret (k', Some (tid tc)) ∧
           owner_of k' mp = Some (Some c) ∧ wait_queue k' mp []).
Proof.
  intros Hop Hm Hc. split.
  - intros a ta Hq Ha Hnext. unfold wait_queue in Hq. rewrite Hm in Hq.
    destruct Hq as (_ & Hlast & Hfirst & _). simpl in Hlast.
    eexists. eexists. split; [|split; [|split; [|split]]].
    + unfold waitlist_removeHead. rewrite Hop. cbn [negb]. kstep.
      cbn [mbind outcome_bind]. rewrite Hfirst. do 3 kstep.
      cbn [mbind outcome_bind last_waiting with_first_waiting].
      rewrite Hlast, decide_True by done. kstep. cbn [mbind outcome_bind].
      reflexivity.
    + unfold wait_queue. cbn. rewrite lookup_insert_eq. cbn.
      split; [apply NoDup_nil_2|done].
    + cbn. apply lookup_insert_eq.
    + cbn. by rewrite Hnext.
    + reflexivity.
  - intros me fuel (Hself & Hacq & Hown) Hq Hfirst Hst Hfuel.
    unfold wait_queue in Hq. rewrite Hm in Hq. destruct Hq as (_ & Hlast & _).
    simpl in Hlast. rewrite Hm in Hown. simpl in Hown. injection Hown as Hown.
    destruct (tcbs k !! me) as [tme|] eqn:Hme; [|done].
    simpl in Hacq. injection Hacq as Hacq.
    destruct fuel as [|fuel]; [lia|].
    assert (∃ tc', (∀ x, <[me := with_acquired_lock tme x]> (tcbs k) !! c
                         = Some (tc' x)) ∧
                   (∀ x, tid (tc' x) = tid tc ∧ state (tc' x) = state tc ∧
                         mutex_nextwait (tc' x) = mutex_nextwait tc))
      as (tc' & Hc' & Hsame).
    { destruct (decide (me = c)) as [->|Hne].
      - exists (λ x, with_acquired_lock tme x). split.
        + intros x. apply lookup_insert_eq.
        + intros x. assert (tme = tc) as -> by congruence. done.
      - exists (λ _, tc). split; [|done].
        intros x. by rewrite lookup_insert_ne. }
    eexists. split; [|split].
    + unfold mutex_unlock. rewrite Hop, (get_self_Ret _ _ Hself). cbn [negb].
      do 2 kstep. cbn [mbind outcome_bind]. rewrite Hacq.
      rewrite decide_False by (intros Hx; by apply Hx). do 4 kstep.
      cbn [mbind outcome_bind owner with_previous_lock with_list_owner].
      rewrite Hown, decide_False by done. cbn [unlock_loop].
      unfold waitlist_removeHead. cbn [operational with_mutexes with_tcbs].
      rewrite Hop. cbn [negb]. kstep.
      cbn [mbind outcome_bind first_waiting with_previous_lock with_list_owner].
      rewrite Hfirst. do 3 kstep.
      cbn [mbind outcome_bind last_waiting with_first_waiting with_previous_lock
           with_list_owner].
      rewrite Hlast, decide_False by done. do 2 kstep.
      cbn [mbind outcome_bind owner with_owner]. kstep.
      cbn [mbind outcome_bind].
      rewrite (proj1 (proj2 (Hsame _))), Hst.
      rewrite decide_False by (intros Hx; by apply Hx). do 3 kstep.
      cbn [mbind outcome_bind owner with_owner with_list_owner with_mlock].
      kstep. cbn [mbind outcome_bind].
      rewrite (proj1 (Hsame _)). reflexivity.
    + unfold owner_of. cbn. by rewrite lookup_insert_eq.
    + unfold wait_queue. cbn. rewrite lookup_insert_eq. cbn.
      split; [apply NoDup_nil_2|]. by rewrite Hlast.
Qed.

Lemma mutex_stale_waiter_witness :
  waitlist_removeHead 7 kernel_last_waiter = Ret (Some 2%nat, kernel_left_behind) ∧
  ∃ k', mutex_unlock 1 7 kernel_left_behind = Ret (k', Some 34) ∧
        owner_of k' 7 = Some (Some 3%nat) ∧ wait_queue k' 7 [].
Proof.
  split; [reflexivity|].
  refine (proj2 (mutex_stale_waiter kernel_left_behind 7%nat _ 3%nat _
                   eq_refl eq_refl eq_refl) 1%nat 1%nat _ _ eq_refl eq_refl _).
  - apply (bool_decide_unpack _). vm_compute. exact I.
  - apply (bool_decide_unpack _). vm_compute. exact I.
  - lia.
Defined.

(** * A mutex handed to a thread that does not wait *)

(** C5 fails in the code.  On a fresh mutex three threads run
    [schedule_requeue]: thread 32 takes the mutex, threads 33 and 34
    queue for it and get it in turn, thread 33 queues once more while
    thread 34 holds it and gets it when thread 34 lets go.  Thread 33
    now holds the mutex and nobody waits ([last_waiting] is [NULL]),
    but [first_waiting] names thread 34: [waitlist_removeHead] took it
    from the [mutex_nextwait] of thread 33, which [waitlist_addLast]
    had not cleared when thread 33 queued again.  The [mutex_unlock] of
    thread 33 then makes thread 34 the owner and yields to it, although
    thread 34 does not wait for the mutex and has not acquired it; a
    [mutex_lock] by thread 32 after that queues behind an owner that is
    not going to call [mutex_unlock]. *)
Theorem mutex_unlock_stale_owner :
  ∃ k1 m1 k2 k3 k4,
    mutex_schedule 1 7 schedule_requeue (mutex_init 7 kernel_three) = Ret k1 ∧
    holds_mutex k1 2 7 ∧ wait_queue k1 7 [] ∧
    mutexes k1 !! 7%nat = Some m1 ∧
    first_waiting m1 = Some 3%nat ∧ last_waiting m1 = None ∧
    acquired_by k1 3 = Some None ∧
    mutex_unlock 1 7 k1 = Ret (k2, Some 34) ∧
    owner_of k2 7 = Some (Some 3%nat) ∧ acquired_by k2 3 = Some None ∧
    wait_queue k2 7 [] ∧
    set_running (Some 1%nat) k2 = Ret (0, k3) ∧
    mutex_lock_enter 7 k3 = Ret (k4, LOCK_YIELD 34) ∧
    owner_of k4 7 = Some (Some 3%nat) ∧ wait_queue k4 7 [1%nat].
Proof.
  do 5 eexists.
  split; [vm_compute; reflexivity|].
  split; [apply (bool_decide_unpack _); vm_compute; exact I|].
  split; [apply (bool_decide_unpack _); vm_compute; exact I|].
  split; [vm_compute; reflexivity|].
  split; [reflexivity|]. split; [reflexivity|].
  split; [vm_compute; reflexivity|].
  split; [vm_compute; reflexivity|].
  split; [vm_compute; reflexivity|].
  split; [vm_compute; reflexivity|].
  split; [apply (bool_decide_unpack _); vm_compute; exact I|].
  split; [vm_compute; reflexivity|].
  split; [vm_compute; reflexivity|].
  split; [vm_compute; reflexivity|].
  apply (bool_decide_unpack _). vm_compute. exact I.
Qed.

(** * Reader/writer locks: from writer to writer *)

Ltac pos_cases t :=
  intros;
  match goal with
  | u : nat |- _ =>
      lazymatch u with
      | t => fail
      | _ =>
          destruct (decide (t = u)) as [<-|?];
          [rewrite lookup_insert_eq in *|rewrite lookup_insert_ne in * by done];
          cbn in *; congruence
      end
  end.

(** While [writer_in] is set, a section of a newcomer lets nobody in. *)
Lemma rw_step_writer_in s0 e s s' :
  rw_newcomer s0 e →
  writer_in (rw_lock s) = true →
  (∀ u, rw_pos_of s u = RW_WOKEN RWLOCK_WRITE →
        rw_pos_of s0 u = RW_WOKEN RWLOCK_WRITE) →
  rw_step e s = Ret s' →
  writer_in (rw_lock s') = true ∧
  (∀ u ty, rw_pos_of s' u = RW_IN ty → rw_pos_of s u = RW_IN ty) ∧
  (∀ u, rw_pos_of s' u = RW_WOKEN RWLOCK_WRITE →
        rw_pos_of s u = RW_WOKEN RWLOCK_WRITE) ∧
  (∀ u, rw_pos_of s u = RW_WOKEN RWLOCK_WRITE →
        rw_pos_of s' u = RW_WOKEN RWLOCK_WRITE).
Proof.
  destruct s as [l m]. unfold rw_step, rw_pos_of. cbn [rw_lock rw_threads].
  intros Hnew Hin Hwoken. destruct e as [t type|t|t]; [| |done].
  - destruct (default RW_OUT (m !! t)) eqn:Hpos; try done.
    unfold rwlock_lock, reader_try. rewrite Hin. cbn [orb].
    destruct (decide (type = RWLOCK_READ)) as [->|Hr];
      [|destruct (decide (type = RWLOCK_WRITE)) as [->|Hw]; [|done]];
      cbn [mbind outcome_bind]; intros [= <-];
      cbn [rw_lock rw_threads writer_in rw_entered];
      (split; [done|]); (split; [|split]); pos_cases t.
  - destruct (default RW_OUT (m !! t)) eqn:Hpos; try done.
    assert (type ≠ RWLOCK_WRITE) as Hty.
    { intros ->. simpl in Hnew. apply Hnew. apply Hwoken.
      unfold rw_pos_of. by rewrite Hpos. }
    unfold rwlock_lock_woken, reader_try. cbn. rewrite Hin. cbn [orb].
    destruct (decide (type = RWLOCK_READ)) as [->|Hr];
      [|by rewrite decide_False by done].
    cbn [mbind outcome_bind]. intros [= <-].
    cbn [rw_lock rw_threads writer_in rw_entered].
    split; [done|]. split; [|split]; pos_cases t.
Qed.

Lemma rw_run_writer_in s0 es :
  ∀ s s',
    Forall (rw_newcomer s0) es →
    writer_in (rw_lock s) = true →
    (∀ u, rw_pos_of s u = RW_WOKEN RWLOCK_WRITE →
          rw_pos_of s0 u = RW_WOKEN RWLOCK_WRITE) →
    rw_run es s = Ret s' →
    writer_in (rw_lock s') = true ∧
    (∀ u ty, rw_pos_of s' u = RW_IN ty → rw_pos_of s u = RW_IN ty) ∧
    (∀ u, rw_pos_of s u = RW_WOKEN RWLOCK_WRITE →
          rw_pos_of s' u = RW_WOKEN RWLOCK_WRITE).
Proof.
  induction es as [|e es IH]; intros s s' Hes Hin Hwoken; simpl.
  - by intros [= <-].
  - apply Forall_cons in Hes as [He Hes].
    destruct (rw_step e s) as [s1| | |] eqn:Hstep; cbn [mbind outcome_bind];
      try done.
    destruct (rw_step_writer_in s0 e s s1 He Hin Hwoken Hstep)
      as (Hin1 & Hnone & Hback & Hkeep).
    intros Hrun.
    destruct (IH s1 s' Hes Hin1) as (Hin' & Hnone' & Hkeep'); [|done|].
    { intros u Hu. apply Hwoken. by apply Hback. }
    split; [done|]. split.
    + intros u ty Hu. apply Hnone. by apply Hnone'.
    + intros u Hu. apply Hkeep'. by apply Hkeep.
Qed.

(** X25.  From writer to writer.  When a writer leaves the lock while
    writers wait, [rwlock_unlock] wakes the writer that has waited
    longest and leaves [writer_in] set.  Until that writer is back from
    its wait, whatever calls of [rwlock_lock] come and whatever readers
    come back from theirs, [writer_in] stays set and no thread gets
    into the lock; the woken writer then gets in. *)
Theorem rw_writer_handoff s t w ws :
  rw_pos_of s t = RW_IN RWLOCK_WRITE →
  writer_in (rw_lock s) = true → writers_waiting (rw_lock s) ≠ 0 →
  no_threads_in (rw_lock s) = w :: ws →
  rw_pos_of s w = RW_WAIT RWLOCK_WRITE →
  ∃ s1,
    rw_step (EV_UNLOCK t) s = Ret s1 ∧
    rw_pos_of s1 t = RW_OUT ∧ rw_pos_of s1 w = RW_WOKEN RWLOCK_WRITE ∧
    no_threads_in (rw_lock s1) = ws ∧
    ∀ es s2,
      Forall (rw_newcomer s1) es → rw_run es s1 = Ret s2 →
      writer_in (rw_lock s2) = true ∧
      (∀ u ty, rw_pos_of s2 u = RW_IN ty → rw_pos_of s1 u = RW_IN ty) ∧
      ∃ s3, rw_step (EV_WOKEN w) s2 = Ret s3 ∧
            rw_pos_of s3 w = RW_IN RWLOCK_WRITE ∧
            writer_in (rw_lock s3) = true.
Proof.
  destruct s as [l m]. unfold rw_pos_of at 1 2. cbn [rw_lock rw_threads].
  intros Ht Hin Hww Hq Hw.
  assert (t ≠ w) as Hne by (intros ->; congruence).
  eexists. split; [|split; [|split; [|split]]].
  - unfold rw_step, rw_pos_of. cbn [rw_lock rw_threads]. rewrite Ht.
    unfold rwlock_unlock. rewrite Hin, decide_True by done.
    rewrite Hq. cbn [cond_signal foldl]. reflexivity.
  - unfold rw_pos_of, rw_wake. cbn [rw_threads].
    rewrite lookup_insert_ne by done.
    destruct (m !! w) as [[]|]; simpl in Hw; try done.
    rewrite lookup_insert_ne by done. by rewrite lookup_insert_eq.
  - unfold rw_pos_of, rw_wake. cbn [rw_threads].
    rewrite lookup_insert_ne by done.
    destruct (m !! w) as [[]|]; simpl in Hw; try done.
    rewrite lookup_insert_eq. simpl. congruence.
  - reflexivity.
  - intros es s2 Hes Hrun.
    match type of Hrun with
    | rw_run _ ?s1 = _ =>
        destruct (rw_run_writer_in s1 es s1 s2 Hes eq_refl (λ u H, H) Hrun)
          as (Hin2 & Hnone & Hkeep)
    end.
    split; [done|]. split; [done|].
    assert (rw_pos_of s2 w = RW_WOKEN RWLOCK_WRITE) as Hw2.
    { apply Hkeep. unfold rw_pos_of, rw_wake. cbn [rw_threads].
      rewrite lookup_insert_ne by done.
      destruct (m !! w) as [[]|]; simpl in Hw; try done.
      rewrite lookup_insert_eq. simpl. congruence. }
    eexists. split; [|split].
    + unfold rw_step. rewrite Hw2. unfold rwlock_lock_woken.
      rewrite decide_False by discriminate. rewrite decide_True by done.
      cbn [mbind outcome_bind]. reflexivity.
    + unfold rw_pos_of. cbn. by rewrite lookup_insert_eq.
    + reflexivity.
Qed.

Lemma rw_writer_handoff_witness :
  rw_run [EV_LOCK 1 RWLOCK_WRITE; EV_LOCK 3 RWLOCK_WRITE; EV_LOCK 2 RWLOCK_READ]
    rw_system_init = Ret rw_writer_leaving ∧
  ∃ s1 s2 s3,
    rw_step (EV_UNLOCK 1) rw_writer_leaving = Ret s1 ∧
    rw_run [EV_LOCK 4 RWLOCK_WRITE; EV_LOCK 5 RWLOCK_READ] s1 = Ret s2 ∧
    rw_pos_of s2 4 = RW_WAIT RWLOCK_WRITE ∧ rw_pos_of s2 5 = RW_WAIT RWLOCK_READ ∧
    rw_pos_of s2 2 = RW_WAIT RWLOCK_READ ∧
    rw_step (EV_WOKEN 3) s2 = Ret s3 ∧ rw_pos_of s3 3 = RW_IN RWLOCK_WRITE.
Proof.
  split; [vm_compute; reflexivity|].
  destruct (rw_writer_handoff rw_writer_leaving 1%nat 3%nat [])
    as (s1 & Hstep & _ & _ & _ & Hrest).
  - reflexivity.
  - reflexivity.
  - discriminate.
  - reflexivity.
  - reflexivity.
  - pose proof Hstep as Hs1. vm_compute in Hs1. injection Hs1 as <-.
    edestruct (Hrest [EV_LOCK 4 RWLOCK_WRITE; EV_LOCK 5 RWLOCK_READ])
      as (_ & _ & s3 & Hwoken & Hin & _).
    + apply (bool_decide_unpack _). vm_compute. exact I.
    + vm_compute. reflexivity.
    + eexists. eexists. exists s3. split; [exact Hstep|].
      split; [vm_compute; reflexivity|].
      split; [vm_compute; reflexivity|]. split; [vm_compute; reflexivity|].
      split; [vm_compute; reflexivity|]. split; [exact Hwoken|exact Hin].
Defined.

(** * Processes: the end of a process *)

Lemma process_set_Ret k p f pr :
  pcbs k !! p = Some pr →
  process_set p f k = Ret (with_pcbs k (<[p := f pr]> (pcbs k))).
Proof. unfold process_set, load_process. by intros ->. Qed.

Ltac plookup :=
  cbn [mutexes tcbs pcbs with_mutexes with_tcbs with_pcbs];
  first [ eassumption | apply lookup_insert_eq
        | rewrite lookup_insert_ne by done; eassumption
        | rewrite lookup_insert_ne by done; apply lookup_insert_eq
        | rewrite !lookup_insert_ne by done; eassumption ].

(** One step of a run through assignments to processes and threads. *)
Ltac pstep :=
  cbn [mbind outcome_bind deref];
  first
    [ erewrite load_process_Ret by plookup
    | erewrite process_set_Ret by plookup
    | erewrite load_thread_Ret by plookup
    | erewrite thread_set_Ret by plookup ];
  cbn [mutexes tcbs pcbs running sleeping idle_thread num_ticks no_switch
       operational with_mutexes with_tcbs with_pcbs].

(** ** The threads of a process and [destroy_thread] *)

Lemma thread_family_ext m m' p y c l :
  (∀ a t, a ∈ l → m !! a = Some t →
     ∃ t', m' !! a = Some t' ∧ process t' = process t ∧
           younger_sibling t' = younger_sibling t ∧
           older_sibling t' = older_sibling t) →
  thread_family m p y c l → thread_family m' p y c l.
Proof.
  revert y c. induction l as [|a l IH]; intros y c Hext; simpl; [done|].
  intros [-> Ha]. split; [done|].
  destruct (m !! a) as [t|] eqn:Hma; [|done].
  destruct (Hext a t) as (t' & -> & Hp & Hy & Ho); [by left|done|].
  rewrite Hp, Hy, Ho. destruct Ha as (? & ? & Hf). split; [done|].
  split; [done|]. apply IH; [|done].
  intros b tb Hb. apply Hext. by right.
Qed.

(** The youngest thread of a process is destroyed: the next one is the
    youngest. *)
Lemma destroy_thread_youngest k p pr a ta l :
  pcbs k !! p = Some pr → tcbs k !! a = Some ta →
  process ta = Some p → younger_sibling ta = None →
  thread_family (tcbs k) p (Some a) (older_sibling ta) l → a ∉ l → NoDup l →
  ∃ k1,
    destroy_thread (Some a) k = Ret (0, k1) ∧
    pcbs k1 = <[p := with_youngest_thread pr (older_sibling ta)]> (pcbs k) ∧
    tcbs k1 !! a = None ∧
    (∀ b, b ≠ a → b ∉ l → tcbs k1 !! b = tcbs k !! b) ∧
    thread_family (tcbs k1) p None (older_sibling ta) l.
Proof.
  intros Hp Ha Hproc Hy Hfam Hnotin Hnd.
  destruct l as [|o l].
  - simpl in Hfam. eexists. split; [|split; [|split; [|split]]].
    + unfold destroy_thread. pstep. cbn [mbind outcome_bind].
      rewrite Hfam, Hy, Hproc. do 4 pstep. cbn [mbind outcome_bind].
      rewrite Hfam. reflexivity.
    + cbn. by rewrite Hfam.
    + cbn. apply lookup_delete_eq.
    + intros b Hb _. cbn. rewrite lookup_delete_ne by done.
      by rewrite !lookup_insert_ne by done.
    + done.
  - simpl in Hfam. destruct Hfam as [Hold Hfam].
    destruct (tcbs k !! o) as [to|] eqn:Ho; [|done].
    destruct Hfam as (Hpo & Hyo & Hfam).
    assert (o ≠ a) as Hne by (intros ->; apply Hnotin; by left).
    apply NoDup_cons in Hnd as [Hol Hnd].
    eexists. split; [|split; [|split; [|split]]].
    + unfold destroy_thread. pstep. cbn [mbind outcome_bind].
      rewrite Hold, Hy, Hproc. do 5 pstep. cbn [mbind outcome_bind].
      rewrite Hold. reflexivity.
    + cbn. by rewrite Hold.
    + cbn. apply lookup_delete_eq.
    + intros b Hb Hbl. cbn. rewrite lookup_delete_ne by done.
      rewrite !lookup_insert_ne; try done.
      intros ->. apply Hbl. by left.
    + rewrite Hold. cbn [thread_family tcbs with_tcbs with_pcbs].
      split; [done|]. rewrite lookup_delete_ne by done.
      rewrite !lookup_insert_ne by done. rewrite lookup_insert_eq.
      cbn. split; [done|]. split; [done|].
      eapply thread_family_ext; [|exact Hfam].
      intros b tb Hb Htb. exists tb. split; [|done].
      assert (b ≠ a) by (intros ->; apply Hnotin; by right).
      assert (b ≠ o) by (intros ->; by apply Hol).
      rewrite lookup_delete_ne by done. by rewrite !lookup_insert_ne by done.
Qed.

Lemma with_youngest_thread_id pr :
  youngest_thread pr = None → with_youngest_thread pr None = pr.
Proof. destruct pr. simpl. by intros ->. Qed.

Lemma destroy_threads_spec p l :
  ∀ fuel k pr,
    pcbs k !! p = Some pr →
    thread_family (tcbs k) p None (youngest_thread pr) l → NoDup l →
    (length l ≤ fuel)%nat →
    ∃ k',
      destroy_threads fuel p k = Ret k' ∧
      pcbs k' = <[p := with_youngest_thread pr None]> (pcbs k) ∧
      (∀ a, a ∈ l → tcbs k' !! a = None) ∧
      (∀ b, b ∉ l → tcbs k' !! b = tcbs k !! b).
Proof.
  induction l as [|a l IH]; intros fuel k pr Hp Hfam Hnd Hfuel.
  - simpl in Hfam. exists k. split; [|split; [|split; [|done]]].
    + destruct fuel; cbn [destroy_threads]; pstep; cbn [mbind outcome_bind];
        by rewrite Hfam.
    + rewrite with_youngest_thread_id by done. symmetry. by apply insert_id.
    + by intros a ?%not_elem_of_nil.
  - destruct fuel as [|fuel]; [simpl in Hfuel; lia|].
    simpl in Hfam. destruct Hfam as [Hy Hfam].
    destruct (tcbs k !! a) as [ta|] eqn:Ha; [|done].
    destruct Hfam as (Hproc & Hyoung & Hfam).
    apply NoDup_cons in Hnd as [Hal Hnd].
    destruct (destroy_thread_youngest k p pr a ta l Hp Ha Hproc Hyoung Hfam Hal Hnd)
      as (k1 & Hd & Hp1 & Ha1 & Hframe & Hfam1).
    destruct (IH fuel k1 (with_youngest_thread pr (older_sibling ta)))
      as (k' & Hrun & Hp' & Hgone & Hkeep).
    { rewrite Hp1. apply lookup_insert_eq. }
    { done. }
    { done. }
    { simpl in Hfuel. lia. }
    exists k'. split; [|split; [|split]].
    + cbn [destroy_threads]. pstep. cbn [mbind outcome_bind]. rewrite Hy.
      rewrite Hd. cbn [mbind outcome_bind]. exact Hrun.
    + rewrite Hp', Hp1. by rewrite insert_insert_eq.
    + intros b [->|Hb]%elem_of_cons; [|by apply Hgone].
      destruct (decide (a ∈ l)) as [Hbl|Hbl]; [by apply Hgone|].
      by rewrite Hkeep.
    + intros b Hb. apply not_elem_of_cons in Hb as [Hba Hbl].
      rewrite Hkeep by done. by apply Hframe.
Qed.

(** X27.  The loop of [destroy_process] over the threads, as far as
    the blocks of the threads and of the processes go (the hash table
    of the threads and its lock are not part of the state).  When the
    threads of a process are linked from [youngest_thread] through
    [older_sibling], each knowing its process and its younger
    neighbour, the loop makes one call of [destroy_thread] for each of
    them and stops: each of these threads is freed, [youngest_thread]
    is left as [NULL], and no other thread block and no other process
    is changed. *)
Theorem destroy_threads_frees k p pr l fuel :
  pcbs k !! p = Some pr →
  thread_family (tcbs k) p None (youngest_thread pr) l → NoDup l →
  (length l ≤ fuel)%nat →
  ∃ k',
    destroy_threads fuel p k = Ret k' ∧
    pcbs k' !! p = Some (with_youngest_thread pr None) ∧
    (∀ q, q ≠ p → pcbs k' !! q = pcbs k !! q) ∧
    (∀ a, a ∈ l → tcbs k' !! a = None) ∧
    (∀ b, b ∉ l → tcbs k' !! b = tcbs k !! b).
Proof.
  intros Hp Hfam Hnd Hfuel.
  destruct (destroy_threads_spec p l fuel k pr Hp Hfam Hnd Hfuel)
    as (k' & Hrun & Hp' & Hgone & Hkeep).
  exists k'. split; [done|]. rewrite Hp'.
  split; [apply lookup_insert_eq|]. split; [|done].
  intros q Hq. by rewrite lookup_insert_ne.
Qed.

Lemma destroy_threads_frees_witness :
  ∃ k', destroy_threads 2 2 kernel_family = Ret k' ∧
        (youngest_thread <$> pcbs k' !! 2%nat) = Some None ∧
        tcbs k' !! 5%nat = None ∧ tcbs k' !! 6%nat = None ∧
        tcbs k' !! 1%nat = tcbs kernel_family !! 1%nat.
Proof.
  destruct (destroy_threads_frees kernel_family 2%nat _ [5; 6]%nat 2 eq_refl)
    as (k' & Hrun & Hp & _ & Hgone & Hkeep).
  - apply (bool_decide_unpack _). vm_compute. exact I.
  - apply (bool_decide_unpack _). vm_compute. exact I.
  - simpl. lia.
  - exists k'. split; [exact Hrun|]. split; [by rewrite Hp|].
    split; [apply Hgone; by left|]. split; [apply Hgone; right; by left|].
    apply Hkeep. apply (bool_decide_unpack _). vm_compute. exact I.
Defined.

(** ** [vanish_process] *)

Lemma process_set_alter q f k :
  is_Some (pcbs k !! q) →
  process_set q f k = Ret (with_pcbs k (alter f q (pcbs k))).
Proof.
  intros [pq Hq]. rewrite (process_set_Ret _ _ _ _ Hq). do 2 f_equal.
  apply map_eq. intros c. rewrite lookup_alter.
  destruct (decide (q = c)) as [<-|Hne].
  - by rewrite lookup_insert_eq, Hq.
  - by rewrite lookup_insert_ne.
Qed.

Lemma with_pcbs_with_pcbs k a b : with_pcbs (with_pcbs k a) b = with_pcbs k b.
Proof. done. Qed.

(** An assignment to one field leaves the other fields of every
    process as they are. *)
Lemma field_alter {A} (g : process_t → A) f q (m : gmap nat process_t) c :
  (∀ x, g (f x) = g x) → g <$> alter f q m !! c = g <$> m !! c.
Proof.
  intros Hg. rewrite lookup_alter. destruct (decide (q = c)) as [<-|]; [|done].
  destruct (m !! q); simpl; [|done]. by rewrite Hg.
Qed.

Lemma sibling_chain_ext m m' c l :
  (∀ a, a ∈ l → p_older_sibling <$> m' !! a = p_older_sibling <$> m !! a) →
  sibling_chain m c l → sibling_chain m' c l.
Proof.
  revert c. induction l as [|a l IH]; intros c Hext; simpl; [done|].
  intros [-> Ha]. split; [done|].
  specialize (Hext a) as Hxa.
  destruct (m !! a) as [pa|]; [|done].
  destruct (m' !! a) as [pa'|]; simpl in Hxa; [|by discriminate Hxa; left].
  assert (p_older_sibling pa' = p_older_sibling pa) as ->.
  { assert (a ∈ a :: l) as Hin by (by left). specialize (Hxa Hin). congruence. }
  apply IH; [|done]. intros b Hb. apply Hext. by right.
Qed.

(** The chain of the children [l] is put in front of the chain [li]. *)
Lemma sibling_chain_splice m l :
  ∀ c lst c2 li,
    sibling_chain m c l → last l = Some lst →
    NoDup (l ++ li) → sibling_chain m c2 li →
    sibling_chain (alter (λ x, with_p_older_sibling x c2) lst m) c (l ++ li).
Proof.
  induction l as [|a l IH]; intros c lst c2 li Hc Hlast Hnd Hli; [done|].
  simpl in Hc. destruct Hc as [-> Hc].
  destruct (m !! a) as [pa|] eqn:Ha; [|done].
  rewrite <- app_comm_cons in Hnd. apply NoDup_cons in Hnd as [Hal Hnd].
  destruct l as [|b l].
  - injection Hlast as <-. simpl in Hc. cbn [app sibling_chain].
    split; [done|]. rewrite lookup_alter_eq, Ha. cbn.
    eapply sibling_chain_ext; [|exact Hli].
    intros x Hx. rewrite lookup_alter_ne; [done|]. intros ->. by apply Hal.
  - rewrite last_cons_cons in Hlast.
    assert (lst ≠ a) as Hne.
    { intros ->. apply Hal. apply elem_of_app. left.
      by eapply last_Some_elem_of. }
    cbn [app sibling_chain]. split; [done|].
    rewrite lookup_alter_ne by done. rewrite Ha.
    by apply (IH (p_older_sibling pa) lst c2 li).
Qed.

Lemma sibling_chain_elem m c l a :
  sibling_chain m c l → a ∈ l → is_Some (m !! a).
Proof.
  revert c. induction l as [|b l IH]; intros c Hc Ha; [by apply not_elem_of_nil in Ha|].
  simpl in Hc. destruct Hc as [_ Hc].
  destruct (m !! b) as [pb|] eqn:Hb; [|done].
  apply elem_of_cons in Ha as [->|Ha]; [by rewrite Hb|by eapply IH].
Qed.

Lemma adopt_scan_spec ip l :
  ∀ fuel k last c,
    sibling_chain (pcbs k) c l → NoDup l → (length l ≤ fuel)%nat →
    ∃ m',
      adopt_scan fuel ip last c k = Ret (last_or last l, with_pcbs k m') ∧
      (∀ q, q ∉ l → m' !! q = pcbs k !! q) ∧
      (∀ q, q ∈ l →
         m' !! q = (λ x, with_parent x (Some ip)) <$> pcbs k !! q).
Proof.
  induction l as [|a l IH]; intros fuel k last c Hc Hnd Hfuel.
  - simpl in Hc. subst c. exists (pcbs k). split; [|split; [done|]].
    + destruct fuel; cbn [adopt_scan]; by destruct k.
    + by intros q ?%not_elem_of_nil.
  - destruct fuel as [|fuel]; [simpl in Hfuel; lia|].
    simpl in Hc. destruct Hc as [-> Hc].
    destruct (pcbs k !! a) as [pa|] eqn:Ha; [|done].
    apply NoDup_cons in Hnd as [Hal Hnd].
    set (f := λ x, with_parent x (Some ip)).
    set (k1 := with_pcbs k (alter f a (pcbs k))).
    destruct (IH fuel k1 (Some a) (p_older_sibling pa)) as (m' & Hscan & Hout & Hin).
    { eapply sibling_chain_ext; [|exact Hc].
      intros x Hx. cbn. rewrite lookup_alter_ne; [done|]. intros ->. by apply Hal. }
    { done. }
    { simpl in Hfuel. lia. }
    exists m'. split; [|split].
    + cbn [adopt_scan]. rewrite process_set_alter by (by rewrite Ha).
      cbn [mbind outcome_bind]. fold f. fold k1.
      unfold load_process. cbn [pcbs k1 with_pcbs].
      rewrite lookup_alter_eq, Ha. cbn [fmap option_fmap option_map deref mbind outcome_bind].
      change (p_older_sibling (f pa)) with (p_older_sibling pa).
      rewrite Hscan. by rewrite last_or_cons.
    + intros q Hq. apply not_elem_of_cons in Hq as [Hqa Hql].
      rewrite Hout by done. cbn. by rewrite lookup_alter_ne.
    + intros q [->|Hq]%elem_of_cons.
      * rewrite Hout by done. cbn. by rewrite lookup_alter_eq.
      * rewrite Hin by done. cbn. rewrite lookup_alter_ne; [done|].
        intros ->. by apply Hal.
Qed.

(** X28.  [vanish_process].  With a thread still active the call
    returns [ERR_ACTIVE_THREADS] and changes nothing; without children
    it only marks the process [EXITED].  With children it hands them
    to the process of the init thread: every child has that process as
    its parent, the children come in front of the children the init
    process had, in their order, the counter [children] of the init
    process grows by the one of the vanishing process, and the process
    is marked [EXITED]; no thread is touched. *)
Theorem vanish_process_adoption k p pr fuel init_thread :
  pcbs k !! p = Some pr →
  (threads pr > 0 →
     vanish_process fuel init_thread (Some p) k = Ret (ERR_ACTIVE_THREADS, k)) ∧
  (threads pr ≤ 0 → children pr ≤ 0 →
     vanish_process fuel init_thread (Some p) k =
       Ret (0, with_pcbs k (<[p := with_p_state pr EXITED]> (pcbs k)))) ∧
  (threads pr ≤ 0 → children pr > 0 →
   ∀ it tinit ip pi l li,
     init_thread = Some it → tcbs k !! it = Some tinit →
     process tinit = Some ip → pcbs k !! ip = Some pi → p ≠ ip →
     sibling_chain (pcbs k) (youngest_child pr) l → l ≠ [] →
     sibling_chain (pcbs k) (youngest_child pi) li →
     NoDup (l ++ li) → p ∉ l → ip ∉ l → (length l ≤ fuel)%nat →
     ∃ k',
       vanish_process fuel init_thread (Some p) k = Ret (0, k') ∧
       process_state_of k' p = Some EXITED ∧
       (∀ c, c ∈ l → (parent <$> pcbs k' !! c) = Some (Some ip)) ∧
       (youngest_child <$> pcbs k' !! ip) = Some (youngest_child pr) ∧
       (children <$> pcbs k' !! ip) = Some (u32 (children pi + children pr)) ∧
       sibling_chain (pcbs k') (youngest_child pr) (l ++ li) ∧
       tcbs k' = tcbs k).
Proof.
  intros Hp. split; [|split].
  - intros Hthr. unfold vanish_process. pstep. cbn [mbind outcome_bind].
    by rewrite decide_True.
  - intros Hthr Hch. unfold vanish_process. pstep. cbn [mbind outcome_bind].
    rewrite decide_False by lia. rewrite decide_False by lia.
    pstep. reflexivity.
  - intros Hthr Hch it tinit ip pi l li -> Hit Hproc Hip Hne Hl Hnil Hli Hnd Hpl Hipl Hfuel.
    apply NoDup_app in Hnd as (Hndl & Hdisj & Hndli).
    set (f1 := λ x, with_children x (u32 (children x + children pr))).
    set (m1 := alter f1 ip (pcbs k)).
    assert (sibling_chain m1 (youngest_child pr) l) as Hl1.
    { eapply sibling_chain_ext; [|exact Hl]. intros a _. by apply field_alter. }
    destruct (adopt_scan_spec ip l fuel (with_pcbs k m1) None (youngest_child pr)
                Hl1 Hndl Hfuel) as (m2 & Hscan & Hout & Hin).
    cbn [pcbs with_pcbs] in Hout, Hin.
    destruct (last l) as [lst|] eqn:Hlast; [|by apply last_None in Hlast].
    assert (lst ∈ l) as Hlstl by (by eapply last_Some_elem_of).
    assert (lst ≠ ip) as Hlstip by (intros ->; done).
    rewrite last_or_None, Hlast in Hscan.
    assert (m2 !! ip = Some (f1 pi)) as Hip2.
    { rewrite Hout by done. unfold m1. by rewrite lookup_alter_eq, Hip. }
    set (f3 := λ x, with_p_older_sibling x (youngest_child pi)).
    set (m3 := alter f3 lst m2).
    assert (is_Some (m2 !! lst)) as Hlst2.
    { rewrite Hin by done. apply fmap_is_Some.
      by apply (sibling_chain_elem _ _ _ _ Hl1). }
    assert (m3 !! ip = Some (f1 pi)) as Hip3.
    { unfold m3. by rewrite lookup_alter_ne. }
    set (f4 := λ x, with_p_younger_sibling x (Some lst)).
    set (m4 := match youngest_child pi with
               | Some y => alter f4 y m3
               | None => m3
               end).
    assert (∀ {A} (g : process_t → A) c,
              (∀ x, g (f4 x) = g x) → g <$> m4 !! c = g <$> m3 !! c) as Hm4.
    { intros A g c Hg. unfold m4. destruct (youngest_child pi); [|done].
      by apply field_alter. }
    assert (∀ {A} (g : process_t → A) c, c ∉ l →
              (∀ x, g (f1 x) = g x) → (∀ x, g (f3 x) = g x) →
              (∀ x, g (f4 x) = g x) → g <$> m4 !! c = g <$> pcbs k !! c) as Hfld.
    { intros A g c Hc H1 H3 H4. rewrite Hm4 by done. unfold m3.
      rewrite field_alter by done. rewrite Hout by done. unfold m1.
      by rewrite field_alter. }
    assert (∃ pr4, m4 !! p = Some pr4 ∧ youngest_child pr4 = youngest_child pr)
      as (pr4 & Hp4 & Hyc4).
    { specialize (Hfld _ youngest_child p Hpl (λ _, eq_refl) (λ _, eq_refl)
                    (λ _, eq_refl)).
      rewrite Hp in Hfld.
      destruct (m4 !! p) as [pr4|]; [|done]. exists pr4. split; [done|].
      simpl in Hfld. congruence. }
    assert (∃ pi4, m4 !! ip = Some pi4 ∧
                   children pi4 = u32 (children pi + children pr))
      as (pi4 & Hip4 & Hch4).
    { specialize (Hm4 _ children ip (λ _, eq_refl)). rewrite Hip3 in Hm4.
      destruct (m4 !! ip) as [pi4|]; [|done]. exists pi4. split; [done|].
      simpl in Hm4. congruence. }
    set (f5 := λ x, with_youngest_child x (youngest_child pr4)).
    set (m5 := alter f5 ip m4).
    set (f6 := λ x, with_p_state x EXITED).
    set (m6 := alter f6 p m5).
    assert (m5 !! p = Some pr4) as Hp5.
    { unfold m5. rewrite lookup_alter_ne by done. done. }
    exists (with_pcbs k m6).
    split; [|split; [|split; [|split; [|split; [|split; [|done]]]]]].
    + assert ((match youngest_child pi with
               | Some y => process_set y f4 (with_pcbs k m3)
               | None => Ret (with_pcbs k m3)
               end) = Ret (with_pcbs k m4)) as Hstep4.
      { unfold m4. destruct (youngest_child pi) as [y|] eqn:Hy; [|done].
        rewrite process_set_alter; [done|]. cbn [pcbs with_pcbs].
        unfold m3. rewrite lookup_alter_is_Some.
        assert (y ∈ li) as Hyli.
        { destruct li as [|y' li']; [done|]. destruct Hli as [[= ->] _]. by left. }
        rewrite Hout by (intros Hyl; by apply (Hdisj y Hyl)).
        unfold m1. rewrite lookup_alter_is_Some.
        by apply (sibling_chain_elem _ _ _ _ Hli). }
      unfold vanish_process. pstep. cbn [mbind outcome_bind].
      rewrite decide_False by lia. rewrite decide_True by lia.
      pstep. cbn [mbind outcome_bind]. rewrite Hproc.
      rewrite process_set_alter by (by rewrite Hip).
      cbn [mbind outcome_bind]. fold f1. fold m1.
      rewrite (load_process_Ret (with_pcbs k m1) p pr)
        by (cbn [pcbs with_pcbs]; unfold m1; by rewrite lookup_alter_ne).
      cbn [mbind outcome_bind]. rewrite Hscan. cbn [deref mbind outcome_bind].
      rewrite with_pcbs_with_pcbs.
      rewrite (load_process_Ret (with_pcbs k m2) ip (f1 pi)) by exact Hip2.
      cbn [mbind outcome_bind].
      rewrite process_set_alter by exact Hlst2.
      cbn [mbind outcome_bind pcbs with_pcbs]. rewrite with_pcbs_with_pcbs.
      change (youngest_child (f1 pi)) with (youngest_child pi).
      fold f3. fold m3.
      rewrite (load_process_Ret (with_pcbs k m3) ip (f1 pi)) by exact Hip3.
      cbn [mbind outcome_bind].
      change (youngest_child (f1 pi)) with (youngest_child pi).
      fold f4. rewrite Hstep4. cbn [mbind outcome_bind pcbs with_pcbs].
      rewrite (load_process_Ret (with_pcbs k m4) p pr4) by exact Hp4.
      cbn [deref mbind outcome_bind].
      rewrite process_set_alter by (cbn [pcbs with_pcbs]; by rewrite Hip4).
      cbn [mbind outcome_bind pcbs with_pcbs]. rewrite with_pcbs_with_pcbs.
      fold f5. fold m5.
      rewrite process_set_alter by (cbn [pcbs with_pcbs]; by rewrite Hp5).
      cbn [mbind outcome_bind pcbs with_pcbs]. by rewrite with_pcbs_with_pcbs.
    + unfold process_state_of. cbn [pcbs with_pcbs]. unfold m6.
      by rewrite lookup_alter_eq, Hp5.
    + intros c Hc. cbn [pcbs with_pcbs]. unfold m6, m5.
      rewrite !field_alter by done. rewrite Hm4 by done. unfold m3.
      rewrite field_alter by done. rewrite Hin by done.
      destruct (sibling_chain_elem _ _ _ _ Hl1 Hc) as [pc ->]. done.
    + cbn [pcbs with_pcbs]. unfold m6. rewrite field_alter by done.
      unfold m5. rewrite lookup_alter_eq, Hip4. cbn. by rewrite Hyc4.
    + cbn [pcbs with_pcbs]. unfold m6, m5. rewrite !field_alter by done.
      rewrite Hip4. cbn. by rewrite Hch4.
    + cbn [pcbs with_pcbs].
      apply (sibling_chain_ext m3).
      { intros a _. unfold m6, m5. rewrite !field_alter by done.
        by apply Hm4. }
      unfold m3, f3. apply sibling_chain_splice; try done.
      * eapply sibling_chain_ext; [|exact Hl1].
        intros a Ha. rewrite Hin by done. by destruct (m1 !! a).
      * by apply NoDup_app.
      * eapply sibling_chain_ext; [|exact Hli].
        intros a Ha. rewrite Hout by (intros Hal; by apply (Hdisj a Hal)).
        unfold m1. by apply field_alter.
Qed.

Lemma vanish_process_adoption_witness :
  ∃ k', vanish_process 1 (Some 1%nat) (Some 2%nat) kernel_orphans = Ret (0, k') ∧
        process_state_of k' 2 = Some EXITED ∧
        (parent <$> pcbs k' !! 3%nat) = Some (Some 1%nat) ∧
        (children <$> pcbs k' !! 1%nat) = Some 2 ∧
        sibling_chain (pcbs k') (Some 3%nat) [3; 2]%nat.
Proof.
  destruct (proj2 (proj2 (vanish_process_adoption kernel_orphans 2%nat _ 1
                            (Some 1%nat) eq_refl)))
    with (it := 1%nat) (ip := 1%nat) (l := [3%nat]) (li := [2%nat])
         (tinit := example_thread 32 THR_RUNNING L_running None None 0)
         (pi := example_process 1 None (Some 2%nat) None 1 1)
    as (k' & Hrun & Hst & Hpar & _ & Hch & Hchain & _).
  - simpl. lia.
  - simpl. lia.
  - reflexivity.
  - reflexivity.
  - reflexivity.
  - reflexivity.
  - discriminate.
  - apply (bool_decide_unpack _). vm_compute. exact I.
  - discriminate.
  - apply (bool_decide_unpack _). vm_compute. exact I.
  - apply (bool_decide_unpack _). vm_compute. exact I.
  - apply (bool_decide_unpack _). vm_compute. exact I.
  - apply (bool_decide_unpack _). vm_compute. exact I.
  - simpl. lia.
  - exists k'. split; [exact Hrun|]. split; [exact Hst|].
    split; [apply Hpar; by left|]. split; [exact Hch|exact Hchain].
Defined.

(** * [destroy_paging] *)

Lemma occurrences_cons x y l :
  occurrences x (y :: l) = (if decide (y = x) then 1 else 0) + occurrences x l.
Proof. unfold occurrences. rewrite filter_cons. case_decide; simpl; lia. Qed.


Lemma occurrences_nonneg x l : 0 ≤ occurrences x l.
Proof. unfold occurrences. lia. Qed.

Lemma occurrences_elem x l : x ∈ l → 1 ≤ occurrences x l.
Proof.
  induction l as [|y l IH]; [by intros ?%not_elem_of_nil|].
  rewrite occurrences_cons. pose proof (occurrences_nonneg x l).
  intros [->|Hx]%elem_of_cons; [by rewrite decide_True by done; lia|].
  specialize (IH Hx). case_decide; lia.
Qed.

Lemma occurrences_not_elem x l : x ∉ l → occurrences x l = 0.
Proof.
  induction l as [|y l IH]; [done|]. rewrite occurrences_cons.
  intros [Hne Hx]%not_elem_of_cons. rewrite decide_False by done.
  rewrite IH by done. lia.
Qed.

Section DestroyPaging.
Context `{Platform}.













End DestroyPaging.

(** * [destroy_process] *)









Section DestroyProcess.
Context `{Platform}.


End DestroyProcess.

(** * [wait] *)


Section Wait.
Context `{Platform}.



End Wait.

